(** * Static filtering parser: slices, spans and line analysis

    A shallow embedding of [src/js/static-filtering-parser.js].  A line of
    filter text is decomposed into slices, triplets of integers stored flat
    in one array; the analysis then works on the slices and fills in the
    named spans.  The embedding keeps the flat array, the write pointer and
    the reuse of the array from one line to the next. *)

From Stdlib Require Import String Ascii ZArith List Bool Lia.
Import ListNotations.
Local Open Scope Z_scope.

(** ** Integers and bit vectors

    Bit vectors are the 32-bit signed integers of the JavaScript bitwise
    operators, held in [Z]: [1 << 31] is negative, and [|], [&], [~] are
    [Z.lor], [Z.land], [Z.lnot], which stay within the 32-bit range. *)

Definition toInt32 (x : Z) : Z := (x + 2147483648) mod 4294967296 - 2147483648.

Definition shl (a n : Z) : Z := toInt32 (Z.shiftl a n).

Notation "a .| b" := (Z.lor a b) (at level 50, left associativity).
Notation "a .& b" := (Z.land a b) (at level 40, left associativity).

Definition hasNoBits (v bits : Z) : bool := (v .& bits) =? 0.
Definition hasBits (v bits : Z) : bool := negb ((v .& bits) =? 0).
Definition hasNotAllBits (v bits : Z) : bool := negb ((v .& bits) =? bits).

(** ** Categories and character-class bits *)

Definition CATNone : Z := 0.
Definition CATStaticExtFilter : Z := 1.
Definition CATStaticNetFilter : Z := 2.
Definition CATComment : Z := 3.

Definition BITSpace : Z := shl 1 0.
Definition BITGlyph : Z := shl 1 1.
Definition BITExclamation : Z := shl 1 2.
Definition BITHash : Z := shl 1 3.
Definition BITDollar : Z := shl 1 4.
Definition BITPercent : Z := shl 1 5.
Definition BITParen : Z := shl 1 6.
Definition BITAsterisk : Z := shl 1 7.
Definition BITPlus : Z := shl 1 8.
Definition BITComma : Z := shl 1 9.
Definition BITDash : Z := shl 1 10.
Definition BITPeriod : Z := shl 1 11.
Definition BITSlash : Z := shl 1 12.
Definition BITNum : Z := shl 1 13.
Definition BITEqual : Z := shl 1 14.
Definition BITQuestion : Z := shl 1 15.
Definition BITAt : Z := shl 1 16.
Definition BITAlpha : Z := shl 1 17.
Definition BITUppercase : Z := shl 1 18.
Definition BITSquareBracket : Z := shl 1 19.
Definition BITBackslash : Z := shl 1 20.
Definition BITCaret : Z := shl 1 21.
Definition BITUnderscore : Z := shl 1 22.
Definition BITBrace : Z := shl 1 23.
Definition BITPipe : Z := shl 1 24.
Definition BITTilde : Z := shl 1 25.
Definition BITOpening : Z := shl 1 27.
Definition BITClosing : Z := shl 1 28.
Definition BITUnicode : Z := shl 1 29.
Definition BITIgnore : Z := shl 1 30.
Definition BITError : Z := shl 1 31.

Definition BITAlphaNum : Z := BITNum .| BITAlpha.
Definition BITRegexWord : Z := BITAlphaNum .| BITUnderscore.
Definition BITHostname : Z :=
  BITNum .| BITAlpha .| BITUppercase .| BITDash .| BITPeriod .| BITUnderscore .| BITUnicode.
Definition BITPatternToken : Z := BITNum .| BITAlpha .| BITPercent.
Definition BITLineComment : Z := BITExclamation .| BITHash .| BITSquareBracket.

Definition charDescBits : list Z := [
  (* 0x00 - 0x08 *) 0; 0; 0; 0; 0; 0; 0; 0; 0;
  (* 0x09 *) BITSpace;
  (* 0x0A *) BITSpace;
  (* 0x0B - 0x0C *) 0; 0;
  (* 0x0D *) BITSpace;
  (* 0x0E - 0x0F *) 0; 0;
  (* 0x10 - 0x1F *) 0; 0; 0; 0; 0; 0; 0; 0; 0; 0; 0; 0; 0; 0; 0; 0;
  (* 0x20 *) BITSpace;
  (* 0x21 *) BITExclamation;
  (* 0x22 *) BITGlyph;
  (* 0x23 *) BITHash;
  (* 0x24 *) BITDollar;
  (* 0x25 *) BITPercent;
  (* 0x26 *) BITGlyph;
  (* 0x27 *) BITGlyph;
  (* 0x28 *) BITParen .| BITOpening;
  (* 0x29 *) BITParen .| BITClosing;
  (* 0x2A *) BITAsterisk;
  (* 0x2B *) BITPlus;
  (* 0x2C *) BITComma;
  (* 0x2D *) BITDash;
  (* 0x2E *) BITPeriod;
  (* 0x2F *) BITSlash;
  (* 0x30 *) BITNum;
  (* 0x31 *) BITNum;
  (* 0x32 *) BITNum;
  (* 0x33 *) BITNum;
  (* 0x34 *) BITNum;
  (* 0x35 *) BITNum;
  (* 0x36 *) BITNum;
  (* 0x37 *) BITNum;
  (* 0x38 *) BITNum;
  (* 0x39 *) BITNum;
  (* 0x3A *) BITGlyph;
  (* 0x3B *) BITGlyph;
  (* 0x3C *) BITGlyph;
  (* 0x3D *) BITEqual;
  (* 0x3E *) BITGlyph;
  (* 0x3F *) BITQuestion;
  (* 0x40 *) BITAt;
  (* 0x41 *) BITAlpha .| BITUppercase;
  (* 0x42 *) BITAlpha .| BITUppercase;
  (* 0x43 *) BITAlpha .| BITUppercase;
  (* 0x44 *) BITAlpha .| BITUppercase;
  (* 0x45 *) BITAlpha .| BITUppercase;
  (* 0x46 *) BITAlpha .| BITUppercase;
  (* 0x47 *) BITAlpha .| BITUppercase;
  (* 0x48 *) BITAlpha .| BITUppercase;
  (* 0x49 *) BITAlpha .| BITUppercase;
  (* 0x4A *) BITAlpha .| BITUppercase;
  (* 0x4B *) BITAlpha .| BITUppercase;
  (* 0x4C *) BITAlpha .| BITUppercase;
  (* 0x4D *) BITAlpha .| BITUppercase;
  (* 0x4E *) BITAlpha .| BITUppercase;
  (* 0x4F *) BITAlpha .| BITUppercase;
  (* 0x50 *) BITAlpha .| BITUppercase;
  (* 0x51 *) BITAlpha .| BITUppercase;
  (* 0x52 *) BITAlpha .| BITUppercase;
  (* 0x53 *) BITAlpha .| BITUppercase;
  (* 0x54 *) BITAlpha .| BITUppercase;
  (* 0x55 *) BITAlpha .| BITUppercase;
  (* 0x56 *) BITAlpha .| BITUppercase;
  (* 0x57 *) BITAlpha .| BITUppercase;
  (* 0x58 *) BITAlpha .| BITUppercase;
  (* 0x59 *) BITAlpha .| BITUppercase;
  (* 0x5A *) BITAlpha .| BITUppercase;
  (* 0x5B *) BITSquareBracket .| BITOpening;
  (* 0x5C *) BITBackslash;
  (* 0x5D *) BITSquareBracket .| BITClosing;
  (* 0x5E *) BITCaret;
  (* 0x5F *) BITUnderscore;
  (* 0x60 *) BITGlyph;
  (* 0x61 *) BITAlpha;
  (* 0x62 *) BITAlpha;
  (* 0x63 *) BITAlpha;
  (* 0x64 *) BITAlpha;
  (* 0x65 *) BITAlpha;
  (* 0x66 *) BITAlpha;
  (* 0x67 *) BITAlpha;
  (* 0x68 *) BITAlpha;
  (* 0x69 *) BITAlpha;
  (* 0x6A *) BITAlpha;
  (* 0x6B *) BITAlpha;
  (* 0x6C *) BITAlpha;
  (* 0x6D *) BITAlpha;
  (* 0x6E *) BITAlpha;
  (* 0x6F *) BITAlpha;
  (* 0x70 *) BITAlpha;
  (* 0x71 *) BITAlpha;
  (* 0x72 *) BITAlpha;
  (* 0x73 *) BITAlpha;
  (* 0x74 *) BITAlpha;
  (* 0x75 *) BITAlpha;
  (* 0x76 *) BITAlpha;
  (* 0x77 *) BITAlpha;
  (* 0x78 *) BITAlpha;
  (* 0x79 *) BITAlpha;
  (* 0x7A *) BITAlpha;
  (* 0x7B *) BITBrace .| BITOpening;
  (* 0x7C *) BITPipe;
  (* 0x7D *) BITBrace .| BITClosing;
  (* 0x7E *) BITTilde;
  (* 0x7F *) 0
].

(** All unicode characters are allowed in hostname. *)
Definition unicodeBits : Z := BITUnicode .| BITAlpha.

(** [c < 0x80 ? charDescBits[c] : unicodeBits] *)
Definition charBits (c : Z) : Z :=
  if c <? 128 then nth (Z.to_nat c) charDescBits 0 else unicodeBits.

Definition BITFlavorException : Z := shl 1 0.
Definition BITFlavorNetRegex : Z := shl 1 1.
Definition BITFlavorNetLeftURLAnchor : Z := shl 1 2.
Definition BITFlavorNetRightURLAnchor : Z := shl 1 3.
Definition BITFlavorNetLeftHnAnchor : Z := shl 1 4.
Definition BITFlavorNetRightHnAnchor : Z := shl 1 5.
Definition BITFlavorNetSpaceInPattern : Z := shl 1 6.
Definition BITFlavorExtStyle : Z := shl 1 7.
Definition BITFlavorExtStrong : Z := shl 1 8.
Definition BITFlavorExtCosmetic : Z := shl 1 9.
Definition BITFlavorExtScriptlet : Z := shl 1 10.
Definition BITFlavorExtHTML : Z := shl 1 11.
Definition BITFlavorIgnore : Z := shl 1 29.
Definition BITFlavorUnsupported : Z := shl 1 30.
Definition BITFlavorError : Z := shl 1 31.

Definition BITFlavorNetLeftAnchor : Z := BITFlavorNetLeftURLAnchor .| BITFlavorNetLeftHnAnchor.
Definition BITFlavorNetRightAnchor : Z := BITFlavorNetRightURLAnchor .| BITFlavorNetRightHnAnchor.
Definition BITFlavorNetHnAnchor : Z := BITFlavorNetLeftHnAnchor .| BITFlavorNetRightHnAnchor.
Definition BITFlavorNetAnchor : Z := BITFlavorNetLeftAnchor .| BITFlavorNetRightAnchor.

(** ** Strings and arrays

    A string is the list of its code units ([charCodeAt]).  The slice array
    is a JavaScript array of integers: reading a cell that was never written
    gives [undefined], which the bit tests of the parser treat as 0; writing
    at the length of the array extends it. *)

Definition codes (s : string) : list Z :=
  map (fun c => Z.of_nat (nat_of_ascii c)) (list_ascii_of_string s).

(** [String.prototype.slice(b, e)] *)
Definition js_slice (s : list Z) (b e : Z) : list Z :=
  let len := Z.of_nat (length s) in
  let from := if b <? 0 then Z.max (len + b) 0 else Z.min b len in
  let to := if e <? 0 then Z.max (len + e) 0 else Z.min e len in
  firstn (Z.to_nat (to - from)) (skipn (Z.to_nat from) s).

Definition aget (a : list Z) (k : Z) : Z :=
  if k <? 0 then 0 else nth (Z.to_nat k) a 0.

Definition aset (a : list Z) (k v : Z) : list Z :=
  if k <? 0 then a
  else
    let n := Z.to_nat k in
    if (n <? length a)%nat then firstn n a ++ v :: skipn (S n) a
    else a ++ repeat 0 (n - length a) ++ [v].

(** [Array.prototype.copyWithin(target, start, end)] *)
Definition copyWithin (a : list Z) (target start end_ : Z) : list Z :=
  let len := Z.of_nat (length a) in
  let rel x := if x <? 0 then Z.max (len + x) 0 else Z.min x len in
  let to := rel target in
  let from := rel start in
  let final := rel end_ in
  let count := Z.min (final - from) (len - to) in
  if count <=? 0 then a
  else
    firstn (Z.to_nat to) a
      ++ firstn (Z.to_nat count) (skipn (Z.to_nat from) a)
      ++ skipn (Z.to_nat (to + count)) a.

(** ** Spans and the parser object *)

Module Span.
Record t : Type := mk { i : Z; l : Z }.
Definition reset : t := mk 0 0.
Definition set_i (v : Z) (s : t) : t := mk v (l s).
Definition set_l (v : Z) (s : t) : t := mk (i s) v.
End Span.

(** The fields of the parser.  [punycoder] stands for the host's URL object
    ([None] when setting the hostname throws) and [compileSelector] for the
    selector compiler, which relies on the host's CSS engine; it is given the
    selector text and the flavor bits and tells whether compilation
    succeeded.  The [result] object filled by the selector compiler is left
    out. *)
Record Parser : Type := mkParser {
  interactive : bool;
  raw : list Z;
  slices : list Z;
  leftSpaceSpan : Span.t;
  exceptionSpan : Span.t;
  patternLeftAnchorSpan : Span.t;
  patternSpan : Span.t;
  patternRightAnchorSpan : Span.t;
  optionsAnchorSpan : Span.t;
  optionsSpan : Span.t;
  commentSpan : Span.t;
  rightSpaceSpan : Span.t;
  eolSpan : Span.t;
  maxTokenLength : Z;
  punycoder : list Z -> option (list Z);
  compileSelector : list Z -> Z -> bool;
  sliceWritePtr : Z;
  category : Z;
  allBits : Z;
  patternBits : Z;
  optionsBits : Z;
  flavorBits : Z;
  pattern : list Z
}.

Definition set_raw (v : list Z) (p : Parser) : Parser :=
  mkParser (interactive p) v (slices p) (leftSpaceSpan p) (exceptionSpan p) (patternLeftAnchorSpan p) (patternSpan p) (patternRightAnchorSpan p) (optionsAnchorSpan p) (optionsSpan p) (commentSpan p) (rightSpaceSpan p) (eolSpan p) (maxTokenLength p) (punycoder p) (compileSelector p) (sliceWritePtr p) (category p) (allBits p) (patternBits p) (optionsBits p) (flavorBits p) (pattern p).

Definition set_slices (v : list Z) (p : Parser) : Parser :=
  mkParser (interactive p) (raw p) v (leftSpaceSpan p) (exceptionSpan p) (patternLeftAnchorSpan p) (patternSpan p) (patternRightAnchorSpan p) (optionsAnchorSpan p) (optionsSpan p) (commentSpan p) (rightSpaceSpan p) (eolSpan p) (maxTokenLength p) (punycoder p) (compileSelector p) (sliceWritePtr p) (category p) (allBits p) (patternBits p) (optionsBits p) (flavorBits p) (pattern p).

Definition set_leftSpaceSpan (v : Span.t) (p : Parser) : Parser :=
  mkParser (interactive p) (raw p) (slices p) v (exceptionSpan p) (patternLeftAnchorSpan p) (patternSpan p) (patternRightAnchorSpan p) (optionsAnchorSpan p) (optionsSpan p) (commentSpan p) (rightSpaceSpan p) (eolSpan p) (maxTokenLength p) (punycoder p) (compileSelector p) (sliceWritePtr p) (category p) (allBits p) (patternBits p) (optionsBits p) (flavorBits p) (pattern p).

Definition set_exceptionSpan (v : Span.t) (p : Parser) : Parser :=
  mkParser (interactive p) (raw p) (slices p) (leftSpaceSpan p) v (patternLeftAnchorSpan p) (patternSpan p) (patternRightAnchorSpan p) (optionsAnchorSpan p) (optionsSpan p) (commentSpan p) (rightSpaceSpan p) (eolSpan p) (maxTokenLength p) (punycoder p) (compileSelector p) (sliceWritePtr p) (category p) (allBits p) (patternBits p) (optionsBits p) (flavorBits p) (pattern p).

Definition set_patternLeftAnchorSpan (v : Span.t) (p : Parser) : Parser :=
  mkParser (interactive p) (raw p) (slices p) (leftSpaceSpan p) (exceptionSpan p) v (patternSpan p) (patternRightAnchorSpan p) (optionsAnchorSpan p) (optionsSpan p) (commentSpan p) (rightSpaceSpan p) (eolSpan p) (maxTokenLength p) (punycoder p) (compileSelector p) (sliceWritePtr p) (category p) (allBits p) (patternBits p) (optionsBits p) (flavorBits p) (pattern p).

Definition set_patternSpan (v : Span.t) (p : Parser) : Parser :=
  mkParser (interactive p) (raw p) (slices p) (leftSpaceSpan p) (exceptionSpan p) (patternLeftAnchorSpan p) v (patternRightAnchorSpan p) (optionsAnchorSpan p) (optionsSpan p) (commentSpan p) (rightSpaceSpan p) (eolSpan p) (maxTokenLength p) (punycoder p) (compileSelector p) (sliceWritePtr p) (category p) (allBits p) (patternBits p) (optionsBits p) (flavorBits p) (pattern p).

Definition set_patternRightAnchorSpan (v : Span.t) (p : Parser) : Parser :=
  mkParser (interactive p) (raw p) (slices p) (leftSpaceSpan p) (exceptionSpan p) (patternLeftAnchorSpan p) (patternSpan p) v (optionsAnchorSpan p) (optionsSpan p) (commentSpan p) (rightSpaceSpan p) (eolSpan p) (maxTokenLength p) (punycoder p) (compileSelector p) (sliceWritePtr p) (category p) (allBits p) (patternBits p) (optionsBits p) (flavorBits p) (pattern p).

Definition set_optionsAnchorSpan (v : Span.t) (p : Parser) : Parser :=
  mkParser (interactive p) (raw p) (slices p) (leftSpaceSpan p) (exceptionSpan p) (patternLeftAnchorSpan p) (patternSpan p) (patternRightAnchorSpan p) v (optionsSpan p) (commentSpan p) (rightSpaceSpan p) (eolSpan p) (maxTokenLength p) (punycoder p) (compileSelector p) (sliceWritePtr p) (category p) (allBits p) (patternBits p) (optionsBits p) (flavorBits p) (pattern p).

Definition set_optionsSpan (v : Span.t) (p : Parser) : Parser :=
  mkParser (interactive p) (raw p) (slices p) (leftSpaceSpan p) (exceptionSpan p) (patternLeftAnchorSpan p) (patternSpan p) (patternRightAnchorSpan p) (optionsAnchorSpan p) v (commentSpan p) (rightSpaceSpan p) (eolSpan p) (maxTokenLength p) (punycoder p) (compileSelector p) (sliceWritePtr p) (category p) (allBits p) (patternBits p) (optionsBits p) (flavorBits p) (pattern p).

Definition set_commentSpan (v : Span.t) (p : Parser) : Parser :=
  mkParser (interactive p) (raw p) (slices p) (leftSpaceSpan p) (exceptionSpan p) (patternLeftAnchorSpan p) (patternSpan p) (patternRightAnchorSpan p) (optionsAnchorSpan p) (optionsSpan p) v (rightSpaceSpan p) (eolSpan p) (maxTokenLength p) (punycoder p) (compileSelector p) (sliceWritePtr p) (category p) (allBits p) (patternBits p) (optionsBits p) (flavorBits p) (pattern p).

Definition set_rightSpaceSpan (v : Span.t) (p : Parser) : Parser :=
  mkParser (interactive p) (raw p) (slices p) (leftSpaceSpan p) (exceptionSpan p) (patternLeftAnchorSpan p) (patternSpan p) (patternRightAnchorSpan p) (optionsAnchorSpan p) (optionsSpan p) (commentSpan p) v (eolSpan p) (maxTokenLength p) (punycoder p) (compileSelector p) (sliceWritePtr p) (category p) (allBits p) (patternBits p) (optionsBits p) (flavorBits p) (pattern p).

Definition set_eolSpan (v : Span.t) (p : Parser) : Parser :=
  mkParser (interactive p) (raw p) (slices p) (leftSpaceSpan p) (exceptionSpan p) (patternLeftAnchorSpan p) (patternSpan p) (patternRightAnchorSpan p) (optionsAnchorSpan p) (optionsSpan p) (commentSpan p) (rightSpaceSpan p) v (maxTokenLength p) (punycoder p) (compileSelector p) (sliceWritePtr p) (category p) (allBits p) (patternBits p) (optionsBits p) (flavorBits p) (pattern p).

Definition set_maxTokenLength (v : Z) (p : Parser) : Parser :=
  mkParser (interactive p) (raw p) (slices p) (leftSpaceSpan p) (exceptionSpan p) (patternLeftAnchorSpan p) (patternSpan p) (patternRightAnchorSpan p) (optionsAnchorSpan p) (optionsSpan p) (commentSpan p) (rightSpaceSpan p) (eolSpan p) v (punycoder p) (compileSelector p) (sliceWritePtr p) (category p) (allBits p) (patternBits p) (optionsBits p) (flavorBits p) (pattern p).

Definition set_sliceWritePtr (v : Z) (p : Parser) : Parser :=
  mkParser (interactive p) (raw p) (slices p) (leftSpaceSpan p) (exceptionSpan p) (patternLeftAnchorSpan p) (patternSpan p) (patternRightAnchorSpan p) (optionsAnchorSpan p) (optionsSpan p) (commentSpan p) (rightSpaceSpan p) (eolSpan p) (maxTokenLength p) (punycoder p) (compileSelector p) v (category p) (allBits p) (patternBits p) (optionsBits p) (flavorBits p) (pattern p).

Definition set_category (v : Z) (p : Parser) : Parser :=
  mkParser (interactive p) (raw p) (slices p) (leftSpaceSpan p) (exceptionSpan p) (patternLeftAnchorSpan p) (patternSpan p) (patternRightAnchorSpan p) (optionsAnchorSpan p) (optionsSpan p) (commentSpan p) (rightSpaceSpan p) (eolSpan p) (maxTokenLength p) (punycoder p) (compileSelector p) (sliceWritePtr p) v (allBits p) (patternBits p) (optionsBits p) (flavorBits p) (pattern p).

Definition set_allBits (v : Z) (p : Parser) : Parser :=
  mkParser (interactive p) (raw p) (slices p) (leftSpaceSpan p) (exceptionSpan p) (patternLeftAnchorSpan p) (patternSpan p) (patternRightAnchorSpan p) (optionsAnchorSpan p) (optionsSpan p) (commentSpan p) (rightSpaceSpan p) (eolSpan p) (maxTokenLength p) (punycoder p) (compileSelector p) (sliceWritePtr p) (category p) v (patternBits p) (optionsBits p) (flavorBits p) (pattern p).

Definition set_patternBits (v : Z) (p : Parser) : Parser :=
  mkParser (interactive p) (raw p) (slices p) (leftSpaceSpan p) (exceptionSpan p) (patternLeftAnchorSpan p) (patternSpan p) (patternRightAnchorSpan p) (optionsAnchorSpan p) (optionsSpan p) (commentSpan p) (rightSpaceSpan p) (eolSpan p) (maxTokenLength p) (punycoder p) (compileSelector p) (sliceWritePtr p) (category p) (allBits p) v (optionsBits p) (flavorBits p) (pattern p).

Definition set_optionsBits (v : Z) (p : Parser) : Parser :=
  mkParser (interactive p) (raw p) (slices p) (leftSpaceSpan p) (exceptionSpan p) (patternLeftAnchorSpan p) (patternSpan p) (patternRightAnchorSpan p) (optionsAnchorSpan p) (optionsSpan p) (commentSpan p) (rightSpaceSpan p) (eolSpan p) (maxTokenLength p) (punycoder p) (compileSelector p) (sliceWritePtr p) (category p) (allBits p) (patternBits p) v (flavorBits p) (pattern p).

Definition set_flavorBits (v : Z) (p : Parser) : Parser :=
  mkParser (interactive p) (raw p) (slices p) (leftSpaceSpan p) (exceptionSpan p) (patternLeftAnchorSpan p) (patternSpan p) (patternRightAnchorSpan p) (optionsAnchorSpan p) (optionsSpan p) (commentSpan p) (rightSpaceSpan p) (eolSpan p) (maxTokenLength p) (punycoder p) (compileSelector p) (sliceWritePtr p) (category p) (allBits p) (patternBits p) (optionsBits p) v (pattern p).

Definition set_pattern (v : list Z) (p : Parser) : Parser :=
  mkParser (interactive p) (raw p) (slices p) (leftSpaceSpan p) (exceptionSpan p) (patternLeftAnchorSpan p) (patternSpan p) (patternRightAnchorSpan p) (optionsAnchorSpan p) (optionsSpan p) (commentSpan p) (rightSpaceSpan p) (eolSpan p) (maxTokenLength p) (punycoder p) (compileSelector p) (sliceWritePtr p) (category p) (allBits p) (patternBits p) (optionsBits p) (flavorBits p) v.

(** ** Parser methods *)

Definition reset (p : Parser) : Parser :=
  mkParser (interactive p) (raw p) (slices p)
    Span.reset Span.reset Span.reset Span.reset Span.reset
    Span.reset Span.reset Span.reset Span.reset Span.reset
    (maxTokenLength p) (punycoder p) (compileSelector p)
    0 CATNone 0 0 0 0 [].

(** The [while ( j < rawEnd )] loop of [slice]: [rest] holds the characters
    from index [j] on.  The result is the array, [ptr], [allBits], [i]
    and [j]. *)
Fixpoint slice_loop (rest : list Z) (a : list Z) (ptr allBits_ aBits i j : Z)
  : list Z * Z * Z * Z * Z :=
  match rest with
  | [] => (a, ptr, allBits_, i, j)
  | c :: rest' =>
      let bBits := charBits c in
      if negb (bBits =? aBits) then
        let a := aset a (ptr + 0) (j - i) in
        let a := aset a (ptr + 1) bBits in
        let a := aset a (ptr + 2) j in
        slice_loop rest' a (ptr + 3) (allBits_ .| bBits) bBits j (j + 1)
      else slice_loop rest' a ptr allBits_ aBits i (j + 1)
  end.

Definition slice (raw_ : list Z) (p : Parser) : Parser :=
  let p := reset p in
  let p := set_raw raw_ p in
  let rawEnd := Z.of_nat (length raw_) in
  match raw_ with
  | [] => p
  | c :: rest =>
      let a := slices p in
      let ptr := sliceWritePtr p in
      let aBits := charBits c in
      let a := aset a (ptr + 0) aBits in
      let a := aset a (ptr + 1) 0 in
      let ptr := ptr + 2 in
      let '(a, ptr, allBits_, i, j) := slice_loop rest a ptr aBits aBits 0 1 in
      let a := aset a (ptr + 0) (j - i) in
      let ptr := ptr + 1 in
      (* End-of-line slice *)
      let p := set_eolSpan (Span.set_i ptr (eolSpan p)) p in
      let a := aset a (ptr + 0) 0 in
      let a := aset a (ptr + 1) rawEnd in
      let a := aset a (ptr + 2) 0 in
      let ptr := ptr + 3 in
      (* Trim left *)
      let p :=
        if negb ((aget a 0 .& BITSpace) =? 0)
        then set_leftSpaceSpan (Span.set_l 3 (leftSpaceSpan p)) p
        else set_leftSpaceSpan (Span.set_l 0 (leftSpaceSpan p)) p in
      (* Trim right *)
      let lastSlice := Span.i (eolSpan p) - 3 in
      let p :=
        if (lastSlice >? Span.i (leftSpaceSpan p))
           && negb ((aget a lastSlice .& BITSpace) =? 0)
        then set_rightSpaceSpan (Span.mk lastSlice 3) p
        else set_rightSpaceSpan (Span.mk (Span.i (eolSpan p)) 0) p in
      (* Quit cleanly *)
      let p := set_slices a p in
      let p := set_sliceWritePtr ptr p in
      set_allBits allBits_ p
  end.

Definition shiftSpan (slot : Z) (s : Span.t) : Span.t :=
  if Span.i s >? slot then Span.set_i (Span.i s + 3) s else s.

Definition splitSlot (slot l : Z) (p : Parser) : Parser :=
  let wp := sliceWritePtr p + 3 in
  let a := slices p in
  let a := if wp >? Z.of_nat (length a) then a ++ [0; 0; 0] else a in
  let a := copyWithin a (slot + 3) slot (wp - 3) in
  let a := aset a (slot + 3 + 1) (aget a (slot + 1) + l) in
  let a := aset a (slot + 3 + 2) (aget a (slot + 2) - l) in
  let a := aset a (slot + 2) l in
  mkParser (interactive p) (raw p) a
    (shiftSpan slot (leftSpaceSpan p))
    (shiftSpan slot (exceptionSpan p))
    (shiftSpan slot (patternLeftAnchorSpan p))
    (shiftSpan slot (patternSpan p))
    (shiftSpan slot (patternRightAnchorSpan p))
    (shiftSpan slot (optionsAnchorSpan p))
    (shiftSpan slot (optionsSpan p))
    (shiftSpan slot (commentSpan p))
    (shiftSpan slot (rightSpaceSpan p))
    (shiftSpan slot (eolSpan p))
    (maxTokenLength p) (punycoder p) (compileSelector p)
    wp (category p) (allBits p) (patternBits p) (optionsBits p)
    (flavorBits p) (pattern p).

(** [slices[k] |= bits] and [slices[k] &= ~bits] *)
Definition orCell (a : list Z) (k bits : Z) : list Z := aset a k (aget a k .| bits).
Definition andNotCell (a : list Z) (k bits : Z) : list Z :=
  aset a k (aget a k .& Z.lnot bits).

Fixpoint markSlices_loop (fuel : nat) (a : list Z) (beg end_ bits : Z) : list Z :=
  match fuel with
  | O => a
  | S fuel' =>
      if beg <? end_
      then markSlices_loop fuel' (orCell a beg bits) (beg + 3) end_ bits
      else a
  end.

Definition markSlices (beg end_ bits : Z) (p : Parser) : Parser :=
  set_slices (markSlices_loop (Z.to_nat (end_ - beg)) (slices p) beg end_ bits) p.

Definition markSpan (span : Span.t) (bits : Z) (p : Parser) : Parser :=
  markSlices (Span.i span) (Span.i span + Span.l span) bits p.

Fixpoint unmarkSlices_loop (fuel : nat) (a : list Z) (beg end_ bits : Z) : list Z :=
  match fuel with
  | O => a
  | S fuel' =>
      if beg <? end_
      then unmarkSlices_loop fuel' (andNotCell a beg bits) (beg + 3) end_ bits
      else a
  end.

Definition unmarkSlices (beg end_ bits : Z) (p : Parser) : Parser :=
  set_slices (unmarkSlices_loop (Z.to_nat (end_ - beg)) (slices p) beg end_ bits) p.

Fixpoint findFirstMatch_loop (fuel : nat) (a : list Z) (wp to bits : Z) : Z :=
  match fuel with
  | O => -1
  | S fuel' =>
      if to <? wp then
        if negb ((aget a to .& bits) =? 0) then to
        else findFirstMatch_loop fuel' a wp (to + 3) bits
      else -1
  end.

Definition findFirstMatch (from bits : Z) (p : Parser) : Z :=
  findFirstMatch_loop (Z.to_nat (sliceWritePtr p - from)) (slices p)
    (sliceWritePtr p) from bits.

Fixpoint findFirstOdd_loop (fuel : nat) (a : list Z) (wp to bits : Z) : Z :=
  match fuel with
  | O => -1
  | S fuel' =>
      if to <? wp then
        if (aget a to .& bits) =? 0 then to
        else findFirstOdd_loop fuel' a wp (to + 3) bits
      else -1
  end.

Definition findFirstOdd (from bits : Z) (p : Parser) : Z :=
  findFirstOdd_loop (Z.to_nat (sliceWritePtr p - from)) (slices p)
    (sliceWritePtr p) from bits.

(** [skipUntil] and [skipUntilNot] stop at [to] or at the first slice that
    has (has not) one of the bits.  The walk of [skipUntilNot] also ends on a
    cell past the end of the array, which reads as 0; [skipUntil] is only
    called with [from < to], both slot indices. *)
Fixpoint skipUntil_loop (fuel : nat) (a : list Z) (i to bits : Z) : Z :=
  if (i =? to) || negb ((aget a i .& bits) =? 0) then i
  else match fuel with
       | O => i
       | S fuel' => skipUntil_loop fuel' a (i + 3) to bits
       end.

Definition skipUntil (from to bits : Z) (p : Parser) : Z :=
  skipUntil_loop (Z.to_nat (to - from)) (slices p) (from + 3) to bits.

Fixpoint skipUntilNot_loop (fuel : nat) (a : list Z) (i to bits : Z) : Z :=
  if (i =? to) || ((aget a i .& bits) =? 0) then i
  else match fuel with
       | O => i
       | S fuel' => skipUntilNot_loop fuel' a (i + 3) to bits
       end.

Definition skipUntilNot (from to bits : Z) (p : Parser) : Z :=
  skipUntilNot_loop (length (slices p)) (slices p) (from + 3) to bits.

Definition strFromSlices (from to : Z) (p : Parser) : list Z :=
  js_slice (raw p) (aget (slices p) (from + 1))
    (aget (slices p) (to + 1) + aget (slices p) (to + 2)).

Definition strFromSpan (span : Span.t) (p : Parser) : list Z :=
  if Span.l span =? 0 then []
  else strFromSlices (Span.i span) (Span.i span + Span.l span - 3) p.

Definition isBlank (p : Parser) : bool := allBits p =? BITSpace.

Definition hasOptions (p : Parser) : bool := negb (Span.l (optionsSpan p) =? 0).

(** [getNetPattern] caches the extracted text in [pattern]; the result is
    the text and the parser after the call. *)
Definition getNetPattern (p : Parser) : list Z * Parser :=
  match pattern p with
  | _ :: _ => (pattern p, p)
  | [] =>
      let i := Span.i (patternSpan p) in
      let l := Span.l (patternSpan p) in
      if l =? 0 then ([], p)
      else
        let beg := aget (slices p) (i + 1) in
        let end_ := aget (slices p) (i + l + 1) in
        let '(beg, end_) :=
          if hasBits (flavorBits p) BITFlavorNetRegex
          then (beg + 1, end_ - 1) else (beg, end_) in
        let s := js_slice (raw p) beg end_ in
        (s, set_pattern s p)
  end.

Definition isException (p : Parser) : bool := hasBits (flavorBits p) BITFlavorException.
Definition shouldIgnore (p : Parser) : bool := hasBits (flavorBits p) BITFlavorIgnore.
Definition hasError (p : Parser) : bool := hasBits (flavorBits p) BITFlavorError.
Definition shouldDiscard (p : Parser) : bool :=
  hasBits (flavorBits p) (BITFlavorError .| BITFlavorUnsupported .| BITFlavorIgnore).

Definition patternHasUnicode (p : Parser) : bool := hasBits (patternBits p) BITUnicode.
Definition patternIsRegex (p : Parser) : bool :=
  negb ((flavorBits p .& BITFlavorNetRegex) =? 0).
Definition patternIsMatchAll (p : Parser) : bool :=
  let l := Span.l (patternSpan p) in
  (l =? 0) || ((l =? 3) && hasBits (patternBits p) BITAsterisk).

(** ** The regular expressions of the parser *)

Fixpoint stripPrefix (pre s : list Z) : option (list Z) :=
  match pre, s with
  | [], _ => Some s
  | a :: pre', b :: s' => if a =? b then stripPrefix pre' s' else None
  | _ :: _, [] => None
  end.

Definition startsWith (pre s : list Z) : bool :=
  match stripPrefix pre s with Some _ => true | None => false end.

Definition endsWith (suf s : list Z) : bool := startsWith (rev suf) (rev s).

(** [\w] *)
Definition isWordChar (c : Z) : bool :=
  ((48 <=? c) && (c <=? 57)) || ((65 <=? c) && (c <=? 90))
  || (c =? 95) || ((97 <=? c) && (c <=? 122)).

(** [\b] after a word character: the end of the text or a non-word
    character. *)
Definition wordEndsHere (rest : list Z) : bool :=
  match rest with
  | [] => true
  | c :: _ => negb (isWordChar c)
  end.

Definition literalThenBoundary (lit : string) (s : list Z) : bool :=
  match stripPrefix (codes lit) s with
  | Some rest => wordEndsHere rest
  | None => false
  end.

(** A match of [(?:0\.0\.0\.0|(?:broadcast|local)host|local|ip6-\w+)\b] at
    the head of [s].  Every alternative ends with a word character, and
    [\w+] can always be extended up to the next boundary. *)
Definition localhostRedirectHere (s : list Z) : bool :=
  literalThenBoundary "0.0.0.0" s
  || literalThenBoundary "broadcasthost" s
  || literalThenBoundary "localhost" s
  || literalThenBoundary "local" s
  || match stripPrefix (codes "ip6-") s with
     | Some (c :: _) => isWordChar c
     | _ => false
     end.

(** [reIsLocalhostRedirect.test(s)] *)
Fixpoint reIsLocalhostRedirect (s : list Z) : bool :=
  localhostRedirectHere s
  || match s with
     | [] => false
     | _ :: s' => reIsLocalhostRedirect s'
     end.

(** ** Static extended filters *)

Definition orFlavor (bits : Z) (p : Parser) : Parser :=
  set_flavorBits (flavorBits p .| bits) p.

Definition analyzeExtPattern (p : Parser) : Parser :=
  let selector := strFromSpan (patternSpan p) p in
  match selector with
  | [] => orFlavor BITFlavorUnsupported p
  | _ :: _ =>
      let i := Span.i (patternSpan p) in
      (* ##+js(...) *)
      if hasBits (aget (slices p) i) BITPlus
         && startsWith (codes "+js(") selector && endsWith (codes ")") selector
      then orFlavor BITFlavorExtScriptlet p
      else
        let '(p, selector) :=
          if hasBits (aget (slices p) i) BITCaret
          then (orFlavor BITFlavorExtHTML p,
                js_slice selector 1 (Z.of_nat (length selector)))
          else (orFlavor BITFlavorExtCosmetic p, selector) in
        if negb (compileSelector p selector (flavorBits p))
        then orFlavor BITFlavorUnsupported p
        else p
  end.

(** The tail shared by the two successful exits of [analyzeExt]: the spans
    are set from [from] (first slot of the anchor) and [to] (first slot of
    the pattern). *)
Definition setExtSpans (from to : Z) (p : Parser) : Parser :=
  let oi := Span.i (leftSpaceSpan p) + Span.l (leftSpaceSpan p) in
  let p := set_optionsSpan (Span.mk oi (from - oi)) p in
  let p := set_optionsAnchorSpan (Span.mk from (to - from)) p in
  set_patternSpan (Span.mk to (Span.i (rightSpaceSpan p) - to)) p.

(** The last step of the anchor [#...#]: [to] must be a [#] slot; its first
    [#] closes the anchor. *)
Definition analyzeExt_close (from to flavorBits_ : Z) (p : Parser) : Parser :=
  if hasNoBits (aget (slices p) to) BITHash then p
  else
    let p := if aget (slices p) (to + 2) >? 1 then splitSlot to 1 p else p in
    let to := to + 3 in
    let p := setExtSpans from to p in
    let p := set_flavorBits flavorBits_ p in
    let p := set_category CATStaticExtFilter p in
    analyzeExtPattern p.

(** [analyzeExt] after the optional [@]: the optional [$], [$?], [%] or [?],
    then the closing [#]. *)
Definition analyzeExt_flavor (from to flavorBits_ : Z) (p : Parser) : Parser :=
  let end_ := Span.i (rightSpaceSpan p) in
  if hasBits (aget (slices p) to) BITDollar then
    (* #$... *)
    if negb (aget (slices p) (to + 2) =? 1) then p
    else
      let flavorBits_ := flavorBits_ .| BITFlavorExtStyle in
      let to := to + 3 in
      if to =? end_ then p
      else if hasBits (aget (slices p) to) BITQuestion then
        (* #$?... *)
        if negb (aget (slices p) (to + 2) =? 1) then p
        else
          let flavorBits_ := flavorBits_ .| BITFlavorExtStrong in
          let to := to + 3 in
          if to =? end_ then p
          else analyzeExt_close from to flavorBits_ p
      else analyzeExt_close from to flavorBits_ p
  else if hasBits (aget (slices p) to) (BITPercent .| BITQuestion) then
    (* #[%?]... *)
    if negb (aget (slices p) (to + 2) =? 1) then p
    else
      let flavorBits_ :=
        flavorBits_ .| (if hasBits (aget (slices p) to) BITQuestion
                        then BITFlavorExtStrong else BITFlavorUnsupported) in
      let to := to + 3 in
      if to =? end_ then p
      else analyzeExt_close from to flavorBits_ p
  else analyzeExt_close from to flavorBits_ p.

Definition analyzeExt (from : Z) (p : Parser) : Parser :=
  let end_ := Span.i (rightSpaceSpan p) in
  (* Number of consecutive #s. *)
  let l := aget (slices p) (from + 2) in
  (* More than 3 #s is likely to be a comment in a hosts file. *)
  if l >? 3 then p
  else if negb (l =? 1) then
    (* If a space immediately follows 2 #s, assume a comment. *)
    if (l =? 2) && ((from + 3 =? end_) || hasBits (aget (slices p) (from + 3)) BITSpace)
    then p
    else
      let p := if l =? 2 then p else splitSlot from 2 p in
      let p := setExtSpans from (from + 3) p in
      let p := set_category CATStaticExtFilter p in
      analyzeExtPattern p
  else
    let flavorBits_ := 0 in
    let to := from + 3 in
    if to =? end_ then p
    else if hasBits (aget (slices p) to) BITAt then
      (* #@... *)
      if negb (aget (slices p) (to + 2) =? 1) then p
      else
        let flavorBits_ := flavorBits_ .| BITFlavorException in
        let to := to + 3 in
        if to =? end_ then p
        else analyzeExt_flavor from to flavorBits_ p
    else analyzeExt_flavor from to flavorBits_ p.

(** ** Static network filters

    [analyzeNet] is one method in the source; it is cut here into its
    consecutive blocks.  The local variables that flow from one block to the
    next ([islice], [patternIsRegex]) are passed along. *)

(** Exception declarator [@@]. *)
Definition analyzeNet_exception (p : Parser) : Z * Parser :=
  let islice := Span.i (leftSpaceSpan p) in
  (* Assume no exception *)
  let p := set_exceptionSpan (Span.set_i (Span.l (leftSpaceSpan p)) (exceptionSpan p)) p in
  if (islice <? Span.i (commentSpan p)) && hasBits (aget (slices p) islice) BITAt then
    let l := aget (slices p) (islice + 2) in
    (* @@@*, ...  =>  @@, @*, ... *)
    if l >=? 2 then
      let p := if l >? 2 then splitSlot islice 2 p else p in
      let p := set_exceptionSpan (Span.set_l 3 (exceptionSpan p)) p in
      (islice + 3, orFlavor BITFlavorException p)
    else (islice, p)
  else (islice, p).

(** The test [l === 3 && slices[i+2] > 2 || l > 3 && hasBits(slices[i+l-3],
    BITSlash)] on the pattern span, written twice in the source. *)
Definition patternEndsAsRegex (p : Parser) : bool :=
  let i := Span.i (patternSpan p) in
  let l := Span.l (patternSpan p) in
  ((l =? 3) && (aget (slices p) (i + 2) >? 2))
  || ((l >? 3) && hasBits (aget (slices p) (i + l - 3)) BITSlash).

(** The backward scan for the options anchor: the result is the slot where
    the scan stopped and the bits of the slices it went over. *)
Fixpoint findOptionsAnchor (fuel : nat) (a : list Z) (islice i optionsBits_ : Z)
  : Z * Z :=
  let i := i - 3 in
  if i <? islice then (i, optionsBits_)
  else
    let bits := aget a i in
    if hasBits bits BITDollar then (i, optionsBits_)
    else
      match fuel with
      | O => (i, optionsBits_ .| bits)
      | S fuel' => findOptionsAnchor fuel' a islice i (optionsBits_ .| bits)
      end.

(** Pattern, regex detection and options. *)
Definition analyzeNet_options (islice : Z) (p : Parser) : bool * Parser :=
  (* Assume no options *)
  let p := set_optionsSpan (Span.set_i (Span.i (commentSpan p)) (optionsSpan p)) p in
  let p := set_optionsAnchorSpan (Span.set_i (Span.i (optionsSpan p)) (optionsAnchorSpan p)) p in
  (* Assume all is part of pattern *)
  let p := set_patternSpan (Span.mk islice (Span.i (optionsAnchorSpan p) - islice)) p in
  let patternStartIsRegex :=
    (islice <? Span.i (optionsAnchorSpan p)) && hasBits (aget (slices p) islice) BITSlash in
  let patternIsRegex_ :=
    if patternStartIsRegex then patternEndsAsRegex p else patternStartIsRegex in
  (* If the pattern is not a regex, there might be options. *)
  let '(patternIsRegex_, p) :=
    if negb patternIsRegex_ then
      let '(i, optionsBits_) :=
        findOptionsAnchor (Z.to_nat (Span.i (optionsAnchorSpan p) - islice))
          (slices p) islice (Span.i (optionsAnchorSpan p)) 0 in
      if i >=? islice then
        let l := aget (slices p) (i + 2) in
        let '(i, p) :=
          if l >? 1 then
            (* AdGuard-specific `$$` filters => unsupported. *)
            if findFirstOdd 0 (BITHostname .| BITComma .| BITAsterisk) p =? i then
              let p := orFlavor BITFlavorError p in
              (i, if interactive p then markSlices i (i + 3) BITError p else p)
            else (i + 3, splitSlot i (l - 1) p)
          else (i, p) in
        let p := set_patternSpan (Span.set_l (i - Span.i (patternSpan p)) (patternSpan p)) p in
        let p := set_optionsAnchorSpan (Span.mk i 3) p in
        let i := i + 3 in
        let p := set_optionsSpan (Span.mk i (Span.i (commentSpan p) - i)) p in
        let p := set_optionsBits optionsBits_ p in
        (if patternStartIsRegex then patternEndsAsRegex p else patternIsRegex_, p)
      else (patternIsRegex_, p)
    else (patternIsRegex_, p) in
  (* If the pattern is a regex, remember this. *)
  (patternIsRegex_, if patternIsRegex_ then orFlavor BITFlavorNetRegex p else p).

(** Two blocks of [analyzeNet_options] on their own.  The options anchor [$]
    found at slot [i]: the pattern ends there and the options start after
    it. *)
Definition analyzeNet_optionsAnchor (i optionsBits_ : Z) (p : Parser) : Parser :=
  let l := aget (slices p) (i + 2) in
  let '(i, p) :=
    if l >? 1 then
      (* AdGuard-specific `$$` filters => unsupported. *)
      if findFirstOdd 0 (BITHostname .| BITComma .| BITAsterisk) p =? i then
        let p := orFlavor BITFlavorError p in
        (i, if interactive p then markSlices i (i + 3) BITError p else p)
      else (i + 3, splitSlot i (l - 1) p)
    else (i, p) in
  let p := set_patternSpan (Span.set_l (i - Span.i (patternSpan p)) (patternSpan p)) p in
  let p := set_optionsAnchorSpan (Span.mk i 3) p in
  let i := i + 3 in
  let p := set_optionsSpan (Span.mk i (Span.i (commentSpan p) - i)) p in
  set_optionsBits optionsBits_ p.

(** The spans before the options are looked for: no options, and all that
    lies between [islice] and the comment is the pattern. *)
Definition analyzeNet_assumePattern (islice : Z) (p : Parser) : Parser :=
  (* Assume no options *)
  let p := set_optionsSpan (Span.set_i (Span.i (commentSpan p)) (optionsSpan p)) p in
  let p := set_optionsAnchorSpan (Span.set_i (Span.i (optionsSpan p)) (optionsAnchorSpan p)) p in
  (* Assume all is part of pattern *)
  set_patternSpan (Span.mk islice (Span.i (optionsAnchorSpan p) - islice)) p.

(** [analyzeNet_options] written with these two blocks. *)
Definition analyzeNet_optionsBlocks (islice : Z) (p : Parser) : bool * Parser :=
  let p := analyzeNet_assumePattern islice p in
  let patternStartIsRegex :=
    (islice <? Span.i (optionsAnchorSpan p)) && hasBits (aget (slices p) islice) BITSlash in
  let patternIsRegex_ :=
    if patternStartIsRegex then patternEndsAsRegex p else patternStartIsRegex in
  (* If the pattern is not a regex, there might be options. *)
  let '(patternIsRegex_, p) :=
    if negb patternIsRegex_ then
      let '(i, optionsBits_) :=
        findOptionsAnchor (Z.to_nat (Span.i (optionsAnchorSpan p) - islice))
          (slices p) islice (Span.i (optionsAnchorSpan p)) 0 in
      if i >=? islice then
        let p := analyzeNet_optionsAnchor i optionsBits_ p in
        (if patternStartIsRegex then patternEndsAsRegex p else patternIsRegex_, p)
      else (patternIsRegex_, p)
    else (patternIsRegex_, p) in
  (* If the pattern is a regex, remember this. *)
  (patternIsRegex_, if patternIsRegex_ then orFlavor BITFlavorNetRegex p else p).

(** Left anchor: [|] anchors to the start of the URL, [||] to the left of a
    hostname label. *)
Definition analyzeNet_leftAnchor (p : Parser) : Parser :=
  if negb (Span.l (patternSpan p) =? 0)
     && hasBits (aget (slices p) (Span.i (patternSpan p))) BITPipe
  then
    let p := set_patternLeftAnchorSpan (Span.set_l 3 (patternLeftAnchorSpan p)) p in
    let l := aget (slices p) (Span.i (patternSpan p) + 2) in
    (* |||*, ...  =>  ||, |*, ... *)
    let p :=
      if l >? 2 then splitSlot (Span.i (patternSpan p)) 2 p
      else set_patternSpan (Span.set_l (Span.l (patternSpan p) - 3) (patternSpan p)) p in
    let p := set_patternSpan (Span.set_i (Span.i (patternSpan p) + 3) (patternSpan p)) p in
    orFlavor (if l =? 1 then BITFlavorNetLeftURLAnchor else BITFlavorNetLeftHnAnchor) p
  else p.

(** Right anchor: [|] anchors to the end of the URL; [^] to the end of the
    hostname when the pattern is hostname-anchored on the left and made only
    of hostname characters. *)
Definition analyzeNet_rightAnchor (p : Parser) : Parser :=
  if negb (Span.l (patternSpan p) =? 0) then
    let lastPatternSlice :=
      if Span.l (patternSpan p) >? 3
      then Span.i (patternRightAnchorSpan p) - 3
      else Span.i (patternSpan p) in
    let bits := aget (slices p) lastPatternSlice in
    if negb ((bits .& BITPipe) =? 0) then
      let p := set_patternRightAnchorSpan (Span.mk lastPatternSlice 3) p in
      let l := aget (slices p) (Span.i (patternRightAnchorSpan p) + 2) in
      (* ..., ||*  =>  ..., |*, | *)
      let p :=
        if l >? 1 then
          let p := splitSlot (Span.i (patternRightAnchorSpan p)) (l - 1) p in
          set_patternRightAnchorSpan
            (Span.set_i (Span.i (patternRightAnchorSpan p) + 3) (patternRightAnchorSpan p)) p
        else set_patternSpan (Span.set_l (Span.l (patternSpan p) - 3) (patternSpan p)) p in
      orFlavor BITFlavorNetRightURLAnchor p
    else if hasBits bits BITCaret
            && (aget (slices p) (lastPatternSlice + 2) =? 1)
            && hasBits (flavorBits p) BITFlavorNetLeftHnAnchor
            && (skipUntilNot (Span.i (patternSpan p)) lastPatternSlice BITHostname p
                =? lastPatternSlice)
    then
      let p := set_patternRightAnchorSpan (Span.mk lastPatternSlice 3) p in
      let p := set_patternSpan (Span.set_l (Span.l (patternSpan p) - 3) (patternSpan p)) p in
      orFlavor BITFlavorNetRightHnAnchor p
    else p
  else p.

(** Refine by processing pattern anchors. *)
Definition analyzeNet_anchors (patternIsRegex_ : bool) (p : Parser) : Parser :=
  (* Assume no anchors. *)
  let p := set_patternLeftAnchorSpan
             (Span.set_i (Span.i (patternSpan p)) (patternLeftAnchorSpan p)) p in
  let p := set_patternRightAnchorSpan
             (Span.set_i (Span.i (optionsAnchorSpan p)) (patternRightAnchorSpan p)) p in
  (* Not a regex, there might be anchors. *)
  if negb patternIsRegex_ then analyzeNet_rightAnchor (analyzeNet_leftAnchor p)
  else p.

(** The backward scan for the last slice with a space in the pattern
    [[i, i+l)]: the result is [j] and the pattern bits collected.  The
    source's loop ends only when [l] is a non-negative multiple of 3, which
    is what [Z.to_nat l] steps allow for. *)
Fixpoint findLastSpace (fuel : nat) (a : list Z) (i j patternBits_ : Z) : Z * Z :=
  if j =? 0 then (j, patternBits_)
  else
    let j := j - 3 in
    let bits := aget a (i + j) in
    if hasBits bits BITSpace then (j, patternBits_)
    else
      match fuel with
      | O => (j, patternBits_ .| bits)
      | S fuel' => findLastSpace fuel' a i j (patternBits_ .| bits)
      end.

(** Collate pattern bits; if the pattern contains space characters, the
    pattern is only the part following the last space. *)
Definition analyzeNet_spaces (p : Parser) : Parser :=
  let i := Span.i (patternSpan p) in
  let l := Span.l (patternSpan p) in
  let '(j, patternBits_) := findLastSpace (Z.to_nat l) (slices p) i l (patternBits p) in
  let p := set_patternBits patternBits_ p in
  if negb (j =? 0) then
    let p := set_patternSpan (Span.mk (Span.i (patternSpan p) + (j + 3))
                                      (Span.l (patternSpan p) - (j + 3))) p in
    let '(s, p) := getNetPattern p in
    let p := if reIsLocalhostRedirect s then orFlavor BITFlavorIgnore p else p in
    if interactive p then markSlices 0 (Span.i (patternSpan p)) BITIgnore p else p
  else p.

Definition andNotFlavor (bits : Z) (p : Parser) : Parser :=
  set_flavorBits (flavorBits p .& Z.lnot bits) p.

Definition ignoreSlice (k : Z) (p : Parser) : Parser :=
  set_slices (orCell (slices p) k BITIgnore) p.

(** Pointless leading wildcard. *)
Definition analyzeNet_leadingWildcard (p : Parser) : Parser :=
  let i := Span.i (patternSpan p) in
  let l := Span.l (patternSpan p) in
  if (l >? 3) && hasBits (aget (slices p) i) BITAsterisk
     && hasNoBits (aget (slices p) (i + 3)) BITPatternToken
  then
    let p := ignoreSlice i p in
    let p := set_patternSpan (Span.mk (i + 3) (l - 3)) p in
    (* We can ignore left-hand pattern anchor *)
    if negb (Span.l (patternLeftAnchorSpan p) =? 0)
    then andNotFlavor BITFlavorNetLeftAnchor
           (ignoreSlice (Span.i (patternLeftAnchorSpan p)) p)
    else p
  else p.

(** Pointless trailing wildcard. *)
Definition analyzeNet_trailingWildcard (p : Parser) : Parser :=
  let i := Span.i (patternSpan p) in
  let l := Span.l (patternSpan p) in
  if (l >? 3) && hasBits (aget (slices p) (i + l - 3)) BITAsterisk
     && hasNoBits (aget (slices p) (i + l - 6)) BITPatternToken
  then
    (* Ignore only if the pattern would not end up looking like a regex. *)
    let p :=
      if hasNoBits (aget (slices p) i) BITSlash
         || hasNoBits (aget (slices p) (i + l - 6)) BITSlash
      then ignoreSlice (i + l - 3) p else p in
    let p := set_patternSpan (Span.set_l (l - 3) (patternSpan p)) p in
    (* We can ignore right-hand pattern anchor *)
    if negb (Span.l (patternRightAnchorSpan p) =? 0)
    then andNotFlavor BITFlavorNetRightAnchor
           (ignoreSlice (Span.i (patternRightAnchorSpan p)) p)
    else p
  else p.

(** Pointless left-hand and right-hand pattern anchoring. *)
Definition analyzeNet_pointlessAnchors (p : Parser) : Parser :=
  let i := Span.i (patternSpan p) in
  let l := Span.l (patternSpan p) in
  let p :=
    if ((l =? 0) || (negb (l =? 0) && hasBits (aget (slices p) i) BITAsterisk))
       && hasBits (flavorBits p) BITFlavorNetLeftAnchor
    then andNotFlavor BITFlavorNetLeftAnchor
           (ignoreSlice (Span.i (patternLeftAnchorSpan p)) p)
    else p in
  if ((l =? 0) || (negb (l =? 0) && hasBits (aget (slices p) (i + l - 3)) BITAsterisk))
     && hasBits (flavorBits p) BITFlavorNetRightAnchor
  then andNotFlavor BITFlavorNetRightAnchor
         (ignoreSlice (Span.i (patternRightAnchorSpan p)) p)
  else p.

Definition analyzeNet_wildcards (p : Parser) : Parser :=
  analyzeNet_pointlessAnchors
    (analyzeNet_trailingWildcard (analyzeNet_leadingWildcard p)).

Definition analyzeNet (p : Parser) : Parser :=
  let '(islice, p) := analyzeNet_exception p in
  let '(patternIsRegex_, p) := analyzeNet_options islice p in
  let p := analyzeNet_anchors patternIsRegex_ p in
  let p := analyzeNet_spaces p in
  let p := analyzeNet_wildcards p in
  set_category CATStaticNetFilter p.

(** ** [analyze] *)

(** The search for an inline comment (a space followed by a hash). *)
Fixpoint findInlineComment (fuel : nat) (hashSlot : Z) (p : Parser) : Parser :=
  if hasBits (aget (slices p) (hashSlot - 3)) BITSpace then
    set_commentSpan (Span.mk (hashSlot - 3) (Span.i (rightSpaceSpan p) - hashSlot)) p
  else
    let hashSlot := findFirstMatch (hashSlot + 6) BITHash p in
    if hashSlot =? -1 then p
    else
      match fuel with
      | O => p
      | S fuel' => findInlineComment fuel' hashSlot p
      end.

(** [analyze] up to its last statement: either it has returned, or it goes
    on with [analyzeNet]. *)
Inductive flow : Type :=
  | Return (p : Parser)
  | ToAnalyzeNet (p : Parser).

Definition analyze_head (raw_ : list Z) (p : Parser) : flow :=
  let p := slice raw_ p in
  let slot := Span.l (leftSpaceSpan p) in
  if slot =? Span.i (rightSpaceSpan p) then Return p
  (* test for `!`, `#`, or `[` *)
  else if hasBits (aget (slices p) slot) BITLineComment then
    (* static extended filter? *)
    let p := if hasBits (aget (slices p) slot) BITHash then analyzeExt slot p else p in
    if category p =? CATStaticExtFilter then Return p
    (* if not `#`, no ambiguity *)
    else Return (set_category CATComment p)
  else
    (* assume no inline comment *)
    let p := set_commentSpan (Span.set_i (Span.i (rightSpaceSpan p)) (commentSpan p)) p in
    (* extended filtering with options? *)
    if hasBits (allBits p) BITHash then
      let hashSlot := findFirstMatch slot BITHash p in
      if negb (hashSlot =? -1) then
        let p := analyzeExt hashSlot p in
        if category p =? CATStaticExtFilter then Return p
        (* inline comment? (a space followed by a hash) *)
        else if negb ((allBits p .& BITSpace) =? 0)
        then ToAnalyzeNet (findInlineComment (Z.to_nat (sliceWritePtr p)) hashSlot p)
        else ToAnalyzeNet p
      else ToAnalyzeNet p
    else ToAnalyzeNet p.

Definition analyze (raw_ : list Z) (p : Parser) : Parser :=
  match analyze_head raw_ p with
  | Return p => p
  | ToAnalyzeNet p => analyzeNet p
  end.

(** The constructor: nothing analysed yet, an empty slice array. *)
Definition newParser (interactive_ : bool)
    (punycoder_ : list Z -> option (list Z))
    (compileSelector_ : list Z -> Z -> bool) : Parser :=
  reset
    (mkParser interactive_ [] []
       Span.reset Span.reset Span.reset Span.reset Span.reset
       Span.reset Span.reset Span.reset Span.reset Span.reset
       9007199254740991 punycoder_ compileSelector_
       0 CATNone 0 0 0 0 []).

(** ** [toPunycode] *)

(** A JavaScript return value of a method that returns [true], [false] or
    nothing. *)
Inductive jsValue : Type :=
  | JSUndefined
  | JSBool (b : bool).

(** The character class of [reHostname]:
    [[^\x00-\x24\x26-\x29\x2B\x2C\x2F\x3A-\x5E\x60\x7B-\x7F]] *)
Definition reHostnameChar (c : Z) : bool :=
  negb (((0 <=? c) && (c <=? 36)) || ((38 <=? c) && (c <=? 41))
        || (c =? 43) || (c =? 44) || (c =? 47)
        || ((58 <=? c) && (c <=? 94)) || (c =? 96)
        || ((123 <=? c) && (c <=? 127))).

Fixpoint takeWhile (f : Z -> bool) (s : list Z) : list Z :=
  match s with
  | [] => []
  | c :: s' => if f c then c :: takeWhile f s' else []
  end.

(** [reHostname.exec(s)]: the matched text ([match[0]], at index 0), or
    [None] for [null]. *)
Definition reHostname_exec (s : list Z) : option (list Z) :=
  match takeWhile reHostnameChar s with
  | [] => None
  | m => Some m
  end.

(** [s.replace(/\*/g, '__asterisk__')] *)
Definition hideAsterisks (s : list Z) : list Z :=
  flat_map (fun c => if c =? 42 then codes "__asterisk__" else [c]) s.

(** [s.replace(/__asterisk__/g, '*')]; [skip] counts the characters of a
    match still to be dropped. *)
Fixpoint restoreAsterisks (skip : nat) (s : list Z) : list Z :=
  match s with
  | [] => []
  | c :: s' =>
      match skip with
      | S k => restoreAsterisks k s'
      | O =>
          if startsWith (codes "__asterisk__") s
          then 42 :: restoreAsterisks 11 s'
          else c :: restoreAsterisks 0 s'
      end
  end.

Definition toPunycode (p : Parser) : jsValue * Parser :=
  if negb (patternHasUnicode p) then (JSBool true, p)
  else
    let i := Span.i (patternSpan p) in
    let l := Span.l (patternSpan p) in
    if l =? 0 then (JSBool true, p)
    else
      let '(_, p) := getNetPattern p in
      match reHostname_exec (pattern p) with
      | None => (JSUndefined, p)
      | Some m =>
          match punycoder p (hideAsterisks m) with
          | None => (JSBool false, p)
          | Some hostname =>
              let punycoded := restoreAsterisks 0 hostname in
              let pattern_ :=
                punycoded ++ js_slice (pattern p) (0 + Z.of_nat (length m))
                                      (Z.of_nat (length (pattern p))) in
              let beg := aget (slices p) (i + 1) in
              let end_ := aget (slices p) (i + l + 1) in
              let raw_ :=
                js_slice (raw p) 0 beg ++ pattern_
                  ++ js_slice (raw p) end_ (Z.of_nat (length (raw p))) in
              (JSBool true, analyze raw_ p)
          end
      end.

(** ** Domain lists *)

Fixpoint analyzeDomain_middle (fuel : nat) (a : list Z) (i to : Z) : bool :=
  match fuel with
  | O => true
  | S fuel' =>
      if i <? to - 3 then
        let bits := aget a i in
        if hasNoBits bits BITHostname then false
        else if hasBits bits BITPeriod && (aget a (i + 2) >? 1) then false
        else if hasBits bits BITDash
                && (hasNoBits (aget a (i - 3)) (BITRegexWord .| BITUnicode)
                    || hasNoBits (aget a (i + 3)) (BITRegexWord .| BITUnicode))
        then false
        else analyzeDomain_middle fuel' a (i + 3) to
      else true
  end.

(** [optionBits]: bit 0, can use entity-based hostnames; bit 1, can use a
    single wildcard. *)
Definition analyzeDomain (from to optionBits_ : Z) (p : Parser) : bool :=
  let a := slices p in
  let len := to - from in
  if len =? 0 then false
  else
    let not := hasBits (aget a from) BITTilde in
    if not && (((optionBits_ .& 1) =? 0) || (aget a (from + 2) >? 1)) then false
    else
      let '(from, len) := if not then (from + 3, len - 3) else (from, len) in
      if len =? 0 then false
      (* One slice only, check for single asterisk *)
      else if (len =? 3) && negb not && negb ((optionBits_ .& 2) =? 0)
              && hasBits (aget a from) BITAsterisk
      then aget a (from + 2) =? 1
      (* First slice must be regex-equivalent of `\w` *)
      else if hasNoBits (aget a from) (BITRegexWord .| BITUnicode) then false
      (* Last slice *)
      else if (len >? 3)
              && (if hasBits (aget a (to - 3)) BITAsterisk
                  then ((optionBits_ .& 1) =? 0) || (len <? 9)
                       || (aget a (to - 3 + 2) >? 1)
                       || hasNoBits (aget a (to - 3 - 3)) BITPeriod
                  else hasNoBits (aget a (to - 3)) (BITAlphaNum .| BITUnicode))
      then false
      (* Middle slices *)
      else if len >? 6
      then analyzeDomain_middle (Z.to_nat (to - from)) a (from + 3) to
      else true.

Fixpoint analyzeDomainList_loop (fuel : nat) (beg to bitSeparator optionBits_ : Z)
    (p : Parser) : Parser :=
  match fuel with
  | O => p
  | S fuel' =>
      if beg <? to then
        let end_ := skipUntil beg to bitSeparator p in
        let end_ := if end_ =? -1 then to else end_ in
        let p := if negb (analyzeDomain beg end_ optionBits_ p)
                 then markSlices beg end_ BITError p else p in
        analyzeDomainList_loop fuel' (end_ + 3) to bitSeparator optionBits_ p
      else p
  end.

Definition analyzeDomainList (from to bitSeparator optionBits_ : Z) (p : Parser)
  : Parser :=
  if from >=? to then p
  else
    let p := analyzeDomainList_loop (Z.to_nat (to - from)) from to
               bitSeparator optionBits_ p in
    (* Dangling separator at the end? *)
    if hasBits (aget (slices p) (to - 3)) bitSeparator
    then markSlices (to - 3) to BITError p
    else p.

(** ** Network filter options *)

Definition OPTTokenInvalid : Z := 0.
Definition OPTToken1p : Z := 1.
Definition OPTToken3p : Z := 2.
Definition OPTTokenAll : Z := 3.
Definition OPTTokenBadfilter : Z := 4.
Definition OPTTokenCname : Z := 5.
Definition OPTTokenCsp : Z := 6.
Definition OPTTokenCss : Z := 7.
Definition OPTTokenDenyAllow : Z := 8.
Definition OPTTokenDoc : Z := 9.
Definition OPTTokenDomain : Z := 10.
Definition OPTTokenEhide : Z := 11.
Definition OPTTokenEmpty : Z := 12.
Definition OPTTokenFont : Z := 13.
Definition OPTTokenFrame : Z := 14.
Definition OPTTokenGenericblock : Z := 15.
Definition OPTTokenGhide : Z := 16.
Definition OPTTokenImage : Z := 17.
Definition OPTTokenImportant : Z := 18.
Definition OPTTokenInlineFont : Z := 19.
Definition OPTTokenInlineScript : Z := 20.
Definition OPTTokenMedia : Z := 21.
Definition OPTTokenMp4 : Z := 22.
Definition OPTTokenObject : Z := 23.
Definition OPTTokenOther : Z := 24.
Definition OPTTokenPing : Z := 25.
Definition OPTTokenPopunder : Z := 26.
Definition OPTTokenPopup : Z := 27.
Definition OPTTokenRedirect : Z := 28.
Definition OPTTokenRedirectRule : Z := 29.
Definition OPTTokenScript : Z := 30.
Definition OPTTokenShide : Z := 31.
Definition OPTTokenXhr : Z := 32.
Definition OPTTokenWebrtc : Z := 33.
Definition OPTTokenWebsocket : Z := 34.

Definition OPTCanNegate : Z := shl 1 8.
Definition OPTBlockOnly : Z := shl 1 9.
Definition OPTAllowOnly : Z := shl 1 10.
Definition OPTMustAssign : Z := shl 1 11.
Definition OPTAllowMayAssign : Z := shl 1 12.
Definition OPTDomainList : Z := shl 1 13.
Definition OPTType : Z := shl 1 14.
Definition OPTNetworkType : Z := shl 1 15.
Definition OPTRedirectType : Z := shl 1 16.
Definition OPTNotSupported : Z := shl 1 17.

Definition netOptionTokens : list (string * Z) := [
  ("1p", OPTToken1p .| OPTCanNegate);
  ("first-party", OPTToken1p .| OPTCanNegate);
  ("3p", OPTToken3p .| OPTCanNegate);
  ("third-party", OPTToken3p .| OPTCanNegate);
  ("all", OPTTokenAll .| OPTType .| OPTNetworkType);
  ("badfilter", OPTTokenBadfilter);
  ("cname", OPTTokenCname .| OPTAllowOnly .| OPTType);
  ("csp", OPTTokenCsp .| OPTMustAssign .| OPTAllowMayAssign);
  ("css", OPTTokenCss .| OPTCanNegate .| OPTType .| OPTNetworkType);
  ("stylesheet", OPTTokenCss .| OPTCanNegate .| OPTType .| OPTNetworkType);
  ("denyallow", OPTTokenDenyAllow .| OPTMustAssign .| OPTDomainList);
  ("doc", OPTTokenDoc .| OPTType .| OPTNetworkType);
  ("document", OPTTokenDoc .| OPTType .| OPTNetworkType);
  ("domain", OPTTokenDomain .| OPTMustAssign .| OPTDomainList);
  ("ehide", OPTTokenEhide .| OPTType);
  ("elemhide", OPTTokenEhide .| OPTType);
  ("empty", OPTTokenEmpty .| OPTBlockOnly .| OPTType .| OPTNetworkType .| OPTBlockOnly .| OPTRedirectType);
  ("frame", OPTTokenFrame .| OPTCanNegate .| OPTType .| OPTNetworkType);
  ("subdocument", OPTTokenFrame .| OPTCanNegate .| OPTType .| OPTNetworkType);
  ("font", OPTTokenFont .| OPTCanNegate .| OPTType .| OPTNetworkType);
  ("genericblock", OPTTokenGenericblock .| OPTNotSupported);
  ("ghide", OPTTokenGhide .| OPTType);
  ("generichide", OPTTokenGhide .| OPTType);
  ("image", OPTTokenImage .| OPTCanNegate .| OPTType .| OPTNetworkType);
  ("important", OPTTokenImportant .| OPTBlockOnly);
  ("inline-font", OPTTokenInlineFont .| OPTType);
  ("inline-script", OPTTokenInlineScript .| OPTType);
  ("media", OPTTokenMedia .| OPTCanNegate .| OPTType .| OPTNetworkType);
  ("mp4", OPTTokenMp4 .| OPTType .| OPTNetworkType .| OPTBlockOnly .| OPTRedirectType);
  ("object", OPTTokenObject .| OPTCanNegate .| OPTType .| OPTNetworkType);
  ("object-subrequest", OPTTokenObject .| OPTCanNegate .| OPTType .| OPTNetworkType);
  ("other", OPTTokenOther .| OPTCanNegate .| OPTType .| OPTNetworkType);
  ("ping", OPTTokenPing .| OPTCanNegate .| OPTType .| OPTNetworkType);
  ("beacon", OPTTokenPing .| OPTCanNegate .| OPTType .| OPTNetworkType);
  ("popunder", OPTTokenPopunder .| OPTType);
  ("popup", OPTTokenPopup .| OPTType);
  ("redirect", OPTTokenRedirect .| OPTMustAssign .| OPTBlockOnly .| OPTRedirectType);
  ("redirect-rule", OPTTokenRedirectRule .| OPTMustAssign .| OPTBlockOnly .| OPTRedirectType);
  ("script", OPTTokenScript .| OPTCanNegate .| OPTType .| OPTNetworkType);
  ("shide", OPTTokenShide .| OPTType);
  ("specifichide", OPTTokenShide .| OPTType);
  ("xhr", OPTTokenXhr .| OPTCanNegate .| OPTType .| OPTNetworkType);
  ("xmlhttprequest", OPTTokenXhr .| OPTCanNegate .| OPTType .| OPTNetworkType);
  ("webrtc", OPTTokenWebrtc .| OPTNotSupported);
  ("websocket", OPTTokenWebsocket .| OPTCanNegate .| OPTType .| OPTNetworkType)
]%string.

Fixpoint codes_eqb (s t : list Z) : bool :=
  match s, t with
  | [], [] => true
  | a :: s', b :: t' => (a =? b) && codes_eqb s' t'
  | _, _ => false
  end.

(** [netOptionTokens.get(token)], [None] for [undefined]. *)
Definition netOptionTokens_get (token : list Z) : option Z :=
  match find (fun e => codes_eqb (codes (fst e)) token) netOptionTokens with
  | Some e => Some (snd e)
  | None => None
  end.

(** The [interactive] flag of the parser, as the iterator reads it. *)
Definition parserIsInteractive (p : Parser) : bool := interactive p.

Module NetOptionsIterator.

Record item_t : Type := mkItem { id : Z; val : option (list Z); not : bool }.

(** The iterator object without its reference to the parser, which the
    functions below take and give back.  [value] is either [undefined] or
    the object [item]. *)
Record t : Type := mk {
  exception : bool;
  interactive : bool;
  optSlices : list Z;
  writePtr : Z;
  readPtr : Z;
  item : item_t;
  value : option item_t;
  done : bool
}.

Definition new : t := mk false false [] 0 0 (mkItem OPTTokenInvalid None false) None true.

(** The counters and indices of the loop of [init], with the two arrays. *)
Record scan : Type := mkScan {
  s_parser : Parser;
  s_optSlices : list Z;
  typeCount : Z;
  networkTypeCount : Z;
  redirectIndex : Z;
  cspIndex : Z;
  s_writePtr : Z;
  lopt : Z
}.

(** Find end of current option: the result is the slice array, [i] and
    [lval]. *)
Fixpoint findOptionEnd (fuel : nat) (interactive_ : bool) (a : list Z)
    (lopt_ ropts i lval : Z) : list Z * Z * Z :=
  match fuel with
  | O => (a, i, lval)
  | S fuel' =>
      if i <? ropts then
        let bits := aget a i in
        if hasBits bits BITComma then
          (if interactive_ && ((i =? lopt_) || (aget a (i + 2) >? 1))
           then orCell a i BITError else a, i, lval)
        else
          let lval := if (lval =? 0) && hasBits bits BITEqual then i else lval in
          findOptionEnd fuel' interactive_ a lopt_ ropts (i + 3) lval
      else (a, i, lval)
  end.

(** Validate option according to context. *)
Definition validate (exception_ : bool) (negated assigned : bool)
    (descriptor : option Z) : Z :=
  match descriptor with
  | None => OPTTokenInvalid
  | Some d =>
      if (negated && hasNoBits d OPTCanNegate)
         || (exception_ && hasBits d OPTBlockOnly)
         || (negb exception_ && hasBits d OPTAllowOnly)
         || (assigned && hasNoBits d OPTMustAssign)
         || (negb assigned && hasBits d OPTMustAssign
             && (negb exception_ || hasNoBits d OPTAllowMayAssign))
      then OPTTokenInvalid
      else d
  end.

(** One turn of the [while ( lopt < ropts )] loop of [init]. *)
Definition optionStep (exception_ interactive_ : bool) (ropts : Z) (s : scan) : scan :=
  let p := s_parser s in
  let lopt_ := lopt s in
  let good := true in
  let ltok := lopt_ in
  (* Parse optional negation *)
  let '(good, ltok) :=
    if hasBits (aget (slices p) lopt_) BITTilde
    then (if aget (slices p) (lopt_ + 2) >? 1 then false else good, ltok + 3)
    else (good, ltok) in
  (* Find end of current option *)
  let '(a, i, lval) :=
    findOptionEnd (Z.to_nat (ropts - ltok)) interactive_ (slices p) lopt_ ropts ltok 0 in
  let p := set_slices a p in
  (* Check for proper assignement *)
  let assigned := false in
  let '(good, assigned) :=
    if good && negb (lval =? 0)
    then let b := (aget (slices p) (lval + 2) =? 1) && negb (lval + 3 =? i) in (b, b)
    else (good, assigned) in
  let descriptor :=
    if good then
      let rtok := if lval =? 0 then i else lval in
      let token := js_slice (raw p) (aget (slices p) (ltok + 1))
                                    (aget (slices p) (rtok + 1)) in
      netOptionTokens_get token
    else None in
  let descriptor := validate exception_ (negb (ltok =? lopt_)) assigned descriptor in
  (* Keep count of types *)
  let typeCount_ :=
    if hasBits descriptor OPTType then typeCount s + 1 else typeCount s in
  let networkTypeCount_ :=
    if hasBits descriptor OPTType && hasBits descriptor OPTNetworkType
    then networkTypeCount s + 1 else networkTypeCount s in
  (* Only one `redirect` or `csp` can be present *)
  let '(descriptor, redirectIndex_, cspIndex_) :=
    if hasBits descriptor OPTRedirectType then
      if redirectIndex s =? -1
      then (descriptor, s_writePtr s, cspIndex s)
      else (OPTTokenInvalid, redirectIndex s, cspIndex s)
    else if (descriptor .& 255) =? OPTTokenCsp then
      if cspIndex s =? -1
      then (descriptor, redirectIndex s, s_writePtr s)
      else (OPTTokenInvalid, redirectIndex s, cspIndex s)
    else (descriptor, redirectIndex s, cspIndex s) in
  (* Mark slices in case of invalid filter option *)
  let p :=
    if interactive_ && ((descriptor =? OPTTokenInvalid) || hasBits descriptor OPTNotSupported)
    then markSlices lopt_ i BITError p else p in
  (* Store indices to raw slices *)
  let w := s_writePtr s in
  let o := s_optSlices s in
  let o := aset o (w + 0) descriptor in
  let o := aset o (w + 1) lopt_ in
  let o := aset o (w + 2) ltok in
  let '(o, p) :=
    if negb (lval =? 0) then
      let o := aset o (w + 3) lval in
      let o := aset o (w + 4) (lval + 3) in
      (o, if interactive_ && hasBits descriptor OPTDomainList
          then analyzeDomainList (lval + 3) i BITPipe
                 (if (descriptor .& 255) =? OPTTokenDomain then 1 else 0) p
          else p)
    else
      let o := aset o (w + 3) i in
      let o := aset o (w + 4) i in
      (o, p) in
  let o := aset o (w + 5) i in
  (* Advance to next option *)
  mkScan p o typeCount_ networkTypeCount_ redirectIndex_ cspIndex_ (w + 6) (i + 3).

Fixpoint optionsLoop (fuel : nat) (exception_ interactive_ : bool) (ropts : Z)
    (s : scan) : scan :=
  match fuel with
  | O => s
  | S fuel' =>
      if lopt s <? ropts
      then optionsLoop fuel' exception_ interactive_ ropts
             (optionStep exception_ interactive_ ropts s)
      else s
  end.

Definition init (p : Parser) (it : t) : t * Parser :=
  if Span.l (optionsSpan p) =? 0 then
    (mk (exception it) (interactive it) (optSlices it) 0 0 (item it) None true, p)
  else
    (* Prime iterator *)
    let exception_ := isException p in
    let interactive_ := parserIsInteractive p in
    let lopts := Span.i (optionsSpan p) in
    let ropts := lopts + Span.l (optionsSpan p) in
    let s := optionsLoop (Z.to_nat (ropts - lopts)) exception_ interactive_ ropts
               (mkScan p (optSlices it) 0 0 (-1) (-1) 0 lopts) in
    let p := s_parser s in
    let o := s_optSlices s in
    (* Dangling comma *)
    let p :=
      if interactive_ && hasBits (aget (slices p) (ropts - 3)) BITComma
      then set_slices (orCell (slices p) (ropts - 3) BITError) p else p in
    (* `csp` can't be used with any other types *)
    let '(o, p) :=
      if negb (cspIndex s =? -1) && negb (typeCount s =? 0) then
        let o := aset o (cspIndex s) OPTTokenInvalid in
        (o, if interactive_
            then markSlices (aget o (cspIndex s + 1)) (aget o (cspIndex s + 5)) BITError p
            else p)
      else (o, p) in
    (* `redirect` requires one single network type *)
    let '(o, p) :=
      if negb (redirectIndex s =? -1) && negb (typeCount s =? 1)
         && negb (networkTypeCount s =? 1)
      then
        let o := aset o (redirectIndex s) OPTTokenInvalid in
        (o, if interactive_
            then markSlices (aget o (redirectIndex s + 1)) (aget o (redirectIndex s + 5))
                   BITError p
            else p)
      else (o, p) in
    (mk exception_ interactive_ o (s_writePtr s) 0 (item it) (Some (item it)) false, p).

Definition next (p : Parser) (it : t) : t :=
  let i := readPtr it in
  if i =? writePtr it then
    mk (exception it) (interactive it) (optSlices it) (writePtr it) (readPtr it)
       (item it) None true
  else
    let o := optSlices it in
    let descriptor := aget o (i + 0) in
    let item_ :=
      mkItem (descriptor .& 255)
        (if negb (aget o (i + 4) =? aget o (i + 5))
         then Some (js_slice (raw p) (aget (slices p) (aget o (i + 4) + 1))
                                     (aget (slices p) (aget o (i + 5) + 1)))
         else None)
        (negb (aget o (i + 2) =? aget o (i + 1))) in
    mk (exception it) (interactive it) o (writePtr it) (i + 6) item_
       (match value it with Some _ => Some item_ | None => None end) (done it).

(** [for ( const item of parser.netOptions() )]: the items seen by the
    loop body, each a copy of [value] at that turn. *)
Fixpoint collect (fuel : nat) (p : Parser) (it : t) : list item_t :=
  match fuel with
  | O => []
  | S fuel' =>
      let it := next p it in
      if done it then []
      else
        match value it with
        | Some v => v :: collect fuel' p it
        | None => []
        end
  end.

Definition items (p : Parser) (it : t) : list item_t * Parser :=
  let '(it, p) := init p it in
  (collect (S (Z.to_nat (writePtr it))) p it, p).

End NetOptionsIterator.

(** ** Pattern tokens *)

Module PatternTokenIterator.

Record value_t : Type := mkValue { token : list Z; pos : Z }.

(** The iterator object without its reference to the parser. *)
Record t : Type := mk {
  l : Z;
  r : Z;
  i : Z;
  value : option value_t;
  done : bool
}.

Definition new : t := mk 0 0 0 None true.

Definition end_ (it : t) : t := mk (l it) (r it) (i it) None true.

(** [[Symbol.iterator]()] *)
Definition iterator (p : Parser) (it : t) : t :=
  let i_ := Span.i (patternSpan p) in
  let l_ := Span.l (patternSpan p) in
  if l_ =? 0 then end_ it
  else mk i_ (i_ + l_) i_ (Some (mkValue [] 0)) false.

(** First slot at or after [sl] with pattern-token bits, [None] when [r] is
    reached first. *)
Fixpoint findRunStart (fuel : nat) (a : list Z) (r_ sl : Z) : option Z :=
  if sl >=? r_ then None
  else if hasBits (aget a sl) BITPatternToken then Some sl
  else
    match fuel with
    | O => None
    | S fuel' => findRunStart fuel' a r_ (sl + 3)
    end.

(** First slot at or after [sr] that is [r] or has no pattern-token bits. *)
Fixpoint findRunEnd (fuel : nat) (a : list Z) (r_ sr : Z) : Z :=
  if (sr <? r_) && hasBits (aget a sr) BITPatternToken then
    match fuel with
    | O => sr
    | S fuel' => findRunEnd fuel' a r_ (sr + 3)
    end
  else sr.

(** The test that ends the outer loop of [next]. *)
Definition accepted (a : list Z) (maxTokenLength_ r_ sl sr : Z) : bool :=
  ((sl =? 0) || hasNoBits (aget a (sl - 3)) BITAsterisk)
  && ((sr =? r_) || hasNoBits (aget a sr) BITAsterisk
      || (aget a (sr + 1) - aget a (sl + 1) >=? maxTokenLength_)).

(** The outer loop of [next]: the run found, or [None] when the loop is
    left through [return this.end()]. *)
Fixpoint findToken (fuel : nat) (a : list Z) (maxTokenLength_ r_ sl : Z)
  : option (Z * Z) :=
  match findRunStart (Z.to_nat (r_ - sl)) a r_ sl with
  | None => None
  | Some sl =>
      let sr := findRunEnd (Z.to_nat (r_ - sl)) a r_ (sl + 3) in
      if accepted a maxTokenLength_ r_ sl sr then Some (sl, sr)
      else
        match fuel with
        | O => None
        | S fuel' => findToken fuel' a maxTokenLength_ r_ (sr + 3)
        end
  end.

(** What a call of [next] does: it ends the iteration, it yields, or it
    throws a [TypeError] (the assignment [value.token = ...] when [value] is
    [undefined]). *)
Inductive outcome : Type :=
  | Ended (it : t)
  | Yielded (it : t) (v : value_t)
  | Thrown.

Definition next (p : Parser) (it : t) : outcome :=
  let a := slices p in
  match findToken (Z.to_nat (r it - i it)) a (maxTokenLength p) (r it) (i it) with
  | None => Ended (end_ it)
  | Some (sl, sr) =>
      match value it with
      | None => Thrown
      | Some _ =>
          let beg := aget a (sl + 1) in
          let v := mkValue (js_slice (raw p) beg (aget a (sr + 1)))
                           (beg - aget a (l it + 1)) in
          Yielded (mk (l it) (r it) (sr + 3) (Some v) (done it)) v
      end
  end.

(** [for ( const v of it )]: the values seen by the loop body, and whether
    the loop was left by an exception. *)
Fixpoint collect (fuel : nat) (p : Parser) (it : t) : list value_t * bool :=
  match next p it with
  | Ended _ => ([], false)
  | Thrown => ([], true)
  | Yielded it v =>
      match fuel with
      | O => ([v], false)
      | S fuel' => let '(vs, e) := collect fuel' p it in (v :: vs, e)
      end
  end.

(** The for-of loop over [parser.patternTokens()] with the iterator left by
    previous uses, and the state of the iterator after a loop that ran to
    its end. *)
Definition tokens (p : Parser) (it : t) : list value_t * bool :=
  let it := iterator p it in
  collect (Z.to_nat (r it - i it)) p it.

Fixpoint drain (fuel : nat) (p : Parser) (it : t) : t :=
  match next p it with
  | Ended it => it
  | Thrown => it
  | Yielded it _ =>
      match fuel with
      | O => it
      | S fuel' => drain fuel' p it
      end
  end.

Definition afterLoop (p : Parser) (it : t) : t :=
  let it := iterator p it in
  drain (Z.to_nat (r it - i it)) p it.

End PatternTokenIterator.

(** [patternTokens()]: the iterator for a network filter, an empty array
    otherwise. *)
Definition patternTokens (p : Parser) (it : PatternTokenIterator.t)
  : list PatternTokenIterator.value_t * bool :=
  if category p =? CATStaticNetFilter then PatternTokenIterator.tokens p it
  else ([], false).

(** ** Vocabulary of the properties

    A slot is the index of the first cell of a slice: a multiple of 3 below
    the write pointer. *)

Definition slotBits (p : Parser) (k : Z) : Z := aget (slices p) k.
Definition slotOrigin (p : Parser) (k : Z) : Z := aget (slices p) (k + 1).
Definition slotLength (p : Parser) (k : Z) : Z := aget (slices p) (k + 2).

Definition isSlot (p : Parser) (k : Z) : Prop :=
  0 <= k /\ k mod 3 = 0 /\ k < sliceWritePtr p.

(** The write pointer is a slot boundary within the array. *)
Definition slotsWellFormed (p : Parser) : Prop :=
  sliceWritePtr p mod 3 = 0
  /\ 0 <= sliceWritePtr p <= Z.of_nat (length (slices p)).

(** [origin(i) + length(i) = origin(i+1)] for all adjacent slices. *)
Definition contiguous (p : Parser) : Prop :=
  forall k, isSlot p k -> k + 3 < sliceWritePtr p ->
    slotOrigin p k + slotLength p k = slotOrigin p (k + 3).

Fixpoint sumLengths (a : list Z) (n : nat) : Z :=
  match n with
  | O => 0
  | S m => sumLengths a m + aget a (3 * Z.of_nat m + 2)
  end.

(** The sum of the lengths of all slices below the write pointer. *)
Definition sumOfLengths (p : Parser) : Z :=
  sumLengths (slices p) (Z.to_nat (sliceWritePtr p / 3)).

Definition sliceInvariant (p : Parser) : Prop :=
  slotsWellFormed p /\ contiguous p
  /\ sumOfLengths p = Z.of_nat (length (raw p)).

(** The slices of [p] cut the line [raw_]: the parser holds that line, the
    write pointer is a slot boundary, adjacent slices are contiguous, the
    lengths of the slices add up to the length of the line and, unless
    there is no slice at all, the first slice starts at index 0. *)
Definition cutsLine (raw_ : list Z) (p : Parser) : Prop :=
  raw p = raw_
  /\ slotsWellFormed p /\ contiguous p
  /\ sumOfLengths p = Z.of_nat (length raw_)
  /\ (0 < sliceWritePtr p -> slotOrigin p 0 = 0).

(** ** Invariants used in the proofs *)

(** The OR of the class bits of the characters of a text. *)
Definition bitsOf (s : list Z) : Z :=
  fold_right (fun c acc => charBits c .| acc) 0 s.

(** A finished slice at slot [k] of the array [a]: it is not empty, it ends
    where the next one starts, and all its characters have the class bits
    recorded for it. *)
Definition slotOK (raw_ a : list Z) (k : Z) : Prop :=
  0 < aget a (k + 2) /\ 0 <= aget a (k + 1)
  /\ aget a (k + 1) + aget a (k + 2) = aget a (k + 4)
  /\ forall x, aget a (k + 1) <= x < aget a (k + 4) ->
       charBits (nth (Z.to_nat x) raw_ 0) = aget a k.

(** The state of the loop of [slice] before the character at [j] is read:
    the slices before [ptr - 2] are finished, the one at [ptr - 2] is open
    and starts at [i]. *)
Definition sliceLoopInv (raw_ a : list Z) (ptr allBits_ aBits i j : Z) : Prop :=
  ptr mod 3 = 2 /\ 2 <= ptr <= Z.of_nat (length a)
  /\ aget a (ptr - 2) = aBits /\ aget a (ptr - 1) = i /\ aget a 1 = 0
  /\ 0 <= i < j /\ j <= Z.of_nat (length raw_)
  /\ (forall x, i <= x < j -> charBits (nth (Z.to_nat x) raw_ 0) = aBits)
  /\ (forall k, 0 <= k -> k mod 3 = 0 -> k + 3 <= ptr - 2 -> slotOK raw_ a k)
  /\ allBits_ = bitsOf (firstn (Z.to_nat j) raw_).

(** The end-of-line slice: the last slice below the write pointer has no
    bits, starts at the end of the text and is empty. *)
Definition endOfLineSlice (raw_ : list Z) (p : Parser) : Prop :=
  3 <= sliceWritePtr p
  /\ slotBits p (sliceWritePtr p - 3) = 0
  /\ slotOrigin p (sliceWritePtr p - 3) = Z.of_nat (length raw_)
  /\ slotLength p (sliceWritePtr p - 3) = 0.

(** The parser right after [slice] on a text that is not empty. *)
Definition slicedState (raw_ : list Z) (p : Parser) : Prop :=
  let W := sliceWritePtr p in
  let a := slices p in
  raw p = raw_
  /\ W mod 3 = 0 /\ 6 <= W <= Z.of_nat (length a)
  /\ aget a (W - 3) = 0 /\ aget a (W - 2) = Z.of_nat (length raw_) /\ aget a (W - 1) = 0
  /\ aget a 1 = 0
  /\ (forall k, 0 <= k -> k mod 3 = 0 -> k + 3 <= W - 3 -> slotOK raw_ a k)
  /\ allBits p = bitsOf raw_
  /\ leftSpaceSpan p = Span.mk 0 (if hasBits (aget a 0) BITSpace then 3 else 0)
  /\ rightSpaceSpan p =
       (if (W - 6 >? 0) && hasBits (aget a (W - 6)) BITSpace
        then Span.mk (W - 6) 3 else Span.mk (W - 3) 0)
  /\ eolSpan p = Span.mk (W - 3) 0
  /\ exceptionSpan p = Span.reset /\ patternLeftAnchorSpan p = Span.reset
  /\ patternSpan p = Span.reset /\ patternRightAnchorSpan p = Span.reset
  /\ optionsAnchorSpan p = Span.reset /\ optionsSpan p = Span.reset
  /\ commentSpan p = Span.reset
  /\ category p = CATNone /\ flavorBits p = 0 /\ patternBits p = 0
  /\ optionsBits p = 0 /\ pattern p = [].

(** What no step of the analysis changes once [slice] has run. *)
Definition frame (p q : Parser) : Prop :=
  interactive q = interactive p /\ raw q = raw p /\ allBits q = allBits p
  /\ maxTokenLength q = maxTokenLength p /\ punycoder q = punycoder p
  /\ compileSelector q = compileSelector p.

(** The characters of class [BITSpace] in [charDescBits]: tab, line feed,
    carriage return and space. *)
Definition isSpaceChar (c : Z) : bool :=
  (c =? 9) || (c =? 10) || (c =? 13) || (c =? 32).

(** A parser as the constructor leaves it, with a host that accepts every
    hostname as it is and every selector. *)
Definition freshParser : Parser :=
  newParser false (fun hostname => Some hostname) (fun _ _ => true).

(** The cells of the array after [splitSlot]. *)
Definition splitCell (a : list Z) (slot l k : Z) : Z :=
  if k <? slot + 2 then aget a k
  else if k =? slot + 2 then l
  else if k =? slot + 3 then aget a slot
  else if k =? slot + 4 then aget a (slot + 1) + l
  else if k =? slot + 5 then aget a (slot + 2) - l
  else aget a (k - 3).

(** The parser held by a [flow]. *)
Definition flowState (f : flow) : Parser :=
  match f with Return p => p | ToAnalyzeNet p => p end.

(** The state of the loop of [NetOptionsIterator.init] after [n] options,
    started on a parser with flavor bits [flavor]: every descriptor stored is
    a value of the table or [OPTTokenInvalid], [redirectIndex] and [cspIndex]
    point to the only descriptors of their kind, and the flavor bits are
    untouched. *)
Definition scanInv (flavor : Z) (n : nat) (s : NetOptionsIterator.scan) : Prop :=
  let o := NetOptionsIterator.s_optSlices s in
  NetOptionsIterator.s_writePtr s = 6 * Z.of_nat n
  /\ (forall k, (k < n)%nat ->
        In (aget o (6 * Z.of_nat k)) (OPTTokenInvalid :: map snd netOptionTokens))
  /\ (forall k, (k < n)%nat ->
        hasBits (aget o (6 * Z.of_nat k)) OPTRedirectType = true ->
        NetOptionsIterator.redirectIndex s = 6 * Z.of_nat k)
  /\ (forall k, (k < n)%nat ->
        (aget o (6 * Z.of_nat k) .& 255 =? OPTTokenCsp) = true ->
        NetOptionsIterator.cspIndex s = 6 * Z.of_nat k)
  /\ (NetOptionsIterator.redirectIndex s = -1
      \/ exists k, (k < n)%nat /\ NetOptionsIterator.redirectIndex s = 6 * Z.of_nat k)
  /\ (NetOptionsIterator.cspIndex s = -1
      \/ exists k, (k < n)%nat /\ NetOptionsIterator.cspIndex s = 6 * Z.of_nat k)
  /\ flavorBits (NetOptionsIterator.s_parser s) = flavor.

(** The item that [next] builds from the record at [6 * k]. *)
Definition itemAt (p : Parser) (o : list Z) (k : nat) : NetOptionsIterator.item_t :=
  let i := 6 * Z.of_nat k in
  NetOptionsIterator.mkItem (aget o (i + 0) .& 255)
    (if negb (aget o (i + 4) =? aget o (i + 5))
     then Some (js_slice (raw p) (aget (slices p) (aget o (i + 4) + 1))
                                 (aget (slices p) (aget o (i + 5) + 1)))
     else None)
    (negb (aget o (i + 2) =? aget o (i + 1))).

(** The shape by which a pattern is told a regex: its first slice carries
    [BITSlash], and it is a single slice of length greater than 2 or its
    last slice carries [BITSlash] too. *)
Definition regexShaped (q : Parser) : bool :=
  let i := Span.i (patternSpan q) in
  let l := Span.l (patternSpan q) in
  hasBits (slotBits q i) BITSlash
  && (((l =? 3) && (slotLength q i >? 2))
      || ((l >? 3) && hasBits (slotBits q (i + l - 3)) BITSlash)).

(** [analyzeNet] before it looks for options, with all that lies between
    the exception declarator and the comment taken as the pattern; and
    [analyzeNet] when the options have been split off, before the anchors,
    the spaces and the wildcards are dealt with. *)
Definition beforeOptions (p : Parser) : Parser :=
  let '(islice, p) := analyzeNet_exception p in
  set_patternSpan (Span.mk islice (Span.i (commentSpan p) - islice)) p.

Definition afterOptions (p : Parser) : Parser :=
  let '(islice, p) := analyzeNet_exception p in
  snd (analyzeNet_options islice p).

(** What the last blocks of [analyzeNet] keep: the regex flavor and the
    length of the options span. *)
Definition keepsRegex (p q : Parser) : Prop :=
  hasBits (flavorBits q) BITFlavorNetRegex = hasBits (flavorBits p) BITFlavorNetRegex
  /\ Span.l (optionsSpan q) = Span.l (optionsSpan p).

(** *** Invariants of the analysis *)

(** The overlay bits, and the class bits of a slice without them. *)
Definition overlayBits : Z := BITIgnore .| BITError.
Definition classOf (b : Z) : Z := b .& Z.lnot overlayBits.

(** The slice array describes the text: the slices below the end-of-line
    slice are not empty, each ends where the next starts, the first starts
    at 0, the end-of-line slice at the end of the text, and the characters of
    a slice have the class bits recorded for it. *)
Definition sliceOK (p : Parser) (k : Z) : Prop :=
  0 < slotLength p k /\ 0 <= slotOrigin p k
  /\ slotOrigin p k + slotLength p k = slotOrigin p (k + 3)
  /\ forall x, slotOrigin p k <= x < slotOrigin p (k + 3) ->
       charBits (nth (Z.to_nat x) (raw p) 0) = classOf (slotBits p k).

Definition slicesOK (p : Parser) : Prop :=
  let W := sliceWritePtr p in
  W mod 3 = 0 /\ 6 <= W <= Z.of_nat (length (slices p))
  /\ slotOrigin p 0 = 0
  /\ slotOrigin p (W - 3) = Z.of_nat (length (raw p))
  /\ slotLength p (W - 3) = 0
  /\ forall k, 0 <= k -> k mod 3 = 0 -> k + 3 <= W - 3 -> sliceOK p k.

(** Two arrays with the same cells below the write pointer [W]. *)
Definition cellsAgree (W : Z) (a b : list Z) : Prop :=
  W <= Z.of_nat (length b) /\ forall k, 0 <= k < W -> aget b k = aget a k.

(** The spans set by [slice]: left space, right space and end of line. *)
Definition spaceLayout (p : Parser) : Prop :=
  let W := sliceWritePtr p in
  Span.i (leftSpaceSpan p) = 0
  /\ (Span.l (leftSpaceSpan p) = 0 \/ Span.l (leftSpaceSpan p) = 3)
  /\ (Span.l (rightSpaceSpan p) = 0 \/ Span.l (rightSpaceSpan p) = 3)
  /\ Span.i (rightSpaceSpan p) + Span.l (rightSpaceSpan p) = W - 3
  /\ Span.l (leftSpaceSpan p) <= Span.i (rightSpaceSpan p)
  /\ Span.i (eolSpan p) = W - 3 /\ Span.l (eolSpan p) = 0.

(** The spans of a network filter, from left to right.  With [tight] each
    span ends where the next one starts; without, slices may have been left
    out on both sides of the pattern. *)
Definition netLayout (tight : bool) (p : Parser) : Prop :=
  let la := patternLeftAnchorSpan p in
  let pa := patternSpan p in
  let ra := patternRightAnchorSpan p in
  let oa := optionsAnchorSpan p in
  let o := optionsSpan p in
  let c := commentSpan p in
  0 <= Span.i la /\ Span.i la mod 3 = 0
  /\ (Span.l la = 0 \/ Span.l la = 3)
  /\ (if tight then Span.i la + Span.l la = Span.i pa
      else Span.i la + Span.l la <= Span.i pa)
  /\ Span.i pa mod 3 = 0 /\ 0 <= Span.l pa /\ Span.l pa mod 3 = 0
  /\ (if tight then Span.i pa + Span.l pa = Span.i ra
      else Span.i pa + Span.l pa <= Span.i ra)
  /\ (Span.l ra = 0 \/ Span.l ra = 3)
  /\ Span.i ra + Span.l ra = Span.i oa
  /\ (Span.l oa = 0 \/ Span.l oa = 3)
  /\ Span.i oa + Span.l oa = Span.i o
  /\ 0 <= Span.l o /\ Span.i o + Span.l o = Span.i c
  /\ Span.i c mod 3 = 0 /\ Span.i c <= Span.i (rightSpaceSpan p)
  /\ Span.i ra mod 3 = 0.

(** Sum of the lengths of the ten named spans. *)
Definition spanLengths (p : Parser) : Z :=
  Span.l (leftSpaceSpan p) + Span.l (exceptionSpan p)
  + Span.l (patternLeftAnchorSpan p) + Span.l (patternSpan p)
  + Span.l (patternRightAnchorSpan p) + Span.l (optionsAnchorSpan p)
  + Span.l (optionsSpan p) + Span.l (commentSpan p)
  + Span.l (rightSpaceSpan p) + Span.l (eolSpan p).

(** Number of cells of the slices other than the end-of-line slice. *)
Definition nonSentinelCells (p : Parser) : Z := sliceWritePtr p - 3.

(** A second parser that differs from the first only by the cells of the
    slice array at or above the write pointer. *)
Definition related (p p2 : Parser) : Prop :=
  p2 = set_slices (slices p2) p
  /\ cellsAgree (sliceWritePtr p) (slices p) (slices p2).

(** Two parsers made for the same host: what the constructor and
    [setMaxTokenLength] set is the same in both. *)
Definition sameHost (p q : Parser) : Prop :=
  interactive q = interactive p /\ maxTokenLength q = maxTokenLength p
  /\ punycoder q = punycoder p /\ compileSelector q = compileSelector p.

(** The bits of the last slices: the end-of-line slice has none, and a
    right space slice has those of a space. *)
Definition endBits (p : Parser) : Prop :=
  slotBits p (sliceWritePtr p - 3) = 0
  /\ (Span.l (rightSpaceSpan p) = 3 -> slotBits p (Span.i (rightSpaceSpan p)) = BITSpace).

(** The spans on which [analyze] has not worked yet. *)
Definition spansUnset (p : Parser) : Prop :=
  exceptionSpan p = Span.reset /\ patternLeftAnchorSpan p = Span.reset
  /\ patternSpan p = Span.reset /\ patternRightAnchorSpan p = Span.reset
  /\ optionsAnchorSpan p = Span.reset /\ optionsSpan p = Span.reset.

(** The parser when [analyzeExt] is called. *)
Definition extPre (p : Parser) : Prop :=
  slicesOK p /\ spaceLayout p /\ spansUnset p /\ Span.l (commentSpan p) = 0.

(** The comment span when [analyzeNet] is called: it starts at the right
    space, or an inline comment was found in a line with spaces. *)
Definition commentLayout (p : Parser) : Prop :=
  let c := commentSpan p in
  Span.i c mod 3 = 0 /\ 0 <= Span.i c <= Span.i (rightSpaceSpan p) /\ 0 <= Span.l c
  /\ Span.i c + Span.l c <= Span.i (rightSpaceSpan p)
  /\ ((Span.l c = 0 /\ Span.i c = Span.i (rightSpaceSpan p))
      \/ hasBits (allBits p) BITSpace = true).

(** The parser when [analyzeNet] is called. *)
Definition netEntry (p : Parser) : Prop :=
  slicesOK p /\ spaceLayout p /\ spansUnset p /\ commentLayout p
  /\ flavorBits p = 0 /\ allBits p = bitsOf (raw p)
  /\ (Span.l (leftSpaceSpan p) = 3 <-> hasBits (slotBits p 0) BITSpace = true).

(** The pattern span is empty or lies below the end-of-line slice. *)
Definition patternInRange (p : Parser) : Prop :=
  Span.l (patternSpan p) = 0
  \/ (0 < Span.l (patternSpan p)
      /\ Span.i (patternSpan p) + Span.l (patternSpan p) + 3 <= sliceWritePtr p).

(** The parser when [analyzeExt] has found an extended filter. *)
Definition extLayout (p : Parser) : Prop :=
  slicesOK p /\ spaceLayout p
  /\ 0 <= Span.i (patternSpan p) /\ 0 <= Span.l (patternSpan p)
  /\ Span.i (patternSpan p) + Span.l (patternSpan p) = Span.i (rightSpaceSpan p)
  /\ spanLengths p = nonSentinelCells p.

(** The result of [analyzeExt] on [p]: nothing done, or an extended
    filter. *)
Definition extResult (p q : Parser) : Prop :=
  q = p \/ (category q = CATStaticExtFilter /\ extLayout q).

(** The parser when [analyze] returns before [analyzeNet]. *)
Definition returned (r : Parser) : Prop :=
  category r <> CATStaticNetFilter /\ patternInRange r
  /\ (category r = CATStaticExtFilter -> extLayout r)
  /\ ((raw r = [] /\ sliceWritePtr r = 0) \/ slicesOK r).

(** What [analyze] has done before [analyzeNet], on a parser and on a
    related one: both return, or both go on with [analyzeNet]. *)
Definition headResult (f f2 : flow) : Prop :=
  match f, f2 with
  | Return r, Return r2 => related r r2 /\ returned r
  | ToAnalyzeNet q, ToAnalyzeNet q2 => related q q2 /\ netEntry q
  | _, _ => False
  end.

(** What holds of the slices and of the outer spans all through
    [analyzeNet]. *)
Definition netBase (p : Parser) : Prop :=
  slicesOK p /\ spaceLayout p /\ commentLayout p /\ allBits p = bitsOf (raw p)
  /\ (Span.l (leftSpaceSpan p) = 3 <-> hasBits (slotBits p 0) BITSpace = true).

(** The exception span and the slot [islice] that follows it. *)
Definition exceptionLayout (islice : Z) (p : Parser) : Prop :=
  (islice = 0 \/ (islice = 3 /\ hasBits (slotBits p 0) BITAt = true))
  /\ Span.l (exceptionSpan p) = islice.

(** [analyzeNet] after the block for the exception declarator. *)
Definition afterException (islice : Z) (p : Parser) : Prop :=
  netBase p /\ exceptionLayout islice p /\ islice <= Span.i (commentSpan p)
  /\ patternLeftAnchorSpan p = Span.reset /\ patternSpan p = Span.reset
  /\ patternRightAnchorSpan p = Span.reset /\ optionsAnchorSpan p = Span.reset
  /\ optionsSpan p = Span.reset
  /\ hasBits (flavorBits p) BITFlavorNetRegex = false.

(** [analyzeNet] after the block for the options. *)
Definition optionsLayout (islice : Z) (p : Parser) : Prop :=
  netBase p /\ exceptionLayout islice p
  /\ patternLeftAnchorSpan p = Span.reset /\ patternRightAnchorSpan p = Span.reset
  /\ Span.i (patternSpan p) = islice
  /\ 0 <= Span.l (patternSpan p) /\ Span.l (patternSpan p) mod 3 = 0
  /\ Span.i (patternSpan p) + Span.l (patternSpan p) = Span.i (optionsAnchorSpan p)
  /\ (Span.l (optionsAnchorSpan p) = 0 \/ Span.l (optionsAnchorSpan p) = 3)
  /\ Span.i (optionsAnchorSpan p) + Span.l (optionsAnchorSpan p) = Span.i (optionsSpan p)
  /\ 0 <= Span.l (optionsSpan p)
  /\ Span.i (optionsSpan p) + Span.l (optionsSpan p) = Span.i (commentSpan p).

(** [analyzeNet] when it has assumed that there are no options. *)
Definition assumedLayout (islice : Z) (p : Parser) : Prop :=
  netBase p /\ exceptionLayout islice p
  /\ patternLeftAnchorSpan p = Span.reset /\ patternRightAnchorSpan p = Span.reset
  /\ patternSpan p = Span.mk islice (Span.i (commentSpan p) - islice)
  /\ optionsAnchorSpan p = Span.mk (Span.i (commentSpan p)) 0
  /\ optionsSpan p = Span.mk (Span.i (commentSpan p)) 0
  /\ islice <= Span.i (commentSpan p)
  /\ hasBits (flavorBits p) BITFlavorNetRegex = false.

(** A token that starts the pattern is not kept from being used by the
    slice before the pattern: there is none, it is not a wildcard, or the
    pattern does not start with a token. *)
Definition patternLeftOK (p : Parser) : Prop :=
  Span.i (patternSpan p) = 0
  \/ hasBits (slotBits p (Span.i (patternSpan p) - 3)) BITAsterisk = false
  \/ hasBits (slotBits p (Span.i (patternSpan p))) BITPatternToken = false.

(** [analyzeNet] after the block for the anchors. *)
Definition anchorsLayout (tight : bool) (p : Parser) : Prop :=
  netBase p /\ netLayout tight p
  /\ Span.i (patternLeftAnchorSpan p) = Span.l (exceptionSpan p)
  /\ patternLeftOK p.

(** A line analysed as a network filter.  The spans are in order and do not
    overlap; when the line has neither spaces nor wildcards, each span ends
    where the next starts. *)
Definition netFinal (p : Parser) : Prop :=
  category p = CATStaticNetFilter /\ anchorsLayout false p
  /\ (hasBits (allBits p) BITSpace = false -> hasBits (allBits p) BITAsterisk = false ->
      netLayout true p).

(** The parser after [analyze]. *)
Definition analyzed (p : Parser) : Prop := netFinal p \/ returned p.

(** What a client can observe of the parser after [analyze]: the category,
    the bits, the text, the ten spans, the slices below the write pointer
    and the pattern that [getNetPattern] extracts. *)
Record observation : Type := mkObservation {
  obs_category : Z;
  obs_flavorBits : Z;
  obs_allBits : Z;
  obs_patternBits : Z;
  obs_optionsBits : Z;
  obs_raw : list Z;
  obs_spans : list Span.t;
  obs_sliceWritePtr : Z;
  obs_slices : list Z;
  obs_pattern : list Z
}.

Definition observable (p : Parser) : observation :=
  mkObservation (category p) (flavorBits p) (allBits p) (patternBits p) (optionsBits p)
    (raw p)
    [leftSpaceSpan p; exceptionSpan p; patternLeftAnchorSpan p; patternSpan p;
     patternRightAnchorSpan p; optionsAnchorSpan p; optionsSpan p; commentSpan p;
     rightSpaceSpan p; eolSpan p]
    (sliceWritePtr p)
    (firstn (Z.to_nat (sliceWritePtr p)) (slices p))
    (fst (getNetPattern p)).

(** *** Vocabulary of the further properties *)

(** The slices written by [slice] are maximal: a slice and the one after it
    (the end-of-line slice aside) do not have the same bits. *)
Definition runsDiffer (p : Parser) : Prop :=
  forall k, 0 <= k -> k mod 3 = 0 -> k + 6 < sliceWritePtr p ->
    slotBits p k <> slotBits p (k + 3).

(** The spans of an extended filter, from left to right: left space,
    options, options anchor, pattern, right space; each ends where the next
    starts. *)
Definition extOrder (p : Parser) : Prop :=
  let ls := leftSpaceSpan p in
  let o := optionsSpan p in
  let oa := optionsAnchorSpan p in
  let pa := patternSpan p in
  Span.i o = Span.i ls + Span.l ls /\ 0 <= Span.l o
  /\ Span.i o + Span.l o = Span.i oa
  /\ 0 < Span.l oa /\ Span.i oa + Span.l oa = Span.i pa
  /\ Span.i pa + Span.l pa = Span.i (rightSpaceSpan p)
  /\ Span.i oa mod 3 = 0 /\ Span.i pa mod 3 = 0.

(** ** Queries on the pattern *)

Definition patternIsDubious (p : Parser) : bool :=
  negb (patternBits p =? BITAsterisk)
  && (Span.l (optionsSpan p) =? 0)
  && (Span.l (patternSpan p) =? 3)
  && (aget (slices p) (Span.i (patternSpan p) + 2) =? 1).

Definition patternIsPlainHostname (p : Parser) : bool :=
  if hasBits (patternBits p) (Z.lnot BITHostname)
     || (hasBits (flavorBits p) BITFlavorNetAnchor
         && hasNotAllBits (flavorBits p) BITFlavorNetHnAnchor)
  then false
  else
    let i := Span.i (patternSpan p) in
    let l := Span.l (patternSpan p) in
    hasBits (aget (slices p) i) BITAlphaNum
    && hasBits (aget (slices p) (i + l - 3)) BITAlphaNum.

Definition patternIsLeftHostnameAnchored (p : Parser) : bool :=
  hasBits (flavorBits p) BITFlavorNetLeftHnAnchor.

Definition patternIsRightHostnameAnchored (p : Parser) : bool :=
  hasBits (flavorBits p) BITFlavorNetRightHnAnchor.

Definition patternIsLeftAnchored (p : Parser) : bool :=
  hasBits (flavorBits p) BITFlavorNetLeftURLAnchor.

Definition patternIsRightAnchored (p : Parser) : bool :=
  hasBits (flavorBits p) BITFlavorNetRightURLAnchor.

Definition patternHasWildcard (p : Parser) : bool := hasBits (patternBits p) BITAsterisk.
Definition patternHasCaret (p : Parser) : bool := hasBits (patternBits p) BITCaret.
Definition patternHasUppercase (p : Parser) : bool := hasBits (patternBits p) BITUppercase.
Definition patternHasSpace (p : Parser) : bool :=
  hasBits (flavorBits p) BITFlavorNetSpaceInPattern.

Definition patternHasLeadingWildcard (p : Parser) : bool :=
  if Bool.eqb (hasBits (patternBits p) BITAsterisk) false then false
  else
    let i := Span.i (patternSpan p) in
    let l := Span.l (patternSpan p) in
    negb (l =? 0) && hasBits (aget (slices p) i) BITAsterisk.

Definition patternHasTrailingWildcard (p : Parser) : bool :=
  if Bool.eqb (hasBits (patternBits p) BITAsterisk) false then false
  else
    let i := Span.i (patternSpan p) in
    let l := Span.l (patternSpan p) in
    negb (l =? 0) && hasBits (aget (slices p) (i + l - 1)) BITAsterisk.

(** [getPattern] shares the cache [pattern] with [getNetPattern]. *)
Definition getPattern (p : Parser) : list Z * Parser :=
  match pattern p with
  | _ :: _ => (pattern p, p)
  | [] =>
      let i := Span.i (patternSpan p) in
      let l := Span.l (patternSpan p) in
      if l =? 0 then ([], p)
      else
        let beg := aget (slices p) (i + 1) in
        let end_ := aget (slices p) (i + l + 1) in
        let s := js_slice (raw p) beg end_ in
        (s, set_pattern s p)
  end.

(** The pattern bits hold the class bits of the slices of the pattern, a
    first slice of whitespace aside. *)
Definition patternCovered (p : Parser) : Prop :=
  forall k,
    Span.i (patternSpan p) <= k < Span.i (patternSpan p) + Span.l (patternSpan p) ->
    (k - Span.i (patternSpan p)) mod 3 = 0 ->
    (k = Span.i (patternSpan p) /\ hasBits (slotBits p k) BITSpace = true)
    \/ classOf (slotBits p k) .| patternBits p = patternBits p.

(** The characters that [BITHostname] stands for. *)
Definition isHostnameChar (c : Z) : bool :=
  ((48 <=? c) && (c <=? 57)) || ((65 <=? c) && (c <=? 90)) || ((97 <=? c) && (c <=? 122))
  || (c =? 45) || (c =? 46) || (c =? 95) || (128 <=? c).

Definition isAlphaNumChar (c : Z) : bool :=
  ((48 <=? c) && (c <=? 57)) || ((65 <=? c) && (c <=? 90)) || ((97 <=? c) && (c <=? 122))
  || (128 <=? c).

(** ** Vocabulary of the pattern tokens *)

(** [[sl, sr)] is a maximal run of slices with pattern-token bits within
    the pattern span. *)
Definition isRun (p : Parser) (sl sr : Z) : Prop :=
  let i := Span.i (patternSpan p) in
  let r := i + Span.l (patternSpan p) in
  i <= sl /\ sl < sr /\ sr <= r /\ (sl - i) mod 3 = 0 /\ (sr - i) mod 3 = 0
  /\ (forall k, sl <= k < sr -> (k - i) mod 3 = 0 ->
        hasBits (slotBits p k) BITPatternToken = true)
  /\ (sl = i \/ hasBits (slotBits p (sl - 3)) BITPatternToken = false)
  /\ (sr = r \/ hasBits (slotBits p sr) BITPatternToken = false).

(** The run is not kept from being used by a wildcard next to it: no [*]
    before it, and no [*] after it unless it is long enough. *)
Definition runAccepted (p : Parser) (sl sr : Z) : Prop :=
  let i := Span.i (patternSpan p) in
  let r := i + Span.l (patternSpan p) in
  (sl = i \/ hasBits (slotBits p (sl - 3)) BITAsterisk = false)
  /\ (sr = r \/ hasBits (slotBits p sr) BITAsterisk = false
      \/ slotOrigin p sr - slotOrigin p sl >= maxTokenLength p).

(** The value yielded for a run: its text, and where it starts in the text
    of the pattern span. *)
Definition valueOfRun (p : Parser) (run : Z * Z) : PatternTokenIterator.value_t :=
  PatternTokenIterator.mkValue
    (js_slice (raw p) (slotOrigin p (fst run)) (slotOrigin p (snd run)))
    (slotOrigin p (fst run) - slotOrigin p (Span.i (patternSpan p))).

(** The runs of a list come one after the other. *)
Fixpoint runsInOrder (from : Z) (runs : list (Z * Z)) : Prop :=
  match runs with
  | [] => True
  | (sl, sr) :: rest => from <= sl /\ sl < sr /\ runsInOrder (sr + 3) rest
  end.

(** The characters that [BITPatternToken] stands for. *)
Definition isTokenChar (c : Z) : bool :=
  ((48 <=? c) && (c <=? 57)) || ((65 <=? c) && (c <=? 90)) || ((97 <=? c) && (c <=? 122))
  || (c =? 37) || (128 <=? c).

(** ** Vocabulary of the options of a network filter *)

(** What [init] checks of a descriptor against the context of the option:
    whether it is negated, whether it has a value, whether the filter is an
    exception. *)
Definition descriptorRules (exception_ negated hasVal : bool) (d : Z) : Prop :=
  (negated = true -> hasBits d OPTCanNegate = true)
  /\ (exception_ = true -> hasBits d OPTBlockOnly = false)
  /\ (exception_ = false -> hasBits d OPTAllowOnly = false)
  /\ (hasVal = true -> hasBits d OPTMustAssign = true)
  /\ (hasVal = false -> hasBits d OPTMustAssign = true ->
      exception_ = true /\ hasBits d OPTAllowMayAssign = true).

(** The record of an option at [w] in the array of the iterator. *)
Definition recordOK (exception_ : bool) (o : list Z) (w : Z) : Prop :=
  aget o w = OPTTokenInvalid
  \/ ((exists name, In (name, aget o w) netOptionTokens)
      /\ descriptorRules exception_ (negb (aget o (w + 2) =? aget o (w + 1)))
           (negb (aget o (w + 4) =? aget o (w + 5))) (aget o w)).

(** An item as the loop body sees it: the invalid id, or the id of a
    descriptor of the table that fits the context. *)
Definition itemOK (exception_ : bool) (x : NetOptionsIterator.item_t) : Prop :=
  NetOptionsIterator.id x = OPTTokenInvalid
  \/ exists name d,
       In (name, d) netOptionTokens /\ NetOptionsIterator.id x = d .& 255
       /\ descriptorRules exception_ (NetOptionsIterator.not x)
            (match NetOptionsIterator.val x with Some _ => true | None => false end) d.

(** ** The flavor bits *)

(** A step that leaves the flavor bits under the mask [m] as they were. *)
Definition keepsFlavor (m : Z) (p q : Parser) : Prop :=
  hasBits (flavorBits q) m = hasBits (flavorBits p) m.

(** A step that leaves the cached pattern as it was. *)
Definition keepsPattern (p q : Parser) : Prop := pattern q = pattern p.

(** * Properties *)

(** Reduction of the fields of an updated parser. *)
Ltac psimpl :=
  cbn [interactive raw slices leftSpaceSpan exceptionSpan patternLeftAnchorSpan
       patternSpan patternRightAnchorSpan optionsAnchorSpan optionsSpan commentSpan
       rightSpaceSpan eolSpan maxTokenLength punycoder compileSelector sliceWritePtr
       category allBits patternBits optionsBits flavorBits pattern
       set_raw set_slices set_leftSpaceSpan set_exceptionSpan set_patternLeftAnchorSpan
       set_patternSpan set_patternRightAnchorSpan set_optionsAnchorSpan set_optionsSpan
       set_commentSpan set_rightSpaceSpan set_eolSpan set_maxTokenLength
       set_sliceWritePtr set_category set_allBits set_patternBits set_optionsBits
       set_flavorBits set_pattern reset orFlavor andNotFlavor ignoreSlice
       Span.i Span.l Span.set_i Span.set_l Span.reset fst snd] in *.

(** ** Arrays *)

Lemma aget_nth (a : list Z) (k : Z) :
  0 <= k -> aget a k = nth (Z.to_nat k) a 0.
Proof.
  intros H. unfold aget. destruct (k <? 0) eqn:E; [apply Z.ltb_lt in E; lia | reflexivity].
Qed.

Lemma aget_neg (a : list Z) (k : Z) : k < 0 -> aget a k = 0.
Proof.
  intros H. unfold aget. apply Z.ltb_lt in H. now rewrite H.
Qed.

Lemma aget_beyond (a : list Z) (k : Z) : Z.of_nat (length a) <= k -> aget a k = 0.
Proof.
  intros H. rewrite aget_nth by lia. apply nth_overflow. lia.
Qed.

Lemma length_aset (a : list Z) (k v : Z) :
  0 <= k -> Z.of_nat (length (aset a k v)) = Z.max (Z.of_nat (length a)) (k + 1).
Proof.
  intros H. unfold aset.
  destruct (k <? 0) eqn:E; [apply Z.ltb_lt in E; lia|].
  destruct (Nat.ltb_spec (Z.to_nat k) (length a)) as [L|L].
  - rewrite length_app, length_firstn. cbn [length]. rewrite length_skipn. lia.
  - rewrite !length_app, repeat_length. cbn [length]. lia.
Qed.

Lemma length_aset_ge (a : list Z) (k v : Z) :
  (length a <= length (aset a k v))%nat.
Proof.
  destruct (Z.ltb_spec k 0) as [H|H].
  - unfold aset. apply Z.ltb_lt in H. rewrite H. lia.
  - pose proof (length_aset a k v H). lia.
Qed.

Lemma aget_aset_eq (a : list Z) (k v : Z) : 0 <= k -> aget (aset a k v) k = v.
Proof.
  intros H. rewrite aget_nth by lia. unfold aset.
  destruct (k <? 0) eqn:E; [apply Z.ltb_lt in E; lia|].
  destruct (Nat.ltb_spec (Z.to_nat k) (length a)) as [L|L].
  - rewrite app_nth2; rewrite length_firstn; [|lia].
    replace (Z.to_nat k - Nat.min (Z.to_nat k) (length a))%nat with 0%nat by lia.
    reflexivity.
  - rewrite app_nth2 by lia. rewrite app_nth2; rewrite repeat_length; [|lia].
    replace (Z.to_nat k - length a - (Z.to_nat k - length a))%nat with 0%nat by lia.
    reflexivity.
Qed.

Lemma aget_aset_neq (a : list Z) (k j v : Z) : j <> k -> aget (aset a k v) j = aget a j.
Proof.
  intros H. unfold aset.
  destruct (Z.ltb_spec k 0) as [K|K]; [reflexivity|].
  destruct (Z.ltb_spec j 0) as [J|J]; [now rewrite !aget_neg|].
  rewrite !aget_nth by lia.
  assert (N : Z.to_nat j <> Z.to_nat k) by lia.
  destruct (Nat.ltb_spec (Z.to_nat k) (length a)) as [L|L].
  - destruct (Nat.lt_ge_cases (Z.to_nat j) (Z.to_nat k)) as [C|C].
    + rewrite app_nth1 by (rewrite length_firstn; lia).
      rewrite nth_firstn. destruct (Nat.ltb_spec (Z.to_nat j) (Z.to_nat k)); [reflexivity|lia].
    + rewrite app_nth2; rewrite length_firstn; [|lia].
      replace (Nat.min (Z.to_nat k) (length a)) with (Z.to_nat k) by lia.
      destruct (Z.to_nat j - Z.to_nat k)%nat as [|m] eqn:M; [lia|].
      cbn [nth]. rewrite nth_skipn. f_equal. lia.
  - destruct (Nat.lt_ge_cases (Z.to_nat j) (length a)) as [C|C].
    + now rewrite app_nth1 by lia.
    + rewrite app_nth2 by lia. rewrite (nth_overflow a) by lia.
      destruct (Nat.lt_ge_cases (Z.to_nat j - length a) (Z.to_nat k - length a)) as [D|D].
      * rewrite app_nth1 by (rewrite repeat_length; lia).
        apply nth_repeat_lt; lia.
      * rewrite app_nth2; rewrite repeat_length; [|lia].
        destruct (Z.to_nat j - length a - (Z.to_nat k - length a))%nat as [|m] eqn:M; [lia|].
        cbn [nth]. now destruct m.
Qed.

Lemma aget_aset (a : list Z) (k j v : Z) :
  0 <= k -> aget (aset a k v) j = if j =? k then v else aget a j.
Proof.
  intros H. destruct (Z.eqb_spec j k) as [->|N].
  - now apply aget_aset_eq.
  - now apply aget_aset_neq.
Qed.

Ltac aget_simpl :=
  repeat (rewrite aget_aset by lia);
  repeat match goal with
         | |- context [Z.eqb ?x ?y] => destruct (Z.eqb_spec x y); try lia
         end.

Lemma aget_app_l (a b : list Z) (k : Z) :
  k < Z.of_nat (length a) -> aget (a ++ b) k = aget a k.
Proof.
  intros H. destruct (Z.ltb_spec k 0) as [K|K]; [now rewrite !aget_neg|].
  rewrite !aget_nth by lia. apply app_nth1. lia.
Qed.

Lemma aget_zeros (a : list Z) (k : Z) : aget (a ++ [0; 0; 0]) k = aget a k.
Proof.
  destruct (Z.ltb_spec k (Z.of_nat (length a))) as [H|H].
  - now apply aget_app_l.
  - rewrite (aget_beyond a) by lia. rewrite aget_nth by lia.
    rewrite app_nth2 by lia.
    destruct (Z.to_nat k - length a)%nat as [|[|[|[|m]]]]; reflexivity.
Qed.

(** [copyWithin] as used by [splitSlot]: the cells from [slot] up to [wp]
    move three places up. *)
Lemma aget_copyWithin_up (a : list Z) (slot wp k : Z) :
  0 <= slot -> slot <= wp -> wp + 3 <= Z.of_nat (length a) -> 0 <= k < wp + 3 ->
  aget (copyWithin a (slot + 3) slot wp) k
  = if k <? slot + 3 then aget a k else aget a (k - 3).
Proof.
  intros Hs Hw Hl Hk. unfold copyWithin.
  destruct (Z.ltb_spec (slot + 3) 0); [lia|].
  destruct (Z.ltb_spec slot 0); [lia|].
  destruct (Z.ltb_spec wp 0); [lia|].
  rewrite !Z.min_l by lia.
  destruct (Z.leb_spec (wp - slot) 0) as [E|E].
  - assert (wp = slot) by lia. subst wp.
    destruct (Z.ltb_spec k (slot + 3)); [reflexivity|lia].
  - rewrite !aget_nth by lia.
    destruct (Z.ltb_spec k (slot + 3)) as [C|C].
    + rewrite app_nth1 by (rewrite length_firstn; lia).
      rewrite nth_firstn. destruct (Nat.ltb_spec (Z.to_nat k) (Z.to_nat (slot + 3))); [reflexivity|lia].
    + rewrite app_nth2; rewrite length_firstn; [|lia].
      replace (Nat.min (Z.to_nat (slot + 3)) (length a)) with (Z.to_nat (slot + 3)) by lia.
      rewrite app_nth1 by (rewrite length_firstn, length_skipn; lia).
      rewrite nth_firstn.
      destruct (Nat.ltb_spec (Z.to_nat k - Z.to_nat (slot + 3)) (Z.to_nat (wp - slot))); [|lia].
      rewrite nth_skipn, (aget_nth a (k - 3)) by lia. f_equal; lia.
Qed.

Lemma length_copyWithin (a : list Z) (t s e : Z) :
  length (copyWithin a t s e) = length a.
Proof.
  unfold copyWithin.
  set (len := Z.of_nat (length a)).
  set (rel := fun x => if x <? 0 then Z.max (len + x) 0 else Z.min x len).
  assert (R : forall x, 0 <= rel x <= len).
  { intros x. unfold rel. destruct (Z.ltb_spec x 0); lia. }
  pose proof (R t). pose proof (R s). pose proof (R e).
  change (length (if Z.min (rel e - rel s) (len - rel t) <=? 0 then a
                  else firstn (Z.to_nat (rel t)) a
                         ++ firstn (Z.to_nat (Z.min (rel e - rel s) (len - rel t)))
                              (skipn (Z.to_nat (rel s)) a)
                         ++ skipn (Z.to_nat (rel t + Z.min (rel e - rel s) (len - rel t))) a)
          = length a).
  destruct (Z.leb_spec (Z.min (rel e - rel s) (len - rel t)) 0); [reflexivity|].
  rewrite !length_app, !length_firstn, !length_skipn. lia.
Qed.

(** ** The slicer *)

Lemma bitsOf_app (s t : list Z) : bitsOf (s ++ t) = bitsOf s .| bitsOf t.
Proof.
  induction s as [|c s IH]; cbn [bitsOf fold_right app].
  - reflexivity.
  - change (fold_right (fun c acc => charBits c .| acc) 0 (s ++ t)) with (bitsOf (s ++ t)).
    rewrite IH. apply Z.lor_assoc.
Qed.

Lemma bitsOf_snoc (s : list Z) (c : Z) : bitsOf (s ++ [c]) = bitsOf s .| charBits c.
Proof.
  rewrite bitsOf_app. cbn [bitsOf fold_right]. now rewrite Z.lor_0_r.
Qed.

Lemma bitsOf_absorb (s : list Z) (c : Z) :
  In c s -> bitsOf s .| charBits c = bitsOf s.
Proof.
  induction s as [|d s IH]; intros H; [destruct H|].
  cbn [bitsOf fold_right].
  change (fold_right (fun c acc => charBits c .| acc) 0 s) with (bitsOf s).
  destruct H as [->|H].
  - rewrite (Z.lor_comm (charBits c)), <- Z.lor_assoc, Z.lor_diag. reflexivity.
  - rewrite <- Z.lor_assoc, IH by assumption. reflexivity.
Qed.

Lemma firstn_succ_nth (s : list Z) (n : nat) :
  (n < length s)%nat -> firstn (S n) s = firstn n s ++ [nth n s 0].
Proof.
  revert n. induction s as [|c s IH]; intros n H; cbn [length] in H; [lia|].
  destruct n as [|n]; [reflexivity|].
  cbn [firstn nth app]. f_equal. apply IH. lia.
Qed.

Lemma skipn_cons_nth (s rest : list Z) (c : Z) (n : nat) :
  skipn n s = c :: rest -> nth n s 0 = c /\ skipn (S n) s = rest /\ (n < length s)%nat.
Proof.
  revert n. induction s as [|d s IH]; intros n H.
  - destruct n; discriminate.
  - destruct n as [|n].
    + cbn in H. injection H as -> ->. cbn. repeat split. lia.
    + cbn [skipn] in H. destruct (IH n H) as (A & B & C).
      cbn [nth length]. repeat split; [assumption|assumption|lia].
Qed.

Ltac split_all := repeat match goal with |- _ /\ _ => split end.

Lemma slice_loop_inv (raw_ : list Z) :
  forall rest a ptr allBits_ aBits i j,
    sliceLoopInv raw_ a ptr allBits_ aBits i j ->
    rest = skipn (Z.to_nat j) raw_ ->
    forall a' ptr' allBits' i' j',
      slice_loop rest a ptr allBits_ aBits i j = (a', ptr', allBits', i', j') ->
      sliceLoopInv raw_ a' ptr' allBits' (aget a' (ptr' - 2)) i' j'
      /\ j' = Z.of_nat (length raw_).
Proof.
  induction rest as [|c rest IH]; intros a ptr allBits_ aBits i j Inv Hrest a' ptr' allBits' i' j' E.
  - cbn [slice_loop] in E. injection E as <- <- <- <- <-.
    destruct Inv as (I1 & I2 & I3 & I4 & I5 & I6 & I7 & I8 & I9 & I10).
    split.
    + rewrite I3. unfold sliceLoopInv. split_all; try assumption; try lia.
    + assert (L : (length raw_ <= Z.to_nat j)%nat).
      { rewrite <- (firstn_skipn (Z.to_nat j) raw_) at 1. rewrite <- Hrest, app_nil_r.
        rewrite length_firstn. lia. }
      lia.
  - symmetry in Hrest. apply skipn_cons_nth in Hrest. destruct Hrest as (Hc & Hs & Hl).
    destruct Inv as (I1 & I2 & I3 & I4 & I5 & I6 & I7 & I8 & I9 & I10).
    cbn [slice_loop] in E.
    assert (F : bitsOf (firstn (Z.to_nat (j + 1)) raw_) = allBits_ .| charBits c).
    { replace (Z.to_nat (j + 1)) with (S (Z.to_nat j)) by lia.
      rewrite firstn_succ_nth by assumption. rewrite bitsOf_snoc, Hc. now subst allBits_. }
    destruct (Z.eqb_spec (charBits c) aBits) as [Q|Q]; cbn [negb] in E.
    + (* same class: the open slice grows *)
      eapply IH; [|symmetry; replace (Z.to_nat (j + 1)) with (S (Z.to_nat j)) by lia; exact Hs|exact E].
      unfold sliceLoopInv. split_all; try assumption; try lia.
      * intros x Hx. destruct (Z.eq_dec x j) as [->|N]; [now rewrite Hc|apply I8; lia].
      * rewrite F. subst allBits_. rewrite Q.
        assert (In (nth (Z.to_nat (j - 1)) raw_ 0) (firstn (Z.to_nat j) raw_)).
        { replace (nth (Z.to_nat (j - 1)) raw_ 0)
            with (nth (Z.to_nat (j - 1)) (firstn (Z.to_nat j) raw_) 0).
          - apply nth_In. rewrite length_firstn. lia.
          - rewrite nth_firstn. destruct (Nat.ltb_spec (Z.to_nat (j - 1)) (Z.to_nat j)); [reflexivity|lia]. }
        rewrite <- (I8 (j - 1)) by lia. symmetry. now apply bitsOf_absorb.
    + (* new class: the open slice is closed and the next one opened *)
      eapply IH; [|symmetry; replace (Z.to_nat (j + 1)) with (S (Z.to_nat j)) by lia; exact Hs|exact E].
      assert (L1 := length_aset a (ptr + 0) (j - i) ltac:(lia)).
      assert (L2 := length_aset (aset a (ptr + 0) (j - i)) (ptr + 1) (charBits c) ltac:(lia)).
      assert (L3 := length_aset (aset (aset a (ptr + 0) (j - i)) (ptr + 1) (charBits c)) (ptr + 2) j ltac:(lia)).
      assert (G : forall x, x < ptr ->
                  aget (aset (aset (aset a (ptr + 0) (j - i)) (ptr + 1) (charBits c)) (ptr + 2) j) x
                  = aget a x).
      { intros x Hx. rewrite !aget_aset_neq by lia. reflexivity. }
      unfold sliceLoopInv. split_all; try lia.
      * rewrite <- Z.add_mod_idemp_l by lia. rewrite I1. reflexivity.
      * replace (ptr + 3 - 2) with (ptr + 1) by lia.
        rewrite aget_aset_neq by lia. rewrite aget_aset_eq by lia. reflexivity.
      * replace (ptr + 3 - 1) with (ptr + 2) by lia. now rewrite aget_aset_eq by lia.
      * rewrite G by lia. assumption.
      * intros x Hx. assert (x = j) by lia. subst x. now rewrite Hc.
      * intros k K0 K1 K2. unfold slotOK.
        destruct (Z.eq_dec k (ptr - 2)) as [K|K].
        -- replace (k + 4) with (ptr + 2) by lia. rewrite aget_aset_eq by lia.
           rewrite (aget_aset_neq _ (ptr + 2) (k + 2)) by lia.
           rewrite (aget_aset_neq _ (ptr + 1) (k + 2)) by lia.
           replace (k + 2) with (ptr + 0) by lia. rewrite aget_aset_eq by lia.
           rewrite !G by lia. replace (k + 1) with (ptr - 1) by lia.
           replace k with (ptr - 2) by lia.
           rewrite I3, I4. split_all; try lia. intros x Hx. apply I8. lia.
        -- assert (k + 3 <= ptr - 2) by (clear - K K0 K1 K2 I1; Z.div_mod_to_equations; lia).
           rewrite !G by lia. apply (I9 k); lia.
Qed.

Lemma hasBits_negb (v bits : Z) : hasBits v bits = negb (hasNoBits v bits).
Proof. reflexivity. Qed.

Lemma firstn_length_all (s : list Z) : firstn (Z.to_nat (Z.of_nat (length s))) s = s.
Proof. rewrite Nat2Z.id. apply firstn_all. Qed.

Lemma slice_nonempty (c : Z) (rest : list Z) (p : Parser) :
  slicedState (c :: rest) (slice (c :: rest) p).
Proof.
  unfold slice. cbv beta iota zeta.
  cbn [reset set_raw slices sliceWritePtr].
  destruct (slice_loop rest (aset (aset (slices p) (0 + 0) (charBits c)) (0 + 1) 0)
              (0 + 2) (charBits c) (charBits c) 0 1)
    as [[[[a ptr] allBits_] i] j] eqn:E.
  assert (Inv0 : sliceLoopInv (c :: rest) (aset (aset (slices p) (0 + 0) (charBits c)) (0 + 1) 0)
                   (0 + 2) (charBits c) (charBits c) 0 1).
  { assert (L1 := length_aset (slices p) 0 (charBits c) ltac:(lia)).
    assert (L2 := length_aset (aset (slices p) 0 (charBits c)) 1 0 ltac:(lia)).
    unfold sliceLoopInv. cbn [Z.add]. split_all; try lia; try reflexivity.
    - now aget_simpl.
    - now aget_simpl.
    - now aget_simpl.
    - cbn [length]. lia.
    - intros x Hx. assert (x = 0) by lia. subst x. reflexivity.
    - change (Z.to_nat 1) with 1%nat. cbn [firstn bitsOf fold_right].
      now rewrite Z.lor_0_r. }
  destruct (slice_loop_inv (c :: rest) rest _ _ _ _ _ _ Inv0 eq_refl _ _ _ _ _ E)
    as [(I1 & I2 & _ & I4 & I5 & I6 & I7 & I8 & I9 & I10) Hj].
  set (raw_ := c :: rest) in *.
  set (a1 := aset a (ptr + 0) (j - i)) in *.
  set (a2 := aset a1 (ptr + 1 + 0) 0).
  set (a3 := aset a2 (ptr + 1 + 1) (Z.of_nat (length raw_))).
  set (a4 := aset a3 (ptr + 1 + 2) 0).
  assert (L1 := length_aset a (ptr + 0) (j - i) ltac:(lia)). fold a1 in L1.
  assert (L2 := length_aset a1 (ptr + 1 + 0) 0 ltac:(lia)). fold a2 in L2.
  assert (L3 := length_aset a2 (ptr + 1 + 1) (Z.of_nat (length raw_)) ltac:(lia)). fold a3 in L3.
  assert (L4 := length_aset a3 (ptr + 1 + 2) 0 ltac:(lia)). fold a4 in L4.
  assert (G : forall x, x < ptr -> aget a4 x = aget a x).
  { intros x Hx. unfold a4, a3, a2, a1. now aget_simpl. }
  assert (G0 : aget a4 (ptr + 0) = j - i).
  { unfold a4, a3, a2, a1. now aget_simpl. }
  assert (G1 : aget a4 (ptr + 1) = 0).
  { unfold a4, a3, a2, a1. now aget_simpl. }
  assert (G2 : aget a4 (ptr + 2) = Z.of_nat (length raw_)).
  { unfold a4, a3, a2, a1. now aget_simpl. }
  assert (G3 : aget a4 (ptr + 3) = 0).
  { unfold a4, a3, a2, a1. now aget_simpl. }
  assert (M : (ptr + 1 + 3) mod 3 = 0) by (clear - I1; Z.div_mod_to_equations; lia).
  assert (B : hasBits (aget a4 0) BITSpace = negb (aget a4 0 .& BITSpace =? 0)) by reflexivity.
  assert (B' : hasBits (aget a4 (ptr + 1 - 3)) BITSpace
               = negb (aget a4 (ptr + 1 - 3) .& BITSpace =? 0)) by reflexivity.
  unfold slicedState.
  replace (ptr + 1 + 3 - 6) with (ptr + 1 - 3) by lia.
  destruct (negb (aget a4 0 .& BITSpace =? 0)) eqn:LS; psimpl;
    replace (ptr + 1 + 3 - 6) with (ptr + 1 - 3) by lia;
    rewrite B, B';
    (destruct ((ptr + 1 - 3 >? 0) && negb (aget a4 (ptr + 1 - 3) .& BITSpace =? 0)) eqn:RS);
    psimpl; replace (ptr + 1 + 3 - 3) with (ptr + 1) by lia;
    replace (ptr + 1 + 3 - 2) with (ptr + 2) by lia;
    replace (ptr + 1 + 3 - 1) with (ptr + 3) by lia;
    (split_all; try reflexivity; try lia; try assumption;
     [ rewrite G by lia; exact I5
     | intros k K0 K1 K2; unfold slotOK;
       destruct (Z.eq_dec k (ptr - 2)) as [K|K];
       [ replace (k + 4) with (ptr + 2) by lia; replace (k + 2) with (ptr + 0) by lia;
         rewrite G0, G2, !G by lia; replace (k + 1) with (ptr - 1) by lia; rewrite I4;
         split_all; try lia; intros x Hx; subst k; apply I8; lia
       | assert (k + 3 <= ptr - 2) by (clear - K K0 K1 K2 I1; Z.div_mod_to_equations; lia);
         rewrite !G by lia; apply (I9 k); lia ]
     | rewrite I10, Hj; apply f_equal, firstn_length_all ]).
Qed.

(** ** [splitSlot] *)

Lemma isSlot_next (p : Parser) (k : Z) :
  sliceWritePtr p mod 3 = 0 -> isSlot p k -> k + 3 <= sliceWritePtr p.
Proof.
  intros M (K0 & K1 & K2). Z.div_mod_to_equations. lia.
Qed.

Lemma splitSlot_cells (p : Parser) (slot l : Z) :
  slotsWellFormed p -> isSlot p slot ->
  sliceWritePtr (splitSlot slot l p) = sliceWritePtr p + 3
  /\ sliceWritePtr p + 3 <= Z.of_nat (length (slices (splitSlot slot l p)))
  /\ forall k, 0 <= k < sliceWritePtr p + 3 ->
       aget (slices (splitSlot slot l p)) k = splitCell (slices p) slot l k.
Proof.
  intros (M & W0 & W1) S. pose proof (isSlot_next p slot M S) as N.
  destruct S as (S0 & S1 & S2).
  cbn [splitSlot slices sliceWritePtr].
  set (a1 := if sliceWritePtr p + 3 >? Z.of_nat (length (slices p))
             then slices p ++ [0; 0; 0] else slices p).
  assert (A1 : forall k, aget a1 k = aget (slices p) k).
  { intros k. unfold a1. destruct (_ >? _); [apply aget_zeros|reflexivity]. }
  assert (L1 : sliceWritePtr p + 3 <= Z.of_nat (length a1)).
  { unfold a1. destruct (Z.gtb_spec (sliceWritePtr p + 3) (Z.of_nat (length (slices p)))).
    - rewrite length_app. cbn [length]. lia.
    - lia. }
  replace (sliceWritePtr p + 3 - 3) with (sliceWritePtr p) by lia.
  set (a2 := copyWithin a1 (slot + 3) slot (sliceWritePtr p)).
  assert (L2 : length a2 = length a1) by apply length_copyWithin.
  assert (A2 : forall k, 0 <= k < sliceWritePtr p + 3 ->
                 aget a2 k = if k <? slot + 3 then aget (slices p) k else aget (slices p) (k - 3)).
  { intros k Hk. unfold a2. rewrite aget_copyWithin_up by lia. now rewrite !A1. }
  set (v1 := aget a2 (slot + 1) + l).
  set (a3 := aset a2 (slot + 3 + 1) v1).
  set (v2 := aget a3 (slot + 2) - l).
  set (a4 := aset a3 (slot + 3 + 2) v2).
  assert (L3 := length_aset a2 (slot + 3 + 1) v1 ltac:(lia)). fold a3 in L3.
  assert (L4 := length_aset a3 (slot + 3 + 2) v2 ltac:(lia)). fold a4 in L4.
  assert (L5 := length_aset a4 (slot + 2) l ltac:(lia)).
  split; [reflexivity|]. split; [lia|].
  intros k Hk. unfold splitCell.
  assert (V1 : v1 = aget (slices p) (slot + 1) + l).
  { unfold v1. rewrite A2 by lia. destruct (Z.ltb_spec (slot + 1) (slot + 3)); [reflexivity|lia]. }
  assert (V2 : v2 = aget (slices p) (slot + 2) - l).
  { unfold v2, a3. rewrite aget_aset_neq by lia. rewrite A2 by lia.
    destruct (Z.ltb_spec (slot + 2) (slot + 3)); [reflexivity|lia]. }
  unfold a4, a3. aget_simpl; try (rewrite A2 by lia);
    repeat match goal with
           | |- context [Z.ltb ?x ?y] => destruct (Z.ltb_spec x y); try lia
           end; try congruence.
  replace (k - 3) with slot by lia. reflexivity.
Qed.

Lemma splitSlot_wellFormed (p : Parser) (slot l : Z) :
  slotsWellFormed p -> isSlot p slot -> slotsWellFormed (splitSlot slot l p).
Proof.
  intros WF S. destruct (splitSlot_cells p slot l WF S) as (A & B & _).
  destruct WF as (M & W0 & W1). unfold slotsWellFormed. rewrite A.
  split; [|lia]. clear - M. Z.div_mod_to_equations. lia.
Qed.

Lemma splitSlot_contiguous (p : Parser) (slot l : Z) :
  slotsWellFormed p -> isSlot p slot -> contiguous p -> contiguous (splitSlot slot l p).
Proof.
  intros WF S C. destruct (splitSlot_cells p slot l WF S) as (A & B & Cells).
  pose proof (isSlot_next p slot (proj1 WF) S) as N.
  destruct S as (S0 & S1 & S2).
  intros k (K0 & K1 & K2) K3. rewrite A in K2, K3.
  assert (K4 : k + 6 <= sliceWritePtr p + 3)
    by (clear - K1 K3 WF; destruct WF as (M & _); Z.div_mod_to_equations; lia).
  unfold slotOrigin, slotLength. rewrite !Cells by lia. unfold splitCell.
  assert (D : k + 3 <= slot - 3 \/ k = slot - 3 \/ k = slot \/ k = slot + 3 \/ slot + 6 <= k)
    by (clear - K1 S1; Z.div_mod_to_equations; lia).
  repeat match goal with
         | |- context [Z.ltb ?x ?y] => destruct (Z.ltb_spec x y); try lia
         | |- context [Z.eqb ?x ?y] => destruct (Z.eqb_spec x y); try lia
         end.
  - apply (C k); unfold isSlot; lia.
  - replace (k + 1) with (slot + 1) by lia. reflexivity.
  - replace (k + 3 + 1 - 3) with (slot + 3 + 1) by lia.
    pose proof (C slot ltac:(unfold isSlot; lia) ltac:(lia)) as E.
    unfold slotOrigin, slotLength in E. lia.
  - replace (k + 1 - 3) with (k - 3 + 1) by lia. replace (k + 2 - 3) with (k - 3 + 2) by lia.
    replace (k + 3 + 1 - 3) with (k - 3 + 3 + 1) by lia.
    apply (C (k - 3)); unfold isSlot; try lia.
    split; [lia|]. split; [|lia]. clear - K1. Z.div_mod_to_equations. lia.
Qed.

Lemma sumLengths_ext (a b : list Z) (n : nat) :
  (forall m, (m < n)%nat -> aget a (3 * Z.of_nat m + 2) = aget b (3 * Z.of_nat m + 2)) ->
  sumLengths a n = sumLengths b n.
Proof.
  induction n as [|n IH]; intros H; cbn [sumLengths]; [reflexivity|].
  rewrite IH by (intros m Hm; apply H; lia). rewrite H by lia. reflexivity.
Qed.

Lemma splitSlot_sum (p : Parser) (slot l : Z) :
  slotsWellFormed p -> isSlot p slot ->
  sumOfLengths (splitSlot slot l p) = sumOfLengths p.
Proof.
  intros WF S. destruct (splitSlot_cells p slot l WF S) as (A & B & Cells).
  pose proof (isSlot_next p slot (proj1 WF) S) as N.
  destruct WF as (M & W0 & W1). destruct S as (S0 & S1 & S2).
  unfold sumOfLengths. rewrite A.
  set (a' := slices (splitSlot slot l p)) in *. set (a := slices p) in *.
  assert (Q : exists q : nat, slot = 3 * Z.of_nat q).
  { exists (Z.to_nat (slot / 3)). clear - S0 S1. Z.div_mod_to_equations. lia. }
  destruct Q as [q Q].
  assert (Wn : exists n : nat, sliceWritePtr p = 3 * Z.of_nat n).
  { exists (Z.to_nat (sliceWritePtr p / 3)). clear - W0 M. Z.div_mod_to_equations. lia. }
  destruct Wn as [n Wn]. rewrite Wn in *.
  replace (Z.to_nat ((3 * Z.of_nat n + 3) / 3)) with (S n) by (Z.div_mod_to_equations; lia).
  replace (Z.to_nat (3 * Z.of_nat n / 3)) with n by (Z.div_mod_to_equations; lia).
  assert (Low : forall m, (m <= q)%nat -> sumLengths a' m = sumLengths a m).
  { intros m Hm. apply sumLengths_ext. intros x Hx. rewrite Cells by lia.
    unfold splitCell. destruct (Z.ltb_spec (3 * Z.of_nat x + 2) (slot + 2)); [reflexivity|lia]. }
  assert (High : forall m, (q < m)%nat -> (m <= n)%nat -> sumLengths a' (S m) = sumLengths a m).
  { induction m as [|m IH]; intros H1 H2; [lia|].
    destruct (Nat.eq_dec m q) as [->|D].
    - cbn [sumLengths]. rewrite Low by lia. rewrite !Cells by lia. unfold splitCell.
      repeat match goal with
             | |- context [Z.ltb ?x ?y] => destruct (Z.ltb_spec x y); try lia
             | |- context [Z.eqb ?x ?y] => destruct (Z.eqb_spec x y); try lia
             end.
      replace (slot + 2) with (3 * Z.of_nat q + 2) by lia. lia.
    - change (sumLengths a' (S (S m))) with (sumLengths a' (S m) + aget a' (3 * Z.of_nat (S m) + 2)).
      rewrite IH by lia. cbn [sumLengths]. rewrite Cells by lia. unfold splitCell.
      repeat match goal with
             | |- context [Z.ltb ?x ?y] => destruct (Z.ltb_spec x y); try lia
             | |- context [Z.eqb ?x ?y] => destruct (Z.eqb_spec x y); try lia
             end.
      replace (3 * Z.of_nat (S m) + 2 - 3) with (3 * Z.of_nat m + 2) by lia. reflexivity. }
  apply High; lia.
Qed.

(** The sum of the lengths of the first [n] slices is the origin of the
    next one, when the first slice starts at 0. *)
Lemma sumLengths_telescope (a : list Z) (n : nat) :
  aget a 1 = 0 ->
  (forall m, (m < n)%nat ->
     aget a (3 * Z.of_nat m + 1) + aget a (3 * Z.of_nat m + 2) = aget a (3 * Z.of_nat m + 4)) ->
  sumLengths a n = aget a (3 * Z.of_nat n + 1).
Proof.
  intros H0. induction n as [|n IH]; intros H; cbn [sumLengths].
  - symmetry. exact H0.
  - rewrite IH by (intros m Hm; apply H; lia).
    rewrite H by lia. f_equal. lia.
Qed.

Lemma slice_invariant (raw_ : list Z) (p : Parser) : sliceInvariant (slice raw_ p).
Proof.
  destruct raw_ as [|c rest].
  - unfold sliceInvariant, slotsWellFormed, contiguous, sumOfLengths, isSlot.
    cbn [slice]. psimpl. split_all; try reflexivity; try lia.
  - pose proof (slice_nonempty c rest p) as S. unfold slicedState in S.
    cbv zeta in S.
    destruct S as (S1 & S2 & S3 & S4 & S5 & S6 & S7 & S8 & _).
    set (q := slice (c :: rest) p) in *.
    unfold sliceInvariant, slotsWellFormed. split_all; try lia; try assumption.
    + intros k (K0 & K1 & K2) K3. unfold slotOrigin, slotLength.
      assert (K4 : k + 3 <= sliceWritePtr q - 3) by (clear - K1 K3 S2; Z.div_mod_to_equations; lia).
      destruct (S8 k K0 K1 K4) as (_ & _ & E & _).
      replace (k + 3 + 1) with (k + 4) by lia. exact E.
    + rewrite S1. unfold sumOfLengths.
      assert (Wn : exists n : nat, sliceWritePtr q = 3 * Z.of_nat (S n)).
      { exists (Z.to_nat (sliceWritePtr q / 3) - 1)%nat. clear - S2 S3. Z.div_mod_to_equations. lia. }
      destruct Wn as [n Wn]. rewrite Wn in *.
      replace (Z.to_nat (3 * Z.of_nat (S n) / 3)) with (S n) by (Z.div_mod_to_equations; lia).
      cbn [sumLengths]. rewrite sumLengths_telescope.
      * replace (3 * Z.of_nat n + 2) with (3 * Z.of_nat (S n) - 1) by lia.
        replace (3 * Z.of_nat n + 1) with (3 * Z.of_nat (S n) - 2) by lia.
        rewrite S5, S6. lia.
      * exact S7.
      * intros m Hm.
        destruct (S8 (3 * Z.of_nat m)) as (_ & _ & E & _); try lia.
        clear. Z.div_mod_to_equations. lia.
Qed.

(** ** What the analysis leaves alone *)

Lemma frame_refl (p : Parser) : frame p p.
Proof. unfold frame. tauto. Qed.

Lemma frame_trans (p q r : Parser) : frame p q -> frame q r -> frame p r.
Proof. unfold frame. intuition congruence. Qed.

Ltac frame_step :=
  match goal with
  | |- frame ?p ?p => apply frame_refl
  | |- frame _ (if ?b then _ else _) => destruct b
  | |- frame _ (match (if ?b then _ else _) with (_, _) => _ end) => destruct b
  | |- frame _ (match ?x with (_, _) => _ end) => destruct x eqn:?
  | |- frame _ (match ?x with [] => _ | _ :: _ => _ end) => destruct x eqn:?
  end.

Ltac frame_direct := repeat frame_step; try (unfold frame; psimpl; tauto).

Lemma frame_splitSlot (slot l : Z) (p : Parser) : frame p (splitSlot slot l p).
Proof. unfold frame. cbn [splitSlot]. psimpl. tauto. Qed.

Lemma frame_set_slices (a : list Z) (p : Parser) : frame p (set_slices a p).
Proof. frame_direct. Qed.

Lemma frame_markSlices (b e bits : Z) (p : Parser) : frame p (markSlices b e bits p).
Proof. apply frame_set_slices. Qed.

Lemma frame_orFlavor (bits : Z) (p : Parser) : frame p (orFlavor bits p).
Proof. frame_direct. Qed.

Lemma frame_andNotFlavor (bits : Z) (p : Parser) : frame p (andNotFlavor bits p).
Proof. frame_direct. Qed.

Lemma frame_ignoreSlice (k : Z) (p : Parser) : frame p (ignoreSlice k p).
Proof. frame_direct. Qed.

Lemma frame_analyzeExtPattern (p : Parser) : frame p (analyzeExtPattern p).
Proof. unfold analyzeExtPattern. repeat frame_step; unfold frame; psimpl; tauto. Qed.

Lemma frame_setExtSpans (from to : Z) (p : Parser) : frame p (setExtSpans from to p).
Proof. unfold setExtSpans. frame_direct. Qed.

Ltac frame_chain :=
  repeat first
    [ apply frame_refl
    | frame_step
    | eapply frame_trans; [|apply frame_analyzeExtPattern]
    | eapply frame_trans; [|apply frame_orFlavor]
    | eapply frame_trans; [|apply frame_andNotFlavor]
    | eapply frame_trans; [|apply frame_ignoreSlice]
    | eapply frame_trans; [|apply frame_markSlices]
    | eapply frame_trans; [|apply frame_setExtSpans]
    | eapply frame_trans; [|apply frame_splitSlot]
    | match goal with
      | |- frame ?p (?f _ ?q) =>
          apply frame_trans with q; [|unfold frame; psimpl; tauto]
      end ].

Lemma frame_analyzeExt_close (from to fb : Z) (p : Parser) :
  frame p (analyzeExt_close from to fb p).
Proof. unfold analyzeExt_close. frame_chain. Qed.

Lemma frame_analyzeExt_flavor (from to fb : Z) (p : Parser) :
  frame p (analyzeExt_flavor from to fb p).
Proof. unfold analyzeExt_flavor. repeat frame_step; apply frame_analyzeExt_close. Qed.

Lemma frame_analyzeExt (from : Z) (p : Parser) : frame p (analyzeExt from p).
Proof.
  unfold analyzeExt. repeat frame_step; try apply frame_analyzeExt_flavor; frame_chain.
Qed.

Lemma frame_getNetPattern (p : Parser) : frame p (snd (getNetPattern p)).
Proof.
  unfold getNetPattern. destruct (pattern p); [|apply frame_refl].
  destruct (_ =? 0); [apply frame_refl|].
  destruct (hasBits _ _); psimpl; frame_direct.
Qed.

Lemma frame_analyzeNet_exception (p : Parser) : frame p (snd (analyzeNet_exception p)).
Proof.
  unfold analyzeNet_exception.
  repeat match goal with
         | |- frame _ (snd (if ?b then _ else _)) => destruct b
         end; cbn [snd]; frame_chain.
Qed.

Lemma frame_analyzeNet_optionsAnchor (i ob : Z) (p : Parser) :
  frame p (analyzeNet_optionsAnchor i ob p).
Proof.
  unfold analyzeNet_optionsAnchor. cbv zeta.
  match goal with |- frame _ (let '(_, _) := ?x in _) =>
    assert (F : frame p (snd x)); [|destruct x as [i' q]; cbn [snd] in F] end.
  { destruct (_ >? 1); [|apply frame_refl].
    destruct (_ =? i); cbn [snd]; [|apply frame_splitSlot].
    apply frame_trans with (orFlavor BITFlavorError p); [apply frame_orFlavor|].
    destruct (interactive _); [apply frame_markSlices|apply frame_refl]. }
  eapply frame_trans; [exact F|]. unfold frame. psimpl. tauto.
Qed.

Lemma frame_analyzeNet_assumePattern (islice : Z) (p : Parser) :
  frame p (analyzeNet_assumePattern islice p).
Proof. unfold frame, analyzeNet_assumePattern. psimpl. tauto. Qed.

Lemma analyzeNet_options_blocks (islice : Z) (p : Parser) :
  analyzeNet_options islice p = analyzeNet_optionsBlocks islice p.
Proof.
  unfold analyzeNet_options, analyzeNet_optionsBlocks, analyzeNet_optionsAnchor,
    analyzeNet_assumePattern.
  cbv zeta.
  match goal with |- (let '(_, _) := (if ?c then _ else _) in _) = _ => destruct c end;
    [|reflexivity].
  match goal with |- context [findOptionsAnchor ?f ?a ?i ?j ?o] =>
    destruct (findOptionsAnchor f a i j o) as [k ob] end.
  destruct (k >=? islice); [|reflexivity].
  match goal with |- context [if ?c then (if _ then _ else _) else (_, _)] => destruct c end;
    [|reflexivity].
  match goal with |- context [if ?c then (_, _) else (_, _)] => destruct c end; reflexivity.
Qed.

Lemma frame_analyzeNet_options (islice : Z) (p : Parser) :
  frame p (snd (analyzeNet_options islice p)).
Proof.
  rewrite analyzeNet_options_blocks. unfold analyzeNet_optionsBlocks. cbv zeta.
  pose proof (frame_analyzeNet_assumePattern islice p) as F.
  set (q := analyzeNet_assumePattern islice p) in *. clearbody q.
  match goal with |- frame _ (snd (let '(_, _) := ?x in _)) =>
    assert (G : frame q (snd x)); [|destruct x as [re q']; cbn [snd] in *] end.
  { destruct (negb _); [|apply frame_refl].
    destruct (findOptionsAnchor _ _ _ _ _) as [i ob].
    destruct (i >=? islice); cbn [snd]; [|apply frame_refl].
    apply frame_analyzeNet_optionsAnchor. }
  apply frame_trans with q; [exact F|]. apply frame_trans with q'; [exact G|].
  destruct re; [apply frame_orFlavor|apply frame_refl].
Qed.

Lemma frame_analyzeNet_leftAnchor (p : Parser) : frame p (analyzeNet_leftAnchor p).
Proof. unfold analyzeNet_leftAnchor. frame_chain. Qed.

Lemma frame_analyzeNet_rightAnchor (p : Parser) : frame p (analyzeNet_rightAnchor p).
Proof. unfold analyzeNet_rightAnchor. frame_chain. Qed.

Lemma frame_analyzeNet_anchors (b : bool) (p : Parser) : frame p (analyzeNet_anchors b p).
Proof.
  unfold analyzeNet_anchors. destruct (negb b).
  - eapply frame_trans; [|apply frame_analyzeNet_rightAnchor].
    eapply frame_trans; [|apply frame_analyzeNet_leftAnchor]. frame_direct.
  - frame_direct.
Qed.

Lemma frame_analyzeNet_spaces (p : Parser) : frame p (analyzeNet_spaces p).
Proof.
  unfold analyzeNet_spaces.
  destruct (findLastSpace _ _ _ _ _) as [j pb].
  destruct (negb (j =? 0)); [|frame_direct].
  match goal with |- context [getNetPattern ?q] =>
    pose proof (frame_getNetPattern q) as F; destruct (getNetPattern q) as [s q'] end.
  cbn [snd] in F.
  apply frame_trans with q'.
  - eapply frame_trans; [|exact F]. frame_direct.
  - destruct (reIsLocalhostRedirect s); frame_chain.
Qed.

Lemma frame_set_category (c : Z) (p : Parser) : frame p (set_category c p).
Proof. unfold frame. psimpl. tauto. Qed.

Lemma frame_set_patternSpan (s : Span.t) (p : Parser) : frame p (set_patternSpan s p).
Proof. unfold frame. psimpl. tauto. Qed.

Lemma frame_dropAnchor (bits k : Z) (p : Parser) :
  frame p (andNotFlavor bits (ignoreSlice k p)).
Proof.
  apply frame_trans with (ignoreSlice k p);
    [apply frame_ignoreSlice | apply frame_andNotFlavor].
Qed.

Lemma frame_analyzeNet_leadingWildcard (p : Parser) :
  frame p (analyzeNet_leadingWildcard p).
Proof.
  unfold analyzeNet_leadingWildcard. cbv zeta.
  destruct (_ && _); [|apply frame_refl].
  match goal with |- frame _ (if _ then andNotFlavor _ (ignoreSlice _ ?q) else _) =>
    apply frame_trans with q;
      [|destruct (negb _); [apply frame_dropAnchor | apply frame_refl]] end.
  eapply frame_trans; [apply frame_ignoreSlice | apply frame_set_patternSpan].
Qed.

Lemma frame_analyzeNet_trailingWildcard (p : Parser) :
  frame p (analyzeNet_trailingWildcard p).
Proof.
  unfold analyzeNet_trailingWildcard. cbv zeta.
  destruct (_ && _); [|apply frame_refl].
  match goal with |- frame _ (if _ then andNotFlavor _ (ignoreSlice _ ?q) else _) =>
    apply frame_trans with q;
      [|destruct (negb _); [apply frame_dropAnchor | apply frame_refl]] end.
  eapply frame_trans; [|apply frame_set_patternSpan].
  destruct (_ || _); [apply frame_ignoreSlice | apply frame_refl].
Qed.

Lemma frame_analyzeNet_pointlessAnchors (p : Parser) :
  frame p (analyzeNet_pointlessAnchors p).
Proof.
  unfold analyzeNet_pointlessAnchors. cbv zeta.
  match goal with |- frame _ (if ?c then andNotFlavor _ (ignoreSlice _ ?q) else _) =>
    apply frame_trans with q;
      [|destruct c; [apply frame_dropAnchor | apply frame_refl]] end.
  match goal with |- frame _ (if ?c then _ else _) =>
    destruct c; [apply frame_dropAnchor | apply frame_refl] end.
Qed.

Lemma frame_analyzeNet_wildcards (p : Parser) : frame p (analyzeNet_wildcards p).
Proof.
  unfold analyzeNet_wildcards.
  eapply frame_trans; [|apply frame_analyzeNet_pointlessAnchors].
  eapply frame_trans; [|apply frame_analyzeNet_trailingWildcard].
  apply frame_analyzeNet_leadingWildcard.
Qed.

Lemma frame_analyzeNet (p : Parser) : frame p (analyzeNet p).
Proof.
  unfold analyzeNet.
  pose proof (frame_analyzeNet_exception p) as F1.
  destruct (analyzeNet_exception p) as [islice p1]. cbn [snd] in F1.
  pose proof (frame_analyzeNet_options islice p1) as F2.
  destruct (analyzeNet_options islice p1) as [re p2]. cbn [snd] in F2.
  cbv zeta.
  eapply frame_trans; [|apply frame_set_category].
  eapply frame_trans; [|apply frame_analyzeNet_wildcards].
  eapply frame_trans; [|apply frame_analyzeNet_spaces].
  eapply frame_trans; [|apply frame_analyzeNet_anchors].
  apply frame_trans with p1; assumption.
Qed.

Lemma frame_findInlineComment (fuel : nat) (h : Z) (p : Parser) :
  frame p (findInlineComment fuel h p).
Proof.
  revert h. induction fuel as [|n IH]; intros h; cbn [findInlineComment]; frame_direct.
  apply IH.
Qed.

Lemma frame_analyze_head (raw_ : list Z) (p : Parser) :
  frame (slice raw_ p) (flowState (analyze_head raw_ p)).
Proof.
  unfold analyze_head. set (q := slice raw_ p).
  repeat match goal with
         | |- frame _ (flowState (if ?b then _ else _)) => destruct b eqn:?
         | |- frame _ (flowState (Return _)) => cbn [flowState]
         | |- frame _ (flowState (ToAnalyzeNet _)) => cbn [flowState]
         end;
  try apply frame_refl;
  try apply frame_analyzeExt;
  try (eapply frame_trans; [|apply frame_findInlineComment]);
  try (eapply frame_trans; [|apply frame_analyzeExt]);
  try (eapply frame_trans; [|unfold frame; psimpl; tauto]);
  try (eapply frame_trans; [|apply frame_analyzeExt]);
  frame_direct; apply frame_analyzeExt.
Qed.

Lemma frame_analyze (raw_ : list Z) (p : Parser) : frame (slice raw_ p) (analyze raw_ p).
Proof.
  unfold analyze. pose proof (frame_analyze_head raw_ p) as F.
  destruct (analyze_head raw_ p) as [q|q]; cbn [flowState] in F; [exact F|].
  eapply frame_trans; [exact F|apply frame_analyzeNet].
Qed.

(** ** Character classes *)

Lemma charBits_in_table (c : Z) : In (charBits c) (unicodeBits :: charDescBits).
Proof.
  unfold charBits. destruct (Z.ltb_spec c 128) as [H|H].
  - right. apply nth_In. change (length charDescBits) with 128%nat. lia.
  - now left.
Qed.

(** A property checked on the table holds of the class of every
    character. *)
Lemma class_forall (P : Z -> bool) :
  forallb P (unicodeBits :: charDescBits) = true -> forall c, P (charBits c) = true.
Proof.
  intros H c. rewrite forallb_forall in H. apply H, charBits_in_table.
Qed.

Lemma charBits_nonneg (c : Z) : 0 <= charBits c.
Proof.
  apply Z.leb_le. apply (class_forall (fun b => 0 <=? b)). vm_compute. reflexivity.
Qed.

Lemma bitsOf_nonneg (s : list Z) : 0 <= bitsOf s.
Proof.
  induction s as [|c s IH]; cbn [bitsOf fold_right]; [lia|].
  apply Z.lor_nonneg. split; [apply charBits_nonneg|exact IH].
Qed.

Lemma isSpaceChar_class (c : Z) : isSpaceChar c = (charBits c =? BITSpace).
Proof.
  unfold charBits. destruct (Z.ltb_spec c 128) as [H|H].
  - destruct (Z.ltb_spec c 0) as [N|N].
    + replace (Z.to_nat c) with 0%nat by lia. unfold isSpaceChar.
      change (nth 0 charDescBits 0 =? BITSpace) with false.
      repeat match goal with |- context [Z.eqb ?x ?y] => destruct (Z.eqb_spec x y); try lia end.
    + assert (T : forallb (fun n => Bool.eqb (isSpaceChar (Z.of_nat n))
                                     (nth n charDescBits 0 =? BITSpace)) (seq 0 128) = true)
        by (vm_compute; reflexivity).
      rewrite forallb_forall in T.
      specialize (T (Z.to_nat c)). rewrite Z2Nat.id in T by lia.
      apply eqb_prop, T, in_seq. lia.
  - unfold isSpaceChar. change (unicodeBits =? BITSpace) with false.
    repeat match goal with |- context [Z.eqb ?x ?y] => destruct (Z.eqb_spec x y); try lia end.
Qed.

Lemma lor_eq_1 (a b : Z) :
  0 <= a -> 0 <= b ->
  (a .| b = 1 <-> (a = 0 \/ a = 1) /\ (b = 0 \/ b = 1) /\ (a = 1 \/ b = 1)).
Proof.
  intros Ha Hb. split.
  - intros H.
    assert (A : a .& 1 = a).
    { rewrite <- H. apply Z.bits_inj'. intros n Hn.
      rewrite Z.land_spec, Z.lor_spec. destruct (Z.testbit a n), (Z.testbit b n); reflexivity. }
    assert (B : b .& 1 = b).
    { rewrite <- H. apply Z.bits_inj'. intros n Hn.
      rewrite Z.land_spec, Z.lor_spec. destruct (Z.testbit a n), (Z.testbit b n); reflexivity. }
    change 1 with (Z.ones 1) in A, B. rewrite Z.land_ones in A, B by lia.
    change (2 ^ 1) with 2 in A, B.
    assert (Ca : a = 0 \/ a = 1) by (Z.div_mod_to_equations; lia).
    assert (Cb : b = 0 \/ b = 1) by (Z.div_mod_to_equations; lia).
    split; [exact Ca|]. split; [exact Cb|].
    destruct Ca as [->| ->]; [|now left]. destruct Cb as [->| ->]; [|now right].
    discriminate H.
  - intros ([-> | ->] & [-> | ->] & C); try reflexivity. lia.
Qed.

(** [isBlank] on the bits of a text. *)
Lemma bitsOf_zero (s : list Z) :
  bitsOf s = 0 <-> forallb (fun c => charBits c =? 0) s = true.
Proof.
  induction s as [|c s IH]; cbn [bitsOf fold_right forallb].
  - tauto.
  - change (fold_right (fun c acc => charBits c .| acc) 0 s) with (bitsOf s).
    rewrite Z.lor_eq_0_iff, andb_true_iff, Z.eqb_eq, IH. tauto.
Qed.

Lemma bitsOf_space (s : list Z) :
  bitsOf s = BITSpace <->
  existsb isSpaceChar s = true
  /\ forallb (fun c => isSpaceChar c || (charBits c =? 0)) s = true.
Proof.
  induction s as [|c s IH]; cbn [bitsOf fold_right forallb existsb].
  - split; [discriminate|intros [H _]; discriminate].
  - change (fold_right (fun c acc => charBits c .| acc) 0 s) with (bitsOf s).
    change BITSpace with 1 in *.
    rewrite lor_eq_1 by (apply charBits_nonneg || apply bitsOf_nonneg).
    rewrite orb_true_iff, andb_true_iff, orb_true_iff, isSpaceChar_class.
    change BITSpace with 1. rewrite !Z.eqb_eq.
    pose proof (bitsOf_zero s) as Z0.
    assert (W : forallb (fun c => charBits c =? 0) s = true ->
                forallb (fun c => isSpaceChar c || (charBits c =? 0)) s = true
                /\ existsb isSpaceChar s = false).
    { clear. induction s as [|d s IH]; cbn [forallb existsb]; [tauto|].
      rewrite andb_true_iff, Z.eqb_eq. intros [D H]. destruct (IH H) as [I1 I2].
      rewrite I1, I2, isSpaceChar_class, D. split; reflexivity. }
    split.
    + intros (Hc & [Hs|Hs] & Hcs).
      * apply Z0 in Hs. destruct (W Hs) as [W1 W2]. rewrite W1.
        destruct Hcs as [E|E]; [|apply Z0 in Hs; lia]. tauto.
      * apply IH in Hs. destruct Hs as [E1 E2]. rewrite E1, E2. tauto.
    + intros (Hex & Hc & Hall). split; [tauto|].
      destruct (existsb isSpaceChar s) eqn:X.
      * assert (bitsOf s = 1) by (apply IH; tauto). tauto.
      * destruct Hex as [Hex|Hex]; [|discriminate].
        assert (forallb (fun c => charBits c =? 0) s = true).
        { clear - X Hall. induction s as [|d s IH]; cbn [forallb existsb] in *; [reflexivity|].
          apply orb_false_iff in X. destruct X as [X1 X2].
          apply andb_true_iff in Hall. destruct Hall as [H1 H2].
          rewrite X1 in H1. cbn [orb] in H1. rewrite H1, IH by assumption. reflexivity. }
        apply Z0 in H. tauto.
Qed.

Lemma allBits_analyze (raw_ : list Z) (p : Parser) : allBits (analyze raw_ p) = bitsOf raw_.
Proof.
  destruct (frame_analyze raw_ p) as (_ & _ & -> & _).
  destruct raw_ as [|c rest]; [reflexivity|].
  pose proof (slice_nonempty c rest p) as S. unfold slicedState in S. cbv zeta in S.
  apply S.
Qed.

(** ** Blank lines *)

(** C10, as stated, fails on a line made of a space and a control
    character: [isBlank] is true although one byte is not whitespace. *)
Lemma isBlank_with_control_character :
  isBlank (analyze [32; 1] freshParser) = true
  /\ forallb isSpaceChar [32; 1] = false.
Proof. split; vm_compute; reflexivity. Qed.

(** C10 (amended). On the empty line [analyze] ends with category None, the
    write pointer at 0 and the slice array untouched, and [isBlank] is false.
    In general [isBlank] is true iff the line has at least one whitespace
    byte (tab, line feed, carriage return, space) and each other byte has no
    class bit at all. *)
Theorem isBlank_characterised (p : Parser) :
  (category (analyze [] p) = CATNone
   /\ sliceWritePtr (analyze [] p) = 0
   /\ slices (analyze [] p) = slices p
   /\ isBlank (analyze [] p) = false)
  /\ forall raw_,
       isBlank (analyze raw_ p) = true <->
       existsb isSpaceChar raw_ = true
       /\ forallb (fun c => isSpaceChar c || (charBits c =? 0)) raw_ = true.
Proof.
  split.
  - split_all; reflexivity.
  - intros raw_. unfold isBlank. rewrite allBits_analyze, Z.eqb_eq. apply bitsOf_space.
Qed.

(** ** [toPunycode] *)

Lemma getNetPattern_pattern (p : Parser) :
  pattern (snd (getNetPattern p)) = fst (getNetPattern p).
Proof.
  unfold getNetPattern. destruct (pattern p) eqn:E; [|exact E].
  destruct (_ =? 0); [exact E|]. destruct (hasBits _ _); reflexivity.
Qed.

(** ** Network filter options *)

(** C2. The code breaks the claim on [*$popup,redirect=x]: the only type
    option is not a network type, and the redirect option is still reported
    with its id. *)
Theorem redirect_kept_without_network_type :
  map NetOptionsIterator.id
    (fst (NetOptionsIterator.items (analyze (codes "*$popup,redirect=x") freshParser)
            NetOptionsIterator.new))
  = [OPTTokenPopup; OPTTokenRedirect].
Proof. vm_compute. reflexivity. Qed.

(** C3, as stated, fails: on [*$csp=a,csp=b] the second [csp] is reported
    as invalid but the Error flavor is not set. *)
Lemma second_csp_sets_no_error :
  map NetOptionsIterator.id
    (fst (NetOptionsIterator.items (analyze (codes "*$csp=a,csp=b") freshParser)
            NetOptionsIterator.new))
  = [OPTTokenCsp; OPTTokenInvalid]
  /\ hasError (snd (NetOptionsIterator.items (analyze (codes "*$csp=a,csp=b") freshParser)
                      NetOptionsIterator.new)) = false.
Proof. split; vm_compute; reflexivity. Qed.

(** ** The options of a network filter *)

Section NetOptions.
Import NetOptionsIterator.

(** Descriptors are values of the table, or [OPTTokenInvalid]. *)
Lemma netOptionTokens_get_in (token : list Z) (d : Z) :
  netOptionTokens_get token = Some d -> In d (map snd netOptionTokens).
Proof.
  unfold netOptionTokens_get.
  destruct (find _ netOptionTokens) as [e|] eqn:F; [|discriminate].
  intros H. injection H as <-. apply find_some in F. apply in_map, F.
Qed.

Lemma validate_in (e n a good : bool) (token : list Z) :
  In (validate e n a (if good then netOptionTokens_get token else None))
     (OPTTokenInvalid :: map snd netOptionTokens).
Proof.
  unfold validate. destruct good; [|now left].
  destruct (netOptionTokens_get token) as [d|] eqn:D; [|now left].
  destruct (_ || _); [now left|]. right. now apply netOptionTokens_get_in with token.
Qed.

Lemma descriptor_facts (d : Z) :
  In d (OPTTokenInvalid :: map snd netOptionTokens) ->
  ((d .& 255 =? OPTTokenCsp) = true -> hasBits d OPTRedirectType = false)
  /\ ((d .& 255 =? OPTTokenRedirect) || (d .& 255 =? OPTTokenRedirectRule) = true ->
      hasBits d OPTRedirectType = true).
Proof.
  intros H.
  assert (T : forallb (fun d =>
                implb (d .& 255 =? OPTTokenCsp) (negb (hasBits d OPTRedirectType))
                && implb ((d .& 255 =? OPTTokenRedirect) || (d .& 255 =? OPTTokenRedirectRule))
                         (hasBits d OPTRedirectType))
              (OPTTokenInvalid :: map snd netOptionTokens) = true)
    by (vm_compute; reflexivity).
  rewrite forallb_forall in T. specialize (T d H).
  apply andb_true_iff in T. destruct T as [T1 T2].
  split; intros E; rewrite E in *; cbn [implb] in *.
  - now apply negb_true_iff.
  - exact T2.
Qed.

(** The parser's flavor bits are not touched by the marking of slices. *)
Lemma flavorBits_markSlices (b e bits : Z) (p : Parser) :
  flavorBits (markSlices b e bits p) = flavorBits p.
Proof. reflexivity. Qed.

Lemma flavorBits_analyzeDomainList_loop (fuel : nat) (beg to sep ob : Z) (p : Parser) :
  flavorBits (analyzeDomainList_loop fuel beg to sep ob p) = flavorBits p.
Proof.
  revert beg p. induction fuel as [|n IH]; intros beg p; cbn [analyzeDomainList_loop]; [reflexivity|].
  destruct (beg <? to); [|reflexivity]. rewrite IH.
  destruct (negb _); reflexivity.
Qed.

Lemma flavorBits_analyzeDomainList (from to sep ob : Z) (p : Parser) :
  flavorBits (analyzeDomainList from to sep ob p) = flavorBits p.
Proof.
  unfold analyzeDomainList. destruct (from >=? to); [reflexivity|].
  destruct (hasBits _ _); [rewrite flavorBits_markSlices|];
    apply flavorBits_analyzeDomainList_loop.
Qed.

(** One turn of the loop of [init]. *)
Lemma optionStep_spec (e i_ : bool) (ropts : Z) (s : scan) :
  0 <= s_writePtr s ->
  let s' := optionStep e i_ ropts s in
  let w := s_writePtr s in
  let d := aget (s_optSlices s') w in
  s_writePtr s' = w + 6
  /\ (forall x, x < w -> aget (s_optSlices s') x = aget (s_optSlices s) x)
  /\ In d (OPTTokenInvalid :: map snd netOptionTokens)
  /\ flavorBits (s_parser s') = flavorBits (s_parser s)
  /\ (if hasBits d OPTRedirectType
      then redirectIndex s = -1 /\ redirectIndex s' = w /\ cspIndex s' = cspIndex s
      else if d .& 255 =? OPTTokenCsp
      then cspIndex s = -1 /\ cspIndex s' = w /\ redirectIndex s' = redirectIndex s
      else redirectIndex s' = redirectIndex s /\ cspIndex s' = cspIndex s).
Proof.
  intros W. unfold optionStep.
  destruct (if hasBits (aget (slices (s_parser s)) (lopt s)) BITTilde
            then (if aget (slices (s_parser s)) (lopt s + 2) >? 1 then false else true, lopt s + 3)
            else (true, lopt s)) as [good ltok].
  destruct (findOptionEnd _ _ _ _ _ _ _) as [[a i] lval].
  set (p1 := set_slices a (s_parser s)).
  destruct (if good && negb (lval =? 0)
            then (let b := (aget (slices p1) (lval + 2) =? 1) && negb (lval + 3 =? i) in (b, b))
            else (good, false)) as [good' assigned].
  set (tok := js_slice _ _ _).
  pose proof (validate_in e (negb (ltok =? lopt s)) assigned good' tok) as V.
  set (d0 := validate e (negb (ltok =? lopt s)) assigned
               (if good' then netOptionTokens_get tok else None)) in *.
  assert (F : forall (b : bool) (x y : list Z * Parser) (q : Parser),
             flavorBits (snd x) = flavorBits q -> flavorBits (snd y) = flavorBits q ->
             flavorBits (snd (if b then x else y)) = flavorBits q)
    by (intros []; auto).
  destruct (hasBits d0 OPTRedirectType) eqn:R.
  - destruct (Z.eqb_spec (redirectIndex s) (-1)) as [RI|RI].
    + (* first descriptor with a redirect type *)
      match goal with |- context [let '(o, p) := ?x in _] => destruct x as [o p] eqn:X end.
      cbv zeta. cbn [s_writePtr s_optSlices s_parser redirectIndex cspIndex].
      assert (O : forall x, x < s_writePtr s + 5 ->
                    aget (aset o (s_writePtr s + 5) i) x
                    = if x =? s_writePtr s then d0
                      else if x <? s_writePtr s then aget (s_optSlices s) x
                      else aget (aset o (s_writePtr s + 5) i) x).
      { intros x Hx.
        destruct (negb (lval =? 0)); injection X as <- <-; aget_simpl;
          repeat match goal with
                 | |- context [Z.ltb ?x ?y] => destruct (Z.ltb_spec x y); try lia
                 end; try reflexivity;
          rewrite !aget_aset_neq by lia; reflexivity. }
      assert (P : flavorBits p = flavorBits (s_parser s)).
      { destruct (negb (lval =? 0)); injection X as <- <-;
          repeat match goal with
                 | |- context [if ?b then _ else _] => destruct b
                 end;
          rewrite ?flavorBits_analyzeDomainList, ?flavorBits_markSlices; reflexivity. }
      rewrite (O (s_writePtr s)) by lia. rewrite Z.eqb_refl, R.
      split_all; try reflexivity; try assumption.
      intros x Hx. rewrite O by lia.
      destruct (Z.eqb_spec x (s_writePtr s)); [lia|].
      destruct (Z.ltb_spec x (s_writePtr s)); [reflexivity|lia].
    + (* a second one: invalid *)
      match goal with |- context [let '(o, p) := ?x in _] => destruct x as [o p] eqn:X end.
      cbv zeta. cbn [s_writePtr s_optSlices s_parser redirectIndex cspIndex].
      assert (O : forall x, x < s_writePtr s + 5 ->
                    aget (aset o (s_writePtr s + 5) i) x
                    = if x =? s_writePtr s then OPTTokenInvalid
                      else if x <? s_writePtr s then aget (s_optSlices s) x
                      else aget (aset o (s_writePtr s + 5) i) x).
      { intros x Hx.
        destruct (negb (lval =? 0)); injection X as <- <-; aget_simpl;
          repeat match goal with
                 | |- context [Z.ltb ?x ?y] => destruct (Z.ltb_spec x y); try lia
                 end; try reflexivity;
          rewrite !aget_aset_neq by lia; reflexivity. }
      assert (P : flavorBits p = flavorBits (s_parser s)).
      { destruct (negb (lval =? 0)); injection X as <- <-;
          repeat match goal with
                 | |- context [if ?b then _ else _] => destruct b
                 end;
          rewrite ?flavorBits_analyzeDomainList, ?flavorBits_markSlices; reflexivity. }
      rewrite (O (s_writePtr s)) by lia. rewrite Z.eqb_refl.
      change (hasBits OPTTokenInvalid OPTRedirectType) with false.
      change (OPTTokenInvalid .& 255 =? OPTTokenCsp) with false.
      split_all; try reflexivity; try assumption; try (now left).
      intros x Hx. rewrite O by lia.
      destruct (Z.eqb_spec x (s_writePtr s)); [lia|].
      destruct (Z.ltb_spec x (s_writePtr s)); [reflexivity|lia].
  - destruct (d0 .& 255 =? OPTTokenCsp) eqn:C.
    + destruct (Z.eqb_spec (cspIndex s) (-1)) as [CI|CI].
      * match goal with |- context [let '(o, p) := ?x in _] => destruct x as [o p] eqn:X end.
        cbv zeta. cbn [s_writePtr s_optSlices s_parser redirectIndex cspIndex].
        assert (O : forall x, x < s_writePtr s + 5 ->
                      aget (aset o (s_writePtr s + 5) i) x
                      = if x =? s_writePtr s then d0
                        else if x <? s_writePtr s then aget (s_optSlices s) x
                        else aget (aset o (s_writePtr s + 5) i) x).
        { intros x Hx.
          destruct (negb (lval =? 0)); injection X as <- <-; aget_simpl;
            repeat match goal with
                   | |- context [Z.ltb ?x ?y] => destruct (Z.ltb_spec x y); try lia
                   end; try reflexivity;
            rewrite !aget_aset_neq by lia; reflexivity. }
        assert (P : flavorBits p = flavorBits (s_parser s)).
        { destruct (negb (lval =? 0)); injection X as <- <-;
            repeat match goal with
                   | |- context [if ?b then _ else _] => destruct b
                   end;
            rewrite ?flavorBits_analyzeDomainList, ?flavorBits_markSlices; reflexivity. }
        rewrite (O (s_writePtr s)) by lia. rewrite Z.eqb_refl, R, C.
        split_all; try reflexivity; try assumption.
        intros x Hx. rewrite O by lia.
        destruct (Z.eqb_spec x (s_writePtr s)); [lia|].
        destruct (Z.ltb_spec x (s_writePtr s)); [reflexivity|lia].
      * match goal with |- context [let '(o, p) := ?x in _] => destruct x as [o p] eqn:X end.
        cbv zeta. cbn [s_writePtr s_optSlices s_parser redirectIndex cspIndex].
        assert (O : forall x, x < s_writePtr s + 5 ->
                      aget (aset o (s_writePtr s + 5) i) x
                      = if x =? s_writePtr s then OPTTokenInvalid
                        else if x <? s_writePtr s then aget (s_optSlices s) x
                        else aget (aset o (s_writePtr s + 5) i) x).
        { intros x Hx.
          destruct (negb (lval =? 0)); injection X as <- <-; aget_simpl;
            repeat match goal with
                   | |- context [Z.ltb ?x ?y] => destruct (Z.ltb_spec x y); try lia
                   end; try reflexivity;
            rewrite !aget_aset_neq by lia; reflexivity. }
        assert (P : flavorBits p = flavorBits (s_parser s)).
        { destruct (negb (lval =? 0)); injection X as <- <-;
            repeat match goal with
                   | |- context [if ?b then _ else _] => destruct b
                   end;
            rewrite ?flavorBits_analyzeDomainList, ?flavorBits_markSlices; reflexivity. }
        rewrite (O (s_writePtr s)) by lia. rewrite Z.eqb_refl.
        change (hasBits OPTTokenInvalid OPTRedirectType) with false.
        change (OPTTokenInvalid .& 255 =? OPTTokenCsp) with false.
        split_all; try reflexivity; try assumption; try (now left).
        intros x Hx. rewrite O by lia.
        destruct (Z.eqb_spec x (s_writePtr s)); [lia|].
        destruct (Z.ltb_spec x (s_writePtr s)); [reflexivity|lia].
    + match goal with |- context [let '(o, p) := ?x in _] => destruct x as [o p] eqn:X end.
      cbv zeta. cbn [s_writePtr s_optSlices s_parser redirectIndex cspIndex].
      assert (O : forall x, x < s_writePtr s + 5 ->
                    aget (aset o (s_writePtr s + 5) i) x
                    = if x =? s_writePtr s then d0
                      else if x <? s_writePtr s then aget (s_optSlices s) x
                      else aget (aset o (s_writePtr s + 5) i) x).
      { intros x Hx.
        destruct (negb (lval =? 0)); injection X as <- <-; aget_simpl;
          repeat match goal with
                 | |- context [Z.ltb ?x ?y] => destruct (Z.ltb_spec x y); try lia
                 end; try reflexivity;
          rewrite !aget_aset_neq by lia; reflexivity. }
      assert (P : flavorBits p = flavorBits (s_parser s)).
      { destruct (negb (lval =? 0)); injection X as <- <-;
          repeat match goal with
                 | |- context [if ?b then _ else _] => destruct b
                 end;
          rewrite ?flavorBits_analyzeDomainList, ?flavorBits_markSlices; reflexivity. }
      rewrite (O (s_writePtr s)) by lia. rewrite Z.eqb_refl, R, C.
      split_all; try reflexivity; try assumption.
      intros x Hx. rewrite O by lia.
      destruct (Z.eqb_spec x (s_writePtr s)); [lia|].
      destruct (Z.ltb_spec x (s_writePtr s)); [reflexivity|lia].
Qed.

Lemma scanInv_step (flavor : Z) (n : nat) (e i_ : bool) (ropts : Z) (s : scan) :
  scanInv flavor n s -> scanInv flavor (S n) (optionStep e i_ ropts s).
Proof.
  intros (W & T & R & C & RI & CI & F).
  destruct (optionStep_spec e i_ ropts s ltac:(lia)) as (W' & O & D & F' & X).
  set (s' := optionStep e i_ ropts s) in *.
  assert (Old : forall k, (k < n)%nat ->
                  aget (s_optSlices s') (6 * Z.of_nat k) = aget (s_optSlices s) (6 * Z.of_nat k))
    by (intros k Hk; apply O; lia).
  rewrite W in X, D.
  unfold scanInv. cbv zeta. split_all.
  - rewrite W', W. lia.
  - intros k Hk. destruct (Nat.eq_dec k n) as [->|N]; [exact D|].
    rewrite Old by lia. apply T. lia.
  - intros k Hk H. destruct (Nat.eq_dec k n) as [->|N].
    + rewrite H in X. destruct X as (_ & -> & _). lia.
    + rewrite Old in H by lia. pose proof (R k ltac:(lia) H) as E.
      destruct (hasBits (aget (s_optSlices s') (6 * Z.of_nat n)) OPTRedirectType).
      * destruct X as (X1 & _). lia.
      * destruct (_ =? OPTTokenCsp); destruct X as (X1 & X2); try destruct X2 as (X2 & X3); congruence.
  - intros k Hk H. destruct (Nat.eq_dec k n) as [->|N].
    + destruct (descriptor_facts _ D) as [DF _]. rewrite (DF H), H in X.
      destruct X as (_ & -> & _). lia.
    + rewrite Old in H by lia. pose proof (C k ltac:(lia) H) as E.
      destruct (hasBits (aget (s_optSlices s') (6 * Z.of_nat n)) OPTRedirectType).
      * destruct X as (_ & _ & X3). congruence.
      * destruct (_ =? OPTTokenCsp).
        -- destruct X as (X1 & _). lia.
        -- destruct X as (_ & X2). congruence.
  - destruct (hasBits (aget (s_optSlices s') (6 * Z.of_nat n)) OPTRedirectType).
    + right. exists n. split; [lia|]. destruct X as (_ & -> & _). lia.
    + assert (E : redirectIndex s' = redirectIndex s)
        by (destruct (_ =? OPTTokenCsp); destruct X as (X1 & X2); try destruct X2; congruence).
      rewrite E. destruct RI as [RI|(k & Hk & RI)]; [now left|].
      right. exists k. split; [lia|exact RI].
  - destruct (hasBits (aget (s_optSlices s') (6 * Z.of_nat n)) OPTRedirectType).
    + destruct X as (_ & _ & ->).
      destruct CI as [CI|(k & Hk & CI)]; [now left|].
      right. exists k. split; [lia|exact CI].
    + destruct (_ =? OPTTokenCsp).
      * right. exists n. split; [lia|]. destruct X as (_ & -> & _). lia.
      * destruct X as (_ & ->).
        destruct CI as [CI|(k & Hk & CI)]; [now left|].
        right. exists k. split; [lia|exact CI].
  - rewrite F'. exact F.
Qed.

Lemma scanInv_loop (flavor : Z) (e i_ : bool) (ropts : Z) (fuel : nat) :
  forall n s, scanInv flavor n s ->
    exists m, scanInv flavor m (optionsLoop fuel e i_ ropts s).
Proof.
  induction fuel as [|f IH]; intros n s H; cbn [optionsLoop].
  - now exists n.
  - destruct (lopt s <? ropts); [|now exists n].
    apply (IH (S n)). now apply scanInv_step.
Qed.

(** Turning descriptors into [OPTTokenInvalid] keeps the descriptors of a
    kind unique. *)
Lemma invalidate_cell (o : list Z) (x : Z) (k : nat) :
  0 <= x ->
  aget (aset o x OPTTokenInvalid) (6 * Z.of_nat k) = aget o (6 * Z.of_nat k)
  \/ aget (aset o x OPTTokenInvalid) (6 * Z.of_nat k) = OPTTokenInvalid.
Proof.
  intros H. rewrite aget_aset by lia. destruct (_ =? x); [now right|now left].
Qed.

Lemma filter_unique {A : Type} (f : nat -> A) (P : A -> bool) (n k : nat) :
  (forall i j, (k <= i < k + n)%nat -> (k <= j < k + n)%nat ->
     P (f i) = true -> P (f j) = true -> i = j) ->
  (length (filter P (map f (seq k n))) <= 1)%nat.
Proof.
  revert k. induction n as [|n IH]; intros k U; cbn [seq map filter length]; [lia|].
  destruct (P (f k)) eqn:E.
  - assert (Z0 : filter P (map f (seq (S k) n)) = []).
    { assert (G : forall x, In x (map f (seq (S k) n)) -> P x = false).
      { intros x Hx. apply in_map_iff in Hx. destruct Hx as (j & <- & Hj).
        apply in_seq in Hj. destruct (P (f j)) eqn:Ej; [|reflexivity].
        assert (k = j) by (apply U; try lia; assumption). lia. }
      clear - G. induction (map f (seq (S k) n)) as [|x l IHl]; [reflexivity|].
      cbn [filter]. rewrite G by now left. apply IHl. intros y Hy. apply G. now right. }
    rewrite Z0. cbn [length]. lia.
  - apply IH. intros i j Hi Hj. apply U; lia.
Qed.

(** The items seen by the loop body are the records of the iterator, in
    order. *)
Lemma collect_items (p : Parser) (n : nat) :
  forall (fuel k : nat) (it : t),
    writePtr it = 6 * Z.of_nat n -> readPtr it = 6 * Z.of_nat k -> (k <= n)%nat ->
    value it <> None -> done it = false -> (n - k < fuel)%nat ->
    collect fuel p it = map (itemAt p (optSlices it)) (seq k (n - k)).
Proof.
  induction fuel as [|f IH]; intros k it W R K V D F; [lia|].
  cbn [collect]. unfold next. rewrite W, R.
  destruct (Z.eqb_spec (6 * Z.of_nat k) (6 * Z.of_nat n)) as [E|E].
  - cbn [done]. replace (n - k)%nat with 0%nat by lia. reflexivity.
  - cbn [done value]. rewrite D.
    destruct (value it) as [v|] eqn:Vv; [|contradiction].
    replace (n - k)%nat with (S (n - S k)) by lia. cbn [seq map]. f_equal.
    rewrite (IH (S k)); cbn [writePtr readPtr value done optSlices]; try lia; try assumption;
      try discriminate.
    reflexivity.
Qed.

Lemma init_spec (p : Parser) (it : t) :
  flavorBits (snd (init p it)) = flavorBits p
  /\ exists (m : nat) (o : list Z) (s : scan),
       scanInv (flavorBits p) m s
       /\ fst (items p it) = map (itemAt (snd (init p it)) o) (seq 0 m)
       /\ forall k, (k < m)%nat ->
            aget o (6 * Z.of_nat k) = aget (s_optSlices s) (6 * Z.of_nat k)
            \/ aget o (6 * Z.of_nat k) = OPTTokenInvalid.
Proof.
  unfold items, init.
  destruct (Span.l (optionsSpan p) =? 0).
  - split; [reflexivity|].
    exists 0%nat, [], (mkScan p (optSlices it) 0 0 (-1) (-1) 0 0).
    split_all; try (intros; lia); try reflexivity.
    unfold scanInv. cbv zeta. cbn [s_writePtr redirectIndex cspIndex s_parser].
    split_all; try (intros; lia); try reflexivity; now left.
  - set (ropts := Span.i (optionsSpan p) + Span.l (optionsSpan p)).
    set (s0 := mkScan p (optSlices it) 0 0 (-1) (-1) 0 (Span.i (optionsSpan p))).
    assert (I0 : scanInv (flavorBits p) 0 s0).
    { unfold scanInv. cbv zeta. cbn [s0 s_writePtr redirectIndex cspIndex s_parser].
      split_all; try (intros; lia); try reflexivity; now left. }
    destruct (scanInv_loop (flavorBits p) (isException p) (parserIsInteractive p) ropts
                (Z.to_nat (ropts - Span.i (optionsSpan p))) 0%nat s0 I0) as [m Inv].
    set (s := optionsLoop _ _ _ _ s0) in *.
    pose proof Inv as (W & T & R & C & RI & CI & F).
    set (p1 := if parserIsInteractive p && hasBits (aget (slices (s_parser s)) (ropts - 3)) BITComma
               then set_slices (orCell (slices (s_parser s)) (ropts - 3) BITError) (s_parser s)
               else s_parser s).
    assert (F1 : flavorBits p1 = flavorBits p).
    { unfold p1. destruct (_ && _); exact F. }
    assert (Cell : forall (o : list Z) (x : Z) (k : nat),
               x = -1 \/ (exists j, (j < m)%nat /\ x = 6 * Z.of_nat j) -> x <> -1 ->
               (aget o (6 * Z.of_nat k) = aget (s_optSlices s) (6 * Z.of_nat k)
                \/ aget o (6 * Z.of_nat k) = OPTTokenInvalid) ->
               aget (aset o x OPTTokenInvalid) (6 * Z.of_nat k)
               = aget (s_optSlices s) (6 * Z.of_nat k)
               \/ aget (aset o x OPTTokenInvalid) (6 * Z.of_nat k) = OPTTokenInvalid).
    { intros o x k Hx Nx Ho.
      destruct (invalidate_cell o x k) as [G|G].
      - destruct Hx as [Hx|(j & _ & Hx)]; lia.
      - now rewrite G.
      - now right. }
    destruct (Z.eqb_spec (cspIndex s) (-1)) as [C1|C1];
      destruct (Z.eqb_spec (redirectIndex s) (-1)) as [C2|C2];
      cbn [negb andb];
      destruct (negb (typeCount s =? 0));
      destruct (negb (typeCount s =? 1) && negb (networkTypeCount s =? 1));
      destruct (parserIsInteractive p) eqn:PI;
      cbn [fst snd]; (split; [exact F1|]);
      eexists m, _, s; (split; [exact Inv|]);
      (split;
       [ rewrite (collect_items _ m _ 0%nat);
         cbn [writePtr readPtr value done optSlices]; try lia; try discriminate;
         rewrite ?Nat.sub_0_r; reflexivity
       | intros k _; repeat (apply Cell; [assumption|assumption|]); now left ]).
Qed.

Lemma invalid_descriptor_kinds :
  (OPTTokenInvalid .& 255 =? OPTTokenCsp) = false
  /\ (OPTTokenInvalid .& 255 =? OPTTokenRedirect)
     || (OPTTokenInvalid .& 255 =? OPTTokenRedirectRule) = false.
Proof. split; reflexivity. Qed.

(** C3 (amended). For every parser and iterator, among the options
    reported for a filter at most one has the id of [csp] and at most one
    has the id of [redirect] or of [redirect-rule].  The flavor bits of the
    parser are left as they were, so a repeated option does not set the
    Error flavor and [hasError] gives what it gave before the iteration. *)
Theorem at_most_one_csp_and_one_redirect (p : Parser) (it : t) :
  (length (filter (fun x => (id x =? OPTTokenCsp)%Z) (fst (items p it))) <= 1)%nat
  /\ (length (filter (fun x => ((id x =? OPTTokenRedirect) || (id x =? OPTTokenRedirectRule))%Z)
                (fst (items p it))) <= 1)%nat
  /\ flavorBits (snd (items p it)) = flavorBits p
  /\ hasError (snd (items p it)) = hasError p.
Proof.
  destruct (init_spec p it) as (F & m & o & s & Inv & E & O).
  assert (P : snd (items p it) = snd (init p it)).
  { unfold items. destruct (init p it). reflexivity. }
  destruct Inv as (W & T & R & C & RI & CI & _).
  destruct invalid_descriptor_kinds as [K1 K2].
  rewrite E, P. split_all.
  - apply filter_unique. intros i j Hi Hj Pi Pj.
    unfold itemAt in Pi, Pj. cbn [id] in Pi, Pj.
    rewrite Z.add_0_r in Pi, Pj.
    destruct (O i ltac:(lia)) as [Oi|Oi]; rewrite Oi in Pi; [|rewrite K1 in Pi; discriminate].
    destruct (O j ltac:(lia)) as [Oj|Oj]; rewrite Oj in Pj; [|rewrite K1 in Pj; discriminate].
    pose proof (C i ltac:(lia) Pi). pose proof (C j ltac:(lia) Pj). lia.
  - apply filter_unique. intros i j Hi Hj Pi Pj.
    unfold itemAt in Pi, Pj. cbn [id] in Pi, Pj.
    rewrite Z.add_0_r in Pi, Pj.
    destruct (O i ltac:(lia)) as [Oi|Oi]; rewrite Oi in Pi; [|rewrite K2 in Pi; discriminate].
    destruct (O j ltac:(lia)) as [Oj|Oj]; rewrite Oj in Pj; [|rewrite K2 in Pj; discriminate].
    apply (proj2 (descriptor_facts _ (T i ltac:(lia)))) in Pi.
    apply (proj2 (descriptor_facts _ (T j ltac:(lia)))) in Pj.
    pose proof (R i ltac:(lia) Pi). pose proof (R j ltac:(lia) Pj). lia.
  - exact F.
  - unfold hasError. now rewrite F.
Qed.

End NetOptions.

(** ** Bit vectors *)

Lemma hasBits_lor_other (a b m : Z) : b .& m = 0 -> hasBits (a .| b) m = hasBits a m.
Proof.
  intros H. unfold hasBits. now rewrite Z.land_lor_distr_l, H, Z.lor_0_r.
Qed.

Lemma hasBits_andnot_other (a b m : Z) :
  b .& m = 0 -> hasBits (a .& Z.lnot b) m = hasBits a m.
Proof.
  intros H. unfold hasBits. f_equal. f_equal.
  rewrite <- Z.land_assoc. f_equal.
  apply Z.bits_inj'. intros n Hn.
  rewrite Z.land_spec, Z.lnot_spec by assumption.
  assert (T : Z.testbit (b .& m) n = false) by now rewrite H, Z.bits_0.
  rewrite Z.land_spec in T.
  destruct (Z.testbit b n), (Z.testbit m n); try reflexivity; discriminate.
Qed.

Lemma hasBits_lor_same (a m : Z) : m <> 0 -> hasBits (a .| m) m = true.
Proof.
  intros H. unfold hasBits. rewrite Z.land_lor_distr_l, Z.land_diag.
  destruct (Z.eqb_spec (a .& m .| m) 0) as [E|E]; [|reflexivity].
  apply Z.lor_eq_0_iff in E. tauto.
Qed.

(** ** The regex flavor *)

Lemma keepsRegex_refl (p : Parser) : keepsRegex p p.
Proof. split; reflexivity. Qed.

Lemma keepsRegex_trans (p q r : Parser) : keepsRegex p q -> keepsRegex q r -> keepsRegex p r.
Proof. unfold keepsRegex. intuition congruence. Qed.

Lemma keepsRegex_splitSlot (slot l : Z) (p : Parser) : keepsRegex p (splitSlot slot l p).
Proof.
  unfold keepsRegex. cbn [splitSlot flavorBits optionsSpan]. split; [reflexivity|].
  unfold shiftSpan. destruct (_ >? _); reflexivity.
Qed.

Lemma keepsRegex_orFlavor (b : Z) (p : Parser) :
  b .& BITFlavorNetRegex = 0 -> keepsRegex p (orFlavor b p).
Proof.
  intros H. unfold keepsRegex. psimpl. split; [now apply hasBits_lor_other|reflexivity].
Qed.

Lemma keepsRegex_andNotFlavor (b : Z) (p : Parser) :
  b .& BITFlavorNetRegex = 0 -> keepsRegex p (andNotFlavor b p).
Proof.
  intros H. unfold keepsRegex. psimpl. split; [now apply hasBits_andnot_other|reflexivity].
Qed.

Ltac keeps_step :=
  match goal with
  | |- keepsRegex ?p ?p => apply keepsRegex_refl
  | |- keepsRegex _ (if ?b then _ else _) => destruct b
  | |- keepsRegex _ (orFlavor (if ?b then _ else _) _) => destruct b
  | |- keepsRegex _ (orFlavor _ _) =>
      eapply keepsRegex_trans; [|apply keepsRegex_orFlavor; reflexivity]
  | |- keepsRegex _ (andNotFlavor _ _) =>
      eapply keepsRegex_trans; [|apply keepsRegex_andNotFlavor; reflexivity]
  | |- keepsRegex _ (splitSlot _ _ _) =>
      eapply keepsRegex_trans; [|apply keepsRegex_splitSlot]
  | |- keepsRegex ?p (?f _ ?q) =>
      apply keepsRegex_trans with q; [|split; reflexivity]
  | |- keepsRegex ?p (?f _ _ _ ?q) =>
      apply keepsRegex_trans with q; [|split; reflexivity]
  end.

Lemma keepsRegex_leftAnchor (p : Parser) : keepsRegex p (analyzeNet_leftAnchor p).
Proof. unfold analyzeNet_leftAnchor. repeat keeps_step. Qed.

Lemma keepsRegex_rightAnchor (p : Parser) : keepsRegex p (analyzeNet_rightAnchor p).
Proof. unfold analyzeNet_rightAnchor. repeat keeps_step. Qed.

Lemma keepsRegex_anchors (b : bool) (p : Parser) : keepsRegex p (analyzeNet_anchors b p).
Proof.
  unfold analyzeNet_anchors. destruct (negb b).
  - eapply keepsRegex_trans; [|apply keepsRegex_rightAnchor].
    eapply keepsRegex_trans; [|apply keepsRegex_leftAnchor]. repeat keeps_step.
  - repeat keeps_step.
Qed.

Lemma keepsRegex_getNetPattern (p : Parser) : keepsRegex p (snd (getNetPattern p)).
Proof.
  unfold getNetPattern. destruct (pattern p); [|apply keepsRegex_refl].
  destruct (_ =? 0); [apply keepsRegex_refl|].
  destruct (hasBits _ _); split; reflexivity.
Qed.

Lemma keepsRegex_spaces (p : Parser) : keepsRegex p (analyzeNet_spaces p).
Proof.
  unfold analyzeNet_spaces.
  destruct (findLastSpace _ _ _ _ _) as [j pb].
  destruct (negb (j =? 0)); [|split; reflexivity].
  match goal with |- context [getNetPattern ?q] =>
    pose proof (keepsRegex_getNetPattern q) as F; destruct (getNetPattern q) as [s q'] end.
  cbn [snd] in F.
  apply keepsRegex_trans with q'.
  - eapply keepsRegex_trans; [|exact F]. split; reflexivity.
  - destruct (reIsLocalhostRedirect s); repeat keeps_step.
Qed.

Lemma keepsRegex_leadingWildcard (p : Parser) : keepsRegex p (analyzeNet_leadingWildcard p).
Proof. unfold analyzeNet_leadingWildcard. repeat keeps_step. Qed.

Lemma keepsRegex_trailingWildcard (p : Parser) : keepsRegex p (analyzeNet_trailingWildcard p).
Proof. unfold analyzeNet_trailingWildcard. repeat keeps_step. Qed.

Lemma keepsRegex_pointlessAnchors (p : Parser) : keepsRegex p (analyzeNet_pointlessAnchors p).
Proof. unfold analyzeNet_pointlessAnchors. repeat keeps_step. Qed.

Lemma keepsRegex_wildcards (p : Parser) : keepsRegex p (analyzeNet_wildcards p).
Proof.
  unfold analyzeNet_wildcards.
  eapply keepsRegex_trans; [|apply keepsRegex_pointlessAnchors].
  eapply keepsRegex_trans; [|apply keepsRegex_trailingWildcard].
  apply keepsRegex_leadingWildcard.
Qed.

(** ** [analyzeExt] either finds an extended filter or changes nothing *)

Lemma category_analyzeExtPattern (p : Parser) :
  category (analyzeExtPattern p) = category p.
Proof.
  unfold analyzeExtPattern.
  repeat match goal with
         | |- category (if ?b then _ else _) = _ => destruct b
         | |- category (match (if ?b then _ else _) with (_, _) => _ end) = _ => destruct b
         | |- category (match ?x with [] => _ | _ :: _ => _ end) = _ => destruct x
         end; reflexivity.
Qed.

Lemma analyzeExt_close_cases (from to fb : Z) (p : Parser) :
  analyzeExt_close from to fb p = p
  \/ category (analyzeExt_close from to fb p) = CATStaticExtFilter.
Proof.
  unfold analyzeExt_close. destruct (hasNoBits _ _); [now left|right].
  now rewrite category_analyzeExtPattern.
Qed.

Lemma analyzeExt_flavor_cases (from to fb : Z) (p : Parser) :
  analyzeExt_flavor from to fb p = p
  \/ category (analyzeExt_flavor from to fb p) = CATStaticExtFilter.
Proof.
  unfold analyzeExt_flavor.
  repeat match goal with
         | |- (if ?b then _ else _) = _ \/ _ => destruct b
         end; try (now left); apply analyzeExt_close_cases.
Qed.

Lemma analyzeExt_cases (from : Z) (p : Parser) :
  analyzeExt from p = p \/ category (analyzeExt from p) = CATStaticExtFilter.
Proof.
  unfold analyzeExt.
  repeat match goal with
         | |- (if ?b then _ else _) = _ \/ _ => destruct b
         end; try (now left); try apply analyzeExt_flavor_cases;
    right; now rewrite category_analyzeExtPattern.
Qed.

Lemma findInlineComment_cases (fuel : nat) (h : Z) (p : Parser) :
  findInlineComment fuel h p = p
  \/ exists h', findInlineComment fuel h p
                = set_commentSpan (Span.mk (h' - 3) (Span.i (rightSpaceSpan p) - h')) p.
Proof.
  revert h. induction fuel as [|n IH]; intros h; cbn [findInlineComment].
  - destruct (hasBits _ _); [right; now exists h|].
    destruct (_ =? -1); now left.
  - destruct (hasBits _ _); [right; now exists h|].
    destruct (_ =? -1); [now left|]. apply IH.
Qed.

Lemma slice_resets (raw_ : list Z) (p : Parser) :
  commentSpan (slice raw_ p) = Span.reset /\ optionsSpan (slice raw_ p) = Span.reset
  /\ flavorBits (slice raw_ p) = 0 /\ category (slice raw_ p) = CATNone
  /\ pattern (slice raw_ p) = [] /\ patternBits (slice raw_ p) = 0.
Proof.
  destruct raw_ as [|c rest]; [repeat split|].
  pose proof (slice_nonempty c rest p) as S. unfold slicedState in S. cbv zeta in S.
  repeat split; apply S.
Qed.

(** When [analyze] goes on with [analyzeNet], the parser is as [slice] left
    it but for the comment span. *)
Lemma analyze_head_net (raw_ : list Z) (p0 p : Parser) :
  analyze_head raw_ p0 = ToAnalyzeNet p ->
  exists c, p = set_commentSpan c (slice raw_ p0).
Proof.
  unfold analyze_head. set (q := slice raw_ p0).
  destruct (_ =? _); [discriminate|].
  destruct (hasBits _ BITLineComment).
  { destruct (_ =? CATStaticExtFilter); discriminate. }
  set (q1 := set_commentSpan _ q).
  assert (Q1 : forall c, set_commentSpan c q1 = set_commentSpan c q) by reflexivity.
  assert (C1 : category q1 = CATNone) by apply (slice_resets raw_ p0).
  destruct (hasBits (allBits q1) BITHash); [|intros H; injection H as <-; now eexists].
  destruct (negb _); [|intros H; injection H as <-; now eexists].
  destruct (analyzeExt_cases (findFirstMatch (Span.l (leftSpaceSpan q)) BITHash q1) q1) as [E|E].
  - rewrite E, C1. change (CATNone =? CATStaticExtFilter) with false.
    destruct (negb _).
    + intros H. injection H as <-.
      destruct (findInlineComment_cases (Z.to_nat (sliceWritePtr q))
                  (findFirstMatch (Span.l (leftSpaceSpan q)) BITHash q1) q1) as [F|(h & F)];
        rewrite F; [|rewrite Q1]; now eexists.
    + intros H. injection H as <-. now eexists.
  - rewrite E. change (CATStaticExtFilter =? CATStaticExtFilter) with true. discriminate.
Qed.

(** ** Cells below the write pointer *)

Lemma cellsAgree_read (W : Z) (a b : list Z) (k : Z) :
  cellsAgree W a b -> k < W -> aget b k = aget a k.
Proof.
  intros [_ H] K. destruct (Z.ltb_spec k 0) as [N|N].
  - now rewrite !aget_neg.
  - apply H. lia.
Qed.

Lemma cellsAgree_refl (W : Z) (a : list Z) : W <= Z.of_nat (length a) -> cellsAgree W a a.
Proof. intros H. split; [exact H|reflexivity]. Qed.

Lemma cellsAgree_aset (W : Z) (a b : list Z) (k v : Z) :
  cellsAgree W a b -> cellsAgree W (aset a k v) (aset b k v).
Proof.
  intros [L H]. split.
  - pose proof (length_aset_ge b k v). lia.
  - intros j Hj. destruct (Z.ltb_spec k 0) as [N|N].
    + unfold aset. apply Z.ltb_lt in N. rewrite N. now apply H.
    + rewrite !aget_aset by lia. destruct (j =? k); [reflexivity|now apply H].
Qed.

Lemma cellsAgree_orCell (W : Z) (a b : list Z) (k bits : Z) :
  cellsAgree W a b -> k < W -> cellsAgree W (orCell a k bits) (orCell b k bits).
Proof.
  intros A K. unfold orCell. rewrite (cellsAgree_read W a b k A K).
  now apply cellsAgree_aset.
Qed.

Lemma cellsAgree_markSlices_loop (W : Z) (bits end_ : Z) (fuel : nat) :
  forall a b beg, cellsAgree W a b -> end_ <= W ->
    cellsAgree W (markSlices_loop fuel a beg end_ bits) (markSlices_loop fuel b beg end_ bits).
Proof.
  induction fuel as [|n IH]; intros a b beg A E; cbn [markSlices_loop]; [exact A|].
  destruct (Z.ltb_spec beg end_) as [H|H]; [|exact A].
  apply IH; [|exact E]. apply cellsAgree_orCell; [exact A|lia].
Qed.

(** ** Related parsers *)

Lemma related_refl (p : Parser) :
  sliceWritePtr p <= Z.of_nat (length (slices p)) -> related p p.
Proof.
  intros H. split; [now destruct p|now apply cellsAgree_refl].
Qed.

Lemma related_fields (p p2 : Parser) :
  related p p2 ->
  interactive p2 = interactive p /\ raw p2 = raw p
  /\ leftSpaceSpan p2 = leftSpaceSpan p /\ exceptionSpan p2 = exceptionSpan p
  /\ patternLeftAnchorSpan p2 = patternLeftAnchorSpan p /\ patternSpan p2 = patternSpan p
  /\ patternRightAnchorSpan p2 = patternRightAnchorSpan p
  /\ optionsAnchorSpan p2 = optionsAnchorSpan p /\ optionsSpan p2 = optionsSpan p
  /\ commentSpan p2 = commentSpan p /\ rightSpaceSpan p2 = rightSpaceSpan p
  /\ eolSpan p2 = eolSpan p /\ sliceWritePtr p2 = sliceWritePtr p
  /\ category p2 = category p /\ allBits p2 = allBits p /\ patternBits p2 = patternBits p
  /\ optionsBits p2 = optionsBits p /\ flavorBits p2 = flavorBits p
  /\ pattern p2 = pattern p /\ maxTokenLength p2 = maxTokenLength p
  /\ punycoder p2 = punycoder p /\ compileSelector p2 = compileSelector p.
Proof.
  intros [E _]. rewrite E. repeat split.
Qed.

Lemma related_read (p p2 : Parser) (k : Z) :
  related p p2 -> k < sliceWritePtr p -> aget (slices p2) k = aget (slices p) k.
Proof. intros [_ A] K. now apply cellsAgree_read with (sliceWritePtr p). Qed.

(** A related pair is a parser [p] and [set_slices b p]. *)
Lemma related_intro (p : Parser) (b : list Z) :
  cellsAgree (sliceWritePtr p) (slices p) b -> related p (set_slices b p).
Proof. intros A. split; [reflexivity|exact A]. Qed.

Lemma related_elim (p p2 : Parser) :
  related p p2 ->
  exists b, p2 = set_slices b p /\ cellsAgree (sliceWritePtr p) (slices p) b.
Proof. intros [E A]. exists (slices p2). split; assumption. Qed.

Lemma related_splitSlot (slot l : Z) (p p2 : Parser) :
  slotsWellFormed p -> isSlot p slot -> related p p2 ->
  related (splitSlot slot l p) (splitSlot slot l p2).
Proof.
  intros WF S R. apply related_elim in R. destruct R as (b & -> & A).
  assert (WF2 : slotsWellFormed (set_slices b p)).
  { destruct WF as (M & W0 & W1). destruct A as [L _]. split; psimpl; [exact M|lia]. }
  assert (S2 : isSlot (set_slices b p) slot) by exact S.
  destruct (splitSlot_cells p slot l WF S) as (W1 & L1 & C1).
  destruct (splitSlot_cells (set_slices b p) slot l WF2 S2) as (W2 & L2 & C2).
  split; [reflexivity|]. rewrite W1. split.
  - exact L2.
  - intros k Hk. psimpl. rewrite C1, C2 by (psimpl; lia). psimpl.
    pose proof (isSlot_next p slot (proj1 WF) S) as N. destruct S as (S0 & _ & _).
    unfold splitCell.
    repeat match goal with
           | |- context [Z.ltb ?x ?y] => destruct (Z.ltb_spec x y); try lia
           | |- context [Z.eqb ?x ?y] => destruct (Z.eqb_spec x y); try lia
           end;
      rewrite ?(cellsAgree_read _ _ _ _ A) by lia; reflexivity.
Qed.

Lemma related_markSlices (beg end_ bits : Z) (p p2 : Parser) :
  related p p2 -> end_ <= sliceWritePtr p ->
  related (markSlices beg end_ bits p) (markSlices beg end_ bits p2).
Proof.
  intros R E. apply related_elim in R. destruct R as (b & -> & A).
  split; [reflexivity|]. psimpl. unfold markSlices. psimpl.
  now apply cellsAgree_markSlices_loop.
Qed.

Lemma related_ignoreSlice (k : Z) (p p2 : Parser) :
  related p p2 -> k < sliceWritePtr p -> related (ignoreSlice k p) (ignoreSlice k p2).
Proof.
  intros R K. apply related_elim in R. destruct R as (b & -> & A).
  split; [reflexivity|]. psimpl. now apply cellsAgree_orCell.
Qed.

(** Updates of the other fields keep parsers related. *)
Lemma related_update (f : Parser -> Parser) (p p2 : Parser) :
  (forall q b, f (set_slices b q) = set_slices b (f q)) ->
  (forall q, sliceWritePtr (f q) = sliceWritePtr q) ->
  (forall q, slices (f q) = slices q) ->
  related p p2 -> related (f p) (f p2).
Proof.
  intros C W S R. apply related_elim in R. destruct R as (b & -> & A).
  rewrite C. split.
  - reflexivity.
  - psimpl. now rewrite W, S.
Qed.

(** ** Class bits and overlay bits *)

Lemma classOf_lor (b ov : Z) : ov .& Z.lnot overlayBits = 0 -> classOf (b .| ov) = classOf b.
Proof.
  intros H. unfold classOf. now rewrite Z.land_lor_distr_l, H, Z.lor_0_r.
Qed.

Lemma classOf_ignore (b : Z) : classOf (b .| BITIgnore) = classOf b.
Proof. apply classOf_lor. reflexivity. Qed.

Lemma classOf_error (b : Z) : classOf (b .| BITError) = classOf b.
Proof. apply classOf_lor. reflexivity. Qed.

Lemma classOf_charBits (c : Z) : classOf (charBits c) = charBits c.
Proof.
  apply Z.eqb_eq. apply (class_forall (fun b => classOf b =? b)). vm_compute. reflexivity.
Qed.

Lemma hasBits_classOf (b m : Z) :
  overlayBits .& m = 0 -> hasBits (classOf b) m = hasBits b m.
Proof. intros H. unfold classOf. now apply hasBits_andnot_other. Qed.

Lemma hasBits_lor_overlay (b ov m : Z) : ov .& m = 0 -> hasBits (b .| ov) m = hasBits b m.
Proof. apply hasBits_lor_other. Qed.

(** ** The slice array through the analysis *)

Lemma slicesOK_ext (p q : Parser) :
  slices q = slices p -> sliceWritePtr q = sliceWritePtr p -> raw q = raw p ->
  slicesOK p -> slicesOK q.
Proof.
  intros S W R. unfold slicesOK, sliceOK, slotOrigin, slotLength, slotBits.
  now rewrite S, W, R.
Qed.

Lemma slicesOK_wellFormed (p : Parser) : slicesOK p -> slotsWellFormed p.
Proof. intros (M & W & _). split; [exact M|lia]. Qed.

(** Setting overlay bits on a slice. *)
Lemma slicesOK_orCell (p : Parser) (k ov : Z) :
  ov .& Z.lnot overlayBits = 0 -> k mod 3 = 0 ->
  slicesOK p -> slicesOK (set_slices (orCell (slices p) k ov) p).
Proof.
  intros Hov K (M & W & O0 & OE & LE & S).
  assert (G : forall j, j mod 3 <> 0 -> aget (orCell (slices p) k ov) j = aget (slices p) j).
  { intros j Hj. unfold orCell. apply aget_aset_neq. intros ->. contradiction. }
  assert (L : (length (slices p) <= length (orCell (slices p) k ov))%nat)
    by apply length_aset_ge.
  unfold slicesOK, sliceOK, slotOrigin, slotLength, slotBits in *. psimpl. cbv zeta.
  split_all; try assumption; try lia.
  - rewrite G; [exact O0|clear; Z.div_mod_to_equations; lia].
  - rewrite G; [exact OE|clear - M; Z.div_mod_to_equations; lia].
  - rewrite G; [exact LE|clear - M; Z.div_mod_to_equations; lia].
  - intros j J0 J1 J2. destruct (S j J0 J1 J2) as (S1 & S2 & S3 & S4).
    rewrite !G by (clear - J1; Z.div_mod_to_equations; lia).
    split_all; try assumption.
    intros x Hx. rewrite (S4 x Hx). unfold orCell.
    destruct (Z.ltb_spec k 0) as [N|N].
    + unfold aset. apply Z.ltb_lt in N. now rewrite N.
    + rewrite aget_aset by lia. destruct (Z.eqb_spec j k) as [->|_]; [|reflexivity].
      symmetry. now apply classOf_lor.
Qed.

Lemma slicesOK_ignoreSlice (p : Parser) (k : Z) :
  k mod 3 = 0 -> slicesOK p -> slicesOK (ignoreSlice k p).
Proof. intros K S. now apply slicesOK_orCell. Qed.

Lemma slicesOK_markSlices_loop (ov end_ : Z) (fuel : nat) :
  ov .& Z.lnot overlayBits = 0 ->
  forall (p : Parser) (beg : Z), beg mod 3 = 0 -> slicesOK p ->
    slicesOK (set_slices (markSlices_loop fuel (slices p) beg end_ ov) p).
Proof.
  intros Hov. induction fuel as [|n IH]; intros p beg B S; cbn [markSlices_loop].
  - now destruct p.
  - destruct (beg <? end_); [|now destruct p].
    specialize (IH (set_slices (orCell (slices p) beg ov) p) (beg + 3)).
    psimpl. apply IH.
    + clear - B. Z.div_mod_to_equations. lia.
    + now apply slicesOK_orCell.
Qed.

Lemma slicesOK_markSlices (p : Parser) (beg end_ ov : Z) :
  ov .& Z.lnot overlayBits = 0 -> beg mod 3 = 0 ->
  slicesOK p -> slicesOK (markSlices beg end_ ov p).
Proof. intros. now apply slicesOK_markSlices_loop. Qed.

(** Splitting a slice in two parts that are not empty. *)
Lemma slicesOK_splitSlot (p : Parser) (slot l : Z) :
  slicesOK p -> 0 <= slot -> slot mod 3 = 0 -> slot + 3 <= sliceWritePtr p - 3 ->
  0 < l < slotLength p slot ->
  slicesOK (splitSlot slot l p).
Proof.
  intros OK S0 S1 S2 Hl. pose proof (slicesOK_wellFormed p OK) as WF.
  assert (IS : isSlot p slot) by (unfold isSlot; lia).
  destruct (splitSlot_cells p slot l WF IS) as (W' & L' & C).
  destruct OK as (M & W & O0 & OE & LE & S).
  unfold slicesOK, sliceOK, slotOrigin, slotLength, slotBits in *. cbv zeta.
  rewrite W'. replace (raw (splitSlot slot l p)) with (raw p) by reflexivity.
  assert (M' : (sliceWritePtr p + 3) mod 3 = 0) by (clear - M; Z.div_mod_to_equations; lia).
  split_all; try assumption; try lia.
  - rewrite C by lia. unfold splitCell.
    destruct (Z.ltb_spec (0 + 1) (slot + 2)); [exact O0|lia].
  - rewrite C by lia. unfold splitCell.
    repeat match goal with
           | |- context [Z.ltb ?x ?y] => destruct (Z.ltb_spec x y); try lia
           | |- context [Z.eqb ?x ?y] => destruct (Z.eqb_spec x y); try lia
           end.
    rewrite <- OE. f_equal. lia.
  - rewrite C by lia. unfold splitCell.
    repeat match goal with
           | |- context [Z.ltb ?x ?y] => destruct (Z.ltb_spec x y); try lia
           | |- context [Z.eqb ?x ?y] => destruct (Z.eqb_spec x y); try lia
           end.
    rewrite <- LE. f_equal. lia.
  - intros k K0 K1 K2.
    assert (D : k + 3 <= slot \/ k = slot \/ k = slot + 3 \/ slot + 6 <= k)
      by (clear - K1 S1; Z.div_mod_to_equations; lia).
    rewrite !C by lia. unfold splitCell.
    destruct (S slot S0 S1 ltac:(lia)) as (T1 & T2 & T3 & T4).
    destruct D as [D|[D|[D|D]]].
    + destruct (S k K0 K1 ltac:(lia)) as (U1 & U2 & U3 & U4).
      repeat match goal with
             | |- context [Z.ltb ?x ?y] => destruct (Z.ltb_spec x y); try lia
             | |- context [Z.eqb ?x ?y] => destruct (Z.eqb_spec x y); try lia
             end.
      replace (k + 3 + 1) with (k + 4) in * by lia.
      split_all; assumption.
    + subst k.
      repeat match goal with
             | |- context [Z.ltb ?x ?y] => destruct (Z.ltb_spec x y); try lia
             | |- context [Z.eqb ?x ?y] => destruct (Z.eqb_spec x y); try lia
             end.
      split_all; try lia. intros x Hx. apply T4. lia.
    + subst k.
      repeat match goal with
             | |- context [Z.ltb ?x ?y] => destruct (Z.ltb_spec x y); try lia
             | |- context [Z.eqb ?x ?y] => destruct (Z.eqb_spec x y); try lia
             end.
      replace (slot + 3 + 3 + 1 - 3) with (slot + 3 + 1) by lia.
      split_all; try lia. intros x Hx. apply T4. lia.
    + assert (K3 : (k - 3) mod 3 = 0) by (clear - K1; Z.div_mod_to_equations; lia).
      destruct (S (k - 3) ltac:(lia) K3 ltac:(lia)) as (U1 & U2 & U3 & U4).
      repeat match goal with
             | |- context [Z.ltb ?x ?y] => destruct (Z.ltb_spec x y); try lia
             | |- context [Z.eqb ?x ?y] => destruct (Z.eqb_spec x y); try lia
             end.
      replace (k + 2 - 3) with (k - 3 + 2) by lia.
      replace (k + 1 - 3) with (k - 3 + 1) by lia.
      replace (k + 3 + 1 - 3) with (k - 3 + 3 + 1) by lia.
      split_all; assumption.
Qed.

(** ** The scans over the slices *)

Lemma findFirstMatch_loop_agree (W : Z) (a b : list Z) (bits : Z) :
  cellsAgree W a b ->
  forall fuel to, findFirstMatch_loop fuel b W to bits = findFirstMatch_loop fuel a W to bits.
Proof.
  intros A. induction fuel as [|n IH]; intros to; cbn [findFirstMatch_loop]; [reflexivity|].
  destruct (Z.ltb_spec to W) as [H|H]; [|reflexivity].
  rewrite (cellsAgree_read W a b to A H), IH. reflexivity.
Qed.

Lemma findFirstMatch_related (from bits : Z) (p p2 : Parser) :
  related p p2 -> findFirstMatch from bits p2 = findFirstMatch from bits p.
Proof.
  intros R. destruct (related_fields p p2 R) as (_ & _ & _ & _ & _ & _ & _ & _ & _ & _ & _ & _ & W & _).
  unfold findFirstMatch. rewrite W. apply findFirstMatch_loop_agree, R.
Qed.

Lemma findFirstMatch_loop_spec (a : list Z) (W bits : Z) :
  forall fuel to,
    let r := findFirstMatch_loop fuel a W to bits in
    r = -1 \/ (to <= r < W /\ (r - to) mod 3 = 0 /\ hasBits (aget a r) bits = true).
Proof.
  induction fuel as [|n IH]; intros to; cbn [findFirstMatch_loop]; [now left|].
  destruct (Z.ltb_spec to W) as [H|H]; [|now left].
  destruct (negb (aget a to .& bits =? 0)) eqn:E.
  - right. split; [lia|]. split; [now rewrite Z.sub_diag|exact E].
  - destruct (IH (to + 3)) as [I|(I1 & I2 & I3)]; [now left|right].
    split; [lia|]. split; [|exact I3].
    clear - I2. Z.div_mod_to_equations. lia.
Qed.

Lemma findFirstMatch_spec (from bits : Z) (p : Parser) :
  let r := findFirstMatch from bits p in
  r = -1 \/ (from <= r < sliceWritePtr p /\ (r - from) mod 3 = 0
             /\ hasBits (aget (slices p) r) bits = true).
Proof. apply findFirstMatch_loop_spec. Qed.

Lemma findFirstOdd_loop_agree (W : Z) (a b : list Z) (bits : Z) :
  cellsAgree W a b ->
  forall fuel to, findFirstOdd_loop fuel b W to bits = findFirstOdd_loop fuel a W to bits.
Proof.
  intros A. induction fuel as [|n IH]; intros to; cbn [findFirstOdd_loop]; [reflexivity|].
  destruct (Z.ltb_spec to W) as [H|H]; [|reflexivity].
  rewrite (cellsAgree_read W a b to A H), IH. reflexivity.
Qed.

Lemma findFirstOdd_related (from bits : Z) (p p2 : Parser) :
  related p p2 -> findFirstOdd from bits p2 = findFirstOdd from bits p.
Proof.
  intros R. destruct (related_fields p p2 R) as (_ & _ & _ & _ & _ & _ & _ & _ & _ & _ & _ & _ & W & _).
  unfold findFirstOdd. rewrite W. apply findFirstOdd_loop_agree, R.
Qed.

(** The scan for the options anchor reads slices from [islice] up to the
    slot it starts from. *)
Lemma findOptionsAnchor_agree (W : Z) (a b : list Z) (islice : Z) :
  cellsAgree W a b ->
  forall fuel i ob, i <= W ->
    findOptionsAnchor fuel b islice i ob = findOptionsAnchor fuel a islice i ob.
Proof.
  intros A. induction fuel as [|n IH]; intros i ob H; cbn [findOptionsAnchor];
    rewrite (cellsAgree_read W a b (i - 3) A) by lia; [reflexivity|].
  destruct (i - 3 <? islice); [reflexivity|].
  destruct (hasBits _ _); [reflexivity|]. apply IH. lia.
Qed.

Lemma findOptionsAnchor_spec (a : list Z) (islice : Z) :
  forall fuel i ob, i - islice <= Z.of_nat fuel ->
    let r := fst (findOptionsAnchor fuel a islice i ob) in
    r < islice
    \/ (islice <= r < i /\ (i - r) mod 3 = 0 /\ hasBits (aget a r) BITDollar = true).
Proof.
  induction fuel as [|n IH]; intros i ob F; cbn [findOptionsAnchor].
  - destruct (Z.ltb_spec (i - 3) islice) as [H|H]; [now left|lia].
  - destruct (Z.ltb_spec (i - 3) islice) as [H|H]; [now left|].
    destruct (hasBits (aget a (i - 3)) BITDollar) eqn:D.
    + right. cbn [fst]. split; [lia|]. split; [|exact D].
      replace (i - (i - 3)) with 3 by lia. reflexivity.
    + destruct (IH (i - 3) (ob .| aget a (i - 3)) ltac:(lia)) as [I|(I1 & I2 & I3)];
        [now left|right].
      split; [lia|]. split; [|exact I3]. clear - I2. Z.div_mod_to_equations. lia.
Qed.

(** The scan for the last space reads slices of the pattern. *)
Lemma findLastSpace_agree (W : Z) (a b : list Z) (i : Z) :
  cellsAgree W a b ->
  forall fuel j pb, i + j <= W ->
    findLastSpace fuel b i j pb = findLastSpace fuel a i j pb.
Proof.
  intros A. induction fuel as [|n IH]; intros j pb H; cbn [findLastSpace];
    rewrite (cellsAgree_read W a b (i + (j - 3)) A) by lia; [reflexivity|].
  destruct (j =? 0); [reflexivity|].
  destruct (hasBits _ _); [reflexivity|]. apply IH. lia.
Qed.

Lemma findLastSpace_spec (a : list Z) (i : Z) :
  forall fuel j pb, 0 <= j -> j mod 3 = 0 -> j <= Z.of_nat fuel ->
    let r := fst (findLastSpace fuel a i j pb) in
    0 <= r /\ r mod 3 = 0
    /\ (r = 0 \/ (r + 3 <= j /\ hasBits (aget a (i + r)) BITSpace = true)).
Proof.
  induction fuel as [|n IH]; intros j pb J0 J1 F; cbn [findLastSpace].
  - assert (j = 0) by lia. subst j. cbn [Z.eqb fst]. split_all; try lia; try reflexivity.
  - destruct (Z.eqb_spec j 0) as [->|N]; [cbn [fst]; split_all; try lia; try reflexivity|].
    assert (J3 : 3 <= j) by (clear - J0 J1 N; Z.div_mod_to_equations; lia).
    assert (M : (j - 3) mod 3 = 0) by (clear - J1; Z.div_mod_to_equations; lia).
    destruct (hasBits (aget a (i + (j - 3))) BITSpace) eqn:D.
    + cbn [fst]. split_all; try lia; try assumption. right. split; [lia|exact D].
    + destruct (IH (j - 3) (pb .| aget a (i + (j - 3))) ltac:(lia) M ltac:(lia))
        as (I1 & I2 & I3).
      split_all; try assumption. destruct I3 as [I3|(I3 & I4)]; [now left|right].
      split; [lia|exact I4].
Qed.

(** All the slices the scan went over have no space. *)
Lemma findLastSpace_no_space (a : list Z) (i : Z) :
  forall fuel j pb, 0 <= j -> j mod 3 = 0 -> j <= Z.of_nat fuel ->
    (forall k, 0 <= k < j -> k mod 3 = 0 -> hasBits (aget a (i + k)) BITSpace = false) ->
    fst (findLastSpace fuel a i j pb) = 0.
Proof.
  induction fuel as [|n IH]; intros j pb J0 J1 F H; cbn [findLastSpace].
  - assert (j = 0) by lia. subst j. reflexivity.
  - destruct (Z.eqb_spec j 0) as [->|N]; [reflexivity|].
    assert (J3 : 3 <= j) by (clear - J0 J1 N; Z.div_mod_to_equations; lia).
    assert (M : (j - 3) mod 3 = 0) by (clear - J1; Z.div_mod_to_equations; lia).
    rewrite (H (j - 3)) by (lia || assumption).
    apply IH; try lia; try assumption.
    intros k K0 K1. apply H; [lia|assumption].
Qed.

(** [skipUntilNot] from a slot [from] to a slot [to] after it reads slices
    below [to]; started past [to], it ends past [to]. *)
Lemma skipUntilNot_loop_agree (W : Z) (a b : list Z) (to bits : Z) :
  cellsAgree W a b -> to <= W ->
  forall fuel i, i <= to -> (to - i) mod 3 = 0 ->
    skipUntilNot_loop fuel b i to bits = skipUntilNot_loop fuel a i to bits.
Proof.
  intros A T. induction fuel as [|n IH]; intros i H M; cbn [skipUntilNot_loop].
  - destruct (Z.eqb_spec i to) as [E|E]; [reflexivity|].
    rewrite (cellsAgree_read W a b i A) by lia. reflexivity.
  - destruct (Z.eqb_spec i to) as [E|E]; [reflexivity|].
    rewrite (cellsAgree_read W a b i A) by lia. cbn [orb].
    destruct (_ =? 0); [reflexivity|].
    apply IH; clear - H M E; Z.div_mod_to_equations; lia.
Qed.

Lemma skipUntilNot_loop_fuel (a : list Z) (to bits : Z) :
  forall fuel fuel' i, 0 <= i -> i <= to -> (to - i) mod 3 = 0 ->
    to - i <= Z.of_nat fuel -> to - i <= Z.of_nat fuel' ->
    skipUntilNot_loop fuel a i to bits = skipUntilNot_loop fuel' a i to bits.
Proof.
  induction fuel as [|n IH]; intros fuel' i I0 H M F F'.
  - assert (i = to) by lia. subst i. destruct fuel'; cbn [skipUntilNot_loop];
      rewrite Z.eqb_refl; reflexivity.
  - destruct fuel' as [|m].
    + assert (i = to) by lia. subst i. cbn [skipUntilNot_loop]. rewrite Z.eqb_refl. reflexivity.
    + cbn [skipUntilNot_loop]. destruct (Z.eqb_spec i to) as [E|E]; [reflexivity|].
      cbn [orb]. destruct (_ =? 0); [reflexivity|].
      apply IH; clear - I0 H M E F F'; Z.div_mod_to_equations; lia.
Qed.

Lemma skipUntilNot_loop_past (a : list Z) (to bits : Z) :
  forall fuel i, to < i -> to < skipUntilNot_loop fuel a i to bits.
Proof.
  induction fuel as [|n IH]; intros i H; cbn [skipUntilNot_loop].
  - destruct (_ || _); exact H.
  - destruct (_ || _); [exact H|]. apply IH. lia.
Qed.

Lemma skipUntilNot_related (from to bits : Z) (p p2 : Parser) :
  related p p2 -> sliceWritePtr p <= Z.of_nat (length (slices p)) ->
  0 <= from -> from + 3 <= to -> (to - from) mod 3 = 0 -> to <= sliceWritePtr p ->
  skipUntilNot from to bits p2 = skipUntilNot from to bits p.
Proof.
  intros R L F0 F T W. unfold skipUntilNot.
  assert (M : (to - (from + 3)) mod 3 = 0) by (clear - T; Z.div_mod_to_equations; lia).
  destruct R as [_ A]. pose proof A as [L2 _].
  rewrite (skipUntilNot_loop_fuel (slices p2) to bits (length (slices p2)) (length (slices p)))
    by lia.
  now apply skipUntilNot_loop_agree with (sliceWritePtr p).
Qed.

(** ** The parser after [slice] *)

Lemma hasBits_space_class (c : Z) :
  hasBits (charBits c) BITSpace = true -> charBits c = BITSpace.
Proof.
  intros H. apply Z.eqb_eq.
  assert (T : implb (hasBits (charBits c) BITSpace) (charBits c =? BITSpace) = true).
  { apply (class_forall (fun b => implb (hasBits b BITSpace) (b =? BITSpace))).
    vm_compute. reflexivity. }
  now rewrite H in T.
Qed.

Lemma sliced_facts (c : Z) (rest : list Z) (p0 : Parser) :
  let q := slice (c :: rest) p0 in
  slicesOK q /\ spaceLayout q /\ endBits q /\ spansUnset q
  /\ category q = CATNone /\ flavorBits q = 0 /\ patternBits q = 0
  /\ optionsBits q = 0 /\ pattern q = [] /\ raw q = c :: rest
  /\ allBits q = bitsOf (c :: rest)
  /\ commentSpan q = Span.reset
  /\ (forall k, 0 <= k -> k mod 3 = 0 -> k + 3 <= sliceWritePtr q - 3 ->
        exists x, slotBits q k = charBits x /\ In x (c :: rest))
  /\ (Span.l (leftSpaceSpan q) = 3 <-> hasBits (slotBits q 0) BITSpace = true).
Proof.
  pose proof (slice_nonempty c rest p0) as S. unfold slicedState in S. cbv zeta in *.
  set (q := slice (c :: rest) p0) in *.
  destruct S as (S1 & S2 & S3 & S4 & S5 & S6 & S7 & S8 & S9 & S10 & S11 & S12 & S13 & S14
                 & S15 & S16 & S17 & S18 & S19 & S20 & S21 & S22 & S23 & S24).
  assert (Cls : forall k, 0 <= k -> k mod 3 = 0 -> k + 3 <= sliceWritePtr q - 3 ->
                  exists x, slotBits q k = charBits x /\ In x (c :: rest)).
  { intros k K0 K1 K2. destruct (S8 k K0 K1 K2) as (T1 & T2 & T3 & T4).
    exists (nth (Z.to_nat (aget (slices q) (k + 1))) (c :: rest) 0). split.
    - symmetry. apply T4. lia.
    - apply nth_In.
      assert (B : aget (slices q) (k + 4) <= Z.of_nat (length (c :: rest))).
      { clear - S2 S3 S5 S8 K0 K1 K2.
        assert (G : forall n : nat, forall j, 0 <= j -> j mod 3 = 0 ->
                      j + 3 * Z.of_nat n = sliceWritePtr q - 3 ->
                      aget (slices q) (j + 1) <= Z.of_nat (length (c :: rest))).
        { induction n as [|n IH]; intros j J0 J1 J2.
          - replace (j + 1) with (sliceWritePtr q - 2) by lia. lia.
          - destruct (S8 j J0 J1 ltac:(lia)) as (U1 & U2 & U3 & U4).
            assert (M : (j + 3) mod 3 = 0) by (clear - J1; Z.div_mod_to_equations; lia).
            pose proof (IH (j + 3) ltac:(lia) M ltac:(lia)) as I.
            replace (j + 3 + 1) with (j + 4) in I by lia. lia. }
        assert (E : exists n : nat, k + 3 + 3 * Z.of_nat n = sliceWritePtr q - 3).
        { exists (Z.to_nat ((sliceWritePtr q - 3 - (k + 3)) / 3)).
          clear - K1 K2 S2. Z.div_mod_to_equations. lia. }
        destruct E as [n E].
        assert (M : (k + 3) mod 3 = 0) by (clear - K1; Z.div_mod_to_equations; lia).
        pose proof (G n (k + 3) ltac:(lia) M E) as I.
        replace (k + 3 + 1) with (k + 4) in I by lia. exact I. }
      lia. }
  assert (P1 : slicesOK q).
  { unfold slicesOK, sliceOK, slotOrigin, slotLength, slotBits. cbv zeta. rewrite S1.
    replace (sliceWritePtr q - 3 + 1) with (sliceWritePtr q - 2) by lia.
    replace (sliceWritePtr q - 3 + 2) with (sliceWritePtr q - 1) by lia.
    split_all; try assumption; try lia.
    intros k K0 K1 K2. destruct (S8 k K0 K1 K2) as (T1 & T2 & T3 & T4).
    replace (k + 3 + 1) with (k + 4) by lia.
    split_all; try assumption.
    intros x Hx. rewrite (T4 x Hx) at 1. rewrite <- (T4 x Hx). symmetry. apply classOf_charBits. }
  assert (P2 : spaceLayout q).
  { unfold spaceLayout. cbv zeta. rewrite S10, S11, S12. psimpl.
    destruct (hasBits (aget (slices q) 0) BITSpace);
      destruct (Z.gtb_spec (sliceWritePtr q - 6) 0) as [H|H];
      destruct (hasBits (aget (slices q) (sliceWritePtr q - 6)) BITSpace);
      cbn [andb]; psimpl; split_all; try lia;
      clear - S2 S3 H; Z.div_mod_to_equations; lia. }
  assert (P3 : endBits q).
  { unfold endBits, slotBits. split; [exact S4|]. rewrite S11.
    destruct (Z.gtb_spec (sliceWritePtr q - 6) 0) as [G|G]; cbn [andb].
    + destruct (hasBits (aget (slices q) (sliceWritePtr q - 6)) BITSpace) eqn:B; psimpl; [|lia].
      intros _.
      destruct (Cls (sliceWritePtr q - 6) ltac:(lia)
                  ltac:(clear - S2; Z.div_mod_to_equations; lia) ltac:(lia)) as (x & X & _).
      unfold slotBits in X. rewrite X in *. now apply hasBits_space_class.
    + psimpl. lia. }
  assert (P4 : spansUnset q).
  { unfold spansUnset. rewrite S13, S14, S15, S16, S17, S18. repeat split. }
  assert (P5 : Span.l (leftSpaceSpan q) = 3 <-> hasBits (slotBits q 0) BITSpace = true).
  { rewrite S10. psimpl. unfold slotBits.
    destruct (hasBits (aget (slices q) 0) BITSpace); split; try reflexivity; try discriminate; lia. }
  split_all; assumption.
Qed.

(** ** Spans through [splitSlot] *)

Lemma shiftSpan_i (slot : Z) (s : Span.t) :
  Span.i (shiftSpan slot s) = if Span.i s >? slot then Span.i s + 3 else Span.i s.
Proof. unfold shiftSpan. destruct (Span.i s >? slot); reflexivity. Qed.

Lemma shiftSpan_l (slot : Z) (s : Span.t) : Span.l (shiftSpan slot s) = Span.l s.
Proof. unfold shiftSpan. destruct (Span.i s >? slot); reflexivity. Qed.

Lemma shiftSpan_reset (slot : Z) : 0 <= slot -> shiftSpan slot Span.reset = Span.reset.
Proof.
  intros H. unfold shiftSpan. cbn [Span.i Span.reset].
  destruct (Z.gtb_spec 0 slot); [lia|reflexivity].
Qed.

Lemma shiftSpan_above (slot : Z) (s : Span.t) :
  slot < Span.i s -> shiftSpan slot s = Span.set_i (Span.i s + 3) s.
Proof. intros H. unfold shiftSpan. destruct (Z.gtb_spec (Span.i s) slot); [reflexivity|lia]. Qed.

Lemma shiftSpan_below (slot : Z) (s : Span.t) :
  Span.i s <= slot -> shiftSpan slot s = s.
Proof. intros H. unfold shiftSpan. destruct (Z.gtb_spec (Span.i s) slot); [lia|reflexivity]. Qed.

(** The fields of the parser after [splitSlot], the array left aside. *)
Ltac split_fields :=
  cbn [splitSlot interactive raw leftSpaceSpan exceptionSpan patternLeftAnchorSpan
       patternSpan patternRightAnchorSpan optionsAnchorSpan optionsSpan commentSpan
       rightSpaceSpan eolSpan maxTokenLength punycoder compileSelector sliceWritePtr
       category allBits patternBits optionsBits flavorBits pattern] in *.

(** Comparisons of span positions with the slot that is split. *)
Ltac shift_cases :=
  rewrite ?shiftSpan_l, ?shiftSpan_i in *;
  repeat match goal with
         | |- context [Z.gtb ?x ?y] => destruct (Z.gtb_spec x y); try lia
         | H : context [Z.gtb ?x ?y] |- _ => destruct (Z.gtb_spec x y); try lia
         end.

Lemma spaceLayout_splitSlot (p : Parser) (slot l : Z) :
  spaceLayout p -> 0 <= slot < Span.i (rightSpaceSpan p) ->
  spaceLayout (splitSlot slot l p).
Proof.
  unfold spaceLayout. cbv zeta. intros (A & B & C & D & E & F & G) S.
  split_fields. shift_cases; split_all; lia.
Qed.

(** ** Extended filters *)

Lemma rightSpace_position (p : Parser) :
  slicesOK p -> spaceLayout p ->
  Span.i (rightSpaceSpan p) mod 3 = 0
  /\ 0 <= Span.i (rightSpaceSpan p) <= sliceWritePtr p - 3.
Proof.
  intros (M & W & _) (A & B & C & D & E & _).
  split; [|lia]. clear - M C D. Z.div_mod_to_equations. lia.
Qed.

Lemma strFromSpan_related (s : Span.t) (p p2 : Parser) :
  related p p2 -> Span.i s + 3 <= sliceWritePtr p ->
  Span.i s + Span.l s <= sliceWritePtr p ->
  strFromSpan s p2 = strFromSpan s p.
Proof.
  intros R H0 H. unfold strFromSpan, strFromSlices.
  destruct (Span.l s =? 0); [reflexivity|].
  rewrite !(related_read p p2) by (assumption || lia).
  now rewrite (proj1 (proj2 (related_fields p p2 R))).
Qed.

(** [analyzeExtPattern] only changes the flavor bits. *)
Lemma analyzeExtPattern_flavor (p : Parser) :
  exists f, analyzeExtPattern p = set_flavorBits f p.
Proof.
  unfold analyzeExtPattern.
  destruct (strFromSpan _ _); [eexists; reflexivity|].
  destruct (_ && _); [eexists; reflexivity|].
  destruct (hasBits _ BITCaret); destruct (negb _); eexists; reflexivity.
Qed.

Lemma analyzeExtPattern_related (p p2 : Parser) :
  related p p2 ->
  Span.i (patternSpan p) + 3 <= sliceWritePtr p ->
  Span.i (patternSpan p) + Span.l (patternSpan p) <= sliceWritePtr p ->
  related (analyzeExtPattern p) (analyzeExtPattern p2).
Proof.
  intros R H2 H1.
  pose proof (strFromSpan_related (patternSpan p) p p2 R H2 H1) as S.
  pose proof (related_read p p2 (Span.i (patternSpan p)) R ltac:(lia)) as B.
  apply related_elim in R. destruct R as (b & -> & A).
  assert (E : analyzeExtPattern (set_slices b p) = set_slices b (analyzeExtPattern p)).
  { unfold analyzeExtPattern.
    change (patternSpan (set_slices b p)) with (patternSpan p). rewrite S. clear S.
    change (slices (set_slices b p)) with b in *. rewrite B. clear B.
    destruct (strFromSpan (patternSpan p) p); [reflexivity|].
    destruct (_ && _); [reflexivity|].
    destruct (hasBits _ BITCaret); cbv zeta; psimpl;
      match goal with |- context [compileSelector p ?x ?y] =>
        destruct (compileSelector p x y) end; reflexivity. }
  rewrite E. destruct (analyzeExtPattern_flavor p) as [f ->].
  split; [reflexivity|exact A].
Qed.

Lemma extPre_splitSlot (p : Parser) (slot l : Z) :
  extPre p -> 0 <= slot -> slot mod 3 = 0 -> slot < Span.i (rightSpaceSpan p) ->
  0 < l < slotLength p slot ->
  extPre (splitSlot slot l p)
  /\ Span.i (rightSpaceSpan (splitSlot slot l p)) = Span.i (rightSpaceSpan p) + 3
  /\ leftSpaceSpan (splitSlot slot l p) = leftSpaceSpan p.
Proof.
  intros (OK & SL & (U1 & U2 & U3 & U4 & U5 & U6) & C) S0 S1 S2 L.
  destruct (rightSpace_position p OK SL) as (R1 & R2).
  assert (S3 : slot + 3 <= Span.i (rightSpaceSpan p))
    by (clear - S1 S2 R1; Z.div_mod_to_equations; lia).
  unfold extPre. split_all.
  - apply slicesOK_splitSlot; (assumption || lia).
  - apply spaceLayout_splitSlot; (assumption || lia).
  - unfold spansUnset. split_fields.
    rewrite U1, U2, U3, U4, U5, U6, shiftSpan_reset by lia. repeat split.
  - split_fields. now rewrite shiftSpan_l.
  - split_fields. rewrite shiftSpan_above by lia. reflexivity.
  - split_fields. apply shiftSpan_below. destruct SL as (-> & _). lia.
Qed.

Lemma setExtSpans_layout (p : Parser) (from to : Z) :
  extPre p -> 0 <= to <= Span.i (rightSpaceSpan p) ->
  extLayout (setExtSpans from to p).
Proof.
  intros (OK & SL & (U1 & U2 & U3 & U4 & U5 & U6) & C) T.
  unfold extLayout, setExtSpans. cbv zeta. split_all.
  - revert OK. now apply slicesOK_ext.
  - exact SL.
  - psimpl. lia.
  - psimpl. lia.
  - psimpl. lia.
  - unfold spanLengths, nonSentinelCells. psimpl. rewrite U1, U2, U4, C. psimpl.
    destruct SL as (A & _ & _ & D & _ & _ & G). lia.
Qed.

Lemma extLayout_set_flavorBits (f : Z) (p : Parser) :
  extLayout p -> extLayout (set_flavorBits f p).
Proof.
  intros (OK & R). split; [|exact R]. revert OK. now apply slicesOK_ext.
Qed.

Lemma extLayout_set_category (c : Z) (p : Parser) :
  extLayout p -> extLayout (set_category c p).
Proof.
  intros (OK & R). split; [|exact R]. revert OK. now apply slicesOK_ext.
Qed.

Lemma category_set_flavorBits (f : Z) (p : Parser) :
  category (set_flavorBits f p) = category p.
Proof. reflexivity. Qed.

(** The tail shared by the exits of [analyzeExt] that find an extended
    filter. *)
Lemma analyzeExt_finish (p p2 : Parser) (from to fb : Z) :
  extPre p -> related p p2 -> 0 <= to <= Span.i (rightSpaceSpan p) ->
  let finish q :=
    analyzeExtPattern
      (set_category CATStaticExtFilter (set_flavorBits fb (setExtSpans from to q))) in
  category (finish p) = CATStaticExtFilter
  /\ extLayout (finish p) /\ related (finish p) (finish p2).
Proof.
  intros Pre R T finish.
  pose proof (setExtSpans_layout p from to Pre T) as L.
  apply (extLayout_set_flavorBits fb) in L.
  apply (extLayout_set_category CATStaticExtFilter) in L.
  destruct Pre as (OK & SL & _).
  destruct (rightSpace_position p OK SL) as (R1 & R2).
  split_all.
  - unfold finish. apply category_analyzeExtPattern.
  - unfold finish.
    destruct (analyzeExtPattern_flavor
                (set_category CATStaticExtFilter (set_flavorBits fb (setExtSpans from to p))))
      as [f ->].
    now apply extLayout_set_flavorBits.
  - unfold finish. apply analyzeExtPattern_related.
    + apply (related_update
               (fun q => set_category CATStaticExtFilter
                           (set_flavorBits fb (setExtSpans from to q))));
        try reflexivity. exact R.
    + unfold setExtSpans. cbv zeta. psimpl. lia.
    + unfold setExtSpans. cbv zeta. psimpl. lia.
Qed.

Lemma analyzeExt_close_spec (p p2 : Parser) (from to fb : Z) :
  extPre p -> related p p2 -> 0 <= to -> to mod 3 = 0 ->
  to < Span.i (rightSpaceSpan p) ->
  extResult p (analyzeExt_close from to fb p)
  /\ related (analyzeExt_close from to fb p) (analyzeExt_close from to fb p2).
Proof.
  intros Pre R T0 T1 T2.
  pose proof Pre as (OK & SL & _).
  destruct (rightSpace_position p OK SL) as (R1 & R2).
  assert (T3 : to + 3 <= Span.i (rightSpaceSpan p))
    by (clear - T1 T2 R1; Z.div_mod_to_equations; lia).
  unfold analyzeExt_close.
  rewrite !(related_read p p2) by (assumption || lia).
  destruct (hasNoBits (aget (slices p) to) BITHash); [split; [now left|exact R]|].
  cbv zeta.
  destruct (Z.gtb_spec (aget (slices p) (to + 2)) 1) as [G|G].
  - destruct (extPre_splitSlot p to 1 Pre T0 T1 T2) as (Pre' & RS & LS);
      [unfold slotLength; lia|].
    assert (R' : related (splitSlot to 1 p) (splitSlot to 1 p2)).
    { apply related_splitSlot; [now apply slicesOK_wellFormed| |exact R].
      destruct OK as (M & W & _). unfold isSlot. lia. }
    pose proof (analyzeExt_finish _ _ from (to + 3) fb Pre' R' ltac:(lia)) as F.
    cbv zeta in F. destruct F as (F1 & F2 & F3).
    split; [right; split; assumption|exact F3].
  - pose proof (analyzeExt_finish _ _ from (to + 3) fb Pre R ltac:(lia)) as F.
    cbv zeta in F. destruct F as (F1 & F2 & F3).
    split; [right; split; assumption|exact F3].
Qed.

Lemma slot_step (k e : Z) : k mod 3 = 0 -> e mod 3 = 0 -> k < e -> k + 3 <= e.
Proof. intros. Z.div_mod_to_equations. lia. Qed.

Lemma slot_next (k : Z) : k mod 3 = 0 -> (k + 3) mod 3 = 0.
Proof. intros. Z.div_mod_to_equations. lia. Qed.

Ltac ext_branches :=
  repeat first
    [ progress cbn [negb]
    | match goal with
      | |- context [Z.eqb ?x ?y] => destruct (Z.eqb_spec x y)
      | |- context [if ?b then _ else _] => destruct b
      end ].

Lemma analyzeExt_flavor_spec (p p2 : Parser) (from to fb : Z) :
  extPre p -> related p p2 -> 0 <= to -> to mod 3 = 0 ->
  to < Span.i (rightSpaceSpan p) ->
  extResult p (analyzeExt_flavor from to fb p)
  /\ related (analyzeExt_flavor from to fb p) (analyzeExt_flavor from to fb p2).
Proof.
  intros Pre R T0 T1 T2.
  pose proof Pre as (OK & SL & _).
  destruct (rightSpace_position p OK SL) as (R1 & R2).
  pose proof (slot_step _ _ T1 R1 T2) as T3.
  pose proof (slot_next _ T1) as T4.
  pose proof (slot_next _ T4) as T5.
  unfold analyzeExt_flavor. cbv zeta.
  replace (rightSpaceSpan p2) with (rightSpaceSpan p) by (symmetry; apply (related_fields p p2 R)).
  rewrite !(related_read p p2) by (assumption || lia).
  ext_branches;
    try (split; [now left|exact R]);
    apply analyzeExt_close_spec; try assumption; try lia.
  all: assert (to + 3 + 3 <= Span.i (rightSpaceSpan p))
         by (apply slot_step; try assumption; lia); lia.
Qed.

Lemma analyzeExt_spec (p p2 : Parser) (from : Z) :
  extPre p -> related p p2 -> 0 <= from -> from mod 3 = 0 ->
  from < Span.i (rightSpaceSpan p) ->
  extResult p (analyzeExt from p)
  /\ related (analyzeExt from p) (analyzeExt from p2).
Proof.
  intros Pre R T0 T1 T2.
  apply related_elim in R. destruct R as (b & -> & A).
  pose proof (related_intro p b A) as R.
  pose proof Pre as (OK & SL & _).
  destruct (rightSpace_position p OK SL) as (R1 & R2).
  pose proof (slot_step _ _ T1 R1 T2) as T3.
  pose proof (slot_next _ T1) as T4.
  assert (L0 : 0 < aget (slices p) (from + 2)).
  { destruct OK as (_ & _ & _ & _ & _ & S). apply (S from); (assumption || lia). }
  unfold analyzeExt. cbv zeta.
  change (rightSpaceSpan (set_slices b p)) with (rightSpaceSpan p).
  rewrite !(related_read p (set_slices b p)) by (assumption || lia).
  destruct (Z.gtb_spec (aget (slices p) (from + 2)) 3) as [G|G];
    [split; [now left|exact R]|].
  destruct (Z.eqb_spec (aget (slices p) (from + 2)) 1) as [E1|E1]; cbn [negb].
  - ext_branches;
      try (split; [now left|exact R]);
      apply analyzeExt_flavor_spec; try assumption; try lia;
      try (now apply slot_next).
    assert (from + 3 + 3 <= Span.i (rightSpaceSpan p))
      by (apply slot_step; try assumption; lia).
    lia.
  - destruct (Z.eqb_spec (aget (slices p) (from + 2)) 2) as [E2|E2].
    + destruct (_ || _); cbn [andb]; [split; [now left|exact R]|].
      pose proof (analyzeExt_finish _ _ from (from + 3) (flavorBits p) Pre R ltac:(lia)) as F.
      cbv zeta in F. destruct F as (F1 & F2 & F3).
      split; [right; split; assumption|exact F3].
    + cbn [andb].
      destruct (extPre_splitSlot p from 2 Pre T0 T1 T2) as (Pre' & RS & LS);
        [unfold slotLength; lia|].
      assert (R' : related (splitSlot from 2 p) (splitSlot from 2 (set_slices b p))).
      { apply related_splitSlot; [now apply slicesOK_wellFormed| |exact R].
        destruct OK as (M & W & _). unfold isSlot. lia. }
      pose proof (analyzeExt_finish _ _ from (from + 3) (flavorBits p) Pre' R' ltac:(lia)) as F.
      cbv zeta in F. destruct F as (F1 & F2 & F3).
      split; [right; split; assumption|exact F3].
Qed.

(** ** [slice] on a parser that has been used before *)

(** The loop of [slice] writes the same cells whatever the array held. *)
Lemma slice_loop_agree (rest : list Z) :
  forall a b ptr allBits_ aBits i j a' ptr' allBits' i' j',
    0 <= ptr -> (forall k, k < ptr -> aget b k = aget a k) ->
    slice_loop rest a ptr allBits_ aBits i j = (a', ptr', allBits', i', j') ->
    exists b', slice_loop rest b ptr allBits_ aBits i j = (b', ptr', allBits', i', j')
               /\ ptr <= ptr' /\ forall k, k < ptr' -> aget b' k = aget a' k.
Proof.
  induction rest as [|c rest IH]; intros a b ptr ab aBits i j a' ptr' ab' i' j' P A E.
  - cbn [slice_loop] in *. injection E as <- <- <- <- <-.
    exists b. split; [reflexivity|]. split; [lia|exact A].
  - cbn [slice_loop] in *. destruct (negb (charBits c =? aBits)).
    + assert (P3 : 0 <= ptr + 3) by lia.
      assert (A3 : forall k, k < ptr + 3 ->
                aget (aset (aset (aset b (ptr + 0) (j - i)) (ptr + 1) (charBits c)) (ptr + 2) j) k
                = aget (aset (aset (aset a (ptr + 0) (j - i)) (ptr + 1) (charBits c)) (ptr + 2) j) k).
      { intros k K. rewrite !aget_aset by lia.
        destruct (Z.eqb_spec k (ptr + 2)); [reflexivity|].
        destruct (Z.eqb_spec k (ptr + 1)); [reflexivity|].
        destruct (Z.eqb_spec k (ptr + 0)); [reflexivity|]. apply A. lia. }
      destruct (IH _ _ _ _ _ _ _ _ _ _ _ _ P3 A3 E) as (b' & E' & L & A').
      exists b'. split; [exact E'|]. split; [lia|exact A'].
    + apply (IH _ b _ _ _ _ _ _ _ _ _ _ P A E).
Qed.

Lemma sameHost_slice (raw_ : list Z) (p : Parser) : sameHost p (slice raw_ p).
Proof.
  unfold slice. cbv zeta. destruct raw_ as [|c rest]; [repeat split|].
  destruct (slice_loop _ _ _ _ _ _ _) as [[[[a ptr] ab] i] j].
  destruct (negb _); destruct (_ && _); repeat split.
Qed.

Lemma sameHost_frame (p q : Parser) : frame p q -> sameHost p q.
Proof. unfold frame, sameHost. tauto. Qed.

Lemma sameHost_trans (p q r : Parser) : sameHost p q -> sameHost q r -> sameHost p r.
Proof. unfold sameHost. intuition congruence. Qed.

Lemma sameHost_analyze (raw_ : list Z) (p : Parser) : sameHost p (analyze raw_ p).
Proof.
  apply sameHost_trans with (slice raw_ p); [apply sameHost_slice|].
  apply sameHost_frame, frame_analyze.
Qed.

Lemma slice_related (raw_ : list Z) (p0 p1 : Parser) :
  sameHost p0 p1 -> related (slice raw_ p0) (slice raw_ p1).
Proof.
  intros (H1 & H2 & H3 & H4). unfold slice. cbv zeta.
  destruct raw_ as [|c rest].
  - split.
    + unfold reset, set_raw, set_slices. psimpl. now rewrite H1, H2, H3, H4.
    + split; [psimpl; lia|]. psimpl. intros k K. lia.
  - psimpl. cbn [Z.add].
    destruct (slice_loop rest (aset (aset (slices p0) 0 (charBits c)) 1 0) 2
                (charBits c) (charBits c) 0 1) as [[[[a ptr] ab] i] j] eqn:E.
    assert (A0 : forall k, k < 2 ->
              aget (aset (aset (slices p1) 0 (charBits c)) 1 0) k
              = aget (aset (aset (slices p0) 0 (charBits c)) 1 0) k).
    { intros k K. rewrite !aget_aset by lia.
      destruct (Z.eqb_spec k 1); [reflexivity|].
      destruct (Z.eqb_spec k 0); [reflexivity|].
      rewrite !aget_neg by lia. reflexivity. }
    destruct (slice_loop_agree rest _ _ _ _ _ _ _ _ _ _ _ _ (Z.le_0_2) A0 E)
      as (b & E' & L & A).
    rewrite E'.
    set (a4 := aset (aset (aset (aset a (ptr + 0) (j - i)) (ptr + 1 + 0) 0) (ptr + 1 + 1)
                       (Z.of_nat (length (c :: rest)))) (ptr + 1 + 2) 0).
    set (b4 := aset (aset (aset (aset b (ptr + 0) (j - i)) (ptr + 1 + 0) 0) (ptr + 1 + 1)
                       (Z.of_nat (length (c :: rest)))) (ptr + 1 + 2) 0).
    assert (A4 : cellsAgree (ptr + 1 + 3) a4 b4).
    { split.
      - unfold b4. rewrite length_aset by lia. lia.
      - intros k K. unfold a4, b4. rewrite !aget_aset by lia.
        destruct (Z.eqb_spec k (ptr + 1 + 2)); [reflexivity|].
        destruct (Z.eqb_spec k (ptr + 1 + 1)); [reflexivity|].
        destruct (Z.eqb_spec k (ptr + 1 + 0)); [reflexivity|].
        destruct (Z.eqb_spec k (ptr + 0)); [reflexivity|].
        apply A. lia. }
    rewrite (cellsAgree_read _ _ _ 0 A4) by lia.
    destruct (negb (aget a4 0 .& BITSpace =? 0)); psimpl;
      rewrite (cellsAgree_read _ _ _ (ptr + 1 - 3) A4) by lia;
      destruct ((ptr + 1 - 3 >? 0) && negb (aget a4 (ptr + 1 - 3) .& BITSpace =? 0));
      (split; [unfold reset, set_raw, set_slices; psimpl; now rewrite H1, H2, H3, H4
              |psimpl; exact A4]).
Qed.

(** ** [analyze] before [analyzeNet] *)

Lemma findInlineComment_spec (p p2 : Parser) :
  related p p2 ->
  forall fuel h,
    h < sliceWritePtr p -> h mod 3 = 0 -> hasBits (aget (slices p) h) BITHash = true ->
    (findInlineComment fuel h p = p /\ findInlineComment fuel h p2 = p2)
    \/ exists h',
         h <= h' < sliceWritePtr p /\ h' mod 3 = 0
         /\ hasBits (aget (slices p) h') BITHash = true
         /\ hasBits (aget (slices p) (h' - 3)) BITSpace = true
         /\ findInlineComment fuel h p
            = set_commentSpan (Span.mk (h' - 3) (Span.i (rightSpaceSpan p) - h')) p
         /\ findInlineComment fuel h p2
            = set_commentSpan (Span.mk (h' - 3) (Span.i (rightSpaceSpan p) - h')) p2.
Proof.
  intros R.
  assert (RS : rightSpaceSpan p2 = rightSpaceSpan p) by apply (related_fields p p2 R).
  induction fuel as [|n IH]; intros h H0 H1 H2; cbn [findInlineComment];
    rewrite (related_read p p2) by (assumption || lia);
    rewrite (findFirstMatch_related _ _ p p2 R), RS;
    (destruct (hasBits (aget (slices p) (h - 3)) BITSpace) eqn:S;
       [right; exists h; split_all; try assumption; try reflexivity; lia|]);
    pose proof (findFirstMatch_spec (h + 6) BITHash p) as F; cbv zeta in F;
    (destruct (Z.eqb_spec (findFirstMatch (h + 6) BITHash p) (-1)) as [E|E];
       [left; split; reflexivity|]).
  - left. split; reflexivity.
  - destruct F as [F|(F1 & F2 & F3)]; [contradiction|].
    destruct (IH (findFirstMatch (h + 6) BITHash p)) as [L|(h' & A & B)];
      try assumption; try lia.
    + clear - H1 F2. Z.div_mod_to_equations. lia.
    + left. exact L.
    + right. exists h'. split; [lia|exact B].
Qed.

Lemma returned_unset (p : Parser) :
  category p <> CATStaticNetFilter -> category p <> CATStaticExtFilter ->
  patternSpan p = Span.reset -> (raw p = [] /\ sliceWritePtr p = 0) \/ slicesOK p ->
  returned p.
Proof.
  intros N E U W. split; [exact N|]. split; [left; now rewrite U|].
  split; [|exact W]. intros C. contradiction.
Qed.

Lemma returned_ext (p : Parser) :
  category p = CATStaticExtFilter -> extLayout p -> returned p.
Proof.
  intros C L. split; [rewrite C; discriminate|].
  pose proof L as (OK & SL & P0 & P1 & P2 & _).
  destruct (rightSpace_position p OK SL) as (_ & R).
  split; [unfold patternInRange; lia|]. split; [intros _; exact L|].
  now right.
Qed.

Lemma head_return (q r r2 : Parser) :
  related r r2 -> extResult q r ->
  category q = CATNone -> patternSpan q = Span.reset -> slicesOK q ->
  headResult
    (if category r =? CATStaticExtFilter then Return r
     else Return (set_category CATComment r))
    (if category r2 =? CATStaticExtFilter then Return r2
     else Return (set_category CATComment r2)).
Proof.
  intros R E C U W.
  replace (category r2) with (category r) by (symmetry; apply (related_fields r r2 R)).
  destruct E as [->|(E & L)].
  - rewrite C. change (CATNone =? CATStaticExtFilter) with false.
    split.
    + apply (related_update (set_category CATComment)); try reflexivity. exact R.
    + apply returned_unset; try discriminate; try assumption. right.
      revert W. now apply slicesOK_ext.
  - rewrite E. change (CATStaticExtFilter =? CATStaticExtFilter) with true.
    split; [exact R|now apply returned_ext].
Qed.

(** A slice with [#] lies before the right space. *)
Lemma hash_before_rightSpace (p : Parser) (h : Z) :
  slicesOK p -> spaceLayout p -> endBits p ->
  h < sliceWritePtr p -> h mod 3 = 0 -> hasBits (aget (slices p) h) BITHash = true ->
  h < Span.i (rightSpaceSpan p).
Proof.
  intros (M & W & _) (A & B & C & D & E & _) (E1 & E2) H0 H1 H2.
  unfold slotBits in *.
  assert (h <> sliceWritePtr p - 3).
  { intros ->. rewrite E1 in H2. discriminate. }
  assert (h <= sliceWritePtr p - 6) by (clear - M H0 H1 H; Z.div_mod_to_equations; lia).
  destruct C as [C|C]; [lia|].
  assert (h <> Span.i (rightSpaceSpan p)).
  { intros ->. rewrite (E2 C) in H2. discriminate. }
  lia.
Qed.

Lemma analyze_head_spec (raw_ : list Z) (p0 p1 : Parser) :
  sameHost p0 p1 -> headResult (analyze_head raw_ p0) (analyze_head raw_ p1).
Proof.
  intros H. pose proof (slice_related raw_ p0 p1 H) as R.
  destruct raw_ as [|c rest].
  { split; [exact R|]. apply returned_unset; try discriminate; [reflexivity|].
    left. split; reflexivity. }
  pose proof (sliced_facts c rest p0) as F. cbv zeta in F.
  unfold analyze_head. cbv zeta.
  set (q := slice (c :: rest) p0) in *. set (q2 := slice (c :: rest) p1) in *.
  clearbody q q2.
  destruct F as (OK & SL & EB & SU & Cat & Fl & PB & OB & Pat & Raw & AB & CS & Cls & LS).
  pose proof (related_fields q q2 R)
    as (_ & _ & LS2 & _ & _ & _ & _ & _ & _ & CS2 & RS2 & _ & _ & C2 & AB2 & _).
  rewrite LS2, RS2, CS2.
  change (allBits (set_commentSpan ?s q2)) with (allBits q2). rewrite AB2.
  destruct (rightSpace_position q OK SL) as (R1 & R2).
  pose proof SL as (A & B & C & D & E & _).
  pose proof SU as (U1 & U2 & U3 & U4 & U5 & U6).
  set (slot := Span.l (leftSpaceSpan q)) in *.
  assert (S0 : 0 <= slot) by lia.
  assert (S1 : slot mod 3 = 0) by (destruct B as [-> | ->]; reflexivity).
  assert (Pre : extPre q).
  { unfold extPre. split_all; try assumption. now rewrite CS. }
  destruct (Z.eqb_spec slot (Span.i (rightSpaceSpan q))) as [S2|S2].
  { split; [exact R|]. apply returned_unset; try (rewrite Cat; discriminate); [apply SU|].
    now right. }
  assert (S3 : slot + 3 <= Span.i (rightSpaceSpan q)) by (apply slot_step; try assumption; lia).
  rewrite (related_read q q2 slot R) by lia.
  destruct (hasBits (aget (slices q) slot) BITLineComment).
  { destruct (hasBits (aget (slices q) slot) BITHash).
    - destruct (analyzeExt_spec q q2 slot Pre R S0 S1 ltac:(lia)) as (E1 & E2).
      apply (head_return q); assumption.
    - apply (head_return q); try assumption. now left. }
  set (q' := set_commentSpan (Span.set_i (Span.i (rightSpaceSpan q)) (commentSpan q)) q).
  set (q2' := set_commentSpan (Span.set_i (Span.i (rightSpaceSpan q)) (commentSpan q)) q2).
  assert (R' : related q' q2').
  { apply (related_update
             (set_commentSpan (Span.set_i (Span.i (rightSpaceSpan q)) (commentSpan q))));
      try reflexivity. exact R. }
  assert (OK' : slicesOK q') by (revert OK; now apply slicesOK_ext).
  assert (Pre' : extPre q').
  { unfold extPre. split_all; try assumption. unfold q'. psimpl. now rewrite CS. }
  assert (N' : netEntry q').
  { unfold netEntry. split_all; try assumption.
    - unfold commentLayout, q'. cbv zeta. psimpl. rewrite CS. psimpl.
      split_all; try assumption; lia.
    - unfold q'. psimpl. now rewrite AB, Raw. }
  change (allBits q') with (allBits q).
  destruct (hasBits (allBits q) BITHash); [|split; assumption].
  rewrite (findFirstMatch_related slot BITHash q' q2' R').
  pose proof (findFirstMatch_spec slot BITHash q') as FM. cbv zeta in FM.
  set (h := findFirstMatch slot BITHash q') in *.
  destruct (Z.eqb_spec h (-1)) as [E1|E1]; cbn [negb]; [split; assumption|].
  destruct FM as [FM|(F1 & F2 & F3)]; [contradiction|].
  assert (H1 : h mod 3 = 0) by (clear - S1 F2; Z.div_mod_to_equations; lia).
  assert (HB : forall k, k < sliceWritePtr q' -> k mod 3 = 0 ->
                 hasBits (aget (slices q') k) BITHash = true ->
                 k < Span.i (rightSpaceSpan q')).
  { intros k K0 K1 K2. apply (hash_before_rightSpace q); assumption. }
  pose proof (HB h ltac:(lia) H1 F3) as H2.
  destruct (analyzeExt_spec q' q2' h Pre' R' ltac:(lia) H1 H2) as (ER & RR).
  set (r := analyzeExt h q') in *. set (r2 := analyzeExt h q2') in *.
  clearbody r r2.
  pose proof (related_fields r r2 RR)
    as (_ & _ & _ & _ & _ & _ & _ & _ & _ & _ & _ & _ & W2' & C2' & AB2' & _).
  rewrite W2', C2', AB2'.
  destruct ER as [->|(EC & L)].
  - change (category q') with (category q). rewrite Cat.
    change (CATNone =? CATStaticExtFilter) with false.
    destruct (negb (allBits q' .& BITSpace =? 0)) eqn:SP; [|split; assumption].
    destruct (findInlineComment_spec q' r2 RR (Z.to_nat (sliceWritePtr q')) h
                ltac:(lia) H1 F3) as [(I1 & I2)|(h' & I0 & I1 & I2 & I3 & I4 & I5)].
    + rewrite I1, I2. split; assumption.
    + rewrite I4, I5. split.
      * apply (related_update
                 (set_commentSpan (Span.mk (h' - 3) (Span.i (rightSpaceSpan q') - h'))));
          try reflexivity. exact RR.
      * pose proof (HB h' ltac:(lia) I1 I2) as H3.
        assert (0 <= h' - 3).
        { destruct (Z.ltb_spec (h' - 3) 0) as [N|N]; [|exact N].
          rewrite aget_neg in I3 by exact N. discriminate. }
        destruct N' as (N1 & N2 & N3 & N4 & N5 & N6 & N7).
        unfold netEntry. split_all; try assumption.
        unfold commentLayout. cbv zeta. psimpl. split_all; try lia.
        -- clear - I1. Z.div_mod_to_equations. lia.
        -- right. exact SP.
  - rewrite EC. change (CATStaticExtFilter =? CATStaticExtFilter) with true.
    split; [exact RR|now apply returned_ext].
Qed.

(** ** Network filters: the slices and the outer spans *)

(** The bits of the slices around a slot that is split. *)
Lemma splitSlot_bits (p : Parser) (slot l k : Z) :
  slicesOK p -> 0 <= slot -> slot mod 3 = 0 -> slot + 3 <= sliceWritePtr p - 3 ->
  k mod 3 = 0 -> k < sliceWritePtr p + 3 ->
  slotBits (splitSlot slot l p) k
  = if k <=? slot then slotBits p k else slotBits p (k - 3).
Proof.
  intros OK S0 S1 S2 K1 K2. unfold slotBits.
  destruct (Z.ltb_spec k 0) as [N|N].
  { rewrite !aget_neg by lia. destruct (k <=? slot); reflexivity. }
  pose proof (slicesOK_wellFormed p OK) as WF.
  assert (IS : isSlot p slot) by (destruct OK as (M & W & _); unfold isSlot; lia).
  destruct (splitSlot_cells p slot l WF IS) as (_ & _ & C).
  rewrite C by lia. unfold splitCell.
  destruct (Z.leb_spec k slot) as [L|L].
  - destruct (Z.ltb_spec k (slot + 2)); [reflexivity|lia].
  - assert (slot + 3 <= k) by (clear - S1 K1 L; Z.div_mod_to_equations; lia).
    destruct (Z.ltb_spec k (slot + 2)); [lia|].
    destruct (Z.eqb_spec k (slot + 2)); [lia|].
    destruct (Z.eqb_spec k (slot + 3)) as [->|]; [f_equal; lia|].
    destruct (Z.eqb_spec k (slot + 4)) as [E|E];
      [clear - S1 K1 E; Z.div_mod_to_equations; lia|].
    destruct (Z.eqb_spec k (slot + 5)) as [E'|E'];
      [clear - S1 K1 E'; Z.div_mod_to_equations; lia|].
    reflexivity.
Qed.

Lemma commentLayout_splitSlot (p : Parser) (slot l : Z) :
  spaceLayout p -> commentLayout p -> 0 <= slot < Span.i (commentSpan p) ->
  commentLayout (splitSlot slot l p)
  /\ Span.i (commentSpan (splitSlot slot l p)) = Span.i (commentSpan p) + 3.
Proof.
  unfold commentLayout, spaceLayout. cbv zeta.
  intros (A & B & C & D & E & F & G) (C1 & C2 & C3 & C4 & C5) S.
  split_fields. shift_cases. split_all; try lia.
  - clear - C1. Z.div_mod_to_equations. lia.
  - destruct C5 as [(C5 & C6)|C5]; [left; lia|now right].
Qed.

Lemma netBase_splitSlot (p : Parser) (slot l : Z) :
  netBase p -> 0 <= slot -> slot mod 3 = 0 -> slot < Span.i (commentSpan p) ->
  0 < l < slotLength p slot ->
  netBase (splitSlot slot l p)
  /\ Span.i (commentSpan (splitSlot slot l p)) = Span.i (commentSpan p) + 3.
Proof.
  intros (OK & SL & CL & AB & LS) S0 S1 S2 L.
  pose proof CL as (C1 & C2 & _).
  destruct (rightSpace_position p OK SL) as (R1 & R2).
  assert (S3 : slot + 3 <= Span.i (commentSpan p)) by (now apply slot_step).
  destruct (commentLayout_splitSlot p slot l SL CL ltac:(lia)) as (CL' & CI).
  split; [|exact CI]. unfold netBase. split_all.
  - apply slicesOK_splitSlot; (assumption || lia).
  - apply spaceLayout_splitSlot; (assumption || lia).
  - exact CL'.
  - exact AB.
  - rewrite splitSlot_bits by (try assumption; try reflexivity; lia).
    destruct (Z.leb_spec 0 slot); [|lia].
    replace (leftSpaceSpan (splitSlot slot l p)) with (leftSpaceSpan p); [exact LS|].
    split_fields. symmetry. apply shiftSpan_below. destruct SL as (-> & _). lia.
Qed.

(** [netBase] only looks at the slices, the text and the outer spans. *)
Lemma netBase_ext (p q : Parser) :
  slices q = slices p -> sliceWritePtr q = sliceWritePtr p -> raw q = raw p ->
  allBits q = allBits p -> leftSpaceSpan q = leftSpaceSpan p ->
  rightSpaceSpan q = rightSpaceSpan p -> eolSpan q = eolSpan p ->
  commentSpan q = commentSpan p ->
  netBase p -> netBase q.
Proof.
  intros S W R A L RS E C (OK & SL & CL & AB & LS).
  unfold netBase, spaceLayout, commentLayout, slotBits in *.
  rewrite S, W, R, A, L, RS, E, C. cbv zeta in *.
  split; [revert OK; now apply slicesOK_ext|]. tauto.
Qed.

Lemma netEntry_base (p : Parser) : netEntry p -> netBase p.
Proof. unfold netEntry, netBase. tauto. Qed.

Lemma related_same (f : Parser -> Parser) (p : Parser) (b : list Z) :
  (forall q c, f (set_slices c q) = set_slices c (f q)) ->
  (forall q, sliceWritePtr (f q) = sliceWritePtr q) ->
  (forall q, slices (f q) = slices q) ->
  cellsAgree (sliceWritePtr p) (slices p) b ->
  related (f p) (f (set_slices b p)).
Proof.
  intros C W S A. apply (related_update f); try assumption. now apply related_intro.
Qed.

(** ** The exception declarator *)

Lemma analyzeNet_exception_spec (p p2 : Parser) :
  netEntry p -> related p p2 ->
  fst (analyzeNet_exception p2) = fst (analyzeNet_exception p)
  /\ related (snd (analyzeNet_exception p)) (snd (analyzeNet_exception p2))
  /\ afterException (fst (analyzeNet_exception p)) (snd (analyzeNet_exception p)).
Proof.
  intros N R. pose proof (netEntry_base p N) as NB.
  destruct N as (OK & SL & (U1 & U2 & U3 & U4 & U5 & U6) & CL & Fl & AB & LS).
  apply related_elim in R. destruct R as (b & -> & A).
  pose proof SL as (A0 & _). pose proof CL as (C1 & C2 & _).
  set (p' := set_exceptionSpan (Span.set_i (Span.l (leftSpaceSpan p)) (exceptionSpan p)) p).
  assert (NB' : netBase p') by (revert NB; now apply netBase_ext).
  assert (AE : afterException 0 p').
  { unfold afterException, exceptionLayout. split_all; try assumption; try lia.
    - unfold p'. psimpl. now rewrite U1.
    - unfold p'. psimpl. lia.
    - unfold p'. psimpl. now rewrite Fl. }
  assert (R' : related p' (set_slices b p')) by now apply related_intro.
  unfold analyzeNet_exception. cbv zeta.
  change (leftSpaceSpan (set_slices b p)) with (leftSpaceSpan p).
  change (exceptionSpan (set_slices b p)) with (exceptionSpan p).
  change (set_exceptionSpan (Span.set_i (Span.l (leftSpaceSpan p)) (exceptionSpan p))
            (set_slices b p)) with (set_slices b p').
  fold p'. rewrite A0.
  change (commentSpan (set_slices b p')) with (commentSpan p).
  change (commentSpan p') with (commentSpan p).
  change (slices (set_slices b p')) with b.
  change (slices p') with (slices p).
  destruct (Z.ltb_spec 0 (Span.i (commentSpan p))) as [C0|C0]; cbn [andb fst snd];
    [|split_all; [reflexivity|exact R'|exact AE]].
  assert (W6 : 3 <= sliceWritePtr p - 3).
  { destruct (rightSpace_position p OK SL) as (R1 & R2).
    pose proof (slot_step 0 _ eq_refl C1 C0). lia. }
  rewrite (cellsAgree_read _ _ _ 0 A), (cellsAgree_read _ _ _ (0 + 2) A) by lia.
  destruct (hasBits (aget (slices p) 0) BITAt) eqn:AT; cbn [fst snd];
    [|split_all; [reflexivity|exact R'|exact AE]].
  destruct (Z.geb_spec (aget (slices p) (0 + 2)) 2) as [G|G]; cbn [fst snd];
    [|split_all; [reflexivity|exact R'|exact AE]].
  split; [reflexivity|].
  set (q := if aget (slices p) (0 + 2) >? 2 then splitSlot 0 2 p' else p').
  set (q2 := if aget (slices p) (0 + 2) >? 2 then splitSlot 0 2 (set_slices b p')
             else set_slices b p').
  assert (Q : related q q2 /\ afterException 0 q
              /\ hasBits (slotBits q 0) BITAt = true /\ 3 <= Span.i (commentSpan q)).
  { unfold q, q2. destruct (Z.gtb_spec (aget (slices p) (0 + 2)) 2) as [G2|G2].
    - destruct (netBase_splitSlot p' 0 2 NB' ltac:(lia) eq_refl C0) as (NB2 & CI);
        [unfold slotLength; exact (conj eq_refl G2)|].
      split_all.
      + apply related_splitSlot; [now apply slicesOK_wellFormed| |exact R'].
        destruct OK as (M & W & _). unfold isSlot. change (sliceWritePtr p') with (sliceWritePtr p).
        split_all; [lia|reflexivity|lia].
      + unfold afterException, exceptionLayout. split_all; try assumption.
        * now left.
        * split_fields. rewrite shiftSpan_l. unfold p'. psimpl. now rewrite U1.
        * rewrite CI. change (commentSpan p') with (commentSpan p). lia.
        * split_fields. unfold p'. psimpl. rewrite U2. now apply shiftSpan_reset.
        * split_fields. unfold p'. psimpl. rewrite U3. now apply shiftSpan_reset.
        * split_fields. unfold p'. psimpl. rewrite U4. now apply shiftSpan_reset.
        * split_fields. unfold p'. psimpl. rewrite U5. now apply shiftSpan_reset.
        * split_fields. unfold p'. psimpl. rewrite U6. now apply shiftSpan_reset.
        * split_fields. unfold p'. psimpl. now rewrite Fl.
      + rewrite splitSlot_bits; try assumption; try reflexivity; try lia.
        change (sliceWritePtr p') with (sliceWritePtr p). lia.
      + rewrite CI. change (commentSpan p') with (commentSpan p). lia.
    - split_all; try assumption.
      pose proof (slot_step 0 _ eq_refl C1 C0). change (commentSpan p') with (commentSpan p). lia. }
  clearbody q q2. destruct Q as (RQ & (NQ & (EQ1 & EQ2) & IQ & V1 & V2 & V3 & V4 & V5 & FQ) & AQ & CQ).
  split.
  - apply (related_update
             (fun q => orFlavor BITFlavorException
                         (set_exceptionSpan (Span.set_l 3 (exceptionSpan q)) q)));
      try reflexivity. exact RQ.
  - unfold afterException, exceptionLayout.
    split_all; try assumption; try reflexivity; try (psimpl; lia).
    + right. split; [reflexivity|exact AQ].
    + unfold orFlavor. psimpl. rewrite hasBits_lor_other by reflexivity. exact FQ.
Qed.

(** ** The options *)

Lemma analyzeNet_assumePattern_spec (islice : Z) (p p2 : Parser) :
  afterException islice p -> related p p2 ->
  related (analyzeNet_assumePattern islice p) (analyzeNet_assumePattern islice p2)
  /\ assumedLayout islice (analyzeNet_assumePattern islice p).
Proof.
  intros (NB & EL & IC & U2 & U3 & U4 & U5 & U6 & FL) R. split.
  - apply (related_update (analyzeNet_assumePattern islice)); try reflexivity. exact R.
  - unfold assumedLayout, analyzeNet_assumePattern. cbv zeta. psimpl.
    rewrite U5, U6. psimpl. split_all; try assumption; reflexivity.
Qed.

Lemma islice_mod (islice : Z) (p : Parser) : exceptionLayout islice p -> islice mod 3 = 0 /\ 0 <= islice.
Proof. intros ([->|(-> & _)] & _); split; (reflexivity || lia). Qed.

(** Bits of a slice that [markSlices] may have touched. *)
Lemma hasBits_markSlices_loop (m ov end_ : Z) (fuel : nat) :
  ov .& m = 0 ->
  forall a beg k, 0 <= beg ->
    hasBits (aget (markSlices_loop fuel a beg end_ ov) k) m = hasBits (aget a k) m.
Proof.
  intros Hov. induction fuel as [|n IH]; intros a beg k B; cbn [markSlices_loop]; [reflexivity|].
  destruct (beg <? end_); [|reflexivity].
  rewrite IH by lia. unfold orCell. rewrite aget_aset by lia.
  destruct (Z.eqb_spec k beg) as [->|]; [|reflexivity].
  now apply hasBits_lor_other.
Qed.

Lemma netBase_markSlices (p : Parser) (beg end_ ov : Z) :
  ov .& Z.lnot overlayBits = 0 -> ov .& BITSpace = 0 -> 0 <= beg -> beg mod 3 = 0 ->
  netBase p -> netBase (markSlices beg end_ ov p).
Proof.
  intros H1 H2 B0 B1 (OK & SL & CL & AB & LS). unfold netBase. split_all; try assumption.
  - now apply slicesOK_markSlices.
  - unfold slotBits, markSlices. psimpl. rewrite hasBits_markSlices_loop by assumption.
    exact LS.
Qed.

Lemma analyzeNet_optionsAnchor_spec (islice i ob : Z) (p p2 : Parser) :
  assumedLayout islice p -> related p p2 ->
  islice <= i < Span.i (commentSpan p) -> i mod 3 = 0 ->
  related (analyzeNet_optionsAnchor i ob p) (analyzeNet_optionsAnchor i ob p2)
  /\ optionsLayout islice (analyzeNet_optionsAnchor i ob p)
  /\ hasBits (flavorBits (analyzeNet_optionsAnchor i ob p)) BITFlavorNetRegex = false
  /\ hasBits (slotBits (analyzeNet_optionsAnchor i ob p) islice) BITSlash
     = hasBits (slotBits p islice) BITSlash
  /\ Span.l (optionsAnchorSpan (analyzeNet_optionsAnchor i ob p)) = 3.
Proof.
  intros (NB & EL & U2 & U4 & PA & OA & OS & IC & FL) R I0 I1.
  pose proof NB as (OK & SL & CL & AB & LS).
  destruct (islice_mod _ _ EL) as (M0 & M1).
  destruct (rightSpace_position p OK SL) as (R1 & R2).
  pose proof CL as (C1 & C2 & _).
  assert (I2 : i + 3 <= Span.i (commentSpan p)) by (apply slot_step; (assumption || lia)).
  unfold analyzeNet_optionsAnchor. cbv zeta.
  match goal with
  | |- related (let '(_, _) := ?x in _) (let '(_, _) := ?y in _) /\ _ =>
      assert (Q : exists i' q q2,
                 x = (i', q) /\ y = (i', q2) /\ related q q2 /\ netBase q
                 /\ (i' = i \/ i' = i + 3)
                 /\ Span.i (commentSpan q) = Span.i (commentSpan p) + (i' - i)
                 /\ patternSpan q = patternSpan p
                 /\ patternLeftAnchorSpan q = Span.reset
                 /\ patternRightAnchorSpan q = Span.reset
                 /\ Span.l (exceptionSpan q) = Span.l (exceptionSpan p)
                 /\ hasBits (slotBits q 0) BITAt = hasBits (slotBits p 0) BITAt
                 /\ hasBits (slotBits q islice) BITSlash = hasBits (slotBits p islice) BITSlash
                 /\ hasBits (flavorBits q) BITFlavorNetRegex = false)
  end.
  { rewrite (related_read p p2) by (assumption || lia).
    rewrite (findFirstOdd_related _ _ p p2 R).
    destruct (Z.gtb_spec (aget (slices p) (i + 2)) 1) as [G|G].
    - destruct (findFirstOdd _ _ p =? i).
      + replace (interactive (orFlavor BITFlavorError p2)) with (interactive p)
          by (symmetry; apply (related_fields p p2 R)).
        change (interactive (orFlavor BITFlavorError p)) with (interactive p).
        assert (R' : related (orFlavor BITFlavorError p) (orFlavor BITFlavorError p2)).
        { apply (related_update (orFlavor BITFlavorError)); try reflexivity. exact R. }
        assert (F' : hasBits (flavorBits (orFlavor BITFlavorError p)) BITFlavorNetRegex = false).
        { unfold orFlavor. psimpl. now rewrite hasBits_lor_other by reflexivity. }
        assert (NB' : netBase (orFlavor BITFlavorError p)) by (revert NB; now apply netBase_ext).
        destruct (interactive p).
        * eexists _, _, _. split; [reflexivity|]. split; [reflexivity|].
          split_all; try assumption; try reflexivity; try lia.
          -- apply related_markSlices; [exact R'|]. psimpl. lia.
          -- apply netBase_markSlices; try assumption; try reflexivity; lia.
          -- unfold markSlices. psimpl. lia.
          -- unfold slotBits, markSlices. psimpl.
             now rewrite hasBits_markSlices_loop by (reflexivity || lia).
          -- unfold slotBits, markSlices. psimpl.
             now rewrite hasBits_markSlices_loop by (reflexivity || lia).
        * eexists _, _, _. split; [reflexivity|]. split; [reflexivity|].
          split_all; try assumption; try reflexivity; unfold orFlavor; psimpl; lia.
      + destruct (netBase_splitSlot p i (aget (slices p) (i + 2) - 1) NB ltac:(lia) I1 ltac:(lia))
          as (NB' & CI); [unfold slotLength; lia|].
        eexists _, _, _. split; [reflexivity|]. split; [reflexivity|].
        split_all; try assumption; try lia.
        * apply related_splitSlot; [now apply slicesOK_wellFormed| |exact R].
          destruct OK as (M & W & _). unfold isSlot. lia.
        * split_fields. apply shiftSpan_below. rewrite PA. psimpl. lia.
        * split_fields. rewrite U2. apply shiftSpan_reset. lia.
        * split_fields. rewrite U4. apply shiftSpan_reset. lia.
        * split_fields. apply shiftSpan_l.
        * rewrite splitSlot_bits by (try assumption; try reflexivity; lia).
          destruct (Z.leb_spec 0 i); [reflexivity|lia].
        * rewrite splitSlot_bits by (try assumption; try reflexivity; lia).
          destruct (Z.leb_spec islice i); [reflexivity|lia].
    - eexists _, _, _. split; [reflexivity|]. split; [reflexivity|].
      split_all; try assumption; try reflexivity; lia. }
  destruct Q as (i' & q & q2 & -> & -> & RQ & NQ & II & CI & PQ & LQ & RQ' & EQ & AQ & SQ & FQ).
  split_all.
  - clear - RQ. apply related_elim in RQ. destruct RQ as (b & -> & A).
    split; [reflexivity|exact A].
  - unfold optionsLayout, exceptionLayout. psimpl. rewrite PQ, PA. psimpl.
    destruct EL as (E1 & E2).
    split_all; try assumption; try lia.
    + destruct E1 as [E1|(E1 & E3)]; [now left|right]. split; [exact E1|].
      unfold slotBits in *. psimpl. now rewrite AQ.
    + clear - I1 M0 II. destruct II as [-> | ->]; Z.div_mod_to_equations; lia.
  - psimpl. exact FQ.
  - unfold slotBits in *. psimpl. exact SQ.
  - reflexivity.
Qed.

Lemma patternEndsAsRegex_related (p p2 : Parser) :
  related p p2 ->
  Span.i (patternSpan p) + 3 <= sliceWritePtr p ->
  Span.i (patternSpan p) + Span.l (patternSpan p) <= sliceWritePtr p ->
  patternEndsAsRegex p2 = patternEndsAsRegex p.
Proof.
  intros R H1 H2. unfold patternEndsAsRegex. cbv zeta.
  replace (patternSpan p2) with (patternSpan p) by (symmetry; apply (related_fields p p2 R)).
  now rewrite !(related_read p p2) by (assumption || lia).
Qed.

Lemma regexShaped_ends (p : Parser) :
  regexShaped p
  = hasBits (slotBits p (Span.i (patternSpan p))) BITSlash && patternEndsAsRegex p.
Proof. reflexivity. Qed.

Lemma patternEndsAsRegex_empty (p : Parser) :
  Span.l (patternSpan p) <= 0 -> patternEndsAsRegex p = false.
Proof.
  intros H. unfold patternEndsAsRegex. cbv zeta.
  destruct (Z.eqb_spec (Span.l (patternSpan p)) 3); [lia|].
  destruct (Z.gtb_spec (Span.l (patternSpan p)) 3); [lia|]. reflexivity.
Qed.

Lemma optionsLayout_assumed (islice : Z) (p : Parser) :
  assumedLayout islice p -> optionsLayout islice p.
Proof.
  intros (NB & EL & U2 & U4 & PA & OA & OS & IC & FL).
  destruct (islice_mod _ _ EL) as (M0 & M1).
  pose proof NB as (_ & _ & (C1 & _) & _).
  unfold optionsLayout. rewrite PA, OA, OS. psimpl.
  split_all; try assumption; try reflexivity; try lia.
  clear - C1 M0. Z.div_mod_to_equations. lia.
Qed.

Lemma optionsLayout_orFlavor (islice bits : Z) (p : Parser) :
  optionsLayout islice p -> optionsLayout islice (orFlavor bits p).
Proof. intros H. exact H. Qed.

Lemma analyzeNet_options_spec (islice : Z) (p p2 : Parser) :
  afterException islice p -> related p p2 ->
  fst (analyzeNet_options islice p2) = fst (analyzeNet_options islice p)
  /\ related (snd (analyzeNet_options islice p)) (snd (analyzeNet_options islice p2))
  /\ optionsLayout islice (snd (analyzeNet_options islice p))
  /\ hasBits (flavorBits (snd (analyzeNet_options islice p))) BITFlavorNetRegex
     = fst (analyzeNet_options islice p)
  /\ fst (analyzeNet_options islice p) = regexShaped (snd (analyzeNet_options islice p))
  /\ (regexShaped (analyzeNet_assumePattern islice p) = true ->
      Span.l (optionsSpan (snd (analyzeNet_options islice p))) = 0).
Proof.
  intros AE R. destruct (analyzeNet_assumePattern_spec islice p p2 AE R) as (R0 & AL).
  rewrite !analyzeNet_options_blocks. unfold analyzeNet_optionsBlocks. cbv zeta.
  set (q := analyzeNet_assumePattern islice p) in *.
  set (q2 := analyzeNet_assumePattern islice p2) in *. clearbody q q2. clear AE R p p2.
  pose proof (optionsLayout_assumed islice q AL) as OL.
  pose proof AL as (NB & EL & U2 & U4 & PA & OA & OS & IC & FL).
  pose proof NB as (OK & SL & CL & AB & LS).
  destruct (islice_mod _ _ EL) as (M0 & M1).
  destruct (rightSpace_position q OK SL) as (R1 & R2).
  pose proof CL as (C1 & C2 & _).
  replace (optionsAnchorSpan q2) with (optionsAnchorSpan q)
    by (symmetry; apply (related_fields q q2 R0)).
  rewrite (related_read q q2) by (assumption || lia).
  rewrite (patternEndsAsRegex_related q q2 R0) by (rewrite PA; psimpl; lia).
  rewrite OA. psimpl.
  set (start := (islice <? Span.i (commentSpan q)) && hasBits (aget (slices q) islice) BITSlash).
  assert (RE : (if start then patternEndsAsRegex q else start) = regexShaped q).
  { rewrite regexShaped_ends, PA. psimpl. unfold start, slotBits.
    destruct (Z.ltb_spec islice (Span.i (commentSpan q))) as [L|L]; cbn [andb].
    - destruct (hasBits (aget (slices q) islice) BITSlash); reflexivity.
    - rewrite patternEndsAsRegex_empty by (rewrite PA; psimpl; lia).
      now rewrite andb_false_r. }
  rewrite RE.
  destruct (regexShaped q) eqn:RQ; cbn [negb fst snd].
  { split_all; try reflexivity.
    - clear - R0. apply related_elim in R0. destruct R0 as (b & -> & A).
      split; [reflexivity|exact A].
    - exact OL.
    - unfold orFlavor. psimpl. apply hasBits_lor_same. discriminate.
    - symmetry. exact RQ.
    - intros _. unfold orFlavor. psimpl. now rewrite OS. }
  rewrite (findOptionsAnchor_agree (sliceWritePtr q) (slices q) (slices q2) islice
             (proj2 R0)) by lia.
  pose proof (findOptionsAnchor_spec (slices q) islice
                (Z.to_nat (Span.i (commentSpan q) - islice)) (Span.i (commentSpan q)) 0
                ltac:(lia)) as FS.
  cbv zeta in FS.
  destruct (findOptionsAnchor _ (slices q) islice _ 0) as [i ob]. cbn [fst] in FS.
  destruct (Z.geb_spec i islice) as [G|G]; cbn [fst snd].
  2:{ split_all; try reflexivity; try assumption;
        [symmetry; exact RQ|intros D; discriminate D]. }
  destruct FS as [FS|(F1 & F2 & F3)]; [lia|].
  assert (I1 : i mod 3 = 0) by (clear - C1 F2; Z.div_mod_to_equations; lia).
  destruct (analyzeNet_optionsAnchor_spec islice i ob q q2 AL R0 F1 I1)
    as (RR & OR & FR & SR & AR).
  set (r := analyzeNet_optionsAnchor i ob q) in *.
  set (r2 := analyzeNet_optionsAnchor i ob q2) in *. clearbody r r2.
  assert (PB : Span.i (patternSpan r) + 3 <= sliceWritePtr r
               /\ Span.i (patternSpan r) + Span.l (patternSpan r) <= sliceWritePtr r).
  { destruct OR as ((OK' & SL' & (_ & CB & _) & _) & _ & _ & _ & O1 & O2 & O3 & O4 & O5 & O6 & O7 & O8).
    destruct (rightSpace_position r OK' SL'). lia. }
  rewrite (patternEndsAsRegex_related r r2 RR) by apply PB.
  assert (ST : start = hasBits (slotBits r (Span.i (patternSpan r))) BITSlash).
  { unfold start. destruct (Z.ltb_spec islice (Span.i (commentSpan q))); [|lia].
    cbn [andb]. destruct OR as (_ & _ & _ & _ & -> & _). now rewrite SR. }
  assert (RE' : (if start then patternEndsAsRegex r else false) = regexShaped r).
  { rewrite regexShaped_ends, <- ST. destruct start; reflexivity. }
  rewrite RE'.
  split; [reflexivity|].
  destruct (regexShaped r) eqn:RS; cbn [fst snd].
  - split_all; try reflexivity.
    + clear - RR. apply related_elim in RR. destruct RR as (b & -> & A).
      split; [reflexivity|exact A].
    + exact OR.
    + unfold orFlavor. psimpl. apply hasBits_lor_same. discriminate.
    + symmetry. exact RS.
    + intros D. discriminate D.
  - split_all; try reflexivity; try assumption.
    + symmetry. exact RS.
    + intros D. discriminate D.
Qed.

(** ** The anchors *)

(** The class bits of a slice are those of a character. *)
Lemma slot_class (p : Parser) (k : Z) :
  slicesOK p -> 0 <= k -> k mod 3 = 0 -> k + 3 <= sliceWritePtr p - 3 ->
  exists c, classOf (slotBits p k) = charBits c.
Proof.
  intros (_ & _ & _ & _ & _ & S) K0 K1 K2.
  destruct (S k K0 K1 K2) as (L & O & N & C).
  exists (nth (Z.to_nat (slotOrigin p k)) (raw p) 0). symmetry. apply C. lia.
Qed.

(** Two kinds of characters that no class has together. *)
Lemma slot_bits_excl (p : Parser) (k m1 m2 : Z) :
  slicesOK p -> 0 <= k -> k mod 3 = 0 -> k + 3 <= sliceWritePtr p - 3 ->
  overlayBits .& m1 = 0 -> overlayBits .& m2 = 0 ->
  forallb (fun b => implb (hasBits b m1) (negb (hasBits b m2)))
    (unicodeBits :: charDescBits) = true ->
  hasBits (slotBits p k) m1 = true -> hasBits (slotBits p k) m2 = false.
Proof.
  intros OK K0 K1 K2 O1 O2 T H.
  destruct (slot_class p k OK K0 K1 K2) as (c & C).
  rewrite <- (hasBits_classOf _ m1 O1) in H. rewrite <- (hasBits_classOf _ m2 O2).
  rewrite C in *.
  pose proof (class_forall _ T c) as X. cbv beta in X. rewrite H in X.
  now apply negb_true_iff in X.
Qed.

Ltac related_conv R :=
  let b := fresh "b" in
  let A := fresh "A" in
  apply related_elim in R; destruct R as (b & -> & A);
  split; [reflexivity|exact A].

Lemma anchors_assume (islice : Z) (p p2 : Parser) :
  optionsLayout islice p -> related p p2 ->
  let assume q :=
    set_patternRightAnchorSpan
      (Span.set_i (Span.i (optionsAnchorSpan q)) (patternRightAnchorSpan q))
      (set_patternLeftAnchorSpan
         (Span.set_i (Span.i (patternSpan q)) (patternLeftAnchorSpan q)) q) in
  related (assume p) (assume p2)
  /\ anchorsLayout true (assume p)
  /\ Span.l (patternLeftAnchorSpan (assume p)) = 0
  /\ Span.l (patternRightAnchorSpan (assume p)) = 0.
Proof.
  intros (NB & (E1 & E2) & U2 & U4 & P1 & P2 & P3 & P4 & O1 & O2 & O3 & O4) R assume.
  pose proof NB as (OK & SL & CL & AB & LS).
  pose proof CL as (C1 & C2 & _).
  assert (M : islice mod 3 = 0 /\ 0 <= islice).
  { destruct E1 as [->|(-> & _)]; split; (reflexivity || lia). }
  split_all.
  - unfold assume. clear - R. related_conv R.
  - unfold anchorsLayout, assume. split_all.
    + exact NB.
    + unfold netLayout. cbv zeta. psimpl. rewrite U2, U4. psimpl.
      split_all; try lia; try tauto; try (rewrite P1; tauto).
      rewrite <- P4, P1. clear - M P3. Z.div_mod_to_equations. lia.
    + psimpl. lia.
    + unfold patternLeftOK, slotBits. psimpl. rewrite P1.
      destruct E1 as [->|(-> & AT)]; [now left|right; left].
      apply (slot_bits_excl p 0 BITAt BITAsterisk); try assumption; try reflexivity; try lia.
      destruct OK as (_ & W & _). lia.
  - unfold assume. psimpl. now rewrite U2.
  - unfold assume. psimpl. now rewrite U4.
Qed.

Lemma netLayout_bounds (t : bool) (p : Parser) :
  netBase p -> netLayout t p ->
  Span.i (patternSpan p) + Span.l (patternSpan p) <= Span.i (commentSpan p)
  /\ Span.i (commentSpan p) + 3 <= sliceWritePtr p
  /\ 0 <= Span.i (patternSpan p).
Proof.
  intros (OK & SL & CL & _) NL. destruct (rightSpace_position p OK SL) as (R1 & R2).
  unfold netLayout in NL. cbv zeta in NL.
  destruct NL as (N1 & N2 & N3 & N4 & N5 & N6 & N7 & N8 & N9 & N10 & N11 & N12 & N13 & N14 & N15 & N16 & N17).
  destruct t; lia.
Qed.

Lemma analyzeNet_leftAnchor_spec (p p2 : Parser) :
  anchorsLayout true p -> Span.l (patternLeftAnchorSpan p) = 0 ->
  Span.l (patternRightAnchorSpan p) = 0 -> related p p2 ->
  related (analyzeNet_leftAnchor p) (analyzeNet_leftAnchor p2)
  /\ anchorsLayout true (analyzeNet_leftAnchor p)
  /\ Span.l (patternRightAnchorSpan (analyzeNet_leftAnchor p)) = 0.
Proof.
  intros AL L0 R0 R. pose proof AL as (NB & NL & LE & PL).
  destruct (netLayout_bounds true p NB NL) as (B1 & B2 & B3).
  pose proof NB as (OK & SL & CL & AB & LS).
  unfold netLayout in NL. cbv zeta in NL.
  destruct NL as (N1 & N2 & N3 & N4 & N5 & N6 & N7 & N8 & N9 & N10 & N11 & N12 & N13 & N14 & N15 & N16 & N17).
  pose proof R as R'. apply related_elim in R'. destruct R' as (b & -> & A).
  unfold analyzeNet_leftAnchor.
  change (patternSpan (set_slices b p)) with (patternSpan p).
  change (slices (set_slices b p)) with b.
  rewrite (cellsAgree_read _ _ _ (Span.i (patternSpan p)) A) by lia.
  destruct (Z.eqb_spec (Span.l (patternSpan p)) 0) as [E|E]; cbn [negb andb];
    [split_all; assumption|].
  destruct (hasBits (aget (slices p) (Span.i (patternSpan p))) BITPipe) eqn:PIPE;
    [|split_all; assumption].
  cbv zeta. psimpl.
  rewrite (cellsAgree_read _ _ _ (Span.i (patternSpan p) + 2) A) by lia.
  assert (L3 : 3 <= Span.l (patternSpan p)) by (clear - E N6 N7; Z.div_mod_to_equations; lia).
  assert (AST : hasBits (aget (slices p) (Span.i (patternSpan p))) BITAsterisk = false).
  { apply (slot_bits_excl p _ BITPipe BITAsterisk); try assumption; try reflexivity; lia. }
  set (p1 := set_patternLeftAnchorSpan (Span.set_l 3 (patternLeftAnchorSpan p)) p).
  assert (NB1 : netBase p1) by (revert NB; now apply netBase_ext).
  change (set_patternLeftAnchorSpan (Span.set_l 3 (patternLeftAnchorSpan p)) (set_slices b p))
    with (set_slices b p1).
  assert (R1 : related p1 (set_slices b p1)) by now apply related_intro.
  destruct (Z.gtb_spec (aget (slices p) (Span.i (patternSpan p) + 2)) 2) as [G|G].
  - destruct (netBase_splitSlot p1 (Span.i (patternSpan p)) 2 NB1 B3 N5 ltac:(unfold p1; psimpl; lia))
      as (NB2 & CI); [unfold slotLength; exact (conj eq_refl G)|].
    assert (R2 : related (splitSlot (Span.i (patternSpan p)) 2 p1)
                         (splitSlot (Span.i (patternSpan p)) 2 (set_slices b p1))).
    { apply related_splitSlot; [now apply slicesOK_wellFormed| |exact R1].
      destruct OK as (M & W & _). unfold isSlot. unfold p1. psimpl. lia. }
    assert (SB : slotBits (splitSlot (Span.i (patternSpan p)) 2 p1) (Span.i (patternSpan p))
                 = slotBits p (Span.i (patternSpan p))).
    { rewrite splitSlot_bits; try assumption; try lia; try apply NB1.
      - destruct (Z.leb_spec (Span.i (patternSpan p)) (Span.i (patternSpan p))); [reflexivity|lia].
      - unfold p1. psimpl. lia.
      - unfold p1. psimpl. lia. }
    set (q := splitSlot (Span.i (patternSpan p)) 2 p1) in *.
    set (q2 := splitSlot (Span.i (patternSpan p)) 2 (set_slices b p1)) in *.
    assert (F : patternSpan q = patternSpan p
                /\ patternLeftAnchorSpan q = Span.set_l 3 (patternLeftAnchorSpan p)
                /\ Span.l (exceptionSpan q) = Span.l (exceptionSpan p)
                /\ patternRightAnchorSpan q
                   = Span.set_i (Span.i (patternRightAnchorSpan p) + 3) (patternRightAnchorSpan p)
                /\ optionsAnchorSpan q
                   = Span.set_i (Span.i (optionsAnchorSpan p) + 3) (optionsAnchorSpan p)
                /\ optionsSpan q = Span.set_i (Span.i (optionsSpan p) + 3) (optionsSpan p)).
    { unfold q, p1. split_fields. psimpl. rewrite shiftSpan_l.
      rewrite !shiftSpan_below by (psimpl; lia).
      rewrite !shiftSpan_above by (psimpl; lia). repeat split. }
    clearbody q q2. destruct F as (F1 & F2 & F3 & F4 & F5 & F6).
    split_all.
    + clear - R2. related_conv R2.
    + unfold anchorsLayout, orFlavor. psimpl. rewrite F1. split_all.
      * revert NB2. now apply netBase_ext.
      * unfold netLayout. cbv zeta. psimpl. rewrite F2, F4, F5, F6, CI. psimpl.
        unfold p1. psimpl. split_all; try lia.
        -- clear - N5. Z.div_mod_to_equations. lia.
        -- clear - N15. Z.div_mod_to_equations. lia.
        -- destruct (rightSpace_position _ (proj1 NB2) (proj1 (proj2 NB2))).
           destruct NB2 as (_ & _ & (_ & X & _) & _). rewrite CI in X. unfold p1 in X.
           psimpl. lia.
        -- clear - N17. Z.div_mod_to_equations. lia.
      * psimpl. rewrite F2, F3. psimpl. exact LE.
      * unfold patternLeftOK. psimpl. right. left.
        replace (Span.i (patternSpan p) + 3 - 3) with (Span.i (patternSpan p)) by lia.
        unfold slotBits in *. psimpl. rewrite SB. exact AST.
    + unfold orFlavor. psimpl. rewrite F4. psimpl. exact R0.
  - split_all.
    + clear - R1. related_conv R1.
    + unfold anchorsLayout, orFlavor. psimpl. split_all.
      * exact NB.
      * unfold netLayout. cbv zeta. unfold p1. psimpl. split_all; try lia; try assumption.
        clear - N5. Z.div_mod_to_equations. lia.
        clear - N7. Z.div_mod_to_equations. lia.
      * unfold p1. psimpl. exact LE.
      * unfold patternLeftOK, p1. psimpl. right. left.
        replace (Span.i (patternSpan p) + 3 - 3) with (Span.i (patternSpan p)) by lia.
        exact AST.
    + unfold orFlavor, p1. psimpl. exact R0.
Qed.

Lemma skipUntilNot_test_related (from to bits : Z) (p p2 : Parser) :
  related p p2 -> sliceWritePtr p <= Z.of_nat (length (slices p)) ->
  0 <= from -> from <= to -> (to - from) mod 3 = 0 -> to <= sliceWritePtr p ->
  (skipUntilNot from to bits p2 =? to) = (skipUntilNot from to bits p =? to).
Proof.
  intros R W F0 F1 F2 F3.
  destruct (Z.eq_dec from to) as [->|N].
  - unfold skipUntilNot.
    pose proof (skipUntilNot_loop_past (slices p) to bits (length (slices p)) (to + 3) ltac:(lia)).
    pose proof (skipUntilNot_loop_past (slices p2) to bits (length (slices p2)) (to + 3) ltac:(lia)).
    destruct (Z.eqb_spec (skipUntilNot_loop (length (slices p2)) (slices p2) (to + 3) to bits) to);
      [lia|].
    destruct (Z.eqb_spec (skipUntilNot_loop (length (slices p)) (slices p) (to + 3) to bits) to);
      [lia|reflexivity].
  - rewrite (skipUntilNot_related from to bits p p2); try assumption; try reflexivity.
    clear - F1 F2 N. Z.div_mod_to_equations. lia.
Qed.

Lemma analyzeNet_rightAnchor_spec (p p2 : Parser) :
  anchorsLayout true p -> Span.l (patternRightAnchorSpan p) = 0 -> related p p2 ->
  related (analyzeNet_rightAnchor p) (analyzeNet_rightAnchor p2)
  /\ anchorsLayout true (analyzeNet_rightAnchor p).
Proof.
  intros AL R0 R. pose proof AL as (NB & NL & LE & PL).
  destruct (netLayout_bounds true p NB NL) as (B1 & B2 & B3).
  pose proof NB as (OK & SL & CL & AB & LS).
  unfold netLayout in NL. cbv zeta in NL.
  destruct NL as (N1 & N2 & N3 & N4 & N5 & N6 & N7 & N8 & N9 & N10 & N11 & N12 & N13 & N14 & N15 & N16 & N17).
  pose proof R as R'. apply related_elim in R'. destruct R' as (b & -> & A).
  unfold analyzeNet_rightAnchor.
  change (patternSpan (set_slices b p)) with (patternSpan p).
  change (patternRightAnchorSpan (set_slices b p)) with (patternRightAnchorSpan p).
  change (flavorBits (set_slices b p)) with (flavorBits p).
  change (slices (set_slices b p)) with b.
  destruct (Z.eqb_spec (Span.l (patternSpan p)) 0) as [E|E]; cbn [negb];
    [split; assumption|].
  cbv zeta.
  assert (L3 : 3 <= Span.l (patternSpan p)) by (clear - E N6 N7; Z.div_mod_to_equations; lia).
  set (k := Span.i (patternSpan p) + Span.l (patternSpan p) - 3).
  assert (LK : (if Span.l (patternSpan p) >? 3 then Span.i (patternRightAnchorSpan p) - 3
                else Span.i (patternSpan p)) = k).
  { unfold k. destruct (Z.gtb_spec (Span.l (patternSpan p)) 3); lia. }
  rewrite LK.
  assert (K0 : 0 <= k) by (unfold k; lia).
  assert (K1 : k mod 3 = 0) by (unfold k; clear - N5 N7; Z.div_mod_to_equations; lia).
  assert (K2 : k + 3 <= Span.i (commentSpan p)) by (unfold k; lia).
  rewrite (cellsAgree_read _ _ _ k A) by lia.
  set (p1 := set_patternRightAnchorSpan (Span.mk k 3) p).
  change (set_patternRightAnchorSpan (Span.mk k 3) (set_slices b p)) with (set_slices b p1).
  assert (NB1 : netBase p1) by (revert NB; now apply netBase_ext).
  assert (R1 : related p1 (set_slices b p1)) by now apply related_intro.
  assert (SHORT : forall f,
            let r := orFlavor f (set_patternSpan
                       (Span.set_l (Span.l (patternSpan p1) - 3) (patternSpan p1)) p1) in
            anchorsLayout true r).
  { intros f r. unfold anchorsLayout, r, orFlavor, p1. psimpl. split_all.
    - exact NB.
    - unfold netLayout. cbv zeta. psimpl. unfold k. split_all; try lia.
      + clear - N7. Z.div_mod_to_equations. lia.
      + clear - N5 N7. Z.div_mod_to_equations. lia.
    - exact LE.
    - exact PL. }
  destruct (negb (aget (slices p) k .& BITPipe =? 0)).
  - change (patternRightAnchorSpan (set_slices b p1)) with (Span.mk k 3).
    change (patternRightAnchorSpan p1) with (Span.mk k 3).
    change (slices (set_slices b p1)) with b.
    change (slices p1) with (slices p).
    cbn [Span.i].
    rewrite (cellsAgree_read _ _ _ (k + 2) A) by lia.
    destruct (Z.gtb_spec (aget (slices p) (k + 2)) 1) as [G|G].
    + destruct (netBase_splitSlot p1 k (aget (slices p) (k + 2) - 1) NB1 K0 K1
                  ltac:(unfold p1; psimpl; lia))
        as (NB2 & CI); [unfold slotLength, p1; psimpl; lia|].
      assert (R2 : related (splitSlot k (aget (slices p) (k + 2) - 1) p1)
                           (splitSlot k (aget (slices p) (k + 2) - 1) (set_slices b p1))).
      { apply related_splitSlot; [now apply slicesOK_wellFormed| |exact R1].
        destruct OK as (M & W & _). unfold isSlot. unfold p1. psimpl. lia. }
      assert (SB : forall j, j <= k -> j mod 3 = 0 ->
                slotBits (splitSlot k (aget (slices p) (k + 2) - 1) p1) j = slotBits p j).
      { intros j J0 J1. rewrite splitSlot_bits; try assumption; try lia; try apply NB1.
        - destruct (Z.leb_spec j k); [reflexivity|lia].
        - unfold p1. psimpl. lia.
        - unfold p1. psimpl. lia. }
      set (q := splitSlot k (aget (slices p) (k + 2) - 1) p1) in *.
      set (q2 := splitSlot k (aget (slices p) (k + 2) - 1) (set_slices b p1)) in *.
      assert (F : patternSpan q = patternSpan p
                  /\ patternLeftAnchorSpan q = patternLeftAnchorSpan p
                  /\ Span.l (exceptionSpan q) = Span.l (exceptionSpan p)
                  /\ patternRightAnchorSpan q = Span.mk k 3
                  /\ optionsAnchorSpan q
                     = Span.set_i (Span.i (optionsAnchorSpan p) + 3) (optionsAnchorSpan p)
                  /\ optionsSpan q = Span.set_i (Span.i (optionsSpan p) + 3) (optionsSpan p)).
      { unfold q, p1. split_fields. psimpl. rewrite shiftSpan_l.
        rewrite !shiftSpan_below by (psimpl; unfold k; lia).
        rewrite !shiftSpan_above by (psimpl; unfold k; lia). repeat split. }
      clearbody q q2. destruct F as (F1 & F2 & F3 & F4 & F5 & F6).
      split.
      * clear - R2. related_conv R2.
      * unfold anchorsLayout, orFlavor. psimpl. split_all.
        -- revert NB2. now apply netBase_ext.
        -- unfold netLayout. cbv zeta. psimpl. rewrite F1, F2, F4, F5, F6, CI. psimpl.
           unfold p1. psimpl. unfold k. split_all; try lia.
           ++ clear - N15. Z.div_mod_to_equations. lia.
           ++ destruct (rightSpace_position _ (proj1 NB2) (proj1 (proj2 NB2))).
              destruct NB2 as (_ & _ & (_ & X & _) & _). rewrite CI in X. unfold p1 in X.
              psimpl. lia.
           ++ clear - N5 N7. Z.div_mod_to_equations. lia.
        -- rewrite F2, F3. exact LE.
        -- unfold patternLeftOK in *.
           change (patternSpan (set_flavorBits ?f (set_patternRightAnchorSpan ?s q)))
             with (patternSpan q).
           change (slotBits (set_flavorBits ?f (set_patternRightAnchorSpan ?s q)))
             with (slotBits q).
           rewrite F1.
           rewrite !SB; try (unfold k; lia); try assumption.
           clear - N5. Z.div_mod_to_equations. lia.
    + split.
      * clear - R1. related_conv R1.
      * apply SHORT.
  - rewrite (cellsAgree_read _ _ _ (k + 2) A) by lia.
    rewrite (skipUntilNot_test_related _ k BITHostname p (set_slices b p) R);
      try assumption; try lia.
    + destruct (_ && _).
      * split; [clear - R1; related_conv R1|]. unfold p1 at 1. psimpl. apply SHORT.
      * split; assumption.
    + apply OK.
    + unfold k. replace (Span.i (patternSpan p) + Span.l (patternSpan p) - 3 - Span.i (patternSpan p))
        with (Span.l (patternSpan p) - 3) by lia. clear - N7. Z.div_mod_to_equations. lia.
Qed.

Lemma analyzeNet_anchors_spec (islice : Z) (re : bool) (p p2 : Parser) :
  optionsLayout islice p -> related p p2 ->
  related (analyzeNet_anchors re p) (analyzeNet_anchors re p2)
  /\ anchorsLayout true (analyzeNet_anchors re p).
Proof.
  intros OL R. pose proof (anchors_assume islice p p2 OL R) as X. cbv zeta in X.
  destruct X as (R1 & AL & L0 & R0).
  unfold analyzeNet_anchors. cbv zeta.
  destruct (negb re); [|split; assumption].
  destruct (analyzeNet_leftAnchor_spec _ _ AL L0 R0 R1) as (R2 & AL2 & R02).
  now apply analyzeNet_rightAnchor_spec.
Qed.

(** ** The characters of a slice belong to the line *)

Lemma hasBits_lor (a b m : Z) : hasBits (a .| b) m = hasBits a m || hasBits b m.
Proof.
  unfold hasBits. rewrite Z.land_lor_distr_l.
  destruct (Z.eqb_spec (a .& m) 0) as [A|A]; destruct (Z.eqb_spec (b .& m) 0) as [B|B];
    cbn [negb orb].
  - now rewrite A, B.
  - destruct (Z.eqb_spec (a .& m .| b .& m) 0) as [E|E]; [|reflexivity].
    apply Z.lor_eq_0_iff in E. tauto.
  - destruct (Z.eqb_spec (a .& m .| b .& m) 0) as [E|E]; [|reflexivity].
    apply Z.lor_eq_0_iff in E. tauto.
  - destruct (Z.eqb_spec (a .& m .| b .& m) 0) as [E|E]; [|reflexivity].
    apply Z.lor_eq_0_iff in E. tauto.
Qed.

Lemma bitsOf_in (s : list Z) (c m : Z) :
  In c s -> hasBits (charBits c) m = true -> hasBits (bitsOf s) m = true.
Proof.
  induction s as [|x s IH]; intros I H; [destruct I|].
  cbn [bitsOf fold_right]. rewrite hasBits_lor. destruct I as [->|I].
  - now rewrite H.
  - fold (bitsOf s). rewrite (IH I H). apply orb_true_r.
Qed.

(** Slices start one after the other. *)
Lemma slot_origin_le (p : Parser) (n : nat) :
  slicesOK p ->
  forall k, 0 <= k -> k mod 3 = 0 -> k + 3 * Z.of_nat n <= sliceWritePtr p - 3 ->
    slotOrigin p k <= slotOrigin p (k + 3 * Z.of_nat n).
Proof.
  intros OK. induction n as [|n IH]; intros k K0 K1 K2.
  - replace (k + 3 * Z.of_nat 0) with k by lia. lia.
  - destruct OK as (M & W & O0 & OE & LE & SO).
    destruct (SO k K0 K1 ltac:(lia)) as (L & O & N & _).
    assert (K3 : (k + 3) mod 3 = 0) by now apply slot_next.
    pose proof (IH (k + 3) ltac:(lia) K3 ltac:(lia)) as X.
    replace (k + 3 * Z.of_nat (S n)) with (k + 3 + 3 * Z.of_nat n) by lia. lia.
Qed.

Lemma slot_char (p : Parser) (k : Z) :
  slicesOK p -> 0 <= k -> k mod 3 = 0 -> k + 3 <= sliceWritePtr p - 3 ->
  exists c, In c (raw p) /\ classOf (slotBits p k) = charBits c.
Proof.
  intros OK K0 K1 K2. pose proof OK as (M & W & O0 & OE & LE & S).
  destruct (S k K0 K1 K2) as (L & O & N & C).
  assert (K3 : (k + 3) mod 3 = 0) by now apply slot_next.
  pose proof (slot_origin_le p (Z.to_nat ((sliceWritePtr p - 3 - (k + 3)) / 3)) OK (k + 3)
                ltac:(lia) K3) as X.
  assert (Y : k + 3 + 3 * Z.of_nat (Z.to_nat ((sliceWritePtr p - 3 - (k + 3)) / 3))
              = sliceWritePtr p - 3).
  { rewrite Z2Nat.id by (apply Z.div_pos; lia).
    clear - M K3 K2. Z.div_mod_to_equations. lia. }
  rewrite Y in X. specialize (X ltac:(lia)).
  exists (nth (Z.to_nat (slotOrigin p k)) (raw p) 0). split.
  - apply nth_In. lia.
  - symmetry. apply C. lia.
Qed.

Lemma slot_bits_in_allBits (p : Parser) (k m : Z) :
  netBase p -> 0 <= k -> k mod 3 = 0 -> k + 3 <= sliceWritePtr p - 3 ->
  overlayBits .& m = 0 ->
  hasBits (slotBits p k) m = true -> hasBits (allBits p) m = true.
Proof.
  intros (OK & _ & _ & AB & _) K0 K1 K2 O H.
  destruct (slot_char p k OK K0 K1 K2) as (c & I & C).
  rewrite AB. apply (bitsOf_in _ c); [exact I|].
  rewrite <- C. now rewrite hasBits_classOf.
Qed.

(** ** Spaces in the pattern *)

Lemma getNetPattern_related (p p2 : Parser) :
  related p p2 ->
  Span.l (patternSpan p) = 0
  \/ (Span.i (patternSpan p) + 3 <= sliceWritePtr p
      /\ Span.i (patternSpan p) + Span.l (patternSpan p) + 3 <= sliceWritePtr p) ->
  fst (getNetPattern p2) = fst (getNetPattern p)
  /\ related (snd (getNetPattern p)) (snd (getNetPattern p2)).
Proof.
  intros R H. pose proof R as R'. apply related_elim in R'. destruct R' as (b & -> & A).
  unfold getNetPattern.
  change (pattern (set_slices b p)) with (pattern p).
  change (patternSpan (set_slices b p)) with (patternSpan p).
  change (flavorBits (set_slices b p)) with (flavorBits p).
  change (raw (set_slices b p)) with (raw p).
  change (slices (set_slices b p)) with b.
  destruct (pattern p); [|split; [reflexivity|exact R]].
  cbv zeta.
  destruct (Z.eqb_spec (Span.l (patternSpan p)) 0) as [E|E]; [split; [reflexivity|exact R]|].
  destruct H as [H|(H1 & H2)]; [contradiction|].
  rewrite !(cellsAgree_read _ _ _ _ A) by lia.
  destruct (hasBits (flavorBits p) BITFlavorNetRegex); cbn [fst snd];
    (split; [reflexivity|]); clear - R; related_conv R.
Qed.

Lemma getNetPattern_fields (p : Parser) :
  exists s, snd (getNetPattern p) = set_pattern s p.
Proof.
  unfold getNetPattern. destruct (pattern p) eqn:E.
  - cbv zeta. destruct (_ =? 0); [exists []; cbn [snd]; now destruct p; cbn in *; subst|].
    destruct (hasBits _ _); eexists; reflexivity.
  - exists (pattern p). cbn [snd]. now destruct p.
Qed.

Lemma netLayout_weaken (p : Parser) : netLayout true p -> netLayout false p.
Proof.
  unfold netLayout. cbv zeta. intros H. split_all; try apply H.
  - destruct H as (_ & _ & _ & H & _). lia.
  - destruct H as (_ & _ & _ & _ & _ & _ & _ & H & _). lia.
Qed.

Lemma anchorsLayout_weaken (p : Parser) : anchorsLayout true p -> anchorsLayout false p.
Proof.
  intros (NB & NL & LE & PL). unfold anchorsLayout. split_all; try assumption.
  now apply netLayout_weaken.
Qed.

Lemma anchorsLayout_markSlices (t : bool) (p : Parser) (beg end_ ov : Z) :
  ov .& Z.lnot overlayBits = 0 -> ov .& BITSpace = 0 -> ov .& BITAsterisk = 0 ->
  ov .& BITPatternToken = 0 -> 0 <= beg -> beg mod 3 = 0 ->
  anchorsLayout t p -> anchorsLayout t (markSlices beg end_ ov p).
Proof.
  intros H1 H2 H3 H4 B0 B1 (NB & NL & LE & PL). unfold anchorsLayout. split_all.
  - now apply netBase_markSlices.
  - exact NL.
  - exact LE.
  - unfold patternLeftOK, slotBits, markSlices in *. psimpl.
    now rewrite !hasBits_markSlices_loop by assumption.
Qed.

Lemma analyzeNet_spaces_spec (p p2 : Parser) :
  anchorsLayout true p -> related p p2 ->
  related (analyzeNet_spaces p) (analyzeNet_spaces p2)
  /\ anchorsLayout false (analyzeNet_spaces p)
  /\ (hasBits (allBits p) BITSpace = false -> netLayout true (analyzeNet_spaces p)).
Proof.
  intros AL R. pose proof AL as (NB & NL & LE & PL).
  destruct (netLayout_bounds true p NB NL) as (B1 & B2 & B3).
  pose proof NB as (OK & SL & CL & AB & LS).
  pose proof NL as NL'. unfold netLayout in NL'. cbv zeta in NL'.
  destruct NL' as (N1 & N2 & N3 & N4 & N5 & N6 & N7 & N8 & N9 & N10 & N11 & N12 & N13 & N14 & N15 & N16 & N17).
  pose proof R as R'. apply related_elim in R'. destruct R' as (b & -> & A).
  unfold analyzeNet_spaces. cbv zeta.
  change (patternSpan (set_slices b p)) with (patternSpan p).
  change (patternBits (set_slices b p)) with (patternBits p).
  change (slices (set_slices b p)) with b.
  rewrite (findLastSpace_agree _ _ _ (Span.i (patternSpan p)) A) by lia.
  pose proof (findLastSpace_spec (slices p) (Span.i (patternSpan p))
                (Z.to_nat (Span.l (patternSpan p))) (Span.l (patternSpan p)) (patternBits p)
                N6 N7 ltac:(lia)) as FS.
  cbv zeta in FS.
  destruct (findLastSpace _ (slices p) _ _ _) as [j pb]. cbn [fst] in FS.
  destruct FS as (J0 & J1 & J2).
  destruct (Z.eqb_spec j 0) as [E|E]; cbn [negb].
  { split_all.
    - clear - R. related_conv R.
    - exact (anchorsLayout_weaken p AL).
    - intros _. exact NL. }
  destruct J2 as [J2|(J2 & J3)]; [contradiction|].
  change (patternSpan (set_patternBits pb (set_slices b p))) with (patternSpan p).
  change (patternSpan (set_patternBits pb p)) with (patternSpan p).
  set (p1 := set_patternSpan
               (Span.mk (Span.i (patternSpan p) + (j + 3)) (Span.l (patternSpan p) - (j + 3)))
               (set_patternBits pb p)).
  change (set_patternSpan
            (Span.mk (Span.i (patternSpan p) + (j + 3)) (Span.l (patternSpan p) - (j + 3)))
            (set_patternBits pb (set_slices b p))) with (set_slices b p1).
  assert (R1 : related p1 (set_slices b p1)) by now apply related_intro.
  assert (SP : hasBits (allBits p) BITSpace = true).
  { apply (slot_bits_in_allBits p (Span.i (patternSpan p) + j)); try assumption;
      try reflexivity; try lia.
    clear - N5 J1. Z.div_mod_to_equations. lia. }
  assert (AL1 : anchorsLayout false p1).
  { unfold anchorsLayout. split_all.
    - exact NB.
    - unfold netLayout, p1. cbv zeta. psimpl. split_all; try lia; try assumption.
      + clear - N5 J1. Z.div_mod_to_equations. lia.
      + clear - N7 J1. Z.div_mod_to_equations. lia.
    - exact LE.
    - unfold patternLeftOK, p1. psimpl. right. left.
      replace (Span.i (patternSpan p) + (j + 3) - 3) with (Span.i (patternSpan p) + j) by lia.
      apply (slot_bits_excl p _ BITSpace BITAsterisk); try assumption; try reflexivity; try lia.
      clear - N5 J1. Z.div_mod_to_equations. lia. }
  destruct (getNetPattern_related p1 (set_slices b p1) R1) as (G1 & G2).
  { right. unfold p1. psimpl. lia. }
  destruct (getNetPattern_fields p1) as (s' & G3).
  destruct (getNetPattern p1) as [s q]. destruct (getNetPattern (set_slices b p1)) as [s2 q2].
  cbn [fst snd] in *. subst s2 q.
  set (x := if reIsLocalhostRedirect s then orFlavor BITFlavorIgnore (set_pattern s' p1)
            else set_pattern s' p1).
  set (x2 := if reIsLocalhostRedirect s then orFlavor BITFlavorIgnore q2 else q2).
  assert (RX : related x x2).
  { unfold x, x2. destruct (reIsLocalhostRedirect s); [|exact G2].
    clear - G2. related_conv G2. }
  assert (ALX : anchorsLayout false x).
  { unfold x. destruct (reIsLocalhostRedirect s); exact AL1. }
  assert (PX : Span.i (patternSpan x) <= sliceWritePtr x).
  { unfold x. destruct (reIsLocalhostRedirect s); unfold p1; psimpl; lia. }
  clearbody x x2.
  replace (interactive x2) with (interactive x) by (symmetry; apply (related_fields x x2 RX)).
  replace (patternSpan x2) with (patternSpan x) by (symmetry; apply (related_fields x x2 RX)).
  assert (NT : hasBits (allBits p) BITSpace = false -> netLayout true
                 (if interactive x then markSlices 0 (Span.i (patternSpan x)) BITIgnore x else x)).
  { intros D. rewrite D in SP. discriminate SP. }
  split; [|split; [|exact NT]].
  - destruct (interactive x); [|exact RX]. now apply related_markSlices.
  - destruct (interactive x); [|exact ALX].
    apply anchorsLayout_markSlices; try assumption; try reflexivity; lia.
Qed.

(** ** Wildcards and pointless anchors *)

Lemma hasBits_orCell (a : list Z) (k ov j m : Z) :
  ov .& m = 0 -> hasBits (aget (orCell a k ov) j) m = hasBits (aget a j) m.
Proof.
  intros H. unfold orCell. destruct (Z.ltb_spec k 0) as [N|N].
  - unfold aset. apply Z.ltb_lt in N. now rewrite N.
  - rewrite aget_aset by lia. destruct (Z.eqb_spec j k) as [->|]; [|reflexivity].
    now apply hasBits_lor_other.
Qed.

Lemma netBase_ignoreSlice (p : Parser) (k : Z) :
  k mod 3 = 0 -> netBase p -> netBase (ignoreSlice k p).
Proof.
  intros K (OK & SL & CL & AB & LS). unfold netBase. split_all; try assumption.
  - now apply slicesOK_ignoreSlice.
  - unfold slotBits, ignoreSlice. psimpl. rewrite hasBits_orCell by reflexivity. exact LS.
Qed.

Lemma anchorsLayout_ignoreSlice (t : bool) (p : Parser) (k : Z) :
  k mod 3 = 0 -> anchorsLayout t p -> anchorsLayout t (ignoreSlice k p).
Proof.
  intros K (NB & NL & LE & PL). unfold anchorsLayout. split_all.
  - now apply netBase_ignoreSlice.
  - exact NL.
  - exact LE.
  - unfold patternLeftOK, slotBits, ignoreSlice in *. psimpl.
    now rewrite !hasBits_orCell by reflexivity.
Qed.

(** An anchor that is ignored: its slice is marked and its flavor bit
    cleared. *)
Lemma dropAnchor_spec (t : bool) (bits k : Z) (p p2 : Parser) :
  anchorsLayout t p -> related p p2 -> k mod 3 = 0 -> k < sliceWritePtr p ->
  related (andNotFlavor bits (ignoreSlice k p)) (andNotFlavor bits (ignoreSlice k p2))
  /\ anchorsLayout t (andNotFlavor bits (ignoreSlice k p)).
Proof.
  intros AL R K0 K1. split.
  - pose proof (related_ignoreSlice k p p2 R K1) as R'. clear - R'. related_conv R'.
  - exact (anchorsLayout_ignoreSlice t p k K0 AL).
Qed.

Lemma netLayout_spans (t : bool) (p q : Parser) :
  patternLeftAnchorSpan q = patternLeftAnchorSpan p -> patternSpan q = patternSpan p ->
  patternRightAnchorSpan q = patternRightAnchorSpan p ->
  optionsAnchorSpan q = optionsAnchorSpan p -> optionsSpan q = optionsSpan p ->
  commentSpan q = commentSpan p -> rightSpaceSpan q = rightSpaceSpan p ->
  netLayout t p -> netLayout t q.
Proof.
  intros H1 H2 H3 H4 H5 H6 H7. unfold netLayout. cbv zeta.
  now rewrite H1, H2, H3, H4, H5, H6, H7.
Qed.

Lemma hasNoBits_hasBits (v m : Z) : hasNoBits v m = negb (hasBits v m).
Proof. unfold hasNoBits, hasBits. now rewrite negb_involutive. Qed.

Lemma analyzeNet_leadingWildcard_spec (p p2 : Parser) :
  anchorsLayout false p -> related p p2 ->
  related (analyzeNet_leadingWildcard p) (analyzeNet_leadingWildcard p2)
  /\ anchorsLayout false (analyzeNet_leadingWildcard p)
  /\ (hasBits (allBits p) BITAsterisk = false -> netLayout true p ->
      netLayout true (analyzeNet_leadingWildcard p)).
Proof.
  intros AL R. pose proof AL as (NB & NL & LE & PL).
  destruct (netLayout_bounds false p NB NL) as (B1 & B2 & B3).
  pose proof NB as (OK & SL & CL & AB & LS).
  pose proof NL as NL'. unfold netLayout in NL'. cbv zeta in NL'.
  destruct NL' as (N1 & N2 & N3 & N4 & N5 & N6 & N7 & N8 & N9 & N10 & N11 & N12 & N13 & N14 & N15 & N16 & N17).
  unfold analyzeNet_leadingWildcard. cbv zeta.
  replace (patternSpan p2) with (patternSpan p) by (symmetry; apply (related_fields p p2 R)).
  destruct (Z.gtb_spec (Span.l (patternSpan p)) 3) as [G|G]; cbn [andb];
    [|split_all; [assumption|assumption|intros _ T; exact T]].
  rewrite !(related_read p p2) by (assumption || lia).
  destruct (hasBits (aget (slices p) (Span.i (patternSpan p))) BITAsterisk) eqn:AST; cbn [andb];
    [|split_all; [assumption|assumption|intros _ T; exact T]].
  destruct (hasNoBits (aget (slices p) (Span.i (patternSpan p) + 3)) BITPatternToken) eqn:TOK;
    [|split_all; [assumption|assumption|intros _ T; exact T]].
  assert (AB' : hasBits (allBits p) BITAsterisk = true).
  { apply (slot_bits_in_allBits p (Span.i (patternSpan p))); try assumption;
      try reflexivity; lia. }
  set (p1 := set_patternSpan
               (Span.mk (Span.i (patternSpan p) + 3) (Span.l (patternSpan p) - 3))
               (ignoreSlice (Span.i (patternSpan p)) p)).
  set (p12 := set_patternSpan
                (Span.mk (Span.i (patternSpan p) + 3) (Span.l (patternSpan p) - 3))
                (ignoreSlice (Span.i (patternSpan p)) p2)).
  assert (R1 : related p1 p12).
  { pose proof (related_ignoreSlice (Span.i (patternSpan p)) p p2 R ltac:(lia)) as R'.
    unfold p1, p12. clear - R'. related_conv R'. }
  assert (AL1 : anchorsLayout false p1).
  { pose proof (anchorsLayout_ignoreSlice false p _ N5 AL) as (NB' & NL1 & LE' & PL').
    unfold anchorsLayout. split_all.
    - exact NB'.
    - unfold netLayout, p1. cbv zeta. psimpl. split_all; try lia; try assumption.
      + clear - N5. Z.div_mod_to_equations. lia.
      + clear - N7. Z.div_mod_to_equations. lia.
    - exact LE.
    - unfold patternLeftOK, p1, slotBits, ignoreSlice. psimpl. right. right.
      rewrite hasBits_orCell by reflexivity.
      rewrite hasNoBits_hasBits in TOK. now apply negb_true_iff in TOK. }
  replace (patternLeftAnchorSpan p12) with (patternLeftAnchorSpan p1)
    by (symmetry; apply (related_fields p1 p12 R1)).
  assert (W1 : sliceWritePtr p1 = sliceWritePtr p) by reflexivity.
  assert (LA : patternLeftAnchorSpan p1 = patternLeftAnchorSpan p) by reflexivity.
  clearbody p1 p12.
  assert (T : hasBits (allBits p) BITAsterisk = false -> netLayout true p ->
              netLayout true
                (if negb (Span.l (patternLeftAnchorSpan p1) =? 0)
                 then andNotFlavor BITFlavorNetLeftAnchor
                        (ignoreSlice (Span.i (patternLeftAnchorSpan p1)) p1)
                 else p1)).
  { intros D. rewrite D in AB'. discriminate AB'. }
  split; [|split; [|exact T]].
  - destruct (negb (Span.l (patternLeftAnchorSpan p1) =? 0)); [|exact R1].
    apply (dropAnchor_spec false); try assumption; rewrite LA; [exact N2|lia].
  - destruct (negb (Span.l (patternLeftAnchorSpan p1) =? 0)); [|exact AL1].
    apply (dropAnchor_spec false _ _ p1 p12); try assumption; rewrite LA; [exact N2|lia].
Qed.

Lemma analyzeNet_trailingWildcard_spec (p p2 : Parser) :
  anchorsLayout false p -> related p p2 ->
  related (analyzeNet_trailingWildcard p) (analyzeNet_trailingWildcard p2)
  /\ anchorsLayout false (analyzeNet_trailingWildcard p)
  /\ (hasBits (allBits p) BITAsterisk = false -> netLayout true p ->
      netLayout true (analyzeNet_trailingWildcard p)).
Proof.
  intros AL R. pose proof AL as (NB & NL & LE & PL).
  destruct (netLayout_bounds false p NB NL) as (B1 & B2 & B3).
  pose proof NB as (OK & SL & CL & AB & LS).
  pose proof NL as NL'. unfold netLayout in NL'. cbv zeta in NL'.
  destruct NL' as (N1 & N2 & N3 & N4 & N5 & N6 & N7 & N8 & N9 & N10 & N11 & N12 & N13 & N14 & N15 & N16 & N17).
  unfold analyzeNet_trailingWildcard. cbv zeta.
  replace (patternSpan p2) with (patternSpan p) by (symmetry; apply (related_fields p p2 R)).
  rewrite !(related_read p p2) by (assumption || lia).
  destruct (Z.gtb_spec (Span.l (patternSpan p)) 3) as [G|G]; cbn [andb];
    [|split_all; [assumption|assumption|intros _ T; exact T]].
  set (k := Span.i (patternSpan p) + Span.l (patternSpan p) - 3) in *.
  destruct (hasBits (aget (slices p) k) BITAsterisk) eqn:AST; cbn [andb];
    [|split_all; [assumption|assumption|intros _ T; exact T]].
  destruct (hasNoBits (aget (slices p) (Span.i (patternSpan p) + Span.l (patternSpan p) - 6))
              BITPatternToken) eqn:TOK;
    [|split_all; [assumption|assumption|intros _ T; exact T]].
  assert (K1 : k mod 3 = 0) by (unfold k; clear - N5 N7; Z.div_mod_to_equations; lia).
  assert (AB' : hasBits (allBits p) BITAsterisk = true).
  { apply (slot_bits_in_allBits p k); try assumption; try reflexivity; unfold k; lia. }
  set (c := hasNoBits (aget (slices p) (Span.i (patternSpan p))) BITSlash
            || hasNoBits (aget (slices p) (Span.i (patternSpan p) + Span.l (patternSpan p) - 6))
                 BITSlash).
  set (x := if c then ignoreSlice k p else p).
  set (x2 := if c then ignoreSlice k p2 else p2).
  assert (RX : related x x2).
  { unfold x, x2. destruct c; [|exact R]. apply related_ignoreSlice; [exact R|unfold k; lia]. }
  assert (ALX : anchorsLayout false x).
  { unfold x. destruct c; [|exact AL]. now apply anchorsLayout_ignoreSlice. }
  assert (FX : patternSpan x = patternSpan p /\ patternRightAnchorSpan x = patternRightAnchorSpan p
               /\ sliceWritePtr x = sliceWritePtr p /\ patternLeftAnchorSpan x = patternLeftAnchorSpan p
               /\ optionsAnchorSpan x = optionsAnchorSpan p /\ optionsSpan x = optionsSpan p
               /\ commentSpan x = commentSpan p /\ rightSpaceSpan x = rightSpaceSpan p).
  { unfold x. destruct c; repeat split. }
  clearbody x x2. destruct FX as (F1 & F2 & F3 & F4 & F5 & F6 & F7 & F8).
  replace (patternSpan x2) with (patternSpan x) by (symmetry; apply (related_fields x x2 RX)).
  set (p1 := set_patternSpan (Span.set_l (Span.l (patternSpan p) - 3) (patternSpan x)) x).
  set (p12 := set_patternSpan (Span.set_l (Span.l (patternSpan p) - 3) (patternSpan x)) x2).
  assert (R1 : related p1 p12) by (unfold p1, p12; clear - RX; related_conv RX).
  assert (AL1 : anchorsLayout false p1).
  { destruct ALX as (NB' & NL1 & LE' & PL'). unfold anchorsLayout. split_all.
    - exact NB'.
    - unfold netLayout, p1. cbv zeta. psimpl. rewrite F1, F2, F4, F5, F6, F7, F8.
      split_all; try lia; try assumption.
      clear - N7. Z.div_mod_to_equations. lia.
    - exact LE'.
    - exact PL'. }
  replace (patternRightAnchorSpan p12) with (patternRightAnchorSpan p1)
    by (symmetry; apply (related_fields p1 p12 R1)).
  assert (W1 : sliceWritePtr p1 = sliceWritePtr p) by exact F3.
  assert (RA : patternRightAnchorSpan p1 = patternRightAnchorSpan p) by exact F2.
  clearbody p1 p12.
  assert (T : hasBits (allBits p) BITAsterisk = false -> netLayout true p ->
              netLayout true
                (if negb (Span.l (patternRightAnchorSpan p1) =? 0)
                 then andNotFlavor BITFlavorNetRightAnchor
                        (ignoreSlice (Span.i (patternRightAnchorSpan p1)) p1)
                 else p1)).
  { intros D. rewrite D in AB'. discriminate AB'. }
  split; [|split; [|exact T]].
  - destruct (negb (Span.l (patternRightAnchorSpan p1) =? 0)); [|exact R1].
    apply (dropAnchor_spec false); try assumption; rewrite RA; [exact N17|lia].
  - destruct (negb (Span.l (patternRightAnchorSpan p1) =? 0)); [|exact AL1].
    apply (dropAnchor_spec false _ _ p1 p12); try assumption; rewrite RA; [exact N17|lia].
Qed.

Lemma netLayout_dropAnchor (t : bool) (bits k : Z) (p : Parser) :
  netLayout t p -> netLayout t (andNotFlavor bits (ignoreSlice k p)).
Proof. intros H. exact H. Qed.

Lemma analyzeNet_pointlessAnchors_spec (p p2 : Parser) :
  anchorsLayout false p -> related p p2 ->
  related (analyzeNet_pointlessAnchors p) (analyzeNet_pointlessAnchors p2)
  /\ anchorsLayout false (analyzeNet_pointlessAnchors p)
  /\ (netLayout true p -> netLayout true (analyzeNet_pointlessAnchors p)).
Proof.
  intros AL R. pose proof AL as (NB & NL & LE & PL).
  destruct (netLayout_bounds false p NB NL) as (B1 & B2 & B3).
  pose proof NL as NL'. unfold netLayout in NL'. cbv zeta in NL'.
  destruct NL' as (N1 & N2 & N3 & N4 & N5 & N6 & N7 & N8 & N9 & N10 & N11 & N12 & N13 & N14 & N15 & N16 & N17).
  unfold analyzeNet_pointlessAnchors. cbv zeta.
  pose proof (related_fields p p2 R)
    as (_ & _ & _ & _ & LA2 & PA2 & RA2 & _ & _ & _ & _ & _ & _ & _ & _ & _ & _ & FL2 & _).
  rewrite PA2, LA2, FL2.
  rewrite (related_read p p2 (Span.i (patternSpan p))) by (assumption || lia).
  set (c := ((Span.l (patternSpan p) =? 0)
             || negb (Span.l (patternSpan p) =? 0)
                && hasBits (aget (slices p) (Span.i (patternSpan p))) BITAsterisk)
            && hasBits (flavorBits p) BITFlavorNetLeftAnchor).
  set (x := if c then andNotFlavor BITFlavorNetLeftAnchor
                        (ignoreSlice (Span.i (patternLeftAnchorSpan p)) p) else p).
  set (x2 := if c then andNotFlavor BITFlavorNetLeftAnchor
                         (ignoreSlice (Span.i (patternLeftAnchorSpan p)) p2) else p2).
  assert (X : related x x2 /\ anchorsLayout false x).
  { unfold x, x2. destruct c; [|split; assumption].
    apply (dropAnchor_spec false); try assumption. lia. }
  destruct X as (RX & ALX).
  assert (FX : patternRightAnchorSpan x = patternRightAnchorSpan p
               /\ sliceWritePtr x = sliceWritePtr p
               /\ (netLayout true p -> netLayout true x)).
  { unfold x. destruct c; (split; [reflexivity|]); (split; [reflexivity|]);
      intros T; exact T. }
  clearbody x x2. destruct FX as (F1 & F2 & F3).
  pose proof (related_fields x x2 RX)
    as (_ & _ & _ & _ & _ & _ & RA3 & _ & _ & _ & _ & _ & _ & _ & _ & _ & _ & FL3 & _).
  rewrite RA3, FL3.
  rewrite (related_read x x2 (Span.i (patternSpan p) + Span.l (patternSpan p) - 3) RX)
    by (rewrite F2; lia).
  match goal with |- context [if ?c then _ else x] => destruct c end.
  - destruct (dropAnchor_spec false BITFlavorNetRightAnchor (Span.i (patternRightAnchorSpan x))
                x x2 ALX RX) as (D1 & D2); [rewrite F1; exact N17|rewrite F1, F2; lia|].
    split_all; assumption.
  - split_all; assumption.
Qed.

Lemma analyzeNet_wildcards_spec (p p2 : Parser) :
  anchorsLayout false p -> related p p2 ->
  related (analyzeNet_wildcards p) (analyzeNet_wildcards p2)
  /\ anchorsLayout false (analyzeNet_wildcards p)
  /\ (hasBits (allBits p) BITAsterisk = false -> netLayout true p ->
      netLayout true (analyzeNet_wildcards p)).
Proof.
  intros AL R. unfold analyzeNet_wildcards.
  destruct (analyzeNet_leadingWildcard_spec p p2 AL R) as (R1 & A1 & T1).
  destruct (analyzeNet_trailingWildcard_spec _ _ A1 R1) as (R2 & A2 & T2).
  destruct (analyzeNet_pointlessAnchors_spec _ _ A2 R2) as (R3 & A3 & T3).
  split_all; try assumption.
  intros D T. apply T3, T2; [|now apply T1].
  rewrite <- D. f_equal. apply (frame_analyzeNet_leadingWildcard p).
Qed.

(** ** [analyzeNet] and [analyze] as a whole *)

Lemma allBits_set_category (c : Z) (p : Parser) : allBits (set_category c p) = allBits p.
Proof. reflexivity. Qed.

Lemma flavorBits_set_category (c : Z) (p : Parser) :
  flavorBits (set_category c p) = flavorBits p.
Proof. reflexivity. Qed.

Lemma optionsSpan_set_category (c : Z) (p : Parser) :
  optionsSpan (set_category c p) = optionsSpan p.
Proof. reflexivity. Qed.

Lemma netLayout_set_category (t : bool) (c : Z) (p : Parser) :
  netLayout t p -> netLayout t (set_category c p).
Proof. intros H. exact H. Qed.

Lemma anchorsLayout_set_category (t : bool) (c : Z) (p : Parser) :
  anchorsLayout t p -> anchorsLayout t (set_category c p).
Proof.
  intros (NB & NL & LE & PL). unfold anchorsLayout. split_all; assumption.
Qed.

Lemma regexShaped_assumePattern (islice : Z) (p : Parser) :
  regexShaped (analyzeNet_assumePattern islice p)
  = regexShaped (set_patternSpan (Span.mk islice (Span.i (commentSpan p) - islice)) p).
Proof. reflexivity. Qed.

Lemma analyzeNet_spec (p p2 : Parser) :
  netEntry p -> related p p2 ->
  related (analyzeNet p) (analyzeNet p2)
  /\ netFinal (analyzeNet p)
  /\ hasBits (flavorBits (analyzeNet p)) BITFlavorNetRegex = regexShaped (afterOptions p)
  /\ (regexShaped (beforeOptions p) = true -> Span.l (optionsSpan (analyzeNet p)) = 0).
Proof.
  intros N R. unfold analyzeNet, afterOptions, beforeOptions.
  destruct (analyzeNet_exception_spec p p2 N R) as (E1 & E2 & E3).
  pose proof (frame_analyzeNet_exception p) as F1.
  destruct (analyzeNet_exception p) as [islice q1].
  destruct (analyzeNet_exception p2) as [islice2 q12]. cbn [fst snd] in *. subst islice2.
  destruct (analyzeNet_options_spec islice q1 q12 E3 E2) as (O1 & O2 & O3 & O4 & O5 & O6).
  pose proof (frame_analyzeNet_options islice q1) as F2.
  destruct (analyzeNet_options islice q1) as [re q2].
  destruct (analyzeNet_options islice q12) as [re2 q22]. cbn [fst snd] in *. subst re2.
  cbv zeta.
  destruct (analyzeNet_anchors_spec islice re q2 q22 O3 O2) as (A1 & A2).
  pose proof (frame_analyzeNet_anchors re q2) as F3.
  pose proof (keepsRegex_anchors re q2) as K3.
  set (q3 := analyzeNet_anchors re q2) in *.
  set (q32 := analyzeNet_anchors re q22) in *. clearbody q3 q32.
  destruct (analyzeNet_spaces_spec q3 q32 A2 A1) as (S1 & S2 & S3).
  pose proof (frame_analyzeNet_spaces q3) as F4.
  pose proof (keepsRegex_spaces q3) as K4.
  set (q4 := analyzeNet_spaces q3) in *.
  set (q42 := analyzeNet_spaces q32) in *. clearbody q4 q42.
  destruct (analyzeNet_wildcards_spec q4 q42 S2 S1) as (W1 & W2 & W3).
  pose proof (frame_analyzeNet_wildcards q4) as F5.
  pose proof (keepsRegex_wildcards q4) as K5.
  set (q5 := analyzeNet_wildcards q4) in *.
  set (q52 := analyzeNet_wildcards q42) in *. clearbody q5 q52.
  assert (AB4 : allBits q4 = allBits q5) by (symmetry; apply F5).
  assert (AB3 : allBits q3 = allBits q5) by (rewrite <- AB4; symmetry; apply F4).
  destruct K3 as (K31 & K32). destruct K4 as (K41 & K42). destruct K5 as (K51 & K52).
  split_all.
  - apply (related_update (set_category CATStaticNetFilter)); try reflexivity. exact W1.
  - unfold netFinal. split_all.
    + reflexivity.
    + now apply anchorsLayout_set_category.
    + intros D1 D2. apply (netLayout_set_category true).
      rewrite allBits_set_category in D1, D2.
      apply W3; [now rewrite AB4|]. apply S3. now rewrite AB3.
  - rewrite flavorBits_set_category, K51, K41, K31, O4. exact O5.
  - intros D. rewrite optionsSpan_set_category, K52, K42, K32. apply O6.
    rewrite regexShaped_assumePattern. exact D.
Qed.

Lemma sameHost_refl (p : Parser) : sameHost p p.
Proof. repeat split. Qed.

Lemma analyze_spec (raw_ : list Z) (p0 p1 : Parser) :
  sameHost p0 p1 ->
  related (analyze raw_ p0) (analyze raw_ p1) /\ analyzed (analyze raw_ p0).
Proof.
  intros H. pose proof (analyze_head_spec raw_ p0 p1 H) as X. unfold analyze.
  destruct (analyze_head raw_ p0) as [r|q]; destruct (analyze_head raw_ p1) as [r2|q2];
    cbn [headResult] in X; try contradiction.
  - destruct X as (R & T). split; [exact R|now right].
  - destruct X as (R & N). destruct (analyzeNet_spec q q2 N R) as (R' & F & _).
    split; [exact R'|now left].
Qed.

Lemma analyzed_bounds (p : Parser) :
  analyzed p ->
  sliceWritePtr p <= Z.of_nat (length (slices p))
  /\ (Span.l (patternSpan p) = 0
      \/ (Span.i (patternSpan p) + 3 <= sliceWritePtr p
          /\ Span.i (patternSpan p) + Span.l (patternSpan p) + 3 <= sliceWritePtr p)).
Proof.
  intros [(C & (NB & NL & _) & _)|(C & PR & _ & W)].
  - destruct (netLayout_bounds false p NB NL) as (B1 & B2 & B3).
    destruct NB as ((_ & W & _) & _).
    unfold netLayout in NL. cbv zeta in NL.
    destruct NL as (_ & _ & _ & _ & _ & N6 & _).
    split; [lia|]. destruct (Z.eq_dec (Span.l (patternSpan p)) 0); [now left|right; lia].
  - split; [|destruct PR as [PR|PR]; [now left|right; lia]].
    destruct W as [(_ & ->)|(_ & W & _)]; lia.
Qed.

Lemma firstn_agree (n : nat) :
  forall a b : list Z, (n <= length a)%nat -> (n <= length b)%nat ->
    (forall k, (k < n)%nat -> nth k b 0 = nth k a 0) -> firstn n b = firstn n a.
Proof.
  induction n as [|n IH]; intros a b La Lb H; [reflexivity|].
  destruct a as [|x a]; [cbn in La; lia|]. destruct b as [|y b]; [cbn in Lb; lia|].
  cbn [firstn]. f_equal.
  - exact (H 0%nat ltac:(lia)).
  - apply IH; cbn [length] in *; try lia. intros k K. exact (H (S k) ltac:(lia)).
Qed.

Lemma related_observable (p p2 : Parser) :
  related p p2 -> analyzed p -> observable p2 = observable p.
Proof.
  intros R A. destruct (analyzed_bounds p A) as (W & PR).
  destruct (getNetPattern_related p p2 R PR) as (G & _).
  pose proof (related_fields p p2 R)
    as (_ & F2 & F3 & F4 & F5 & F6 & F7 & F8 & F9 & F10 & F11 & F12 & F13 & F14 & F15 & F16
        & F17 & F18 & _).
  unfold observable.
  rewrite F2, F3, F4, F5, F6, F7, F8, F9, F10, F11, F12, F13, F14, F15, F16, F17, F18, G.
  f_equal. destruct R as (_ & (L & C)).
  destruct (Z.le_gt_cases (sliceWritePtr p) 0) as [N|N].
  - replace (Z.to_nat (sliceWritePtr p)) with 0%nat by lia. reflexivity.
  - apply firstn_agree; try lia. intros k K.
    specialize (C (Z.of_nat k) ltac:(lia)). rewrite !aget_nth in C by lia.
    now rewrite Nat2Z.id in C.
Qed.

Lemma slicesOK_invariant (p : Parser) : slicesOK p -> sliceInvariant p.
Proof.
  intros (M & W & O0 & OE & LE & SO).
  unfold sliceInvariant, slotsWellFormed. split_all; try lia; try assumption.
  - intros k (K0 & K1 & K2) K3.
    assert (K4 : k + 3 <= sliceWritePtr p - 3) by (clear - K1 K3 M; Z.div_mod_to_equations; lia).
    apply (SO k K0 K1 K4).
  - unfold sumOfLengths.
    assert (Wn : exists n : nat, sliceWritePtr p = 3 * Z.of_nat (S n)).
    { exists (Z.to_nat (sliceWritePtr p / 3) - 1)%nat. clear - M W. Z.div_mod_to_equations. lia. }
    destruct Wn as [n Wn]. unfold slotOrigin, slotLength in *. rewrite Wn in *.
    replace (Z.to_nat (3 * Z.of_nat (S n) / 3)) with (S n) by (Z.div_mod_to_equations; lia).
    cbn [sumLengths]. rewrite sumLengths_telescope.
    + replace (3 * Z.of_nat n + 2) with (3 * Z.of_nat (S n) - 3 + 2) by lia.
      replace (3 * Z.of_nat n + 1) with (3 * Z.of_nat (S n) - 3 + 1) by lia.
      rewrite OE, LE. lia.
    + exact O0.
    + intros m Hm.
      destruct (SO (3 * Z.of_nat m)) as (_ & _ & E & _); try lia.
      * clear. Z.div_mod_to_equations. lia.
      * replace (3 * Z.of_nat m + 4) with (3 * Z.of_nat m + 3 + 1) by lia. exact E.
Qed.

Lemma analyzed_slicesOK (p : Parser) : analyzed p -> raw p <> [] -> slicesOK p.
Proof.
  intros [(_ & (NB & _) & _)|(_ & _ & _ & [(E & _)|OK])] N.
  - apply NB.
  - contradiction.
  - exact OK.
Qed.

Lemma raw_analyze (raw_ : list Z) (p : Parser) : raw (analyze raw_ p) = raw_.
Proof.
  destruct (frame_analyze raw_ p) as (_ & -> & _).
  unfold slice. cbv zeta. destruct raw_ as [|c rest]; [reflexivity|].
  destruct (slice_loop _ _ _ _ _ _ _) as [[[[a ptr] ab] i] j].
  destruct (negb _); destruct (_ && _); reflexivity.
Qed.

Lemma analyzed_net (p : Parser) :
  analyzed p -> category p = CATStaticNetFilter -> netFinal p.
Proof. intros [N|(C & _)] E; [exact N|contradiction]. Qed.

Lemma analyzed_ext (p : Parser) :
  analyzed p -> category p = CATStaticExtFilter -> extLayout p.
Proof.
  intros [(C & _)|(_ & _ & X & _)] E; [|now apply X].
  rewrite C in E. discriminate E.
Qed.

(** ** The slice array and the line *)

Lemma cutsLine_slice (raw_ : list Z) (p : Parser) : cutsLine raw_ (slice raw_ p).
Proof.
  destruct (slice_invariant raw_ p) as (WF & C & S).
  destruct raw_ as [|c rest].
  - unfold cutsLine. split_all; try assumption; try reflexivity.
    cbn [slice]. psimpl. lia.
  - pose proof (slice_nonempty c rest p) as N. unfold slicedState in N. cbv zeta in N.
    destruct N as (N1 & N2 & N3 & N4 & N5 & N6 & N7 & _).
    unfold cutsLine. rewrite N1 in S. split_all; try assumption.
    intros _. exact N7.
Qed.

Lemma cutsLine_splitSlot (raw_ : list Z) (p : Parser) (slot l : Z) :
  cutsLine raw_ p -> isSlot p slot -> cutsLine raw_ (splitSlot slot l p).
Proof.
  intros (R & WF & C & S & O) K.
  destruct (splitSlot_cells p slot l WF K) as (A & B & Cells).
  destruct (frame_splitSlot slot l p) as (_ & R' & _).
  unfold cutsLine. split_all.
  - now rewrite R'.
  - now apply splitSlot_wellFormed.
  - now apply splitSlot_contiguous.
  - now rewrite splitSlot_sum.
  - intros _. destruct K as (K0 & K1 & K2). destruct WF as (_ & W0 & _).
    unfold slotOrigin in *. rewrite Cells by lia. unfold splitCell.
    destruct (Z.ltb_spec (0 + 1) (slot + 2)); [|lia]. apply O. lia.
Qed.

Lemma cutsLine_analyze (raw_ : list Z) (p : Parser) : cutsLine raw_ (analyze raw_ p).
Proof.
  destruct raw_ as [|c rest].
  - change (analyze [] p) with (slice [] p). apply cutsLine_slice.
  - destruct (analyze_spec (c :: rest) p p (sameHost_refl p)) as (_ & A).
    pose proof (raw_analyze (c :: rest) p) as R.
    assert (OK : slicesOK (analyze (c :: rest) p))
      by (apply analyzed_slicesOK; [exact A|rewrite R; discriminate]).
    destruct (slicesOK_invariant _ OK) as (WF & C & S).
    rewrite R in S. unfold cutsLine. split_all; try assumption.
    intros _. apply OK.
Qed.

(** C1. For every line [raw_], the slices written by [slice] cut that
    line: the parser holds [raw_], adjacent slices are contiguous
    ([origin(i) + length(i) = origin(i+1)]), the first slice starts at 0 and
    the lengths add up to the length of [raw_].  [splitSlot] on a slot of an
    array that cuts a line gives an array that cuts the same line, and so
    the array left by [analyze], after all its calls of [splitSlot], still
    cuts the line. *)
Theorem slice_contiguous_and_exhaustive :
  (forall raw_ p, cutsLine raw_ (slice raw_ p))
  /\ (forall raw_ p slot l,
        cutsLine raw_ p -> isSlot p slot -> cutsLine raw_ (splitSlot slot l p))
  /\ (forall raw_ p, cutsLine raw_ (analyze raw_ p)).
Proof.
  split; [exact cutsLine_slice|]. split; [exact cutsLine_splitSlot|exact cutsLine_analyze].
Qed.

Lemma slice_contiguous_and_exhaustive_witness :
  isSlot (slice (codes "@@@a") freshParser) 0
  /\ cutsLine (codes "@@@a") (splitSlot 0 2 (slice (codes "@@@a") freshParser)).
Proof.
  assert (K : isSlot (slice (codes "@@@a") freshParser) 0).
  { unfold isSlot. vm_compute. split; [discriminate|]. split; reflexivity. }
  split; [exact K|].
  apply (proj1 (proj2 slice_contiguous_and_exhaustive)).
  - apply (proj1 slice_contiguous_and_exhaustive).
  - exact K.
Defined.

(** C4, as stated, fails on the empty line: [slice] returns before it
    writes anything, and there is no slice below the write pointer. *)
Lemma no_end_of_line_slice_for_empty_line :
  ~ endOfLineSlice [] (slice [] freshParser).
Proof.
  unfold endOfLineSlice. vm_compute. intros [H _]. apply H. reflexivity.
Qed.

(** C4 (amended). For every line [raw_] that is not empty, the parser
    holds [raw_] after [slice] and the last slice below the write pointer is
    the end-of-line slice, with no bits, length 0 and the length of [raw_]
    as origin, and [eolSpan] points to it.  For the empty line, on every
    parser, [slice] leaves the write pointer at 0 and the array as it was:
    there is no end-of-line slice. *)
Theorem end_of_line_slice_appended (raw_ : list Z) (p : Parser) :
  (raw_ <> [] ->
   raw (slice raw_ p) = raw_
   /\ endOfLineSlice raw_ (slice raw_ p)
   /\ Span.i (eolSpan (slice raw_ p)) = sliceWritePtr (slice raw_ p) - 3)
  /\ (raw_ = [] ->
      sliceWritePtr (slice raw_ p) = 0
      /\ slices (slice raw_ p) = slices p
      /\ ~ endOfLineSlice raw_ (slice raw_ p)).
Proof.
  split.
  - intros H. destruct raw_ as [|c rest]; [contradiction|].
    pose proof (slice_nonempty c rest p) as S. unfold slicedState in S. cbv zeta in S.
    destruct S as (S1 & S2 & S3 & S4 & S5 & S6 & S7 & S8 & S9 & S10 & S11 & S12 & _).
    unfold endOfLineSlice, slotBits, slotOrigin, slotLength. rewrite S12.
    replace (sliceWritePtr (slice (c :: rest) p) - 3 + 1)
      with (sliceWritePtr (slice (c :: rest) p) - 2) by lia.
    replace (sliceWritePtr (slice (c :: rest) p) - 3 + 2)
      with (sliceWritePtr (slice (c :: rest) p) - 1) by lia.
    split_all; try assumption; try lia. reflexivity.
  - intros ->. split; [reflexivity|]. split; [reflexivity|].
    intros (H & _). cbn [slice] in H. psimpl. lia.
Qed.

Lemma end_of_line_slice_appended_witness :
  raw (slice (codes "a.b") freshParser) = codes "a.b"
  /\ endOfLineSlice (codes "a.b") (slice (codes "a.b") freshParser)
  /\ Span.i (eolSpan (slice (codes "a.b") freshParser))
     = sliceWritePtr (slice (codes "a.b") freshParser) - 3.
Proof.
  apply (proj1 (end_of_line_slice_appended (codes "a.b") freshParser)). discriminate.
Defined.

(** ** [toPunycode] and the line it analyses again *)

Lemma takeWhile_prefix (f : Z -> bool) (s : list Z) :
  s = takeWhile f s ++ skipn (length (takeWhile f s)) s.
Proof.
  induction s as [|c s IH]; [reflexivity|]. cbn [takeWhile].
  destruct (f c); [|reflexivity]. cbn [length skipn app]. now rewrite <- IH.
Qed.

Lemma reHostname_exec_prefix (s m : list Z) :
  reHostname_exec s = Some m -> s = m ++ skipn (length m) s.
Proof.
  unfold reHostname_exec. intros H.
  assert (E : takeWhile reHostnameChar s = m)
    by (destruct (takeWhile reHostnameChar s); [discriminate|now injection H]).
  rewrite <- E. apply takeWhile_prefix.
Qed.

Lemma js_slice_from (s : list Z) (n : nat) :
  (n <= length s)%nat ->
  js_slice s (0 + Z.of_nat n) (Z.of_nat (length s)) = skipn n s.
Proof.
  intros H. unfold js_slice. cbv zeta.
  destruct (Z.ltb_spec (0 + Z.of_nat n) 0); [lia|].
  destruct (Z.ltb_spec (Z.of_nat (length s)) 0); [lia|].
  rewrite !Z.min_l by lia. replace (Z.to_nat (0 + Z.of_nat n)) with n by lia.
  apply firstn_all2. rewrite length_skipn. lia.
Qed.

(** [getNetPattern] changes the cached pattern only. *)
Lemma getNetPattern_cache (p : Parser) :
  snd (getNetPattern p) = set_pattern (fst (getNetPattern p)) p.
Proof.
  unfold getNetPattern. destruct (pattern p) as [|c s] eqn:E.
  - destruct (_ =? 0); cbn [fst snd].
    + destruct p. cbn in E. now rewrite E.
    + destruct (hasBits _ _); reflexivity.
  - cbn [fst snd]. destruct p. cbn in E. now rewrite E.
Qed.

(** C9, as stated, fails: on a pattern with a non-ASCII character that
    starts with a slash, [reHostname] does not match and the method returns
    [undefined]. *)
Lemma toPunycode_returns_undefined :
  ~ exists b, fst (toPunycode (analyze [47; 233] freshParser)) = JSBool b.
Proof. vm_compute. intros [b H]. discriminate H. Qed.

(** C9 (amended). [toPunycode] returns [true] and leaves the parser as it
    is when the pattern has no unicode or is empty.  Otherwise it extracts
    the pattern, and then: it returns nothing ([undefined]) when
    [reHostname] does not match the pattern, and [false] when the punycoder
    throws, the parser being changed by the cached pattern only; when the
    punycoder gives a hostname, the pattern is the matched text [m] followed
    by a rest, and the method returns [true] with the parser that [analyze]
    leaves on the line made of what comes before the pattern, the punycoded
    hostname, that rest, and what comes after the pattern: this line is the
    text the parser holds afterwards. *)
Theorem toPunycode_result (p : Parser) :
  (patternHasUnicode p = false \/ Span.l (patternSpan p) = 0 ->
   toPunycode p = (JSBool true, p))
  /\ (patternHasUnicode p = true -> Span.l (patternSpan p) <> 0 ->
      let pat := fst (getNetPattern p) in
      let q := set_pattern pat p in
      match reHostname_exec pat with
      | None => toPunycode p = (JSUndefined, q)
      | Some m =>
          match punycoder p (hideAsterisks m) with
          | None => toPunycode p = (JSBool false, q)
          | Some hostname =>
              let rest := skipn (length m) pat in
              let line :=
                js_slice (raw p) 0 (slotOrigin p (Span.i (patternSpan p)))
                ++ (restoreAsterisks 0 hostname ++ rest)
                ++ js_slice (raw p)
                     (slotOrigin p (Span.i (patternSpan p) + Span.l (patternSpan p)))
                     (Z.of_nat (length (raw p))) in
              pat = m ++ rest
              /\ toPunycode p = (JSBool true, analyze line q)
              /\ raw (snd (toPunycode p)) = line
          end
      end).
Proof.
  unfold toPunycode. split.
  - intros [H|H].
    + now rewrite H.
    + destruct (negb (patternHasUnicode p)); [reflexivity|]. now rewrite H.
  - intros U L. cbv zeta. rewrite U. cbn [negb].
    destruct (Z.eqb_spec (Span.l (patternSpan p)) 0) as [E|_]; [contradiction|].
    pose proof (getNetPattern_cache p) as G.
    destruct (getNetPattern p) as [s q]. cbn [fst snd] in *. subst q. psimpl.
    destruct (reHostname_exec s) as [m|] eqn:M; [|reflexivity].
    destruct (punycoder p (hideAsterisks m)) as [hostname|]; [|reflexivity].
    pose proof (reHostname_exec_prefix s m M) as P.
    assert (Len : (length m <= length s)%nat)
      by (apply (f_equal (@length Z)) in P; rewrite length_app in P; lia).
    rewrite (js_slice_from s (length m) Len). unfold slotOrigin.
    split; [exact P|]. split; [reflexivity|]. cbn [snd]. apply raw_analyze.
Qed.

Lemma toPunycode_result_witness :
  let p := analyze [233; 46; 98]
             (newParser false (fun _ => Some (codes "xn--9ca.b")) (fun _ _ => true)) in
  toPunycode p = (JSBool true, analyze (codes "xn--9ca.b") (set_pattern [233; 46; 98] p))
  /\ raw (snd (toPunycode p)) = codes "xn--9ca.b".
Proof.
  intros p.
  pose proof (proj2 (toPunycode_result p) ltac:(vm_compute; reflexivity)
                ltac:(vm_compute; discriminate)) as W.
  cbv zeta in W.
  assert (E0 : fst (getNetPattern p) = [233; 46; 98]) by (vm_compute; reflexivity).
  rewrite E0 in W.
  assert (E1 : reHostname_exec [233; 46; 98] = Some [233; 46; 98]) by (vm_compute; reflexivity).
  rewrite E1 in W.
  assert (E2 : punycoder p (hideAsterisks [233; 46; 98]) = Some (codes "xn--9ca.b"))
    by (vm_compute; reflexivity).
  rewrite E2 in W.
  assert (E3 : js_slice (raw p) 0 (slotOrigin p (Span.i (patternSpan p)))
               ++ (restoreAsterisks 0 (codes "xn--9ca.b") ++ skipn (length [233; 46; 98]) [233; 46; 98])
               ++ js_slice (raw p)
                    (slotOrigin p (Span.i (patternSpan p) + Span.l (patternSpan p)))
                    (Z.of_nat (length (raw p)))
               = codes "xn--9ca.b") by (vm_compute; reflexivity).
  rewrite E3 in W. exact (proj2 W).
Defined.

(** * What [analyze] guarantees *)

(** X1. What can be observed after [analyze(raw)] depends on the line and on
    what the constructor and [setMaxTokenLength] have set, not on the lines
    the parser has analysed before: the slices left above the write pointer
    by a longer line are never read. *)
Theorem analyze_forgets_earlier_lines (raw_ : list Z) (p0 p1 : Parser) :
  sameHost p0 p1 -> observable (analyze raw_ p1) = observable (analyze raw_ p0).
Proof.
  intros H. destruct (analyze_spec raw_ p0 p1 H) as (R & A).
  now apply related_observable.
Qed.

Lemma analyze_forgets_earlier_lines_witness :
  observable (analyze (codes "a*") (analyze (codes "@@||b.c^$image") freshParser))
  = observable (analyze (codes "a*") freshParser).
Proof.
  exact (analyze_forgets_earlier_lines (codes "a*") freshParser
           (analyze (codes "@@||b.c^$image") freshParser)
           (sameHost_analyze (codes "@@||b.c^$image") freshParser)).
Defined.

(** X2. [analyze] is idempotent: analysing the same line a second time on
    the same parser leaves the category, the bits, the spans, the slices
    below the write pointer and the extracted pattern as they were. *)
Theorem analyze_idempotent (raw_ : list Z) (p : Parser) :
  observable (analyze raw_ (analyze raw_ p)) = observable (analyze raw_ p).
Proof.
  destruct (analyze_spec raw_ p (analyze raw_ p) (sameHost_analyze raw_ p)) as (R & A).
  now apply related_observable.
Qed.




(** X5. For a line analysed as an extended filter the lengths of the ten
    spans add up to exactly the number of cells of the slices before the
    end-of-line slice, and the pattern ends where the right space starts. *)
Theorem extended_filter_spans (raw_ : list Z) (p : Parser) :
  category (analyze raw_ p) = CATStaticExtFilter ->
  spanLengths (analyze raw_ p) = nonSentinelCells (analyze raw_ p)
  /\ 0 <= Span.l (patternSpan (analyze raw_ p))
  /\ Span.i (patternSpan (analyze raw_ p)) + Span.l (patternSpan (analyze raw_ p))
     = Span.i (rightSpaceSpan (analyze raw_ p)).
Proof.
  intros C. destruct (analyze_spec raw_ p p (sameHost_refl p)) as (_ & A).
  destruct (analyzed_ext _ A C) as (_ & _ & _ & P1 & P2 & P3). tauto.
Qed.

Lemma extended_filter_spans_witness :
  spanLengths (analyze (codes " a.b,c.d#@#.e ") freshParser)
  = nonSentinelCells (analyze (codes " a.b,c.d#@#.e ") freshParser).
Proof.
  apply (extended_filter_spans (codes " a.b,c.d#@#.e ") freshParser).
  vm_compute. reflexivity.
Defined.

(** X6. The regex flavor of a network filter is decided on the pattern as
    it stands when the options have been split off, before the anchors, the
    spaces and the wildcards are dealt with: [BITFlavorNetRegex] is set iff
    that pattern starts with a slice of [/] and is one slice longer than 2
    or ends with a slice of [/].  When all that lies between the exception
    declarator and the comment has this shape, no options are looked for
    and the options span stays empty. *)
Theorem regex_flavor_decided_after_options (raw_ : list Z) (p0 p : Parser) :
  analyze_head raw_ p0 = ToAnalyzeNet p ->
  hasBits (flavorBits (analyze raw_ p0)) BITFlavorNetRegex = regexShaped (afterOptions p)
  /\ (regexShaped (beforeOptions p) = true ->
      Span.l (optionsSpan (analyze raw_ p0)) = 0).
Proof.
  intros E. pose proof (analyze_head_spec raw_ p0 p0 (sameHost_refl p0)) as X.
  unfold analyze. rewrite E in *. cbn [headResult] in X. destruct X as (R & N).
  destruct (analyzeNet_spec p p N R) as (_ & _ & F & O). split; assumption.
Qed.

Lemma regex_flavor_decided_after_options_witness :
  hasBits (flavorBits (analyze (codes "/ad/$image") freshParser)) BITFlavorNetRegex
  = regexShaped (afterOptions (flowState (analyze_head (codes "/ad/$image") freshParser))).
Proof.
  apply (regex_flavor_decided_after_options (codes "/ad/$image") freshParser).
  vm_compute. reflexivity.
Defined.

(** * Further properties *)

(** ** The slices are maximal runs *)

Lemma slice_loop_differ :
  forall rest a ptr allBits_ aBits i j,
    ptr mod 3 = 2 -> 2 <= ptr -> aget a (ptr - 2) = aBits ->
    (forall k, 0 <= k -> k mod 3 = 0 -> k + 3 <= ptr - 2 -> aget a k <> aget a (k + 3)) ->
    forall a' ptr' allBits' i' j',
      slice_loop rest a ptr allBits_ aBits i j = (a', ptr', allBits', i', j') ->
      ptr' mod 3 = 2 /\ 2 <= ptr'
      /\ forall k, 0 <= k -> k mod 3 = 0 -> k + 3 <= ptr' - 2 -> aget a' k <> aget a' (k + 3).
Proof.
  induction rest as [|c rest IH]; intros a ptr allBits_ aBits i j M P A D a' ptr' allBits' i' j' E.
  - cbn [slice_loop] in E. injection E as <- <- <- <- <-. now split_all.
  - cbn [slice_loop] in E.
    destruct (Z.eqb_spec (charBits c) aBits) as [Q|Q]; cbn [negb] in E.
    + eapply IH; [exact M|exact P|exact A|exact D|exact E].
    + eapply IH; [| | | |exact E].
      * clear - M. Z.div_mod_to_equations. lia.
      * lia.
      * replace (ptr + 3 - 2) with (ptr + 1) by lia.
        rewrite aget_aset_neq by lia. now rewrite aget_aset_eq by lia.
      * intros k K0 K1 K2.
        destruct (Z.eq_dec k (ptr - 2)) as [K|K].
        -- replace (k + 3) with (ptr + 1) by lia.
           rewrite (aget_aset_neq _ (ptr + 2) (ptr + 1)) by lia.
           rewrite aget_aset_eq by lia. rewrite !aget_aset_neq by lia.
           subst k. rewrite A. intros X. apply Q. now symmetry.
        -- assert (k + 3 <= ptr - 2) by (clear - K K0 K1 K2 M; Z.div_mod_to_equations; lia).
           rewrite !aget_aset_neq by lia. apply D; assumption.
Qed.

(** The array and the write pointer that [slice] leaves, from the result
    of its loop. *)
Lemma slice_cells (c : Z) (rest : list Z) (p : Parser) :
  exists a ptr allBits_ i j,
    slice_loop rest (aset (aset (slices p) 0 (charBits c)) 1 0) 2 (charBits c) (charBits c) 0 1
    = (a, ptr, allBits_, i, j)
    /\ sliceWritePtr (slice (c :: rest) p) = ptr + 4
    /\ forall x, x < ptr -> aget (slices (slice (c :: rest) p)) x = aget a x.
Proof.
  unfold slice. cbv beta iota zeta.
  cbn [reset set_raw slices sliceWritePtr Z.add].
  destruct (slice_loop rest (aset (aset (slices p) 0 (charBits c)) 1 0)
              2 (charBits c) (charBits c) 0 1)
    as [[[[a ptr] allBits_] i] j] eqn:E.
  exists a, ptr, allBits_, i, j. split; [reflexivity|].
  psimpl. split; [lia|]. intros x Hx. now rewrite !aget_aset_neq by lia.
Qed.

Lemma slice_runsDiffer (raw_ : list Z) (p : Parser) : runsDiffer (slice raw_ p).
Proof.
  destruct raw_ as [|c rest].
  { intros k K0 K1 K2. cbn in K2. lia. }
  destruct (slice_cells c rest p) as (a & ptr & ab & i & j & E & W & G).
  assert (L0 : aget (aset (aset (slices p) 0 (charBits c)) 1 0) (2 - 2) = charBits c).
  { cbn [Z.sub Z.add Z.opp Z.pos_sub]. rewrite aget_aset_neq by lia. now rewrite aget_aset_eq by lia. }
  destruct (slice_loop_differ rest _ 2 _ _ 0 1 eq_refl ltac:(lia) L0
              ltac:(intros; lia) _ _ _ _ _ E) as (M & P & D).
  intros k K0 K1 K2. unfold slotBits. rewrite W in K2.
  assert (K3 : k + 3 <= ptr - 2) by (clear - K1 K2 M; Z.div_mod_to_equations; lia).
  rewrite !G by lia. now apply D.
Qed.


(** ** Blank lines and comments *)

Lemma split_first_nonspace (s : list Z) :
  forallb isSpaceChar s = false ->
  exists pre c rest, s = pre ++ c :: rest
    /\ forallb isSpaceChar pre = true /\ isSpaceChar c = false.
Proof.
  induction s as [|x s IH]; [discriminate|]. cbn [forallb]. intros H.
  destruct (isSpaceChar x) eqn:X.
  - cbn [andb] in H. destruct (IH H) as (pre & c & rest & -> & P & C).
    exists (x :: pre), c, rest. cbn [forallb app]. rewrite X, P. now split_all.
  - exists [], x, s. now split_all.
Qed.

Lemma lineComment_not_space (c : Z) :
  hasBits (charBits c) BITLineComment = true -> isSpaceChar c = false.
Proof.
  intros H. rewrite isSpaceChar_class.
  assert (T : implb (hasBits (charBits c) BITLineComment) (negb (charBits c =? BITSpace)) = true).
  { apply (class_forall (fun b => implb (hasBits b BITLineComment) (negb (b =? BITSpace)))).
    vm_compute. reflexivity. }
  rewrite H in T. cbn [implb] in T. now apply negb_true_iff in T.
Qed.

Lemma not_space_bits (c : Z) : isSpaceChar c = false -> hasBits (charBits c) BITSpace = false.
Proof.
  intros H. destruct (hasBits (charBits c) BITSpace) eqn:E; [|reflexivity].
  apply hasBits_space_class in E. rewrite isSpaceChar_class, E, Z.eqb_refl in H. discriminate H.
Qed.

(** The first slice after the leading whitespace is the one of the first
    character that is not whitespace, and it is not the right space. *)
Lemma leading_spaces (pre rest : list Z) (c : Z) (p : Parser) :
  forallb isSpaceChar pre = true -> isSpaceChar c = false ->
  let s := slice (pre ++ c :: rest) p in
  slotBits s (Span.l (leftSpaceSpan s)) = charBits c
  /\ Span.l (leftSpaceSpan s) <> Span.i (rightSpaceSpan s).
Proof.
  intros P C s.
  pose proof (slice_runsDiffer (pre ++ c :: rest) p) as D. fold s in D.
  pose proof (not_space_bits c C) as CB.
  assert (S : slicedState (pre ++ c :: rest) s).
  { unfold s. destruct pre; apply slice_nonempty. }
  clearbody s. unfold slicedState in S. cbv zeta in S.
  destruct S as (S1 & S2 & S3 & S4 & S5 & S6 & S7 & S8 & S9 & S10 & S11 & _).
  unfold slotBits. rewrite S10, S11. psimpl.
  assert (LEN : Z.of_nat (length (pre ++ c :: rest)) = Z.of_nat (length pre) + 1 + Z.of_nat (length rest)).
  { rewrite length_app. cbn [length]. lia. }
  assert (NC : nth (Z.to_nat (Z.of_nat (length pre))) (pre ++ c :: rest) 0 = c).
  { rewrite Nat2Z.id. apply nth_middle. }
  assert (NP : forall x, 0 <= x < Z.of_nat (length pre) ->
                 charBits (nth (Z.to_nat x) (pre ++ c :: rest) 0) = BITSpace).
  { intros x Hx. rewrite app_nth1 by lia. rewrite forallb_forall in P.
    apply Z.eqb_eq. rewrite <- isSpaceChar_class. apply P, nth_In. lia. }
  assert (K0 : slotOK (pre ++ c :: rest) (slices s) 0).
  { apply S8; try reflexivity; lia. }
  destruct K0 as (A1 & A2 & A3 & A4). cbn [Z.add] in A1, A2, A3, A4. rewrite S7 in *.
  destruct pre as [|x pre].
  - (* no leading whitespace *)
    assert (B0 : aget (slices s) 0 = charBits c).
    { rewrite <- (A4 0) by lia. reflexivity. }
    rewrite B0, CB. split; [exact B0|].
    destruct ((sliceWritePtr s - 6 >? 0) && _) eqn:R; psimpl; [|lia].
    apply andb_prop in R. destruct R as (R & _). lia.
  - assert (B0 : aget (slices s) 0 = BITSpace).
    { rewrite <- (A4 0) by lia. apply NP. cbn [length]. lia. }
    rewrite B0. change (hasBits BITSpace BITSpace) with true. cbv iota.
    assert (O3 : aget (slices s) 4 <= Z.of_nat (length (x :: pre))).
    { destruct (Z.le_gt_cases (aget (slices s) 4) (Z.of_nat (length (x :: pre)))) as [L|G];
        [exact L|].
      specialize (A4 (Z.of_nat (length (x :: pre))) ltac:(lia)).
      rewrite NC, B0 in A4. rewrite isSpaceChar_class, A4, Z.eqb_refl in C. discriminate C. }
    assert (W9 : 9 <= sliceWritePtr s).
    { destruct (Z.eq_dec (sliceWritePtr s) 6) as [W6|W6].
      - rewrite W6 in S5. change (6 - 2) with 4 in S5. lia.
      - clear - W6 S2 S3. Z.div_mod_to_equations. lia. }
    assert (K3 : slotOK ((x :: pre) ++ c :: rest) (slices s) 3).
    { apply S8; try reflexivity; lia. }
    destruct K3 as (E1 & E2 & E3 & E4).
    change (3 + 1) with 4 in *. change (3 + 2) with 5 in *. change (3 + 4) with 7 in *.
    assert (O3' : aget (slices s) 4 = Z.of_nat (length (x :: pre))).
    { destruct (Z.eq_dec (aget (slices s) 4) (Z.of_nat (length (x :: pre)))) as [Q|Q];
        [exact Q|exfalso].
      specialize (E4 (aget (slices s) 4) ltac:(lia)).
      rewrite (NP (aget (slices s) 4)) in E4 by lia.
      apply (D 0); try reflexivity; try lia. unfold slotBits. cbn [Z.add]. congruence. }
    assert (B3 : aget (slices s) 3 = charBits c).
    { rewrite <- (E4 (Z.of_nat (length (x :: pre)))) by lia. now rewrite NC. }
    split; [exact B3|].
    destruct ((sliceWritePtr s - 6 >? 0) && _) eqn:R; psimpl; [|lia].
    apply andb_prop in R. destruct R as (_ & R). intros Q. rewrite <- Q, B3, CB in R.
    discriminate R.
Qed.

Lemma category_analyzeNet (p : Parser) : category (analyzeNet p) = CATStaticNetFilter.
Proof.
  unfold analyzeNet. destruct (analyzeNet_exception p) as (islice & q).
  destruct (analyzeNet_options islice q) as (b & q1). reflexivity.
Qed.

(** What [analyze] does with a line that is not blank, by the bits of its
    first slice after the leading whitespace. *)
Lemma analyze_not_blank (raw_ : list Z) (p : Parser) :
  let s := slice raw_ p in
  Span.l (leftSpaceSpan s) <> Span.i (rightSpaceSpan s) ->
  (hasBits (slotBits s (Span.l (leftSpaceSpan s))) BITLineComment = true
   /\ ((hasBits (slotBits s (Span.l (leftSpaceSpan s))) BITHash = true
        /\ category (analyze raw_ p) = CATStaticExtFilter)
       \/ analyze raw_ p = set_category CATComment s))
  \/ (hasBits (slotBits s (Span.l (leftSpaceSpan s))) BITLineComment = false
      /\ (category (analyze raw_ p) = CATStaticExtFilter
          \/ category (analyze raw_ p) = CATStaticNetFilter)).
Proof.
  intros s N. unfold analyze, analyze_head. cbv zeta. fold s. unfold slotBits.
  apply Z.eqb_neq in N. rewrite N.
  assert (C : category s = CATNone) by apply (slice_resets raw_ p).
  destruct (hasBits (aget (slices s) (Span.l (leftSpaceSpan s))) BITLineComment).
  - left. split; [reflexivity|].
    destruct (hasBits (aget (slices s) (Span.l (leftSpaceSpan s))) BITHash).
    + destruct (analyzeExt_cases (Span.l (leftSpaceSpan s)) s) as [E|E]; rewrite E.
      * rewrite C. right. reflexivity.
      * left. split; [reflexivity|]. change (CATStaticExtFilter =? CATStaticExtFilter) with true.
        exact E.
    + rewrite C. right. reflexivity.
  - right. split; [reflexivity|].
    set (q := set_commentSpan _ s).
    destruct (hasBits (allBits q) BITHash); [|right; apply category_analyzeNet].
    destruct (negb _); [|right; apply category_analyzeNet].
    destruct (category (analyzeExt _ q) =? CATStaticExtFilter) eqn:E.
    + left. now apply Z.eqb_eq in E.
    + right. destruct (negb _); apply category_analyzeNet.
Qed.

(** X8. [analyze] leaves the category at [CATNone] exactly for the lines
    made of whitespace only (tab, line feed, carriage return, space), the
    empty line among them; the category of every other line is that of a
    comment, of an extended filter or of a network filter. *)
Theorem no_category_iff_whitespace (raw_ : list Z) (p : Parser) :
  (category (analyze raw_ p) = CATNone <-> forallb isSpaceChar raw_ = true)
  /\ (category (analyze raw_ p) = CATNone
      \/ category (analyze raw_ p) = CATComment
      \/ category (analyze raw_ p) = CATStaticExtFilter
      \/ category (analyze raw_ p) = CATStaticNetFilter).
Proof.
  assert (Other : forallb isSpaceChar raw_ = false ->
                  category (analyze raw_ p) = CATComment
                  \/ category (analyze raw_ p) = CATStaticExtFilter
                  \/ category (analyze raw_ p) = CATStaticNetFilter).
  { intros F. destruct (split_first_nonspace raw_ F) as (pre & c & rest & -> & P & C).
    destruct (leading_spaces pre rest c p P C) as (_ & N).
    destruct (analyze_not_blank _ p N) as [(_ & [(_ & E)|E])|(_ & [E|E])].
    - right. now left.
    - left. rewrite E. reflexivity.
    - right. now left.
    - right. now right. }
  assert (Iff : category (analyze raw_ p) = CATNone <-> forallb isSpaceChar raw_ = true);
    [|split; [exact Iff|];
      destruct (forallb isSpaceChar raw_) eqn:F;
      [left; now apply Iff|right; now apply Other]].
  split.
  - intros H. destruct (forallb isSpaceChar raw_) eqn:F; [reflexivity|exfalso].
    destruct (split_first_nonspace raw_ F) as (pre & c & rest & -> & P & C).
    destruct (leading_spaces pre rest c p P C) as (_ & N).
    destruct (analyze_not_blank _ p N) as [(_ & [(_ & E)|E])|(_ & [E|E])];
      rewrite E in H; discriminate H.
  - intros F. destruct raw_ as [|c rest]; [reflexivity|].
    pose proof (slice_runsDiffer (c :: rest) p) as D.
    pose proof (sliced_facts c rest p) as SF. cbv zeta in SF.
    destruct SF as (_ & _ & _ & _ & Cat & _ & _ & _ & _ & _ & _ & _ & Cls & _).
    pose proof (slice_nonempty c rest p) as S.
    unfold analyze, analyze_head. cbv zeta.
    set (s := slice (c :: rest) p) in *. clearbody s.
    unfold slicedState in S. cbv zeta in S.
    destruct S as (S1 & S2 & S3 & S4 & S5 & S6 & S7 & S8 & S9 & S10 & S11 & _).
    assert (SP : forall k, 0 <= k -> k mod 3 = 0 -> k + 3 <= sliceWritePtr s - 3 ->
                   slotBits s k = BITSpace).
    { intros k K0 K1 K2. destruct (Cls k K0 K1 K2) as (x & -> & I).
      rewrite forallb_forall in F. apply Z.eqb_eq. rewrite <- isSpaceChar_class. now apply F. }
    assert (W6 : sliceWritePtr s = 6).
    { destruct (Z.eq_dec (sliceWritePtr s) 6) as [W|W]; [exact W|exfalso].
      assert (9 <= sliceWritePtr s) by (clear - W S2 S3; Z.div_mod_to_equations; lia).
      apply (D 0); try reflexivity; try lia.
      rewrite (SP 0), (SP (0 + 3)); try reflexivity; lia. }
    pose proof (SP 0 ltac:(lia) eq_refl ltac:(lia)) as B0. unfold slotBits in B0.
    rewrite S10, S11, B0, W6. cbn. exact Cat.
Qed.

(** X9. A line whose first character after the leading whitespace is [!],
    [[] or []] is a comment, and one that starts with [#] is an extended
    filter or a comment, never a network filter.  For a comment, [analyze]
    leaves the parser as [slice] left it, with the category set: a failed
    attempt at an extended filter leaves no trace. *)
Theorem comment_lines (pre rest : list Z) (c : Z) (p : Parser) :
  forallb isSpaceChar pre = true -> In c [33; 35; 91; 93] ->
  (c = 35 /\ category (analyze (pre ++ c :: rest) p) = CATStaticExtFilter)
  \/ analyze (pre ++ c :: rest) p = set_category CATComment (slice (pre ++ c :: rest) p).
Proof.
  intros P I.
  assert (LC : hasBits (charBits c) BITLineComment = true).
  { cbn [In] in I. destruct I as [<-|[<-|[<-|[<-|[]]]]]; reflexivity. }
  destruct (leading_spaces pre rest c p P (lineComment_not_space c LC)) as (B & N).
  destruct (analyze_not_blank _ p N) as [(_ & [(H & E)|E])|(F & _)].
  - left. split; [|exact E]. rewrite B in H.
    cbn [In] in I. destruct I as [<-|[<-|[<-|[<-|[]]]]]; (reflexivity || discriminate H).
  - now right.
  - rewrite B, LC in F. discriminate F.
Qed.

Lemma comment_lines_witness :
  (33 = 35 /\ category (analyze (codes " ! ad") freshParser) = CATStaticExtFilter)
  \/ analyze (codes " ! ad") freshParser
     = set_category CATComment (slice (codes " ! ad") freshParser).
Proof.
  apply (comment_lines [32] (codes " ad") 33 freshParser).
  - reflexivity.
  - cbn [In]. left. reflexivity.
Defined.

(** ** The text of the spans *)

Lemma firstn_plus {A : Type} (n m : nat) (s : list A) :
  firstn n s ++ firstn m (skipn n s) = firstn (n + m) s.
Proof.
  revert s. induction n as [|n IH]; intros s; [reflexivity|].
  destruct s as [|x s]; [now rewrite !firstn_nil|].
  cbn [Nat.add firstn skipn app]. now rewrite IH.
Qed.

Lemma js_slice_range (s : list Z) (a b : Z) :
  0 <= a -> a <= b -> b <= Z.of_nat (length s) ->
  js_slice s a b = firstn (Z.to_nat (b - a)) (skipn (Z.to_nat a) s).
Proof.
  intros A B C. unfold js_slice. cbv zeta.
  destruct (Z.ltb_spec a 0); [lia|]. destruct (Z.ltb_spec b 0); [lia|].
  now rewrite !Z.min_l by lia.
Qed.

Lemma js_slice_app (s : list Z) (a b c : Z) :
  0 <= a -> a <= b -> b <= c -> c <= Z.of_nat (length s) ->
  js_slice s a b ++ js_slice s b c = js_slice s a c.
Proof.
  intros A B C D. rewrite !js_slice_range by lia.
  replace (skipn (Z.to_nat b) s)
    with (skipn (Z.to_nat (b - a)) (skipn (Z.to_nat a) s)).
  - rewrite firstn_plus. f_equal. lia.
  - rewrite skipn_skipn. f_equal. lia.
Qed.

Lemma js_slice_all (s : list Z) : js_slice s 0 (Z.of_nat (length s)) = s.
Proof.
  rewrite js_slice_range by lia. cbn [Z.to_nat skipn].
  rewrite Z.sub_0_r, Nat2Z.id. apply firstn_all.
Qed.

(** The origins of the slices go up with the slots. *)
Lemma origin_mono (p : Parser) :
  slicesOK p ->
  forall (n : nat) k, 0 <= k -> k mod 3 = 0 -> k + 3 * Z.of_nat n <= sliceWritePtr p - 3 ->
    0 <= slotOrigin p k /\ slotOrigin p k <= slotOrigin p (k + 3 * Z.of_nat n).
Proof.
  intros (M & W & O0 & OW & LW & S).
  assert (P : forall k, 0 <= k -> k mod 3 = 0 -> k <= sliceWritePtr p - 3 -> 0 <= slotOrigin p k).
  { intros k K0 K1 K2. destruct (Z.eq_dec k (sliceWritePtr p - 3)) as [->|N].
    - rewrite OW. lia.
    - assert (k + 3 <= sliceWritePtr p - 3) by (clear - N K1 K2 M; Z.div_mod_to_equations; lia).
      apply (S k); assumption. }
  induction n as [|n IH]; intros k K0 K1 K2.
  - replace (k + 3 * Z.of_nat 0) with k by lia. split; [apply P; (assumption || lia)|lia].
  - destruct (IH k K0 K1 ltac:(lia)) as (I1 & I2). split; [exact I1|].
    assert (K3 : (k + 3 * Z.of_nat n) mod 3 = 0)
      by (clear - K1; Z.div_mod_to_equations; lia).
    destruct (S (k + 3 * Z.of_nat n) ltac:(lia) K3 ltac:(lia)) as (S1 & S2 & S3 & _).
    replace (k + 3 * Z.of_nat (Datatypes.S n)) with (k + 3 * Z.of_nat n + 3) by lia.
    lia.
Qed.

Lemma origin_le (p : Parser) (j k : Z) :
  slicesOK p -> 0 <= j -> j mod 3 = 0 -> k mod 3 = 0 -> j <= k -> k <= sliceWritePtr p - 3 ->
  0 <= slotOrigin p j /\ slotOrigin p j <= slotOrigin p k
  /\ slotOrigin p k <= Z.of_nat (length (raw p)).
Proof.
  intros OK J0 J1 K1 JK KW.
  pose proof OK as (M & W & O0 & OW & _).
  assert (E1 : k = j + 3 * Z.of_nat (Z.to_nat ((k - j) / 3)))
    by (clear - J1 K1 JK; Z.div_mod_to_equations; lia).
  assert (E2 : sliceWritePtr p - 3 = k + 3 * Z.of_nat (Z.to_nat ((sliceWritePtr p - 3 - k) / 3)))
    by (clear - K1 M KW; Z.div_mod_to_equations; lia).
  destruct (origin_mono p OK (Z.to_nat ((k - j) / 3)) j J0 J1 ltac:(lia)) as (A1 & A2).
  destruct (origin_mono p OK (Z.to_nat ((sliceWritePtr p - 3 - k) / 3)) k ltac:(lia) K1 ltac:(lia))
    as (B1 & B2).
  rewrite <- E1 in A2. rewrite <- E2, OW in B2. now split_all.
Qed.

(** The text of a span that lies on slice boundaries goes from the origin
    of its first slice to the origin of the slice after its last. *)
Lemma strFromSpan_text (p : Parser) (s : Span.t) :
  slicesOK p -> 0 <= Span.i s -> Span.i s mod 3 = 0 -> 0 <= Span.l s ->
  (Span.i s + Span.l s) mod 3 = 0 -> Span.i s + Span.l s <= sliceWritePtr p - 3 ->
  strFromSpan s p
  = js_slice (raw p) (slotOrigin p (Span.i s)) (slotOrigin p (Span.i s + Span.l s)).
Proof.
  intros OK I0 I1 L0 L1 W.
  destruct (origin_le p (Span.i s) (Span.i s + Span.l s) OK I0 I1 L1 ltac:(lia) W)
    as (A & B & C).
  unfold strFromSpan. destruct (Z.eqb_spec (Span.l s) 0) as [E|E].
  - rewrite E, Z.add_0_r. rewrite js_slice_range by lia.
    now rewrite Z.sub_diag.
  - unfold strFromSlices.
    assert (K : (Span.i s + Span.l s - 3) mod 3 = 0)
      by (clear - L1; Z.div_mod_to_equations; lia).
    assert (G : 3 <= Span.l s) by (clear - I1 L1 L0 E; Z.div_mod_to_equations; lia).
    destruct OK as (_ & _ & _ & _ & _ & S).
    destruct (S (Span.i s + Span.l s - 3) ltac:(lia) K ltac:(lia)) as (_ & _ & S3 & _).
    unfold slotOrigin, slotLength in *.
    replace (Span.i s + Span.l s - 3 + 3) with (Span.i s + Span.l s) in S3 by lia.
    now rewrite S3.
Qed.

(** ** The spans of an extended filter *)

Lemma setExtSpans_order (from to fb : Z) (p : Parser) :
  Span.i (leftSpaceSpan p) + Span.l (leftSpaceSpan p) <= from -> from < to ->
  from mod 3 = 0 -> to mod 3 = 0 ->
  extOrder (analyzeExtPattern
              (set_category CATStaticExtFilter (set_flavorBits fb (setExtSpans from to p)))).
Proof.
  intros A B C D.
  destruct (analyzeExtPattern_flavor
              (set_category CATStaticExtFilter (set_flavorBits fb (setExtSpans from to p))))
    as [f ->].
  unfold extOrder, setExtSpans. cbv zeta. psimpl. split_all; (assumption || lia).
Qed.

Lemma leftSpace_splitSlot (slot l : Z) (p : Parser) :
  Span.i (leftSpaceSpan p) = 0 -> 0 <= slot ->
  leftSpaceSpan (splitSlot slot l p) = leftSpaceSpan p.
Proof.
  intros A B. unfold splitSlot. cbv zeta. psimpl. unfold shiftSpan.
  destruct (Z.gtb_spec (Span.i (leftSpaceSpan p)) slot); [lia|reflexivity].
Qed.

Lemma analyzeExt_close_order (from to fb : Z) (p : Parser) :
  Span.i (leftSpaceSpan p) = 0 -> Span.l (leftSpaceSpan p) <= from ->
  0 <= from -> from < to -> from mod 3 = 0 -> to mod 3 = 0 ->
  analyzeExt_close from to fb p = p \/ extOrder (analyzeExt_close from to fb p).
Proof.
  intros A B C D E F. unfold analyzeExt_close.
  destruct (hasNoBits _ _); [now left|right]. cbv zeta.
  apply setExtSpans_order; try assumption; try lia.
  - destruct (_ >? 1); [rewrite leftSpace_splitSlot by lia|]; lia.
  - now apply slot_next.
Qed.

Lemma analyzeExt_flavor_order (from to fb : Z) (p : Parser) :
  Span.i (leftSpaceSpan p) = 0 -> Span.l (leftSpaceSpan p) <= from ->
  0 <= from -> from < to -> from mod 3 = 0 -> to mod 3 = 0 ->
  analyzeExt_flavor from to fb p = p \/ extOrder (analyzeExt_flavor from to fb p).
Proof.
  intros A B C D E F. unfold analyzeExt_flavor. cbv zeta.
  pose proof (slot_next _ F) as F1. pose proof (slot_next _ F1) as F2.
  repeat match goal with
         | |- (if ?b then _ else _) = _ \/ _ => destruct b
         end; try (now left); apply analyzeExt_close_order; (assumption || lia).
Qed.

Lemma analyzeExt_order (from : Z) (p : Parser) :
  Span.i (leftSpaceSpan p) = 0 -> Span.l (leftSpaceSpan p) <= from ->
  0 <= from -> from mod 3 = 0 ->
  analyzeExt from p = p \/ extOrder (analyzeExt from p).
Proof.
  intros A B C E. unfold analyzeExt. cbv zeta.
  pose proof (slot_next _ E) as E1. pose proof (slot_next _ E1) as E2.
  repeat match goal with
         | |- (if ?b then _ else _) = _ \/ _ => destruct b
         end; try (now left); try (apply analyzeExt_flavor_order; (assumption || lia));
    right; apply setExtSpans_order; try assumption; try lia;
    destruct (_ =? 2); rewrite ?leftSpace_splitSlot by lia; lia.
Qed.

Lemma analyze_ext_order (raw_ : list Z) (p : Parser) :
  category (analyze raw_ p) = CATStaticExtFilter -> extOrder (analyze raw_ p).
Proof.
  destruct raw_ as [|c rest]; [discriminate|].
  pose proof (sliced_facts c rest p) as F. cbv zeta in F.
  unfold analyze, analyze_head. cbv zeta.
  set (s := slice (c :: rest) p) in *. clearbody s.
  destruct F as (OK & SL & _ & _ & Cat & _).
  pose proof SL as (L1 & L2 & _).
  assert (L3 : Span.l (leftSpaceSpan s) mod 3 = 0) by (destruct L2 as [-> | ->]; reflexivity).
  destruct (_ =? Span.i (rightSpaceSpan s)); [rewrite Cat; discriminate|].
  destruct (hasBits _ BITLineComment).
  - destruct (hasBits _ BITHash).
    + destruct (analyzeExt_order (Span.l (leftSpaceSpan s)) s L1 ltac:(lia) ltac:(lia) L3)
        as [E|E].
      * rewrite E, Cat. discriminate.
      * destruct (_ =? CATStaticExtFilter); [intros _; exact E|discriminate].
    + rewrite Cat. discriminate.
  - set (q := set_commentSpan _ s).
    destruct (hasBits (allBits q) BITHash); [|rewrite category_analyzeNet; discriminate].
    destruct (findFirstMatch_spec (Span.l (leftSpaceSpan s)) BITHash q) as [N|(N1 & N2 & _)];
      cbv zeta in *.
    { rewrite N. change (negb (-1 =? -1)) with false. cbv iota.
      rewrite category_analyzeNet. discriminate. }
    destruct (negb _); [|rewrite category_analyzeNet; discriminate].
    assert (H3 : findFirstMatch (Span.l (leftSpaceSpan s)) BITHash q mod 3 = 0)
      by (clear - N2 L3; Z.div_mod_to_equations; lia).
    assert (H0 : 0 <= findFirstMatch (Span.l (leftSpaceSpan s)) BITHash q) by lia.
    destruct (analyzeExt_order (findFirstMatch (Span.l (leftSpaceSpan s)) BITHash q) q
                L1 (proj1 N1) H0 H3) as [E|E].
    + rewrite E. change (category q) with (category s). rewrite Cat.
      change (CATNone =? CATStaticExtFilter) with false. cbv iota.
      destruct (negb _); rewrite category_analyzeNet; discriminate.
    + destruct (_ =? CATStaticExtFilter); [intros _; exact E|].
      destruct (negb _); rewrite category_analyzeNet; discriminate.
Qed.

(** X10. The spans of an extended filter cut the line into its parts: the
    texts of the left space, the options, the options anchor, the pattern
    and the right space, one after the other, give the line back. *)
Theorem extended_filter_text (raw_ : list Z) (p : Parser) :
  category (analyze raw_ p) = CATStaticExtFilter ->
  strFromSpan (leftSpaceSpan (analyze raw_ p)) (analyze raw_ p)
  ++ strFromSpan (optionsSpan (analyze raw_ p)) (analyze raw_ p)
  ++ strFromSpan (optionsAnchorSpan (analyze raw_ p)) (analyze raw_ p)
  ++ strFromSpan (patternSpan (analyze raw_ p)) (analyze raw_ p)
  ++ strFromSpan (rightSpaceSpan (analyze raw_ p)) (analyze raw_ p)
  = raw_.
Proof.
  intros C. pose proof (analyze_ext_order raw_ p C) as O.
  destruct (analyze_spec raw_ p p (sameHost_refl p)) as (_ & A).
  pose proof (analyzed_ext _ A C) as (OK & SL & P0 & P1 & P2 & _).
  pose proof (raw_analyze raw_ p) as RW.
  set (q := analyze raw_ p) in *. clearbody q.
  destruct (rightSpace_position q OK SL) as (R1 & R2).
  unfold extOrder in O. cbv zeta in O.
  destruct O as (O1 & O2 & O3 & O4 & O5 & O6 & O7 & O8).
  destruct SL as (S1 & S2 & S3 & S4 & S5 & _).
  pose proof OK as (M & W & G0 & GW & _).
  assert (T1 : Span.l (leftSpaceSpan q) mod 3 = 0) by (destruct S2 as [-> | ->]; reflexivity).
  assert (T2 : Span.l (rightSpaceSpan q) mod 3 = 0) by (destruct S3 as [-> | ->]; reflexivity).
  assert (T3 : 0 <= Span.l (leftSpaceSpan q)) by lia.
  assert (T4 : 0 <= Span.l (rightSpaceSpan q)) by lia.
  rewrite (strFromSpan_text q (leftSpaceSpan q)); try assumption; try lia;
    [|rewrite S1; reflexivity|rewrite S1; exact T1].
  rewrite (strFromSpan_text q (optionsSpan q)); try assumption; try lia;
    [|rewrite O1, S1; exact T1|rewrite O3; exact O7].
  rewrite (strFromSpan_text q (optionsAnchorSpan q)); try assumption; try lia;
    [|rewrite O5; exact O8].
  rewrite (strFromSpan_text q (patternSpan q)); try assumption; try lia;
    [|rewrite O6; exact R1].
  rewrite (strFromSpan_text q (rightSpaceSpan q)); try assumption; try lia;
    [|rewrite S4; clear - M; Z.div_mod_to_equations; lia].
  rewrite O3, O5, O6, S4, O1, S1, GW. cbn [Z.add]. rewrite G0.
  assert (Q1 : (0 + Span.l (leftSpaceSpan q)) mod 3 = 0) by exact T1.
  destruct (origin_le q (Span.l (leftSpaceSpan q)) (Span.i (optionsAnchorSpan q)) OK)
    as (A1 & A2 & A3); try assumption; try lia.
  destruct (origin_le q (Span.i (optionsAnchorSpan q)) (Span.i (patternSpan q)) OK)
    as (B1 & B2 & B3); try assumption; try lia.
  destruct (origin_le q (Span.i (patternSpan q)) (Span.i (rightSpaceSpan q)) OK)
    as (C1 & C2 & C3); try assumption; try lia.
  rewrite RW in *.
  rewrite (js_slice_app raw_ (slotOrigin q (Span.i (patternSpan q)))) by lia.
  rewrite (js_slice_app raw_ (slotOrigin q (Span.i (optionsAnchorSpan q)))) by lia.
  rewrite (js_slice_app raw_ (slotOrigin q (Span.l (leftSpaceSpan q)))) by lia.
  rewrite (js_slice_app raw_ 0) by lia.
  apply js_slice_all.
Qed.

Lemma extended_filter_text_witness :
  strFromSpan (leftSpaceSpan (analyze (codes " a.b,c.d#@#.e ") freshParser))
    (analyze (codes " a.b,c.d#@#.e ") freshParser)
  ++ strFromSpan (optionsSpan (analyze (codes " a.b,c.d#@#.e ") freshParser))
       (analyze (codes " a.b,c.d#@#.e ") freshParser)
  ++ strFromSpan (optionsAnchorSpan (analyze (codes " a.b,c.d#@#.e ") freshParser))
       (analyze (codes " a.b,c.d#@#.e ") freshParser)
  ++ strFromSpan (patternSpan (analyze (codes " a.b,c.d#@#.e ") freshParser))
       (analyze (codes " a.b,c.d#@#.e ") freshParser)
  ++ strFromSpan (rightSpaceSpan (analyze (codes " a.b,c.d#@#.e ") freshParser))
       (analyze (codes " a.b,c.d#@#.e ") freshParser)
  = codes " a.b,c.d#@#.e ".
Proof.
  apply (extended_filter_text (codes " a.b,c.d#@#.e ") freshParser).
  vm_compute. reflexivity.
Defined.

(** ** The pattern bits *)

Lemma lor_incl_trans (a b c : Z) : a .| b = b -> b .| c = c -> a .| c = c.
Proof. intros H1 H2. rewrite <- H2, Z.lor_assoc, H1. reflexivity. Qed.

Lemma lor_incl_l (a b : Z) : a .| (a .| b) = a .| b.
Proof. now rewrite Z.lor_assoc, Z.lor_diag. Qed.

Lemma lor_incl_r (a b : Z) : b .| (a .| b) = a .| b.
Proof. now rewrite (Z.lor_comm a b), Z.lor_assoc, Z.lor_diag. Qed.

Lemma classOf_incl (x pb : Z) : x .| pb = pb -> classOf x .| pb = pb.
Proof.
  intros H. apply Z.bits_inj'. intros n Hn.
  apply (f_equal (fun z => Z.testbit z n)) in H. rewrite Z.lor_spec in H.
  unfold classOf. rewrite Z.lor_spec, Z.land_spec.
  destruct (Z.testbit x n), (Z.testbit pb n), (Z.testbit (Z.lnot overlayBits) n);
    cbn in *; congruence.
Qed.

Lemma hasBits_incl (x pb m : Z) : x .| pb = pb -> hasBits x m = true -> hasBits pb m = true.
Proof.
  intros H X. unfold hasBits in *. apply negb_true_iff, Z.eqb_neq in X.
  apply negb_true_iff, Z.eqb_neq. intros E. apply X.
  rewrite <- H, Z.land_lor_distr_l in E. apply Z.lor_eq_0_iff in E. apply E.
Qed.

(** The bits collected by the backward scan: those of the slices after the
    one at which it stops. *)
Lemma findLastSpace_covers (a : list Z) (i : Z) :
  forall fuel j pb, 0 <= j -> j mod 3 = 0 -> j <= Z.of_nat fuel ->
    pb .| snd (findLastSpace fuel a i j pb) = snd (findLastSpace fuel a i j pb)
    /\ forall r, 0 <= r < j -> r mod 3 = 0 ->
         fst (findLastSpace fuel a i j pb) < r
         \/ (r = 0 /\ fst (findLastSpace fuel a i j pb) = 0
             /\ hasBits (aget a (i + 0)) BITSpace = false) ->
         aget a (i + r) .| snd (findLastSpace fuel a i j pb)
         = snd (findLastSpace fuel a i j pb).
Proof.
  induction fuel as [|n IH]; intros j pb J0 J1 F.
  - assert (j = 0) by lia. subst j. cbn. split; [apply Z.lor_diag|]. intros r R. lia.
  - cbn [findLastSpace]. destruct (Z.eqb_spec j 0) as [->|N].
    { cbn [fst snd]. split; [apply Z.lor_diag|]. intros r R. lia. }
    assert (J3 : 3 <= j) by (clear - J0 J1 N; Z.div_mod_to_equations; lia).
    assert (M : (j - 3) mod 3 = 0) by (clear - J1; Z.div_mod_to_equations; lia).
    destruct (hasBits (aget a (i + (j - 3))) BITSpace) eqn:D.
    + cbn [fst snd]. split; [apply Z.lor_diag|]. intros r R0 R1 [R|(-> & E & S)].
      * exfalso. clear - R0 R1 R J1. Z.div_mod_to_equations. lia.
      * rewrite E in D. rewrite D in S. discriminate S.
    + destruct (IH (j - 3) (pb .| aget a (i + (j - 3))) ltac:(lia) M ltac:(lia)) as (I1 & I2).
      split.
      * eapply lor_incl_trans; [|exact I1]. apply lor_incl_l.
      * intros r R0 R1 C. destruct (Z.eq_dec r (j - 3)) as [->|Q].
        -- eapply lor_incl_trans; [|exact I1]. apply lor_incl_r.
        -- apply I2; [|exact R1|exact C].
           clear - R0 R1 Q J1. Z.div_mod_to_equations. lia.
Qed.

Lemma classOf_orCell (a : list Z) (k x : Z) :
  classOf (aget (orCell a k BITIgnore) x) = classOf (aget a x).
Proof.
  unfold orCell. destruct (Z.ltb_spec k 0) as [K|K].
  - unfold aset. apply Z.ltb_lt in K. now rewrite K.
  - rewrite aget_aset by lia. destruct (Z.eqb_spec x k) as [->|]; [|reflexivity].
    apply classOf_ignore.
Qed.

Lemma classOf_markSlices_loop (end_ : Z) :
  forall fuel a beg x,
    classOf (aget (markSlices_loop fuel a beg end_ BITIgnore) x) = classOf (aget a x).
Proof.
  induction fuel as [|n IH]; intros a beg x; cbn [markSlices_loop]; [reflexivity|].
  destruct (beg <? end_); [|reflexivity]. rewrite IH. apply classOf_orCell.
Qed.

(** [patternCovered] depends on the pattern span, the pattern bits and the
    class bits of the slices. *)
Lemma patternCovered_ext (p q : Parser) :
  patternSpan q = patternSpan p -> patternBits q = patternBits p ->
  (forall x, classOf (slotBits q x) = classOf (slotBits p x)) ->
  patternCovered p -> patternCovered q.
Proof.
  intros S B C H k K1 K2. rewrite S in *. rewrite B, C.
  destruct (H k K1 K2) as [(E & X)|X]; [left|now right].
  split; [exact E|]. rewrite <- (hasBits_classOf _ BITSpace) by reflexivity.
  rewrite C. now rewrite hasBits_classOf by reflexivity.
Qed.

(** A pattern span cut down on either side, the first slice kept or
    covered. *)
Lemma patternCovered_shrink (p q : Parser) :
  patternBits q = patternBits p ->
  (forall x, classOf (slotBits q x) = classOf (slotBits p x)) ->
  Span.i (patternSpan p) <= Span.i (patternSpan q) ->
  (Span.i (patternSpan q) - Span.i (patternSpan p)) mod 3 = 0 ->
  Span.i (patternSpan q) + Span.l (patternSpan q)
  <= Span.i (patternSpan p) + Span.l (patternSpan p) ->
  patternCovered p -> patternCovered q.
Proof.
  intros B C I M L H k K1 K2. rewrite B, C.
  assert (K3 : (k - Span.i (patternSpan p)) mod 3 = 0)
    by (clear - K2 M; Z.div_mod_to_equations; lia).
  destruct (H k ltac:(lia) K3) as [(E & X)|X]; [left|now right].
  split; [lia|]. rewrite <- (hasBits_classOf _ BITSpace) by reflexivity.
  rewrite C. now rewrite hasBits_classOf by reflexivity.
Qed.

Lemma patternCovered_spaces (p : Parser) :
  0 <= Span.l (patternSpan p) -> Span.l (patternSpan p) mod 3 = 0 ->
  patternCovered (analyzeNet_spaces p).
Proof.
  intros L0 L1. unfold analyzeNet_spaces. cbv zeta.
  pose proof (findLastSpace_covers (slices p) (Span.i (patternSpan p))
                (Z.to_nat (Span.l (patternSpan p))) (Span.l (patternSpan p)) (patternBits p)
                L0 L1 ltac:(lia)) as (_ & CV).
  pose proof (findLastSpace_spec (slices p) (Span.i (patternSpan p))
                (Z.to_nat (Span.l (patternSpan p))) (Span.l (patternSpan p)) (patternBits p)
                L0 L1 ltac:(lia)) as SP. cbv zeta in SP.
  destruct (findLastSpace _ _ _ _ _) as [j pb]. cbn [fst snd] in *.
  destruct SP as (J0 & J1 & J2).
  destruct (Z.eqb_spec j 0) as [->|N]; cbn [negb].
  - intros k K1 K2. psimpl. unfold slotBits. psimpl.
    destruct (Z.eq_dec k (Span.i (patternSpan p))) as [->|Q].
    + destruct (hasBits (aget (slices p) (Span.i (patternSpan p))) BITSpace) eqn:D;
        [left; now split|right].
      apply classOf_incl.
      replace (Span.i (patternSpan p)) with (Span.i (patternSpan p) + 0) at 1 by lia.
      apply CV; [lia|reflexivity|]. right. rewrite Z.add_0_r. now split_all.
    + right. apply classOf_incl.
      replace k with (Span.i (patternSpan p) + (k - Span.i (patternSpan p))) at 1 by lia.
      apply CV; [lia|exact K2|]. left. lia.
  - set (q := set_patternSpan _ (set_patternBits pb p)).
    assert (Q : patternCovered q).
    { intros k K1 K2. unfold q in *. psimpl.
      unfold slotBits. psimpl. right. apply classOf_incl.
      replace k with (Span.i (patternSpan p) + (k - Span.i (patternSpan p))) at 1 by lia.
      apply CV; [lia| |left; lia].
      clear - K2 J1. Z.div_mod_to_equations. lia. }
    clearbody q.
    destruct (getNetPattern_fields q) as (s & E).
    destruct (getNetPattern q) as [s' q']. cbn [snd] in E. subst q'.
    assert (Q2 : patternCovered
                   (if reIsLocalhostRedirect s'
                    then orFlavor BITFlavorIgnore (set_pattern s q) else set_pattern s q)).
    { destruct (reIsLocalhostRedirect s'); revert Q; apply patternCovered_ext; reflexivity. }
    set (q2 := if reIsLocalhostRedirect s' then _ else _) in *. clearbody q2.
    destruct (interactive q2); [|exact Q2].
    revert Q2. apply patternCovered_ext; try reflexivity.
    intros x. unfold markSlices, slotBits. psimpl. apply classOf_markSlices_loop.
Qed.

Lemma classOf_ignoreSlice (k : Z) (p : Parser) (x : Z) :
  classOf (slotBits (ignoreSlice k p) x) = classOf (slotBits p x).
Proof. unfold slotBits, ignoreSlice. psimpl. apply classOf_orCell. Qed.

Lemma patternCovered_leadingWildcard (p : Parser) :
  0 <= Span.l (patternSpan p) ->
  patternCovered p -> patternCovered (analyzeNet_leadingWildcard p).
Proof.
  intros L0 H. unfold analyzeNet_leadingWildcard. cbv zeta.
  destruct (_ && _); [|exact H].
  match goal with
  | |- patternCovered (if ?b then _ else _) => destruct b
  end; revert H; apply patternCovered_shrink; psimpl; try reflexivity; try lia;
    try (intros x; unfold slotBits; psimpl; rewrite ?classOf_orCell; reflexivity);
    match goal with
    | |- ?e mod 3 = 0 => replace e with 3 by lia; reflexivity
    end.
Qed.

Lemma patternCovered_trailingWildcard (p : Parser) :
  patternCovered p -> patternCovered (analyzeNet_trailingWildcard p).
Proof.
  intros H. unfold analyzeNet_trailingWildcard. cbv zeta.
  destruct (_ && _); [|exact H].
  match goal with
  | |- patternCovered (if ?b then _ else _) => destruct b
  end;
  match goal with
  | |- context [if ?b then _ else _] => destruct b
  end; revert H; apply patternCovered_shrink; psimpl; try reflexivity; try lia;
    try (now rewrite Z.sub_diag);
    intros x; unfold slotBits; psimpl; rewrite ?classOf_orCell; reflexivity.
Qed.

Lemma patternCovered_pointlessAnchors (p : Parser) :
  patternCovered p -> patternCovered (analyzeNet_pointlessAnchors p).
Proof.
  intros H. unfold analyzeNet_pointlessAnchors. cbv zeta.
  assert (H1 : patternCovered
                 (if ((Span.l (patternSpan p) =? 0)
                      || negb (Span.l (patternSpan p) =? 0)
                         && hasBits (aget (slices p) (Span.i (patternSpan p))) BITAsterisk)
                     && hasBits (flavorBits p) BITFlavorNetLeftAnchor
                  then andNotFlavor BITFlavorNetLeftAnchor
                         (ignoreSlice (Span.i (patternLeftAnchorSpan p)) p)
                  else p)).
  { destruct (_ && _); [|exact H]. revert H. apply patternCovered_ext; try reflexivity.
    intros x. unfold slotBits. psimpl. apply classOf_orCell. }
  set (q := if _ && hasBits (flavorBits p) BITFlavorNetLeftAnchor then _ else _) in *.
  clearbody q.
  destruct (_ && _); [|exact H1]. revert H1. apply patternCovered_ext; try reflexivity.
  intros x. unfold slotBits. psimpl. apply classOf_orCell.
Qed.

Lemma patternCovered_set_category (c : Z) (p : Parser) :
  patternCovered p -> patternCovered (set_category c p).
Proof. apply patternCovered_ext; reflexivity. Qed.

(** [analyzeNet] from the block for the spaces on. *)
Lemma analyzeNet_stages (p : Parser) :
  netEntry p ->
  exists q, anchorsLayout true q /\ related q q
    /\ analyzeNet p
       = set_category CATStaticNetFilter (analyzeNet_wildcards (analyzeNet_spaces q))
    /\ q = analyzeNet_anchors
             (fst (analyzeNet_options (fst (analyzeNet_exception p))
                     (snd (analyzeNet_exception p))))
             (snd (analyzeNet_options (fst (analyzeNet_exception p))
                     (snd (analyzeNet_exception p)))).
Proof.
  intros N. unfold analyzeNet.
  assert (R : related p p) by (apply related_refl; apply N).
  destruct (analyzeNet_exception_spec p p N R) as (_ & E2 & E3).
  destruct (analyzeNet_exception p) as [islice q1]. cbn [fst snd] in *.
  destruct (analyzeNet_options_spec islice q1 q1 E3 E2) as (_ & O2 & O3 & _).
  destruct (analyzeNet_options islice q1) as [re q2]. cbn [fst snd] in *.
  destruct (analyzeNet_anchors_spec islice re q2 q2 O3 O2) as (A1 & A2).
  exists (analyzeNet_anchors re q2). split; [exact A2|]. split; [exact A1|]. split; reflexivity.
Qed.

Lemma patternCovered_analyzeNet (p : Parser) :
  netEntry p -> patternCovered (analyzeNet p).
Proof.
  intros N. destruct (analyzeNet_stages p N) as (q & AL & R & -> & _).
  pose proof AL as (_ & NL & _). unfold netLayout in NL. cbv zeta in NL.
  destruct NL as (_ & _ & _ & _ & _ & L0 & L1 & _).
  pose proof (patternCovered_spaces q L0 L1) as H.
  destruct (analyzeNet_spaces_spec q q AL R) as (_ & (_ & NL2 & _) & _).
  unfold netLayout in NL2. cbv zeta in NL2.
  destruct NL2 as (_ & _ & _ & _ & _ & L2 & _).
  apply (patternCovered_leadingWildcard _ L2) in H.
  apply patternCovered_trailingWildcard in H.
  apply patternCovered_pointlessAnchors in H.
  now apply patternCovered_set_category.
Qed.

(** The parser from which [analyze] goes on with [analyzeNet], for a line
    that ends as a network filter. *)
Lemma analyze_net_entry (raw_ : list Z) (p : Parser) :
  category (analyze raw_ p) = CATStaticNetFilter ->
  exists q, netEntry q /\ analyze raw_ p = analyzeNet q.
Proof.
  intros C. pose proof (analyze_head_spec raw_ p p (sameHost_refl p)) as X.
  unfold analyze in *. destruct (analyze_head raw_ p) as [r|q]; cbn [headResult] in X.
  - destruct X as (_ & (N & _)). contradiction.
  - exists q. split; [apply X|reflexivity].
Qed.

(** ** The characters of the pattern *)

Lemma js_slice_length (s : list Z) (a b : Z) :
  0 <= a -> a <= b -> b <= Z.of_nat (length s) ->
  length (js_slice s a b) = Z.to_nat (b - a).
Proof.
  intros A B C. rewrite js_slice_range by lia.
  rewrite length_firstn, length_skipn. lia.
Qed.

Lemma js_slice_nth (s : list Z) (a b : Z) (m : nat) :
  0 <= a -> a <= b -> b <= Z.of_nat (length s) -> (m < Z.to_nat (b - a))%nat ->
  nth m (js_slice s a b) 0 = nth (Z.to_nat (a + Z.of_nat m)) s 0.
Proof.
  intros A B C M. rewrite js_slice_range by lia.
  rewrite nth_firstn. destruct (Nat.ltb_spec m (Z.to_nat (b - a))) as [_|N]; [|lia].
  rewrite nth_skipn. f_equal. lia.
Qed.

Lemma js_slice_In (s : list Z) (a b c : Z) :
  0 <= a -> a <= b -> b <= Z.of_nat (length s) -> In c (js_slice s a b) ->
  exists x, a <= x < b /\ nth (Z.to_nat x) s 0 = c.
Proof.
  intros A B C I. destruct (In_nth _ _ 0 I) as (m & M & E).
  rewrite js_slice_length in M by lia. rewrite js_slice_nth in E by lia.
  exists (a + Z.of_nat m). split; [lia|exact E].
Qed.

Lemma last_nth {A : Type} (l : list A) (d : A) :
  last l d = nth (length l - 1) l d.
Proof.
  induction l as [|x l IH]; [reflexivity|].
  destruct l as [|y l]; [reflexivity|].
  change (last (x :: y :: l) d) with (last (y :: l) d). rewrite IH.
  cbn [length nth Nat.sub]. now rewrite Nat.sub_0_r.
Qed.

(** Each character of the text between two slots lies in one of the slices
    in between, and has its class bits. *)
Lemma char_slot (p : Parser) :
  slicesOK p ->
  forall (n : nat) i, 0 <= i -> i mod 3 = 0 -> i + 3 * Z.of_nat n <= sliceWritePtr p - 3 ->
    forall x, slotOrigin p i <= x < slotOrigin p (i + 3 * Z.of_nat n) ->
      exists k, i <= k < i + 3 * Z.of_nat n /\ (k - i) mod 3 = 0
        /\ slotOrigin p k <= x < slotOrigin p (k + 3)
        /\ charBits (nth (Z.to_nat x) (raw p) 0) = classOf (slotBits p k).
Proof.
  intros OK. pose proof OK as (_ & _ & _ & _ & _ & S).
  induction n as [|n IH]; intros i I0 I1 I2 x X.
  - replace (i + 3 * Z.of_nat 0) with i in X by lia. lia.
  - replace (i + 3 * Z.of_nat (Datatypes.S n)) with (i + 3 * Z.of_nat n + 3) in * by lia.
    destruct (Z.lt_ge_cases x (slotOrigin p (i + 3 * Z.of_nat n))) as [L|G].
    + destruct (IH i I0 I1 ltac:(lia) x ltac:(lia)) as (k & K1 & K2 & K3 & K4).
      exists k. split_all; (assumption || lia).
    + exists (i + 3 * Z.of_nat n).
      assert (M : (i + 3 * Z.of_nat n) mod 3 = 0) by (clear - I1; Z.div_mod_to_equations; lia).
      destruct (S (i + 3 * Z.of_nat n) ltac:(lia) M ltac:(lia)) as (_ & _ & _ & C).
      split_all; try lia.
      * clear. Z.div_mod_to_equations. lia.
      * apply C. lia.
Qed.

(** The characters by their class. *)
Lemma char_forall (P : Z -> bool) :
  forallb P (map Z.of_nat (seq 0 128)) = true ->
  forall c, 0 <= c < 128 -> P c = true.
Proof.
  intros H c C. rewrite forallb_forall in H. apply H.
  rewrite in_map_iff. exists (Z.to_nat c). split; [lia|]. apply in_seq. lia.
Qed.

Lemma charBits_negative (c : Z) : c < 0 -> charBits c = 0.
Proof.
  intros H. unfold charBits. destruct (Z.ltb_spec c 128); [|lia].
  replace (Z.to_nat c) with 0%nat by lia. reflexivity.
Qed.

Lemma charBits_unicode (c : Z) : 128 <= c -> charBits c = unicodeBits.
Proof. intros H. unfold charBits. destruct (Z.ltb_spec c 128); [lia|reflexivity]. Qed.

Ltac by_char c :=
  destruct (Z.lt_ge_cases c 0) as [?N|?N];
  [ rewrite (charBits_negative c) by assumption
  | destruct (Z.lt_ge_cases c 128) as [?U|?U];
    [ | rewrite (charBits_unicode c) by assumption ] ].

Ltac cmp_cases :=
  repeat match goal with
         | |- context [?x <=? ?y] => destruct (Z.leb_spec x y)
         | |- context [?x =? ?y] => destruct (Z.eqb_spec x y)
         end; try lia; try reflexivity.

Lemma hostname_class (c : Z) : hasBits (charBits c) BITHostname = isHostnameChar c.
Proof.
  by_char c.
  - change (hasBits 0 BITHostname) with false. unfold isHostnameChar. cmp_cases.
  - apply eqb_prop.
    apply (char_forall (fun c => Bool.eqb (hasBits (charBits c) BITHostname) (isHostnameChar c)));
      [vm_compute; reflexivity|lia].
  - change (hasBits unicodeBits BITHostname) with true. unfold isHostnameChar. cmp_cases.
Qed.

Lemma alphaNum_class (c : Z) : hasBits (charBits c) BITAlphaNum = isAlphaNumChar c.
Proof.
  by_char c.
  - change (hasBits 0 BITAlphaNum) with false. unfold isAlphaNumChar. cmp_cases.
  - apply eqb_prop.
    apply (char_forall (fun c => Bool.eqb (hasBits (charBits c) BITAlphaNum) (isAlphaNumChar c)));
      [vm_compute; reflexivity|lia].
  - change (hasBits unicodeBits BITAlphaNum) with true. unfold isAlphaNumChar. cmp_cases.
Qed.

Lemma char_of_class (m ch : Z) :
  forallb (fun c => Bool.eqb (hasBits (charBits c) m) (c =? ch)) (map Z.of_nat (seq 0 128)) = true ->
  hasBits 0 m = false -> hasBits unicodeBits m = false -> 0 <= ch < 128 ->
  forall c, hasBits (charBits c) m = (c =? ch).
Proof.
  intros T Z0 ZU R c. by_char c.
  - rewrite Z0. cmp_cases.
  - apply eqb_prop.
    apply (char_forall (fun c => Bool.eqb (hasBits (charBits c) m) (c =? ch))); [exact T|lia].
  - rewrite ZU. cmp_cases.
Qed.

Lemma asterisk_class (c : Z) : hasBits (charBits c) BITAsterisk = (c =? 42).
Proof. apply char_of_class; try reflexivity. lia. Qed.

Lemma caret_class (c : Z) : hasBits (charBits c) BITCaret = (c =? 94).
Proof. apply char_of_class; try reflexivity. lia. Qed.

Lemma uppercase_class (c : Z) : hasBits (charBits c) BITUppercase = ((65 <=? c) && (c <=? 90)).
Proof.
  by_char c.
  - change (hasBits 0 BITUppercase) with false. cmp_cases.
  - apply eqb_prop.
    apply (char_forall (fun c => Bool.eqb (hasBits (charBits c) BITUppercase)
                                   ((65 <=? c) && (c <=? 90))));
      [vm_compute; reflexivity|lia].
  - change (hasBits unicodeBits BITUppercase) with false. cmp_cases.
Qed.

Lemma unicode_class (c : Z) : hasBits (charBits c) BITUnicode = (128 <=? c).
Proof.
  by_char c.
  - change (hasBits 0 BITUnicode) with false. cmp_cases.
  - apply eqb_prop.
    apply (char_forall (fun c => Bool.eqb (hasBits (charBits c) BITUnicode) (128 <=? c)));
      [vm_compute; reflexivity|lia].
  - change (hasBits unicodeBits BITUnicode) with true. cmp_cases.
Qed.

(** What is known of the pattern of a line analysed as a network filter. *)
Lemma net_pattern_facts (raw_ : list Z) (p : Parser) :
  category (analyze raw_ p) = CATStaticNetFilter ->
  slicesOK (analyze raw_ p)
  /\ 0 <= Span.i (patternSpan (analyze raw_ p))
  /\ Span.i (patternSpan (analyze raw_ p)) mod 3 = 0
  /\ 0 <= Span.l (patternSpan (analyze raw_ p))
  /\ Span.l (patternSpan (analyze raw_ p)) mod 3 = 0
  /\ Span.i (patternSpan (analyze raw_ p)) + Span.l (patternSpan (analyze raw_ p))
     <= sliceWritePtr (analyze raw_ p) - 3
  /\ patternCovered (analyze raw_ p)
  /\ raw (analyze raw_ p) = raw_.
Proof.
  intros C. pose proof (raw_analyze raw_ p) as RW.
  destruct (analyze_net_entry raw_ p C) as (q & N & E). rewrite E in *.
  pose proof (patternCovered_analyzeNet q N) as PC.
  destruct (analyzeNet_spec q q N (related_refl q ltac:(apply N))) as (_ & (_ & AL & _) & _).
  destruct AL as (NB & NL & _).
  destruct (netLayout_bounds false _ NB NL) as (B1 & B2 & B3).
  unfold netLayout in NL. cbv zeta in NL.
  destruct NL as (_ & _ & _ & _ & N5 & N6 & N7 & _).
  split_all; try assumption; try lia. apply NB.
Qed.

(** The slice of a character of the pattern. *)
Lemma pattern_char (q : Parser) (c : Z) :
  slicesOK q -> 0 <= Span.i (patternSpan q) -> Span.i (patternSpan q) mod 3 = 0 ->
  0 <= Span.l (patternSpan q) -> Span.l (patternSpan q) mod 3 = 0 ->
  Span.i (patternSpan q) + Span.l (patternSpan q) <= sliceWritePtr q - 3 ->
  In c (strFromSpan (patternSpan q) q) ->
  exists k,
    Span.i (patternSpan q) <= k < Span.i (patternSpan q) + Span.l (patternSpan q)
    /\ (k - Span.i (patternSpan q)) mod 3 = 0
    /\ charBits c = classOf (slotBits q k).
Proof.
  intros OK I0 I1 L0 L1 W I.
  assert (M : (Span.i (patternSpan q) + Span.l (patternSpan q)) mod 3 = 0)
    by (clear - I1 L1; Z.div_mod_to_equations; lia).
  rewrite strFromSpan_text in I by assumption.
  destruct (origin_le q _ _ OK I0 I1 M ltac:(lia) W) as (A & B & C).
  apply js_slice_In in I; try lia. destruct I as (x & X & <-).
  assert (E : Span.i (patternSpan q) + Span.l (patternSpan q)
              = Span.i (patternSpan q) + 3 * Z.of_nat (Z.to_nat (Span.l (patternSpan q) / 3)))
    by (clear - L0 L1; Z.div_mod_to_equations; lia).
  destruct (char_slot q OK (Z.to_nat (Span.l (patternSpan q) / 3)) _ I0 I1 ltac:(lia) x
              ltac:(rewrite <- E; exact X)) as (k & K1 & K2 & _ & K4).
  exists k. split_all; try assumption; lia.
Qed.

(** A character of the pattern that is not whitespace has its class bits in
    the pattern bits. *)
Lemma pattern_char_covered (q : Parser) (c m : Z) :
  slicesOK q -> 0 <= Span.i (patternSpan q) -> Span.i (patternSpan q) mod 3 = 0 ->
  0 <= Span.l (patternSpan q) -> Span.l (patternSpan q) mod 3 = 0 ->
  Span.i (patternSpan q) + Span.l (patternSpan q) <= sliceWritePtr q - 3 ->
  patternCovered q ->
  In c (strFromSpan (patternSpan q) q) ->
  hasBits (charBits c) BITSpace = false ->
  hasBits (charBits c) m = true -> hasBits (patternBits q) m = true.
Proof.
  intros OK I0 I1 L0 L1 W PC I NS H.
  destruct (pattern_char q c OK I0 I1 L0 L1 W I) as (k & K1 & K2 & K3).
  destruct (PC k K1 K2) as [(_ & S)|S].
  - rewrite <- (hasBits_classOf _ BITSpace), <- K3, NS in S by reflexivity. discriminate S.
  - apply (hasBits_incl _ _ _ S). now rewrite <- K3.
Qed.

(** X11. The queries on the pattern bits of a network filter err on one
    side only: when [patternHasWildcard], [patternHasCaret],
    [patternHasUppercase] or [patternHasUnicode] is false, the text of the
    pattern span has no [*], no [^], no upper case letter, no character
    above U+007F. *)
Theorem pattern_queries_sound (raw_ : list Z) (p : Parser) :
  category (analyze raw_ p) = CATStaticNetFilter ->
  forall c, In c (strFromSpan (patternSpan (analyze raw_ p)) (analyze raw_ p)) ->
    (patternHasWildcard (analyze raw_ p) = false -> c <> 42)
    /\ (patternHasCaret (analyze raw_ p) = false -> c <> 94)
    /\ (patternHasUppercase (analyze raw_ p) = false -> ~ 65 <= c <= 90)
    /\ (patternHasUnicode (analyze raw_ p) = false -> c < 128).
Proof.
  intros C c I.
  destruct (net_pattern_facts raw_ p C) as (OK & I0 & I1 & L0 & L1 & W & PC & _).
  set (q := analyze raw_ p) in *. clearbody q.
  pose proof (pattern_char_covered q c) as X.
  unfold patternHasWildcard, patternHasCaret, patternHasUppercase, patternHasUnicode.
  split_all; intros H.
  - intros ->. rewrite (X BITAsterisk) in H; try assumption; try reflexivity. discriminate H.
  - intros ->. rewrite (X BITCaret) in H; try assumption; try reflexivity. discriminate H.
  - intros R. rewrite (X BITUppercase) in H; try assumption; try discriminate H.
    + apply not_space_bits. unfold isSpaceChar. cmp_cases.
    + rewrite uppercase_class. cmp_cases.
  - destruct (Z.lt_ge_cases c 128) as [L|G]; [exact L|].
    rewrite (X BITUnicode) in H; try assumption; try discriminate H.
    + apply not_space_bits. unfold isSpaceChar. cmp_cases.
    + rewrite unicode_class. cmp_cases.
Qed.

Lemma pattern_queries_sound_witness :
  (patternHasWildcard (analyze (codes "||a.b^") freshParser) = false -> 97 <> 42)
  /\ (patternHasCaret (analyze (codes "||a.b^") freshParser) = false -> 97 <> 94)
  /\ (patternHasUppercase (analyze (codes "||a.b^") freshParser) = false -> ~ 65 <= 97 <= 90)
  /\ (patternHasUnicode (analyze (codes "||a.b^") freshParser) = false -> 97 < 128).
Proof.
  apply (pattern_queries_sound (codes "||a.b^") freshParser).
  - vm_compute. reflexivity.
  - vm_compute. left. reflexivity.
Defined.

(** The first and the last character of a pattern that is not empty. *)
Lemma pattern_ends (q : Parser) :
  slicesOK q -> 0 <= Span.i (patternSpan q) -> Span.i (patternSpan q) mod 3 = 0 ->
  0 <= Span.l (patternSpan q) -> Span.l (patternSpan q) mod 3 = 0 ->
  Span.i (patternSpan q) + Span.l (patternSpan q) <= sliceWritePtr q - 3 ->
  Span.l (patternSpan q) <> 0 ->
  exists c rest,
    strFromSpan (patternSpan q) q = c :: rest
    /\ charBits c = classOf (slotBits q (Span.i (patternSpan q)))
    /\ charBits (last (c :: rest) 0)
       = classOf (slotBits q (Span.i (patternSpan q) + Span.l (patternSpan q) - 3)).
Proof.
  intros OK I0 I1 L0 L1 W N.
  assert (M : (Span.i (patternSpan q) + Span.l (patternSpan q)) mod 3 = 0)
    by (clear - I1 L1; Z.div_mod_to_equations; lia).
  assert (G : 3 <= Span.l (patternSpan q)) by (clear - L0 L1 N; Z.div_mod_to_equations; lia).
  assert (M3 : (Span.i (patternSpan q) + Span.l (patternSpan q) - 3) mod 3 = 0)
    by (clear - M; Z.div_mod_to_equations; lia).
  rewrite strFromSpan_text by assumption.
  assert (P3 : 0 <= Span.i (patternSpan q) + Span.l (patternSpan q) - 3) by lia.
  destruct (origin_le q (Span.i (patternSpan q))
              (Span.i (patternSpan q) + Span.l (patternSpan q) - 3) OK I0 I1 M3
              ltac:(lia) ltac:(lia)) as (A & B & _).
  destruct (origin_le q (Span.i (patternSpan q) + Span.l (patternSpan q) - 3)
              (Span.i (patternSpan q) + Span.l (patternSpan q)) OK P3 M3 M
              ltac:(lia) W) as (_ & _ & C).
  pose proof OK as (_ & _ & _ & _ & _ & S).
  destruct (S (Span.i (patternSpan q)) I0 I1 ltac:(lia)) as (F1 & _ & F3 & F4).
  destruct (S (Span.i (patternSpan q) + Span.l (patternSpan q) - 3) P3 M3 ltac:(lia))
    as (E1 & _ & E3 & E4).
  replace (Span.i (patternSpan q) + Span.l (patternSpan q) - 3 + 3)
    with (Span.i (patternSpan q) + Span.l (patternSpan q)) in * by lia.
  set (a := slotOrigin q (Span.i (patternSpan q))) in *.
  set (b := slotOrigin q (Span.i (patternSpan q) + Span.l (patternSpan q))) in *.
  set (o := slotOrigin q (Span.i (patternSpan q) + Span.l (patternSpan q) - 3)) in *.
  assert (LEN : length (js_slice (raw q) a b) = Z.to_nat (b - a))
    by (apply js_slice_length; lia).
  destruct (js_slice (raw q) a b) as [|c rest] eqn:T; [cbn [length] in LEN; lia|].
  exists c, rest. split; [reflexivity|]. split.
  - change c with (nth 0 (c :: rest) 0). rewrite <- T, js_slice_nth by lia.
    rewrite Z.add_0_r. apply F4. lia.
  - rewrite last_nth, LEN, <- T, js_slice_nth by lia.
    replace (a + Z.of_nat (Z.to_nat (b - a) - 1)) with (b - 1) by lia.
    apply E4. lia.
Qed.

(** X12. [patternHasLeadingWildcard] is true exactly when the text of the
    pattern span of a network filter starts with [*]. *)
Theorem leading_wildcard_query (raw_ : list Z) (p : Parser) :
  category (analyze raw_ p) = CATStaticNetFilter ->
  patternHasLeadingWildcard (analyze raw_ p) = true
  <-> exists rest, strFromSpan (patternSpan (analyze raw_ p)) (analyze raw_ p) = 42 :: rest.
Proof.
  intros C.
  destruct (net_pattern_facts raw_ p C) as (OK & I0 & I1 & L0 & L1 & W & PC & _).
  set (q := analyze raw_ p) in *. clearbody q.
  unfold patternHasLeadingWildcard. cbv zeta. split.
  - destruct (hasBits (patternBits q) BITAsterisk); cbn [Bool.eqb]; [|discriminate].
    intros H. apply andb_prop in H. destruct H as (H1 & H2).
    apply negb_true_iff, Z.eqb_neq in H1.
    destruct (pattern_ends q OK I0 I1 L0 L1 W H1) as (c & rest & T & F & _).
    exists rest. rewrite T. f_equal. apply Z.eqb_eq.
    rewrite <- asterisk_class, F. now rewrite hasBits_classOf by reflexivity.
  - intros (rest & T).
    assert (N : Span.l (patternSpan q) <> 0).
    { intros E. unfold strFromSpan in T. rewrite E in T. discriminate T. }
    destruct (pattern_ends q OK I0 I1 L0 L1 W N) as (c & rest' & T' & F & _).
    rewrite T in T'. injection T' as <- <-.
    rewrite (pattern_char_covered q 42 BITAsterisk); try assumption; try reflexivity.
    + cbn [Bool.eqb]. apply andb_true_intro. split.
      * now apply negb_true_iff, Z.eqb_neq.
      * fold (slotBits q (Span.i (patternSpan q))).
        rewrite <- (hasBits_classOf _ BITAsterisk), <- F by reflexivity. reflexivity.
    + rewrite T. now left.
Qed.

Lemma leading_wildcard_query_witness :
  patternHasLeadingWildcard (analyze (codes "*ad.") freshParser) = true
  <-> exists rest,
        strFromSpan (patternSpan (analyze (codes "*ad.") freshParser))
          (analyze (codes "*ad.") freshParser) = 42 :: rest.
Proof.
  apply (leading_wildcard_query (codes "*ad.") freshParser). vm_compute. reflexivity.
Defined.

Lemma small_has_no_bit7 (x : Z) : 0 <= x < 128 -> hasBits x BITAsterisk = false.
Proof.
  intros H. unfold hasBits. apply negb_false_iff, Z.eqb_eq.
  change BITAsterisk with (2 ^ 7). apply Z.bits_inj'. intros n Hn.
  rewrite Z.land_spec, Z.bits_0.
  destruct (Z.eq_dec n 7) as [->|N].
  - rewrite (Z.bits_above_log2 x 7); [reflexivity|lia|].
    destruct (Z.eq_dec x 0) as [->|X]; [cbn; lia|].
    apply Z.log2_lt_pow2; lia.
  - rewrite Z.pow2_bits_false by lia. apply andb_false_r.
Qed.

(** X13. [patternHasTrailingWildcard] tests the length of the last slice of
    the pattern ([slices[i+l-1]]) where the bits are meant: for a network
    filter from a line shorter than 128 characters it is false, whether the
    pattern ends with [*] or not. *)
Theorem trailing_wildcard_query (raw_ : list Z) (p : Parser) :
  category (analyze raw_ p) = CATStaticNetFilter ->
  (length raw_ < 128)%nat ->
  patternHasTrailingWildcard (analyze raw_ p) = false.
Proof.
  intros C SH.
  destruct (net_pattern_facts raw_ p C) as (OK & I0 & I1 & L0 & L1 & W & _ & RW).
  set (q := analyze raw_ p) in *. clearbody q.
  unfold patternHasTrailingWildcard. cbv zeta.
  destruct (Bool.eqb _ false); [reflexivity|].
  destruct (Z.eqb_spec (Span.l (patternSpan q)) 0) as [E|N]; [reflexivity|]. cbn [negb andb].
  assert (G : 3 <= Span.l (patternSpan q)) by (clear - L0 L1 N; Z.div_mod_to_equations; lia).
  assert (M3 : (Span.i (patternSpan q) + Span.l (patternSpan q) - 3) mod 3 = 0)
    by (clear - I1 L1; Z.div_mod_to_equations; lia).
  assert (M : (Span.i (patternSpan q) + Span.l (patternSpan q)) mod 3 = 0)
    by (clear - I1 L1; Z.div_mod_to_equations; lia).
  assert (P3 : 0 <= Span.i (patternSpan q) + Span.l (patternSpan q) - 3) by lia.
  destruct (origin_le q (Span.i (patternSpan q) + Span.l (patternSpan q) - 3)
              (Span.i (patternSpan q) + Span.l (patternSpan q)) OK P3 M3 M
              ltac:(lia) W) as (A & _ & B).
  pose proof OK as (_ & _ & _ & _ & _ & S).
  destruct (S (Span.i (patternSpan q) + Span.l (patternSpan q) - 3) P3 M3 ltac:(lia))
    as (E1 & _ & E3 & _).
  replace (Span.i (patternSpan q) + Span.l (patternSpan q) - 3 + 3)
    with (Span.i (patternSpan q) + Span.l (patternSpan q)) in * by lia.
  apply small_has_no_bit7. unfold slotLength in *.
  replace (Span.i (patternSpan q) + Span.l (patternSpan q) - 1)
    with (Span.i (patternSpan q) + Span.l (patternSpan q) - 3 + 2) by lia.
  rewrite RW in B. lia.
Qed.

Lemma trailing_wildcard_query_witness :
  patternHasTrailingWildcard (analyze (codes "ad*") freshParser) = false.
Proof.
  apply (trailing_wildcard_query (codes "ad*") freshParser).
  - vm_compute. reflexivity.
  - vm_compute. lia.
Defined.

Lemma hostname_only (c : Z) :
  hasBits (charBits c) (Z.lnot BITHostname) = false ->
  isHostnameChar c || (charBits c =? 0) = true.
Proof.
  intros H. rewrite <- hostname_class.
  assert (T : implb (negb (hasBits (charBits c) (Z.lnot BITHostname)))
                (hasBits (charBits c) BITHostname || (charBits c =? 0)) = true).
  { apply (class_forall (fun b => implb (negb (hasBits b (Z.lnot BITHostname)))
                                    (hasBits b BITHostname || (b =? 0)))).
    vm_compute. reflexivity. }
  now rewrite H in T.
Qed.

Lemma alphaNum_not_space (b : Z) :
  (exists c, classOf b = charBits c) ->
  hasBits b BITAlphaNum = true -> hasBits b BITSpace = false.
Proof.
  intros (c & E) H.
  rewrite <- (hasBits_classOf _ BITAlphaNum) in H by reflexivity.
  rewrite <- (hasBits_classOf _ BITSpace) by reflexivity. rewrite E in *.
  assert (T : implb (hasBits (charBits c) BITAlphaNum) (negb (hasBits (charBits c) BITSpace)) = true).
  { apply (class_forall (fun b => implb (hasBits b BITAlphaNum) (negb (hasBits b BITSpace)))).
    vm_compute. reflexivity. }
  rewrite H in T. now apply negb_true_iff in T.
Qed.

(** X14. When [patternIsPlainHostname] is true for a network filter, every
    character of the text of the pattern span is a hostname character (a
    letter, a digit, [-], [.], [_] or a character above U+007F) or a control
    character without class bits, and the first and the last character are
    letters, digits or above U+007F. *)
Theorem plain_hostname_query (raw_ : list Z) (p : Parser) :
  category (analyze raw_ p) = CATStaticNetFilter ->
  patternIsPlainHostname (analyze raw_ p) = true ->
  Forall (fun c => isHostnameChar c || (charBits c =? 0) = true)
    (strFromSpan (patternSpan (analyze raw_ p)) (analyze raw_ p))
  /\ forall c rest,
       strFromSpan (patternSpan (analyze raw_ p)) (analyze raw_ p) = c :: rest ->
       isAlphaNumChar c = true /\ isAlphaNumChar (last (c :: rest) 0) = true.
Proof.
  intros C H.
  destruct (net_pattern_facts raw_ p C) as (OK & I0 & I1 & L0 & L1 & W & PC & _).
  set (q := analyze raw_ p) in *. clearbody q.
  unfold patternIsPlainHostname in H. cbv zeta in H.
  destruct (hasBits (patternBits q) (Z.lnot BITHostname)) eqn:HB; [discriminate H|].
  cbn [orb] in H. destruct (_ && _); [discriminate H|].
  apply andb_prop in H. destruct H as (H1 & H2).
  split.
  - apply Forall_forall. intros c I.
    destruct (pattern_char q c OK I0 I1 L0 L1 W I) as (k & K1 & K2 & K3).
    apply hostname_only.
    destruct (hasBits (charBits c) (Z.lnot BITHostname)) eqn:X; [exfalso|reflexivity].
    destruct (PC k K1 K2) as [(-> & S)|S].
    + rewrite (alphaNum_not_space (slotBits q (Span.i (patternSpan q)))) in S;
        [discriminate S| |exact H1].
      exists c. now symmetry.
    + rewrite K3 in X. rewrite (hasBits_incl _ _ _ S X) in HB. discriminate HB.
  - intros c rest T.
    assert (N : Span.l (patternSpan q) <> 0).
    { intros E. unfold strFromSpan in T. rewrite E in T. discriminate T. }
    destruct (pattern_ends q OK I0 I1 L0 L1 W N) as (c' & rest' & T' & F & G).
    rewrite T in T'. injection T' as <- <-.
    rewrite <- !alphaNum_class, F, G, !hasBits_classOf by reflexivity.
    split; assumption.
Qed.

Lemma plain_hostname_query_witness :
  Forall (fun c => isHostnameChar c || (charBits c =? 0) = true)
    (strFromSpan (patternSpan (analyze (codes "||ad.example.com^") freshParser))
       (analyze (codes "||ad.example.com^") freshParser))
  /\ forall c rest,
       strFromSpan (patternSpan (analyze (codes "||ad.example.com^") freshParser))
         (analyze (codes "||ad.example.com^") freshParser) = c :: rest ->
       isAlphaNumChar c = true /\ isAlphaNumChar (last (c :: rest) 0) = true.
Proof.
  apply (plain_hostname_query (codes "||ad.example.com^") freshParser);
    vm_compute; reflexivity.
Defined.

(** ** The pattern tokens *)

Section TokenScan.

Import PatternTokenIterator.

Variable a : list Z.
Variables m r i0 : Z.
Hypothesis r_aligned : (r - i0) mod 3 = 0.

Let tok (k : Z) : bool := hasBits (aget a k) BITPatternToken.

(** Maximal runs in the array. *)
Let run (sl sr : Z) : Prop :=
  i0 <= sl /\ sl < sr /\ sr <= r /\ (sl - i0) mod 3 = 0 /\ (sr - i0) mod 3 = 0
  /\ (forall k, sl <= k < sr -> (k - i0) mod 3 = 0 -> tok k = true)
  /\ (sl = i0 \/ tok (sl - 3) = false)
  /\ (sr = r \/ tok sr = false).

(** A position from which [next] scans: no run has started before it and
    goes on after it. *)
Let scanFrom (s : Z) : Prop :=
  (s - i0) mod 3 = 0 /\ i0 <= s /\ (s = i0 \/ r <= s \/ tok (s - 3) = false).

Lemma findRunStart_spec :
  forall fuel s, (s - i0) mod 3 = 0 -> r - s <= Z.of_nat fuel ->
    match findRunStart fuel a r s with
    | None => forall k, s <= k < r -> (k - i0) mod 3 = 0 -> tok k = false
    | Some sl => s <= sl < r /\ (sl - i0) mod 3 = 0 /\ tok sl = true
                 /\ forall k, s <= k < sl -> (k - i0) mod 3 = 0 -> tok k = false
    end.
Proof.
  induction fuel as [|n IH]; intros s A F; cbn [findRunStart].
  - destruct (Z.geb_spec s r) as [G|G]; [intros k K; lia|lia].
  - destruct (Z.geb_spec s r) as [G|G]; [intros k K; lia|].
    fold (tok s). destruct (tok s) eqn:T.
    + split_all; try assumption; try lia.
    + assert (A3 : (s + 3 - i0) mod 3 = 0) by (clear - A; Z.div_mod_to_equations; lia).
      specialize (IH (s + 3) A3 ltac:(lia)).
      destruct (findRunStart n a r (s + 3)) as [sl|].
      * destruct IH as (I1 & I2 & I3 & I4). split_all; try assumption; try lia.
        intros k K1 K2. destruct (Z.eq_dec k s) as [->|Q]; [exact T|].
        apply I4; [|exact K2]. clear - K1 K2 Q A. Z.div_mod_to_equations. lia.
      * intros k K1 K2. destruct (Z.eq_dec k s) as [->|Q]; [exact T|].
        apply IH; [|exact K2]. clear - K1 K2 Q A. Z.div_mod_to_equations. lia.
Qed.

Lemma findRunEnd_spec :
  forall fuel s, (s - i0) mod 3 = 0 -> s <= r -> r - s <= Z.of_nat fuel ->
    let sr := findRunEnd fuel a r s in
    s <= sr <= r /\ (sr - i0) mod 3 = 0
    /\ (forall k, s <= k < sr -> (k - i0) mod 3 = 0 -> tok k = true)
    /\ (sr = r \/ tok sr = false).
Proof.
  induction fuel as [|n IH]; intros s A B F; cbn [findRunEnd].
  - assert (s = r) by lia. subst s. destruct (Z.ltb_spec r r); [lia|]. cbn [andb].
    split_all; try lia; try assumption.
  - destruct (Z.ltb_spec s r) as [L|G]; cbn [andb].
    + fold (tok s). destruct (tok s) eqn:T.
      * assert (A3 : (s + 3 - i0) mod 3 = 0) by (clear - A; Z.div_mod_to_equations; lia).
        assert (B3 : s + 3 <= r) by (clear - A L r_aligned; Z.div_mod_to_equations; lia).
        destruct (IH (s + 3) A3 B3 ltac:(lia)) as (I1 & I2 & I3 & I4).
        split_all; try assumption; try lia.
        intros k K1 K2. destruct (Z.eq_dec k s) as [->|Q]; [exact T|].
        apply I3; [|exact K2]. clear - K1 K2 Q A. Z.div_mod_to_equations. lia.
      * split_all; try lia; try assumption. now right.
    + split_all; try lia; try assumption.
Qed.

(** A run is known by where it starts, and two runs do not overlap. *)
Lemma run_unique (sl sr sr' : Z) : run sl sr -> run sl sr' -> sr = sr'.
Proof.
  intros (A1 & A2 & A3 & A4 & A5 & A6 & A7 & A8) (B1 & B2 & B3 & B4 & B5 & B6 & B7 & B8).
  destruct (Z.lt_trichotomy sr sr') as [L|[E|G]]; [exfalso|exact E|exfalso].
  - destruct A8 as [->|T]; [lia|]. rewrite (B6 sr) in T by (lia || assumption). discriminate T.
  - destruct B8 as [->|T]; [lia|]. rewrite (A6 sr') in T by (lia || assumption). discriminate T.
Qed.

Lemma run_apart (sl sr sl' sr' : Z) :
  run sl sr -> run sl' sr' -> sl < sl' -> sr + 3 <= sl'.
Proof.
  intros (A1 & A2 & A3 & A4 & A5 & A6 & A7 & A8) (B1 & B2 & B3 & B4 & B5 & B6 & B7 & B8) L.
  destruct (Z.lt_ge_cases sl' sr) as [I|O].
  - exfalso. destruct B7 as [->|T]; [lia|].
    assert (M : (sl' - 3 - i0) mod 3 = 0) by (clear - B4; Z.div_mod_to_equations; lia).
    rewrite (A6 (sl' - 3)) in T; [discriminate T| |exact M].
    clear - L I A4 B4. Z.div_mod_to_equations. lia.
  - destruct (Z.eq_dec sl' sr) as [E|N].
    + exfalso. subst sl'. destruct A8 as [->|T]; [lia|].
      rewrite (B6 sr) in T by (lia || assumption). discriminate T.
    + clear - O N A5 B4. Z.div_mod_to_equations. lia.
Qed.

(** The first run at or after a scan position starts at the first token
    slice. *)
Lemma first_run (s sl : Z) :
  scanFrom s -> s <= sl < r -> (sl - i0) mod 3 = 0 -> tok sl = true ->
  (forall k, s <= k < sl -> (k - i0) mod 3 = 0 -> tok k = false) ->
  let sr := findRunEnd (Z.to_nat (r - sl)) a r (sl + 3) in
  run sl sr /\ scanFrom (sr + 3) /\ sl + 3 <= sr
  /\ forall sl' sr', run sl' sr' -> s <= sl' -> sl <= sl'.
Proof.
  intros (S1 & S2 & S3) B A T N sr.
  assert (A3 : (sl + 3 - i0) mod 3 = 0) by (clear - A; Z.div_mod_to_equations; lia).
  assert (B3 : sl + 3 <= r) by (clear - A B r_aligned; Z.div_mod_to_equations; lia).
  destruct (findRunEnd_spec (Z.to_nat (r - sl)) (sl + 3) A3 B3 ltac:(lia)) as (E1 & E2 & E3 & E4).
  fold sr in E1, E2, E3, E4.
  split_all.
  - unfold run. split_all; try assumption; try lia.
    + intros k K1 K2. destruct (Z.eq_dec k sl) as [->|Q]; [exact T|].
      apply E3; [|exact K2]. clear - K1 K2 Q A. Z.div_mod_to_equations. lia.
    + destruct (Z.eq_dec sl s) as [->|Q].
      * destruct S3 as [S3|[S3|S3]]; [now left|lia|now right].
      * right. apply N; [|clear - A; Z.div_mod_to_equations; lia].
        clear - B Q A S1. Z.div_mod_to_equations. lia.
  - unfold scanFrom. split_all; try lia.
    + clear - E2. Z.div_mod_to_equations. lia.
    + destruct E4 as [->|E4]; [right; left; lia|right; right].
      now replace (sr + 3 - 3) with sr by lia.
  - lia.
  - intros sl' sr' (R1 & R2 & R3 & R4 & R5 & R6 & R7 & R8) L.
    destruct (Z.lt_ge_cases sl' sl) as [X|X]; [exfalso|exact X].
    pose proof (R6 sl' ltac:(lia) R4) as Y.
    rewrite (N sl') in Y; [discriminate Y|lia|exact R4].
Qed.

(** What the outer loop of [next] finds from a scan position: the first
    run that passes the test, none before it. *)
Lemma findToken_spec :
  forall fuel s, scanFrom s -> r - s <= Z.of_nat fuel ->
    match findToken fuel a m r s with
    | None => forall sl sr, run sl sr -> s <= sl -> accepted a m r sl sr = false
    | Some (sl, sr) =>
        run sl sr /\ s <= sl /\ accepted a m r sl sr = true /\ scanFrom (sr + 3)
        /\ forall sl' sr', run sl' sr' -> s <= sl' -> sl' < sl ->
             accepted a m r sl' sr' = false
    end.
Proof.
  induction fuel as [|n IH]; intros s S F.
  - cbn [findToken]. pose proof S as (S1 & S2 & S3).
    pose proof (findRunStart_spec (Z.to_nat (r - s)) s S1 ltac:(lia)) as X.
    destruct (findRunStart (Z.to_nat (r - s)) a r s) as [sl|]; [lia|].
    intros sl sr (R1 & R2 & R3 & R4 & R5 & R6 & R7 & R8) L. lia.
  - cbn [findToken]. pose proof S as (S1 & S2 & S3).
    pose proof (findRunStart_spec (Z.to_nat (r - s)) s S1 ltac:(lia)) as X.
    destruct (findRunStart (Z.to_nat (r - s)) a r s) as [sl|].
    + destruct X as (X1 & X2 & X3 & X4).
      destruct (first_run s sl S X1 X2 X3 X4) as (R & S' & G & FR).
      set (sr := findRunEnd (Z.to_nat (r - sl)) a r (sl + 3)) in *.
      destruct (accepted a m r sl sr) eqn:AC.
      * split_all; try assumption; try lia.
        intros sl' sr' R' L1 L2. specialize (FR sl' sr' R' L1). lia.
      * specialize (IH (sr + 3) S' ltac:(lia)).
        destruct (findToken n a m r (sr + 3)) as [[sl2 sr2]|].
        -- destruct IH as (I1 & I2 & I3 & I4 & I5).
           split_all; try assumption; try lia.
           intros sl' sr' R' L1 L2. pose proof (FR sl' sr' R' L1) as Y.
           destruct (Z.eq_dec sl' sl) as [->|Q].
           ++ now rewrite (run_unique sl sr' sr R' R).
           ++ apply I5; try assumption.
              apply (run_apart sl sr sl' sr' R R'). lia.
        -- intros sl' sr' R' L1. pose proof (FR sl' sr' R' L1) as Y.
           destruct (Z.eq_dec sl' sl) as [->|Q].
           ++ now rewrite (run_unique sl sr' sr R' R).
           ++ apply IH; try assumption.
              apply (run_apart sl sr sl' sr' R R'). lia.
    + intros sl sr (R1 & R2 & R3 & R4 & R5 & R6 & R7 & R8) L.
      pose proof (R6 sl ltac:(lia) R4) as Y.
      rewrite (X sl) in Y; [discriminate Y|lia|exact R4].
Qed.

End TokenScan.

Lemma token_class (c : Z) : hasBits (charBits c) BITPatternToken = isTokenChar c.
Proof.
  by_char c.
  - change (hasBits 0 BITPatternToken) with false. unfold isTokenChar. cmp_cases.
  - apply eqb_prop.
    apply (char_forall (fun c => Bool.eqb (hasBits (charBits c) BITPatternToken) (isTokenChar c)));
      [vm_compute; reflexivity|lia].
  - change (hasBits unicodeBits BITPatternToken) with true. unfold isTokenChar. cmp_cases.
Qed.

(** The values seen by a [for ... of] loop over the iterator, from a scan
    position on: those of the runs that pass the test of [next], in order. *)
Lemma collect_spec (q : Parser) :
  Span.l (patternSpan q) mod 3 = 0 ->
  forall fuel it,
    PatternTokenIterator.l it = Span.i (patternSpan q) ->
    PatternTokenIterator.r it = Span.i (patternSpan q) + Span.l (patternSpan q) ->
    PatternTokenIterator.value it <> None ->
    (PatternTokenIterator.i it - Span.i (patternSpan q)) mod 3 = 0 ->
    Span.i (patternSpan q) <= PatternTokenIterator.i it ->
    (PatternTokenIterator.i it = Span.i (patternSpan q)
     \/ PatternTokenIterator.r it <= PatternTokenIterator.i it
     \/ hasBits (slotBits q (PatternTokenIterator.i it - 3)) BITPatternToken = false) ->
    PatternTokenIterator.r it - PatternTokenIterator.i it <= Z.of_nat fuel ->
    exists runs,
      PatternTokenIterator.collect fuel q it = (map (valueOfRun q) runs, false)
      /\ runsInOrder (PatternTokenIterator.i it) runs
      /\ forall sl sr,
           In (sl, sr) runs <->
           isRun q sl sr /\ PatternTokenIterator.i it <= sl
           /\ PatternTokenIterator.accepted (slices q) (maxTokenLength q)
                (Span.i (patternSpan q) + Span.l (patternSpan q)) sl sr = true.
Proof.
  intros L1.
  assert (RA : (Span.i (patternSpan q) + Span.l (patternSpan q) - Span.i (patternSpan q)) mod 3 = 0)
    by (clear - L1; Z.div_mod_to_equations; lia).
  pose proof (findToken_spec (slices q) (maxTokenLength q) _ _ RA) as FT.
  pose proof (run_unique (slices q) (Span.i (patternSpan q) + Span.l (patternSpan q))
                (Span.i (patternSpan q))) as RU.
  pose proof (run_apart (slices q) (Span.i (patternSpan q) + Span.l (patternSpan q))
                (Span.i (patternSpan q))) as RP.
  cbv zeta in FT, RU, RP.
  set (i0 := Span.i (patternSpan q)) in *. set (r := i0 + Span.l (patternSpan q)) in *.
  change (forall sl sr sr', isRun q sl sr -> isRun q sl sr' -> sr = sr') in RU.
  change (forall sl sr sl' sr', isRun q sl sr -> isRun q sl' sr' -> sl < sl' -> sr + 3 <= sl')
    in RP.
  induction fuel as [|n IH]; intros it E1 E2 V S1 S2 S3 F;
    cbn [PatternTokenIterator.collect]; unfold PatternTokenIterator.next; cbv zeta;
    rewrite E2 in *;
    (specialize (FT (Z.to_nat (r - PatternTokenIterator.i it)) (PatternTokenIterator.i it)
                 (conj S1 (conj S2 S3)) ltac:(lia)));
    destruct (PatternTokenIterator.findToken _ _ _ _ _) as [[sl sr]|].
  - destruct FT as ((R1 & R2 & R3 & _) & G & _). lia.
  - exists []. split; [reflexivity|]. split; [exact I|].
    intros sl sr. split; [intros []|]. intros (R & G & AC).
    rewrite (FT sl sr R G) in AC. discriminate AC.
  - destruct FT as (R & G & AC & (T1 & T2 & T3) & MN).
    destruct (PatternTokenIterator.value it) as [v0|]; [|now contradiction V].
    pose proof R as (R1 & R2 & R3 & _).
    set (v := PatternTokenIterator.mkValue _ _).
    destruct (IH (PatternTokenIterator.mk (PatternTokenIterator.l it) r (sr + 3) (Some v)
                    (PatternTokenIterator.done it)))
      as (runs & C1 & C2 & C3); try assumption; try reflexivity; try discriminate.
    { cbn [PatternTokenIterator.i PatternTokenIterator.r]. lia. }
    cbn [PatternTokenIterator.i PatternTokenIterator.r] in *.
    exists ((sl, sr) :: runs). rewrite C1. split_all.
    + cbn [map]. unfold valueOfRun, v. cbn [fst snd]. now rewrite E1.
    + cbn [runsInOrder]. split_all; (assumption || lia).
    + intros sl' sr'. cbn [In]. rewrite C3. split.
      * intros [Q|(R' & G' & AC')].
        -- injection Q as <- <-. now split_all.
        -- split_all; (assumption || lia).
      * intros (R' & G' & AC').
        destruct (Z.lt_trichotomy sl' sl) as [X|[X|X]].
        -- rewrite (MN sl' sr' R' G' X) in AC'. discriminate AC'.
        -- subst sl'. left. f_equal. exact (RU sl sr sr' R R').
        -- right. split_all; try assumption. exact (RP sl sr sl' sr' R R' X).
  - exists []. split; [reflexivity|]. split; [exact I|].
    intros sl sr. split; [intros []|]. intros (R & G & AC).
    rewrite (FT sl sr R G) in AC. discriminate AC.
Qed.

Lemma net_patternLeftOK (raw_ : list Z) (p : Parser) :
  category (analyze raw_ p) = CATStaticNetFilter -> patternLeftOK (analyze raw_ p).
Proof.
  intros C. destruct (analyze_spec raw_ p p (sameHost_refl p)) as (_ & A).
  destruct (analyzed_net _ A C) as (_ & (_ & _ & _ & PL) & _). exact PL.
Qed.

(** The test of [next] on a run, in a parser where the slice before the
    pattern does not keep a first token from being used. *)
Lemma accepted_run (q : Parser) (sl sr : Z) :
  0 <= Span.i (patternSpan q) -> patternLeftOK q -> isRun q sl sr ->
  PatternTokenIterator.accepted (slices q) (maxTokenLength q)
    (Span.i (patternSpan q) + Span.l (patternSpan q)) sl sr = true
  <-> runAccepted q sl sr.
Proof.
  intros I0 PL (R1 & R2 & R3 & R4 & R5 & R6 & R7 & R8).
  unfold PatternTokenIterator.accepted, runAccepted, slotOrigin. cbv zeta.
  assert (HN : forall v b, hasNoBits v b = negb (hasBits v b)).
  { intros v b. unfold hasBits. now rewrite negb_involutive. }
  rewrite !HN. fold (slotBits q (sl - 3)). fold (slotBits q sr).
  rewrite andb_true_iff, !orb_true_iff, !negb_true_iff, !Z.eqb_eq, Z.geb_le.
  assert (T : hasBits (slotBits q sl) BITPatternToken = true).
  { apply R6; [lia|exact R4]. }
  split; intros (A & B); (split; [|destruct B as [[B|B]|B] || destruct B as [B|[B|B]]; auto; lia]).
  - destruct A as [A|A]; [left; lia|now right].
  - destruct A as [A|A]; [|now right]. subst sl.
    destruct PL as [PL|[PL|PL]]; [now left|now right|].
    rewrite PL in T. discriminate T.
Qed.

(** The loop over the iterator of a pattern that is not empty. *)
Lemma tokens_runs (q : Parser) (it : PatternTokenIterator.t) :
  Span.l (patternSpan q) mod 3 = 0 -> Span.l (patternSpan q) <> 0 ->
  exists runs,
    PatternTokenIterator.tokens q it = (map (valueOfRun q) runs, false)
    /\ runsInOrder (Span.i (patternSpan q)) runs
    /\ forall sl sr,
         In (sl, sr) runs <->
         isRun q sl sr
         /\ PatternTokenIterator.accepted (slices q) (maxTokenLength q)
              (Span.i (patternSpan q) + Span.l (patternSpan q)) sl sr = true.
Proof.
  intros L1 N.
  unfold PatternTokenIterator.tokens, PatternTokenIterator.iterator. cbv zeta.
  apply Z.eqb_neq in N. rewrite N.
  destruct (collect_spec q L1
              (Z.to_nat (Span.i (patternSpan q) + Span.l (patternSpan q) - Span.i (patternSpan q)))
              (PatternTokenIterator.mk (Span.i (patternSpan q))
                 (Span.i (patternSpan q) + Span.l (patternSpan q)) (Span.i (patternSpan q))
                 (Some (PatternTokenIterator.mkValue [] 0)) false))
    as (runs & C1 & C2 & C3);
    cbn [PatternTokenIterator.l PatternTokenIterator.r PatternTokenIterator.i
         PatternTokenIterator.value]; try reflexivity; try discriminate; try lia.
  { now rewrite Z.sub_diag. }
  cbn [PatternTokenIterator.l PatternTokenIterator.r PatternTokenIterator.i
       PatternTokenIterator.value] in *.
  exists runs. split; [exact C1|]. split; [exact C2|].
  intros sl sr. rewrite C3. split.
  - intros (R & _ & AC). now split.
  - intros (R & AC). split; [exact R|]. split; [apply R|exact AC].
Qed.

(** X15. For a network filter with a pattern that is not empty, a
    [for ... of] loop over [patternTokens()] sees, in order, exactly the
    maximal runs of slices with pattern-token bits in the pattern span that
    have no [*] slice before them and no [*] slice after them, unless the
    run is at least [maxTokenLength] characters long; the value for a run
    is its text and the position of the text in the pattern.  The state in
    which earlier loops have left the iterator plays no part, and the loop
    does not throw. *)
Theorem pattern_tokens_are_the_accepted_runs (raw_ : list Z) (p : Parser)
    (it : PatternTokenIterator.t) :
  category (analyze raw_ p) = CATStaticNetFilter ->
  Span.l (patternSpan (analyze raw_ p)) <> 0 ->
  exists runs,
    patternTokens (analyze raw_ p) it = (map (valueOfRun (analyze raw_ p)) runs, false)
    /\ runsInOrder (Span.i (patternSpan (analyze raw_ p))) runs
    /\ forall sl sr,
         In (sl, sr) runs <->
         isRun (analyze raw_ p) sl sr /\ runAccepted (analyze raw_ p) sl sr.
Proof.
  intros C N.
  destruct (net_pattern_facts raw_ p C) as (OK & I0 & I1 & L0 & L1 & W & _ & _).
  pose proof (net_patternLeftOK raw_ p C) as PL.
  unfold patternTokens. rewrite C. change (CATStaticNetFilter =? CATStaticNetFilter) with true.
  cbv iota.
  set (q := analyze raw_ p) in *. clearbody q.
  destruct (tokens_runs q it L1 N) as (runs & C1 & C2 & C3).
  exists runs. split; [exact C1|]. split; [exact C2|].
  intros sl sr. rewrite C3. split.
  - intros (R & AC). split; [exact R|]. now apply accepted_run.
  - intros (R & AC). split; [exact R|]. now apply accepted_run.
Qed.

Lemma pattern_tokens_are_the_accepted_runs_witness :
  exists runs,
    patternTokens (analyze (codes "||ad.example*x^") freshParser) PatternTokenIterator.new
    = (map (valueOfRun (analyze (codes "||ad.example*x^") freshParser)) runs, false)
    /\ runsInOrder (Span.i (patternSpan (analyze (codes "||ad.example*x^") freshParser))) runs
    /\ forall sl sr,
         In (sl, sr) runs <->
         isRun (analyze (codes "||ad.example*x^") freshParser) sl sr
         /\ runAccepted (analyze (codes "||ad.example*x^") freshParser) sl sr.
Proof.
  apply (pattern_tokens_are_the_accepted_runs (codes "||ad.example*x^") freshParser
           PatternTokenIterator.new).
  - vm_compute. reflexivity.
  - vm_compute. discriminate.
Defined.

Lemma js_slice_js_slice (s : list Z) (a b x y : Z) :
  0 <= a -> a <= b -> b <= Z.of_nat (length s) -> 0 <= x -> x <= y -> y <= b - a ->
  js_slice (js_slice s a b) x y = js_slice s (a + x) (a + y).
Proof.
  intros A B C X Y Z.
  rewrite (js_slice_range (js_slice s a b)); try lia;
    [|rewrite js_slice_length by lia; lia].
  rewrite !(js_slice_range s) by lia.
  rewrite skipn_firstn_comm, firstn_firstn, skipn_skipn.
  f_equal; [lia|]. f_equal. lia.
Qed.

(** The value yielded for a run: text made of token characters, found at
    the position given in the text of the pattern span. *)
Lemma run_value (q : Parser) (sl sr : Z) :
  slicesOK q -> 0 <= Span.i (patternSpan q) -> Span.i (patternSpan q) mod 3 = 0 ->
  0 <= Span.l (patternSpan q) -> Span.l (patternSpan q) mod 3 = 0 ->
  Span.i (patternSpan q) + Span.l (patternSpan q) <= sliceWritePtr q - 3 ->
  isRun q sl sr ->
  let v := valueOfRun q (sl, sr) in
  PatternTokenIterator.token v <> []
  /\ forallb isTokenChar (PatternTokenIterator.token v) = true
  /\ 0 <= PatternTokenIterator.pos v
  /\ js_slice (strFromSpan (patternSpan q) q) (PatternTokenIterator.pos v)
       (PatternTokenIterator.pos v + Z.of_nat (length (PatternTokenIterator.token v)))
     = PatternTokenIterator.token v.
Proof.
  intros OK I0 I1 L0 L1 W (R1 & R2 & R3 & R4 & R5 & R6 & R7 & R8) v.
  unfold v, valueOfRun. cbn [fst snd PatternTokenIterator.token PatternTokenIterator.pos].
  set (i0 := Span.i (patternSpan q)) in *. set (l0 := Span.l (patternSpan q)) in *.
  assert (A1 : sl mod 3 = 0) by (clear - R4 I1; Z.div_mod_to_equations; lia).
  assert (A2 : sr mod 3 = 0) by (clear - R5 I1; Z.div_mod_to_equations; lia).
  assert (A3 : (sl + 3) mod 3 = 0) by now apply slot_next.
  assert (A4 : (i0 + l0) mod 3 = 0) by (clear - I1 L1; Z.div_mod_to_equations; lia).
  assert (S3 : sl + 3 <= sr) by (clear - A1 A2 R2; Z.div_mod_to_equations; lia).
  assert (P0 : 0 <= sl) by lia. assert (P3 : 0 <= sl + 3) by lia. assert (P1 : 0 <= sr) by lia.
  destruct (origin_le q i0 sl OK I0 I1 A1 R1 ltac:(lia)) as (O1 & O2 & _).
  destruct (origin_le q (sl + 3) sr OK P3 A3 A2 S3 ltac:(lia)) as (_ & O3 & _).
  destruct (origin_le q sr (i0 + l0) OK P1 A2 A4 R3 W) as (_ & O4 & O5).
  pose proof OK as (_ & _ & _ & _ & _ & S).
  destruct (S sl P0 A1 ltac:(lia)) as (F1 & _ & F3 & _). unfold slotLength in F1.
  fold (slotOrigin q sl) in F3. fold (slotOrigin q (sl + 3)) in F3. unfold slotLength in F3.
  assert (LEN : length (js_slice (raw q) (slotOrigin q sl) (slotOrigin q sr))
                = Z.to_nat (slotOrigin q sr - slotOrigin q sl))
    by (apply js_slice_length; lia).
  split_all.
  - intros E. rewrite E in LEN. cbn [length] in LEN. lia.
  - apply forallb_forall. intros c I.
    apply js_slice_In in I; try lia. destruct I as (x & X & <-).
    assert (E : sr = sl + 3 * Z.of_nat (Z.to_nat ((sr - sl) / 3)))
      by (clear - A1 A2 R2; Z.div_mod_to_equations; lia).
    destruct (char_slot q OK (Z.to_nat ((sr - sl) / 3)) sl P0 A1 ltac:(lia) x
                ltac:(rewrite <- E; exact X)) as (k & K1 & K2 & _ & K4).
    rewrite <- token_class, K4, hasBits_classOf by reflexivity.
    apply R6; [lia|]. clear - K2 R4. Z.div_mod_to_equations. lia.
  - lia.
  - unfold i0, l0. rewrite strFromSpan_text by assumption. fold i0 l0.
    rewrite js_slice_js_slice, LEN by lia. f_equal; lia.
Qed.

(** X16. Each value that [patternTokens()] yields for a network filter
    holds a token that is not empty and made of letters, digits, [%] and
    characters above U+007F only, and the token is the part of the text of
    the pattern span that starts at the position given with it. *)
Theorem pattern_tokens_are_token_text (raw_ : list Z) (p : Parser)
    (it : PatternTokenIterator.t) :
  category (analyze raw_ p) = CATStaticNetFilter ->
  Span.l (patternSpan (analyze raw_ p)) <> 0 ->
  Forall (fun v =>
            PatternTokenIterator.token v <> []
            /\ forallb isTokenChar (PatternTokenIterator.token v) = true
            /\ 0 <= PatternTokenIterator.pos v
            /\ js_slice (strFromSpan (patternSpan (analyze raw_ p)) (analyze raw_ p))
                 (PatternTokenIterator.pos v)
                 (PatternTokenIterator.pos v + Z.of_nat (length (PatternTokenIterator.token v)))
               = PatternTokenIterator.token v)
    (fst (patternTokens (analyze raw_ p) it)).
Proof.
  intros C N.
  destruct (net_pattern_facts raw_ p C) as (OK & I0 & I1 & L0 & L1 & W & _ & _).
  unfold patternTokens. rewrite C. change (CATStaticNetFilter =? CATStaticNetFilter) with true.
  cbv iota.
  set (q := analyze raw_ p) in *. clearbody q.
  destruct (tokens_runs q it L1 N) as (runs & -> & _ & C3). cbn [fst].
  apply Forall_forall. intros v I. apply in_map_iff in I.
  destruct I as ((sl & sr) & <- & I). apply C3 in I. destruct I as (R & _).
  now apply run_value.
Qed.

Lemma pattern_tokens_are_token_text_witness :
  Forall (fun v =>
            PatternTokenIterator.token v <> []
            /\ forallb isTokenChar (PatternTokenIterator.token v) = true
            /\ 0 <= PatternTokenIterator.pos v
            /\ js_slice (strFromSpan (patternSpan (analyze (codes "/ad-1%2F*") freshParser))
                          (analyze (codes "/ad-1%2F*") freshParser))
                 (PatternTokenIterator.pos v)
                 (PatternTokenIterator.pos v + Z.of_nat (length (PatternTokenIterator.token v)))
               = PatternTokenIterator.token v)
    (fst (patternTokens (analyze (codes "/ad-1%2F*") freshParser) PatternTokenIterator.new)).
Proof.
  apply (pattern_tokens_are_token_text (codes "/ad-1%2F*") freshParser PatternTokenIterator.new).
  - vm_compute. reflexivity.
  - vm_compute. discriminate.
Defined.

(** ** The options reported fit their context *)

Section OptionRules.
Import NetOptionsIterator.

Lemma netOptionTokens_get_name (token : list Z) (d : Z) :
  netOptionTokens_get token = Some d -> exists name, In (name, d) netOptionTokens.
Proof.
  unfold netOptionTokens_get.
  destruct (find _ netOptionTokens) as [[name d']|] eqn:F; [|discriminate].
  intros H. injection H as <-. apply find_some in F. exists name. apply F.
Qed.

Lemma validate_rules (e neg assigned : bool) (desc : option Z) :
  validate e neg assigned desc = OPTTokenInvalid
  \/ (desc = Some (validate e neg assigned desc)
      /\ descriptorRules e neg assigned (validate e neg assigned desc)).
Proof.
  unfold validate. destruct desc as [d|]; [|now left].
  destruct (_ || _) eqn:C; [now left|right]. split; [reflexivity|].
  rewrite !orb_false_iff in C. destruct C as ((((C1 & C2) & C3) & C4) & C5).
  assert (HN : forall v b, hasNoBits v b = negb (hasBits v b)).
  { intros v b. unfold hasBits. now rewrite negb_involutive. }
  rewrite !HN in *. unfold descriptorRules.
  destruct e, neg, assigned, (hasBits d OPTCanNegate), (hasBits d OPTBlockOnly),
    (hasBits d OPTAllowOnly), (hasBits d OPTMustAssign), (hasBits d OPTAllowMayAssign);
    cbn in *; try discriminate; repeat split; intros; congruence.
Qed.

(** The record written by one turn of the loop of [init]. *)
Lemma optionStep_record (e i_ : bool) (ropts : Z) (s : scan) :
  0 <= s_writePtr s ->
  recordOK e (s_optSlices (optionStep e i_ ropts s)) (s_writePtr s).
Proof.
  intros W. unfold optionStep.
  destruct (if hasBits (aget (slices (s_parser s)) (lopt s)) BITTilde
            then (if aget (slices (s_parser s)) (lopt s + 2) >? 1 then false else true, lopt s + 3)
            else (true, lopt s)) as [good ltok].
  destruct (findOptionEnd _ _ _ _ _ _ _) as [[a i] lval].
  set (p1 := set_slices a (s_parser s)).
  destruct (if good && negb (lval =? 0)
            then (let b := (aget (slices p1) (lval + 2) =? 1) && negb (lval + 3 =? i) in (b, b))
            else (good, false)) as [good' assigned] eqn:GE.
  assert (GA : good' = true ->
               assigned = negb ((if lval =? 0 then i else lval + 3) =? i)).
  { destruct good; cbn [andb] in GE; [|injection GE as <- <-; discriminate].
    destruct (Z.eqb_spec lval 0) as [L|L]; cbn [negb] in GE.
    - injection GE as <- <-. intros _. now rewrite Z.eqb_refl.
    - cbv zeta in GE. injection GE as <- <-. intros H.
      apply andb_prop in H. destruct H as (H1 & H2). now rewrite H1, H2. }
  clear GE.
  set (tok := js_slice _ _ _).
  pose proof (validate_rules e (negb (ltok =? lopt s)) assigned
                (if good' then netOptionTokens_get tok else None)) as V.
  set (d0 := validate e (negb (ltok =? lopt s)) assigned
               (if good' then netOptionTokens_get tok else None)) in *.
  assert (D0 : d0 = OPTTokenInvalid
               \/ ((exists name, In (name, d0) netOptionTokens)
                   /\ descriptorRules e (negb (ltok =? lopt s))
                        (negb ((if lval =? 0 then i else lval + 3) =? i)) d0)).
  { destruct V as [V|(V1 & V2)]; [now left|right].
    destruct good'; [|discriminate V1]. rewrite <- (GA eq_refl).
    split; [|exact V2]. now apply netOptionTokens_get_name with tok. }
  clearbody d0. clear V GA.
  assert (DI : OPTTokenInvalid = OPTTokenInvalid
               \/ ((exists name, In (name, OPTTokenInvalid) netOptionTokens)
                   /\ descriptorRules e (negb (ltok =? lopt s))
                        (negb ((if lval =? 0 then i else lval + 3) =? i)) OPTTokenInvalid))
    by now left.
  destruct (hasBits d0 OPTRedirectType);
    [destruct (redirectIndex s =? -1)
    |destruct (d0 .& 255 =? OPTTokenCsp); [destruct (cspIndex s =? -1)|]];
    (match goal with |- context [let '(o, p) := ?x in _] => destruct x as [o p] eqn:X end;
     cbv zeta; cbn [s_writePtr s_optSlices];
     match goal with
     | |- recordOK _ (aset _ _ _) _ => idtac
     end;
     match type of X with
     | context [aset (s_optSlices s) (s_writePtr s + 0) ?d] =>
         assert (O : aget (aset o (s_writePtr s + 5) i) (s_writePtr s) = d
                     /\ aget (aset o (s_writePtr s + 5) i) (s_writePtr s + 1) = lopt s
                     /\ aget (aset o (s_writePtr s + 5) i) (s_writePtr s + 2) = ltok
                     /\ aget (aset o (s_writePtr s + 5) i) (s_writePtr s + 4)
                        = (if lval =? 0 then i else lval + 3)
                     /\ aget (aset o (s_writePtr s + 5) i) (s_writePtr s + 5) = i)
           by (destruct (Z.eqb_spec lval 0); cbn [negb] in X; injection X as <- <-;
               split_all; aget_simpl; reflexivity)
     end;
     destruct O as (O0 & O1 & O2 & O4 & O5);
     unfold recordOK; rewrite O0, O1, O2, O4, O5; assumption).
Qed.

Lemma recordOK_ext (e : bool) (o o' : list Z) (w : Z) :
  (forall x, w <= x <= w + 5 -> aget o' x = aget o x) ->
  recordOK e o w -> recordOK e o' w.
Proof.
  intros H. unfold recordOK. now rewrite !H by lia.
Qed.

Lemma recordOK_invalidate (e : bool) (o : list Z) (j k : nat) :
  recordOK e o (6 * Z.of_nat k) ->
  recordOK e (aset o (6 * Z.of_nat j) OPTTokenInvalid) (6 * Z.of_nat k).
Proof.
  intros H. destruct (Nat.eq_dec j k) as [->|N].
  - left. now rewrite aget_aset_eq by lia.
  - revert H. apply recordOK_ext. intros x Hx. apply aget_aset_neq. lia.
Qed.

Lemma records_loop (e i_ : bool) (ropts : Z) (fuel : nat) :
  forall n s,
    s_writePtr s = 6 * Z.of_nat n ->
    (forall k, (k < n)%nat -> recordOK e (s_optSlices s) (6 * Z.of_nat k)) ->
    exists m,
      s_writePtr (optionsLoop fuel e i_ ropts s) = 6 * Z.of_nat m
      /\ forall k, (k < m)%nat ->
           recordOK e (s_optSlices (optionsLoop fuel e i_ ropts s)) (6 * Z.of_nat k).
Proof.
  induction fuel as [|f IH]; intros n s W R; cbn [optionsLoop].
  - now exists n.
  - destruct (lopt s <? ropts); [|now exists n].
    destruct (optionStep_spec e i_ ropts s ltac:(lia)) as (W' & O & _).
    pose proof (optionStep_record e i_ ropts s ltac:(lia)) as N.
    apply (IH (S n)).
    + rewrite W', W. lia.
    + intros k Hk. destruct (Nat.eq_dec k n) as [->|Q].
      * rewrite <- W. exact N.
      * apply (recordOK_ext e (s_optSlices s)); [|apply R; lia].
        intros x Hx. apply O. lia.
Qed.

Lemma items_records (p : Parser) (it : t) :
  exists (m : nat) (o : list Z),
    fst (items p it) = map (itemAt (snd (init p it)) o) (seq 0 m)
    /\ forall k, (k < m)%nat -> recordOK (isException p) o (6 * Z.of_nat k).
Proof.
  unfold items, init.
  destruct (Span.l (optionsSpan p) =? 0).
  - exists 0%nat, []. split; [reflexivity|]. intros k Hk. lia.
  - set (ropts := Span.i (optionsSpan p) + Span.l (optionsSpan p)).
    set (s0 := mkScan p (optSlices it) 0 0 (-1) (-1) 0 (Span.i (optionsSpan p))).
    assert (I0 : scanInv (flavorBits p) 0 s0).
    { unfold scanInv. cbv zeta. cbn [s0 s_writePtr redirectIndex cspIndex s_parser].
      split_all; try (intros; lia); try reflexivity; now left. }
    destruct (scanInv_loop (flavorBits p) (isException p) (parserIsInteractive p) ropts
                (Z.to_nat (ropts - Span.i (optionsSpan p))) 0%nat s0 I0) as [m Inv].
    destruct (records_loop (isException p) (parserIsInteractive p) ropts
                (Z.to_nat (ropts - Span.i (optionsSpan p))) 0%nat s0 eq_refl
                ltac:(intros k Hk; lia)) as (m' & W' & Rec).
    set (s := optionsLoop _ _ _ _ s0) in *.
    pose proof Inv as (W & _ & _ & _ & RI & CI & _).
    assert (m' = m) by lia. subst m'.
    assert (Cell : forall (o : list Z) (x : Z),
               x = -1 \/ (exists j, (j < m)%nat /\ x = 6 * Z.of_nat j) -> x <> -1 ->
               (forall k, (k < m)%nat -> recordOK (isException p) o (6 * Z.of_nat k)) ->
               forall k, (k < m)%nat ->
                 recordOK (isException p) (aset o x OPTTokenInvalid) (6 * Z.of_nat k)).
    { intros o x [Hx|(j & _ & ->)] Nx Ho k Hk; [contradiction|].
      apply recordOK_invalidate, Ho, Hk. }
    destruct (Z.eqb_spec (cspIndex s) (-1)) as [C1|C1];
      destruct (Z.eqb_spec (redirectIndex s) (-1)) as [C2|C2];
      cbn [negb andb];
      destruct (negb (typeCount s =? 0));
      destruct (negb (typeCount s =? 1) && negb (networkTypeCount s =? 1));
      destruct (parserIsInteractive p) eqn:PI;
      cbn [fst snd];
      eexists m, _;
      (split;
       [ rewrite (collect_items _ m _ 0%nat);
         cbn [writePtr readPtr value done optSlices]; try lia; try discriminate;
         rewrite ?Nat.sub_0_r; reflexivity
       | repeat (apply Cell; [assumption|assumption|]); exact Rec ]).
Qed.

(** X17. Every option that [netOptions()] reports has the invalid id, or
    the id of a descriptor of [netOptionTokens] that fits the context: a
    negated option can be negated, a block-only option is not in an
    exception filter and an allow-only option is not in a block filter, an
    option with a value is one that must be assigned, and an option that
    must be assigned has its value, unless the filter is an exception and
    the option may do without. *)
Theorem reported_options_fit_context (p : Parser) (it : t) :
  Forall (itemOK (isException p)) (fst (items p it)).
Proof.
  destruct (items_records p it) as (m & o & -> & R).
  apply Forall_forall. intros x I. apply in_map_iff in I.
  destruct I as (k & <- & I). apply in_seq in I.
  destruct (R k ltac:(lia)) as [D|((name & N) & DR)]; unfold itemOK, itemAt; cbv zeta;
    cbn [id val not]; rewrite Z.add_0_r.
  - left. now rewrite D.
  - right. exists name, (aget o (6 * Z.of_nat k)). split; [exact N|]. split; [reflexivity|].
    destruct (negb (aget o (6 * Z.of_nat k + 4) =? aget o (6 * Z.of_nat k + 5))); exact DR.
Qed.

Lemma set_slices_same (p : Parser) : set_slices (slices p) p = p.
Proof. now destruct p. Qed.

Lemma findOptionEnd_quiet (a : list Z) (lopt_ ropts : Z) :
  forall fuel i lval, fst (fst (findOptionEnd fuel false a lopt_ ropts i lval)) = a.
Proof.
  induction fuel as [|f IH]; intros i lval; cbn [findOptionEnd]; [reflexivity|].
  destruct (i <? ropts); [|reflexivity].
  destruct (hasBits _ BITComma); [reflexivity|]. apply IH.
Qed.

Lemma optionStep_quiet (e : bool) (ropts : Z) (s : scan) :
  s_parser (optionStep e false ropts s) = s_parser s.
Proof.
  unfold optionStep.
  destruct (if hasBits (aget (slices (s_parser s)) (lopt s)) BITTilde
            then (if aget (slices (s_parser s)) (lopt s + 2) >? 1 then false else true, lopt s + 3)
            else (true, lopt s)) as [good ltok].
  pose proof (findOptionEnd_quiet (slices (s_parser s)) (lopt s) ropts
                (Z.to_nat (ropts - ltok)) ltok 0) as Q.
  destruct (findOptionEnd _ _ _ _ _ _ _) as [[a i] lval]. cbn [fst] in Q. subst a.
  rewrite set_slices_same.
  destruct (if good && negb (lval =? 0)
            then (let b := (aget (slices (s_parser s)) (lval + 2) =? 1) && negb (lval + 3 =? i)
                  in (b, b))
            else (good, false)) as [good' assigned].
  cbn [andb].
  repeat match goal with
         | |- context [if ?b then _ else _] => destruct b
         end; reflexivity.
Qed.

Lemma optionsLoop_quiet (e : bool) (ropts : Z) :
  forall fuel s, s_parser (optionsLoop fuel e false ropts s) = s_parser s.
Proof.
  induction fuel as [|f IH]; intros s; cbn [optionsLoop]; [reflexivity|].
  destruct (lopt s <? ropts); [|reflexivity]. now rewrite IH, optionStep_quiet.
Qed.

(** X18. When the parser is not interactive, a loop over [netOptions()]
    leaves the parser as it was: the slices are marked in interactive mode
    only. *)
Theorem options_loop_keeps_the_parser (p : Parser) (it : t) :
  parserIsInteractive p = false -> snd (items p it) = p.
Proof.
  intros H. unfold items, init. rewrite H.
  destruct (Span.l (optionsSpan p) =? 0); [reflexivity|]. cbv zeta. cbn [andb].
  rewrite optionsLoop_quiet. cbn [s_parser].
  repeat match goal with
         | |- context [if ?b then _ else _] => destruct b
         end; reflexivity.
Qed.

Lemma options_loop_keeps_the_parser_witness :
  snd (items (analyze (codes "||a.b^$~image,domain=c.d") freshParser) new)
  = analyze (codes "||a.b^$~image,domain=c.d") freshParser.
Proof.
  apply (options_loop_keeps_the_parser (analyze (codes "||a.b^$~image,domain=c.d") freshParser) new).
  vm_compute. reflexivity.
Defined.

End OptionRules.

(** ** The flavor bits through the analysis *)

Lemma keepsFlavor_refl (m : Z) (p : Parser) : keepsFlavor m p p.
Proof. reflexivity. Qed.

Lemma keepsFlavor_trans (m : Z) (p q r : Parser) :
  keepsFlavor m p q -> keepsFlavor m q r -> keepsFlavor m p r.
Proof. unfold keepsFlavor. congruence. Qed.

Lemma keepsFlavor_splitSlot (m slot l : Z) (p : Parser) : keepsFlavor m p (splitSlot slot l p).
Proof. reflexivity. Qed.

Lemma keepsFlavor_orFlavor (m b : Z) (p : Parser) :
  b .& m = 0 -> keepsFlavor m p (orFlavor b p).
Proof. intros H. unfold keepsFlavor. psimpl. now apply hasBits_lor_other. Qed.

Lemma keepsFlavor_andNotFlavor (m b : Z) (p : Parser) :
  b .& m = 0 -> keepsFlavor m p (andNotFlavor b p).
Proof. intros H. unfold keepsFlavor. psimpl. now apply hasBits_andnot_other. Qed.

Lemma keepsFlavor_set_category (m c : Z) (p : Parser) : keepsFlavor m p (set_category c p).
Proof. reflexivity. Qed.

Lemma land_lor_disjoint (a b m : Z) : a .& m = 0 -> b .& m = 0 -> (a .| b) .& m = 0.
Proof. intros A B. now rewrite Z.land_lor_distr_l, A, B. Qed.

Section NetFlavor.

(** A mask apart from the flavor bits that [analyzeNet] sets or clears
    after the exception declarator. *)
Variable m : Z.
Hypothesis m_error : BITFlavorError .& m = 0.
Hypothesis m_regex : BITFlavorNetRegex .& m = 0.
Hypothesis m_leftURL : BITFlavorNetLeftURLAnchor .& m = 0.
Hypothesis m_leftHn : BITFlavorNetLeftHnAnchor .& m = 0.
Hypothesis m_rightURL : BITFlavorNetRightURLAnchor .& m = 0.
Hypothesis m_rightHn : BITFlavorNetRightHnAnchor .& m = 0.
Hypothesis m_ignore : BITFlavorIgnore .& m = 0.

Ltac apart :=
  first [ assumption
        | apply land_lor_disjoint; assumption ].

Ltac flavor_step :=
  match goal with
  | |- keepsFlavor _ ?p ?p => apply keepsFlavor_refl
  | |- keepsFlavor _ _ (if ?b then _ else _) => destruct b
  | |- keepsFlavor _ _ (orFlavor (if ?b then _ else _) _) => destruct b
  | |- keepsFlavor _ _ (orFlavor _ _) =>
      eapply keepsFlavor_trans; [|apply keepsFlavor_orFlavor; apart]
  | |- keepsFlavor _ _ (andNotFlavor _ _) =>
      eapply keepsFlavor_trans; [|apply keepsFlavor_andNotFlavor; apart]
  | |- keepsFlavor _ _ (splitSlot _ _ _) =>
      eapply keepsFlavor_trans; [|apply keepsFlavor_splitSlot]
  | |- keepsFlavor _ ?p (?f _ ?q) =>
      apply keepsFlavor_trans with q; [|reflexivity]
  | |- keepsFlavor _ ?p (?f _ _ _ ?q) =>
      apply keepsFlavor_trans with q; [|reflexivity]
  end.

Lemma keepsFlavor_optionsAnchor (i ob : Z) (p : Parser) :
  keepsFlavor m p (analyzeNet_optionsAnchor i ob p).
Proof.
  unfold analyzeNet_optionsAnchor. cbv zeta.
  match goal with |- keepsFlavor _ _ (let '(_, _) := ?x in _) =>
    assert (F : keepsFlavor m p (snd x)); [|destruct x as [i' q]; cbn [snd] in F] end.
  { destruct (_ >? 1); [|apply keepsFlavor_refl].
    destruct (_ =? i); cbn [snd]; [|apply keepsFlavor_splitSlot].
    apply keepsFlavor_trans with (orFlavor BITFlavorError p);
      [now apply keepsFlavor_orFlavor|].
    destruct (interactive _); reflexivity. }
  eapply keepsFlavor_trans; [exact F|]. reflexivity.
Qed.

Lemma keepsFlavor_options (islice : Z) (p : Parser) :
  keepsFlavor m p (snd (analyzeNet_options islice p)).
Proof.
  rewrite analyzeNet_options_blocks. unfold analyzeNet_optionsBlocks. cbv zeta.
  assert (F : keepsFlavor m p (analyzeNet_assumePattern islice p)) by reflexivity.
  set (q := analyzeNet_assumePattern islice p) in *. clearbody q.
  match goal with |- keepsFlavor _ _ (snd (let '(_, _) := ?x in _)) =>
    assert (G : keepsFlavor m q (snd x)); [|destruct x as [re q']; cbn [snd] in *] end.
  { destruct (negb _); [|apply keepsFlavor_refl].
    destruct (findOptionsAnchor _ _ _ _ _) as [i ob].
    destruct (i >=? islice); cbn [snd]; [|apply keepsFlavor_refl].
    apply keepsFlavor_optionsAnchor. }
  apply keepsFlavor_trans with q; [exact F|]. apply keepsFlavor_trans with q'; [exact G|].
  destruct re; [now apply keepsFlavor_orFlavor|apply keepsFlavor_refl].
Qed.

Lemma keepsFlavor_leftAnchor (p : Parser) : keepsFlavor m p (analyzeNet_leftAnchor p).
Proof. unfold analyzeNet_leftAnchor. repeat flavor_step. Qed.

Lemma keepsFlavor_rightAnchor (p : Parser) : keepsFlavor m p (analyzeNet_rightAnchor p).
Proof. unfold analyzeNet_rightAnchor. repeat flavor_step. Qed.

Lemma keepsFlavor_anchors (b : bool) (p : Parser) : keepsFlavor m p (analyzeNet_anchors b p).
Proof.
  unfold analyzeNet_anchors. destruct (negb b).
  - eapply keepsFlavor_trans; [|apply keepsFlavor_rightAnchor].
    eapply keepsFlavor_trans; [|apply keepsFlavor_leftAnchor]. reflexivity.
  - reflexivity.
Qed.

Lemma keepsFlavor_getNetPattern (p : Parser) : keepsFlavor m p (snd (getNetPattern p)).
Proof.
  unfold getNetPattern. destruct (pattern p); [|apply keepsFlavor_refl].
  destruct (_ =? 0); [apply keepsFlavor_refl|].
  destruct (hasBits _ _); reflexivity.
Qed.

Lemma keepsFlavor_spaces (p : Parser) : keepsFlavor m p (analyzeNet_spaces p).
Proof.
  unfold analyzeNet_spaces.
  destruct (findLastSpace _ _ _ _ _) as [j pb].
  destruct (negb (j =? 0)); [|reflexivity].
  match goal with |- context [getNetPattern ?q] =>
    pose proof (keepsFlavor_getNetPattern q) as F; destruct (getNetPattern q) as [s q'] end.
  cbn [snd] in F.
  apply keepsFlavor_trans with q'.
  - eapply keepsFlavor_trans; [|exact F]. reflexivity.
  - destruct (reIsLocalhostRedirect s); repeat flavor_step.
Qed.

Lemma keepsFlavor_leadingWildcard (p : Parser) : keepsFlavor m p (analyzeNet_leadingWildcard p).
Proof. unfold analyzeNet_leadingWildcard. repeat flavor_step. Qed.

Lemma keepsFlavor_trailingWildcard (p : Parser) : keepsFlavor m p (analyzeNet_trailingWildcard p).
Proof. unfold analyzeNet_trailingWildcard. repeat flavor_step. Qed.

Lemma keepsFlavor_pointlessAnchors (p : Parser) : keepsFlavor m p (analyzeNet_pointlessAnchors p).
Proof. unfold analyzeNet_pointlessAnchors. repeat flavor_step. Qed.

Lemma keepsFlavor_wildcards (p : Parser) : keepsFlavor m p (analyzeNet_wildcards p).
Proof.
  unfold analyzeNet_wildcards.
  eapply keepsFlavor_trans; [|apply keepsFlavor_pointlessAnchors].
  eapply keepsFlavor_trans; [|apply keepsFlavor_trailingWildcard].
  apply keepsFlavor_leadingWildcard.
Qed.

(** [analyzeNet] after the exception declarator. *)
Lemma keepsFlavor_analyzeNet (p : Parser) :
  keepsFlavor m (snd (analyzeNet_exception p)) (analyzeNet p).
Proof.
  unfold analyzeNet. destruct (analyzeNet_exception p) as [islice q]. cbn [snd].
  pose proof (keepsFlavor_options islice q) as O.
  destruct (analyzeNet_options islice q) as [re q1]. cbn [snd] in O.
  eapply keepsFlavor_trans; [exact O|].
  eapply keepsFlavor_trans; [apply (keepsFlavor_anchors re)|].
  eapply keepsFlavor_trans; [apply keepsFlavor_spaces|].
  eapply keepsFlavor_trans; [apply keepsFlavor_wildcards|]. apply keepsFlavor_set_category.
Qed.

End NetFlavor.

(** ** Exception filters *)

Lemma findInlineComment_space (fuel : nat) (h : Z) (p : Parser) :
  findInlineComment fuel h p = p
  \/ exists h',
       findInlineComment fuel h p
       = set_commentSpan (Span.mk (h' - 3) (Span.i (rightSpaceSpan p) - h')) p
       /\ hasBits (aget (slices p) (h' - 3)) BITSpace = true.
Proof.
  revert h. induction fuel as [|n IH]; intros h; cbn [findInlineComment].
  - destruct (hasBits _ BITSpace) eqn:S; [right; exists h; now split|].
    destruct (_ =? -1); now left.
  - destruct (hasBits _ BITSpace) eqn:S; [right; exists h; now split|].
    destruct (_ =? -1); [now left|]. apply IH.
Qed.

(** The comment span when [analyze] goes on with [analyzeNet]: it starts
    at the right space, or at a slice of whitespace. *)
Lemma analyze_head_comment (raw_ : list Z) (p0 p : Parser) :
  analyze_head raw_ p0 = ToAnalyzeNet p ->
  exists c, p = set_commentSpan c (slice raw_ p0)
    /\ (Span.i c = Span.i (rightSpaceSpan (slice raw_ p0))
        \/ hasBits (slotBits (slice raw_ p0) (Span.i c)) BITSpace = true).
Proof.
  unfold analyze_head. set (q := slice raw_ p0).
  destruct (_ =? _); [discriminate|].
  destruct (hasBits _ BITLineComment).
  { destruct (_ =? CATStaticExtFilter); discriminate. }
  set (q1 := set_commentSpan _ q).
  assert (Q1 : forall c, set_commentSpan c q1 = set_commentSpan c q) by reflexivity.
  assert (C1 : category q1 = CATNone) by apply (slice_resets raw_ p0).
  assert (D : exists c, q1 = set_commentSpan c q
                /\ (Span.i c = Span.i (rightSpaceSpan q)
                    \/ hasBits (slotBits q (Span.i c)) BITSpace = true)).
  { eexists. split; [reflexivity|]. left. reflexivity. }
  destruct (hasBits (allBits q1) BITHash); [|intros H; injection H as <-; exact D].
  destruct (negb _); [|intros H; injection H as <-; exact D].
  destruct (analyzeExt_cases (findFirstMatch (Span.l (leftSpaceSpan q)) BITHash q1) q1) as [E|E].
  - rewrite E, C1. change (CATNone =? CATStaticExtFilter) with false.
    destruct (negb _).
    + intros H. injection H as <-.
      destruct (findInlineComment_space (Z.to_nat (sliceWritePtr q))
                  (findFirstMatch (Span.l (leftSpaceSpan q)) BITHash q1) q1) as [F|(h & F & S)];
        rewrite F; [exact D|]. rewrite Q1.
      eexists. split; [reflexivity|]. right. exact S.
    + intros H. injection H as <-. exact D.
  - rewrite E. change (CATStaticExtFilter =? CATStaticExtFilter) with true. discriminate.
Qed.

Lemma at_class (c : Z) : hasBits (charBits c) BITAt = (c =? 64).
Proof. apply char_of_class; try reflexivity. lia. Qed.

(** The block for the exception declarator sets the flavor when the line
    starts with a slice of two or more [@] before the comment. *)
Lemma exception_flag (q : Parser) :
  flavorBits q = 0 -> Span.i (leftSpaceSpan q) = 0 ->
  hasBits (flavorBits (snd (analyzeNet_exception q))) BITFlavorException
  = (0 <? Span.i (commentSpan q)) && hasBits (aget (slices q) 0) BITAt
    && (aget (slices q) 2 >=? 2).
Proof.
  intros F L. unfold analyzeNet_exception. cbv zeta. psimpl. rewrite L. cbn [Z.add].
  destruct ((0 <? Span.i (commentSpan q)) && hasBits (aget (slices q) 0) BITAt);
    cbn [andb]; [|cbn [snd]; psimpl; now rewrite F].
  destruct (aget (slices q) 2 >=? 2); cbn [snd]; psimpl; [|now rewrite F].
  apply hasBits_lor_same. discriminate.
Qed.

(** X19. A network filter is an exception filter exactly when the line
    starts with [@@], at its very first character: [isException] is false
    for a network filter with whitespace before the [@@]. *)
Theorem exception_iff_starts_with_at_at (raw_ : list Z) (p : Parser) :
  category (analyze raw_ p) = CATStaticNetFilter ->
  isException (analyze raw_ p) = true <-> exists rest, raw_ = 64 :: 64 :: rest.
Proof.
  intros C. pose proof (analyze_head_spec raw_ p p (sameHost_refl p)) as X.
  unfold analyze in *. destruct (analyze_head raw_ p) as [r|q] eqn:AH; cbn [headResult] in X.
  { destruct X as (_ & (N & _)). contradiction. }
  destruct X as (_ & NE).
  destruct (analyze_head_comment raw_ p q AH) as (c & Eq & CI).
  unfold isException.
  rewrite (keepsFlavor_analyzeNet BITFlavorException) by reflexivity.
  rewrite exception_flag; [|apply NE|apply NE].
  destruct raw_ as [|c0 rest0].
  { exfalso. destruct NE as ((_ & W & _) & _). rewrite Eq in W. cbn in W. lia. }
  pose proof (slice_runsDiffer (c0 :: rest0) p) as D.
  pose proof (slice_nonempty c0 rest0 p) as S.
  set (s := slice (c0 :: rest0) p) in *. clearbody s.
  unfold slicedState in S. cbv zeta in S.
  destruct S as (S1 & S2 & S3 & S4 & S5 & S6 & S7 & S8 & S9 & S10 & S11 & _).
  subst q. psimpl.
  pose proof (S8 0 ltac:(lia) eq_refl ltac:(lia)) as (A1 & A2 & A3 & A4).
  cbn [Z.add] in A1, A2, A3, A4. rewrite S7 in A3, A4. cbn [Z.add] in A3.
  split.
  - intros H. apply andb_prop in H. destruct H as (H & H3).
    apply andb_prop in H. destruct H as (H1 & H2).
    apply Z.geb_le in H3.
    assert (B0 : nth 0 (c0 :: rest0) 0 = 64).
    { apply Z.eqb_eq. rewrite <- at_class. change 0%nat with (Z.to_nat 0).
      rewrite A4 by lia. exact H2. }
    assert (B1 : nth 1 (c0 :: rest0) 0 = 64).
    { apply Z.eqb_eq. rewrite <- at_class. change 1%nat with (Z.to_nat 1).
      rewrite A4 by lia. exact H2. }
    cbn [nth] in B0. subst c0. destruct rest0 as [|c1 rest1]; [discriminate B1|].
    cbn [nth] in B1. subst c1. now exists rest1.
  - intros (rest & E). injection E as -> ->.
    assert (B0 : aget (slices s) 0 = BITAt).
    { rewrite <- (A4 0) by lia. reflexivity. }
    rewrite B0. change (hasBits BITAt BITAt) with true. rewrite andb_true_r.
    apply andb_true_intro. split.
    + apply Z.ltb_lt. destruct CI as [CI|CI].
      * rewrite CI, S11. destruct (_ && _) eqn:R; psimpl; [|lia].
        apply andb_prop in R. destruct R as (R & _). lia.
      * destruct (Z.lt_trichotomy (Span.i c) 0) as [N|[Z0|P]]; [exfalso|exfalso|exact P].
        -- unfold slotBits in CI. rewrite aget_neg in CI by lia. discriminate CI.
        -- unfold slotBits in CI. rewrite Z0, B0 in CI. discriminate CI.
    + apply Z.geb_le.
      destruct (Z.le_gt_cases 2 (aget (slices s) 2)) as [G|G]; [exact G|exfalso].
      assert (A5 : aget (slices s) 4 = 1) by lia.
      destruct (Z.eq_dec (sliceWritePtr s) 6) as [W6|W6].
      * rewrite W6 in S5. change (6 - 2) with 4 in S5. cbn [length] in S5. lia.
      * assert (W9 : 9 <= sliceWritePtr s) by (clear - W6 S2 S3; Z.div_mod_to_equations; lia).
        pose proof (S8 3 ltac:(lia) eq_refl ltac:(lia)) as (E1 & E2 & E3 & E4).
        change (3 + 1) with 4 in *. change (3 + 2) with 5 in *. change (3 + 4) with 7 in *.
        specialize (E4 1 ltac:(lia)). change (Z.to_nat 1) with 1%nat in E4. cbn [nth] in E4.
        apply (D 0); try reflexivity; try lia. unfold slotBits. cbn [Z.add].
        rewrite B0, <- E4. reflexivity.
Qed.

Lemma exception_iff_starts_with_at_at_witness :
  isException (analyze (codes "@@||a.b^") freshParser) = true
  <-> exists rest, codes "@@||a.b^" = 64 :: 64 :: rest.
Proof.
  apply (exception_iff_starts_with_at_at (codes "@@||a.b^") freshParser).
  vm_compute. reflexivity.
Defined.

(** ** A flavor that is never set *)

Section ExtFlavor.

(** A mask apart from the flavor bits that [analyzeExt] sets. *)
Variable m : Z.
Hypothesis m_exception : BITFlavorException .& m = 0.
Hypothesis m_style : BITFlavorExtStyle .& m = 0.
Hypothesis m_strong : BITFlavorExtStrong .& m = 0.
Hypothesis m_unsupported : BITFlavorUnsupported .& m = 0.
Hypothesis m_scriptlet : BITFlavorExtScriptlet .& m = 0.
Hypothesis m_html : BITFlavorExtHTML .& m = 0.
Hypothesis m_cosmetic : BITFlavorExtCosmetic .& m = 0.

Lemma keepsFlavor_analyzeExtPattern (p : Parser) : keepsFlavor m p (analyzeExtPattern p).
Proof.
  unfold analyzeExtPattern.
  destruct (strFromSpan _ _); [now apply keepsFlavor_orFlavor|].
  destruct (_ && _); [now apply keepsFlavor_orFlavor|].
  destruct (hasBits _ BITCaret); cbv zeta.
  - apply keepsFlavor_trans with (orFlavor BITFlavorExtHTML p);
      [now apply keepsFlavor_orFlavor|].
    destruct (negb _); [now apply keepsFlavor_orFlavor|apply keepsFlavor_refl].
  - apply keepsFlavor_trans with (orFlavor BITFlavorExtCosmetic p);
      [now apply keepsFlavor_orFlavor|].
    destruct (negb _); [now apply keepsFlavor_orFlavor|apply keepsFlavor_refl].
Qed.

Lemma hasBits_lor_apart (a b : Z) : b .& m = 0 -> hasBits a m = false -> hasBits (a .| b) m = false.
Proof. intros H A. now rewrite hasBits_lor_other. Qed.

Lemma noFlavor_close (from to fb : Z) (p : Parser) :
  hasBits fb m = false -> hasBits (flavorBits p) m = false ->
  hasBits (flavorBits (analyzeExt_close from to fb p)) m = false.
Proof.
  intros F P. unfold analyzeExt_close. destruct (hasNoBits _ _); [exact P|]. cbv zeta.
  rewrite keepsFlavor_analyzeExtPattern. exact F.
Qed.

Lemma noFlavor_flavor (from to fb : Z) (p : Parser) :
  hasBits fb m = false -> hasBits (flavorBits p) m = false ->
  hasBits (flavorBits (analyzeExt_flavor from to fb p)) m = false.
Proof.
  intros F P. unfold analyzeExt_flavor. cbv zeta.
  repeat match goal with
         | |- hasBits (flavorBits (if ?b then _ else _)) _ = _ => destruct b
         end; try exact P; apply noFlavor_close; try exact P;
    repeat (apply hasBits_lor_apart; [assumption|]); try exact F.
  all: match goal with
       | |- hasBits (_ .| (if ?b then _ else _)) _ = _ =>
           destruct b; apply hasBits_lor_apart; assumption
       end.
Qed.

Lemma noFlavor_analyzeExt (from : Z) (p : Parser) :
  hasBits (flavorBits p) m = false ->
  hasBits (flavorBits (analyzeExt from p)) m = false.
Proof.
  intros P. unfold analyzeExt. cbv zeta.
  repeat match goal with
         | |- hasBits (flavorBits (if ?b then _ else _)) _ = _ => destruct b
         end; try exact P;
    try (apply noFlavor_flavor; try exact P;
         repeat (apply hasBits_lor_apart; [assumption|]); reflexivity);
    rewrite keepsFlavor_analyzeExtPattern; try exact P.
  all: destruct (_ =? 2); exact P.
Qed.

End ExtFlavor.

(** X20. [patternHasSpace] is false after [analyze], whatever the line:
    nothing in the analysis sets [BITFlavorNetSpaceInPattern]. *)
Theorem patternHasSpace_is_never_true (raw_ : list Z) (p : Parser) :
  patternHasSpace (analyze raw_ p) = false.
Proof.
  unfold patternHasSpace.
  assert (X : forall from q, hasBits (flavorBits q) BITFlavorNetSpaceInPattern = false ->
                hasBits (flavorBits (analyzeExt from q)) BITFlavorNetSpaceInPattern = false)
    by (intros from q; apply noFlavor_analyzeExt; reflexivity).
  assert (N : forall q, hasBits (flavorBits q) BITFlavorNetSpaceInPattern = false ->
                hasBits (flavorBits (analyzeNet q)) BITFlavorNetSpaceInPattern = false).
  { intros q Q. rewrite (keepsFlavor_analyzeNet BITFlavorNetSpaceInPattern) by reflexivity.
    unfold analyzeNet_exception. cbv zeta.
    repeat match goal with
           | |- hasBits (flavorBits (snd (if ?b then _ else _))) _ = _ => destruct b
           end; cbn [snd]; try exact Q.
    rewrite keepsFlavor_orFlavor by reflexivity.
    destruct (_ >? 2); exact Q. }
  assert (S0 : flavorBits (slice raw_ p) = 0) by apply (slice_resets raw_ p).
  unfold analyze, analyze_head. cbv zeta.
  set (s := slice raw_ p) in *. clearbody s.
  destruct (_ =? Span.i (rightSpaceSpan s)); [now rewrite S0|].
  destruct (hasBits _ BITLineComment).
  - assert (P : hasBits (flavorBits (if hasBits (aget (slices s) (Span.l (leftSpaceSpan s))) BITHash
                                     then analyzeExt (Span.l (leftSpaceSpan s)) s else s))
                  BITFlavorNetSpaceInPattern = false).
    { destruct (hasBits _ BITHash); [apply X|]; now rewrite S0. }
    destruct (_ =? CATStaticExtFilter); exact P.
  - set (q := set_commentSpan _ s).
    assert (Q : hasBits (flavorBits q) BITFlavorNetSpaceInPattern = false)
      by (unfold q; psimpl; now rewrite S0).
    clearbody q.
    destruct (hasBits (allBits q) BITHash); [|now apply N].
    destruct (negb _); [|now apply N].
    pose proof (X (findFirstMatch (Span.l (leftSpaceSpan s)) BITHash q) q Q) as E.
    destruct (_ =? CATStaticExtFilter); [exact E|].
    destruct (negb _); apply N; [|exact E].
    destruct (findInlineComment_cases
                (Z.to_nat (sliceWritePtr (analyzeExt (findFirstMatch (Span.l (leftSpaceSpan s))
                                                        BITHash q) q)))
                (findFirstMatch (Span.l (leftSpaceSpan s)) BITHash q)
                (analyzeExt (findFirstMatch (Span.l (leftSpaceSpan s)) BITHash q) q))
      as [F|(h & F)]; rewrite F; exact E.
Qed.

(** ** The text that [getPattern] and [getNetPattern] return *)

Lemma keepsPattern_refl (p : Parser) : keepsPattern p p.
Proof. reflexivity. Qed.

Lemma keepsPattern_trans (p q r : Parser) :
  keepsPattern p q -> keepsPattern q r -> keepsPattern p r.
Proof. unfold keepsPattern. congruence. Qed.

Lemma keepsPattern_splitSlot (slot l : Z) (p : Parser) : keepsPattern p (splitSlot slot l p).
Proof. reflexivity. Qed.

Lemma keepsPattern_orFlavor (b : Z) (p : Parser) : keepsPattern p (orFlavor b p).
Proof. reflexivity. Qed.

Lemma keepsPattern_andNotFlavor (b : Z) (p : Parser) : keepsPattern p (andNotFlavor b p).
Proof. reflexivity. Qed.

Lemma keepsPattern_set_category (c : Z) (p : Parser) : keepsPattern p (set_category c p).
Proof. reflexivity. Qed.

Lemma keepsPattern_set_commentSpan (c : Span.t) (p : Parser) :
  keepsPattern p (set_commentSpan c p).
Proof. reflexivity. Qed.

Ltac pattern_step :=
  match goal with
  | |- keepsPattern ?p ?p => apply keepsPattern_refl
  | |- keepsPattern _ (if ?b then _ else _) => destruct b
  | |- keepsPattern _ (orFlavor _ _) =>
      eapply keepsPattern_trans; [|apply keepsPattern_orFlavor]
  | |- keepsPattern _ (andNotFlavor _ _) =>
      eapply keepsPattern_trans; [|apply keepsPattern_andNotFlavor]
  | |- keepsPattern _ (splitSlot _ _ _) =>
      eapply keepsPattern_trans; [|apply keepsPattern_splitSlot]
  | |- keepsPattern ?p (?f _ ?q) =>
      apply keepsPattern_trans with q; [|reflexivity]
  | |- keepsPattern ?p (?f _ _ _ ?q) =>
      apply keepsPattern_trans with q; [|reflexivity]
  end.

Lemma keepsPattern_analyzeExtPattern (p : Parser) : keepsPattern p (analyzeExtPattern p).
Proof. destruct (analyzeExtPattern_flavor p) as [f E]. rewrite E. reflexivity. Qed.

Lemma keepsPattern_close (from to fb : Z) (p : Parser) :
  keepsPattern p (analyzeExt_close from to fb p).
Proof.
  unfold analyzeExt_close. destruct (hasNoBits _ _); [apply keepsPattern_refl|]. cbv zeta.
  eapply keepsPattern_trans; [|apply keepsPattern_analyzeExtPattern].
  destruct (_ >? 1); reflexivity.
Qed.

Lemma keepsPattern_flavor (from to fb : Z) (p : Parser) :
  keepsPattern p (analyzeExt_flavor from to fb p).
Proof.
  unfold analyzeExt_flavor. cbv zeta.
  repeat match goal with
         | |- keepsPattern _ (if ?b then _ else _) => destruct b
         end; try apply keepsPattern_refl; apply keepsPattern_close.
Qed.

Lemma keepsPattern_analyzeExt (from : Z) (p : Parser) : keepsPattern p (analyzeExt from p).
Proof.
  unfold analyzeExt. cbv zeta.
  repeat match goal with
         | |- keepsPattern _ (if ?b then _ else _) => destruct b
         end; try apply keepsPattern_refl; try apply keepsPattern_flavor;
    (eapply keepsPattern_trans; [|apply keepsPattern_analyzeExtPattern]);
    destruct (_ =? 2); reflexivity.
Qed.

Lemma keepsPattern_exception (p : Parser) : keepsPattern p (snd (analyzeNet_exception p)).
Proof.
  unfold analyzeNet_exception. cbv zeta.
  repeat match goal with
         | |- keepsPattern _ (snd (if ?b then _ else _)) => destruct b
         end; cbn [snd]; try reflexivity.
  apply keepsPattern_trans with
    (if aget (slices p) (Span.i (leftSpaceSpan p) + 2) >? 2
     then splitSlot (Span.i (leftSpaceSpan p)) 2
            (set_exceptionSpan (Span.set_i (Span.l (leftSpaceSpan p)) (exceptionSpan p)) p)
     else set_exceptionSpan (Span.set_i (Span.l (leftSpaceSpan p)) (exceptionSpan p)) p);
    [|reflexivity].
  destruct (_ >? 2); reflexivity.
Qed.

Lemma keepsPattern_optionsAnchor (i ob : Z) (p : Parser) :
  keepsPattern p (analyzeNet_optionsAnchor i ob p).
Proof.
  unfold analyzeNet_optionsAnchor. cbv zeta.
  match goal with |- keepsPattern _ (let '(_, _) := ?x in _) =>
    assert (F : keepsPattern p (snd x)); [|destruct x as [i' q]; cbn [snd] in F] end.
  { destruct (_ >? 1); [|apply keepsPattern_refl].
    destruct (_ =? i); cbn [snd]; [|apply keepsPattern_splitSlot].
    destruct (interactive _); reflexivity. }
  eapply keepsPattern_trans; [exact F|]. reflexivity.
Qed.

Lemma keepsPattern_options (islice : Z) (p : Parser) :
  keepsPattern p (snd (analyzeNet_options islice p)).
Proof.
  rewrite analyzeNet_options_blocks. unfold analyzeNet_optionsBlocks. cbv zeta.
  assert (F : keepsPattern p (analyzeNet_assumePattern islice p)) by reflexivity.
  set (q := analyzeNet_assumePattern islice p) in *. clearbody q.
  match goal with |- keepsPattern _ (snd (let '(_, _) := ?x in _)) =>
    assert (G : keepsPattern q (snd x)); [|destruct x as [re q']; cbn [snd] in *] end.
  { destruct (negb _); [|apply keepsPattern_refl].
    destruct (findOptionsAnchor _ _ _ _ _) as [i ob].
    destruct (i >=? islice); cbn [snd]; [|apply keepsPattern_refl].
    apply keepsPattern_optionsAnchor. }
  apply keepsPattern_trans with q; [exact F|]. apply keepsPattern_trans with q'; [exact G|].
  destruct re; [apply keepsPattern_orFlavor|apply keepsPattern_refl].
Qed.

Lemma keepsPattern_leftAnchor (p : Parser) : keepsPattern p (analyzeNet_leftAnchor p).
Proof. unfold analyzeNet_leftAnchor. repeat pattern_step. Qed.

Lemma keepsPattern_rightAnchor (p : Parser) : keepsPattern p (analyzeNet_rightAnchor p).
Proof. unfold analyzeNet_rightAnchor. repeat pattern_step. Qed.

Lemma keepsPattern_anchors (b : bool) (p : Parser) : keepsPattern p (analyzeNet_anchors b p).
Proof.
  unfold analyzeNet_anchors. destruct (negb b).
  - eapply keepsPattern_trans; [|apply keepsPattern_rightAnchor].
    eapply keepsPattern_trans; [|apply keepsPattern_leftAnchor]. reflexivity.
  - reflexivity.
Qed.

Lemma keepsPattern_leadingWildcard (p : Parser) : keepsPattern p (analyzeNet_leadingWildcard p).
Proof. unfold analyzeNet_leadingWildcard. repeat pattern_step. Qed.

Lemma keepsPattern_trailingWildcard (p : Parser) : keepsPattern p (analyzeNet_trailingWildcard p).
Proof. unfold analyzeNet_trailingWildcard. repeat pattern_step. Qed.

Lemma keepsPattern_pointlessAnchors (p : Parser) : keepsPattern p (analyzeNet_pointlessAnchors p).
Proof. unfold analyzeNet_pointlessAnchors. repeat pattern_step. Qed.

Lemma keepsPattern_wildcards (p : Parser) : keepsPattern p (analyzeNet_wildcards p).
Proof.
  unfold analyzeNet_wildcards.
  eapply keepsPattern_trans; [|apply keepsPattern_pointlessAnchors].
  eapply keepsPattern_trans; [|apply keepsPattern_trailingWildcard].
  apply keepsPattern_leadingWildcard.
Qed.

(** Without a slice of whitespace in the pattern, the block for the spaces
    extracts no pattern. *)
Lemma keepsPattern_spaces (p : Parser) :
  anchorsLayout true p -> hasBits (allBits p) BITSpace = false ->
  keepsPattern p (analyzeNet_spaces p).
Proof.
  intros (NB & NL & _) NS.
  destruct (netLayout_bounds true p NB NL) as (B1 & B2 & B3).
  unfold netLayout in NL. cbv zeta in NL.
  destruct NL as (_ & _ & _ & _ & N5 & N6 & N7 & _).
  unfold analyzeNet_spaces. cbv zeta.
  pose proof (findLastSpace_spec (slices p) (Span.i (patternSpan p))
                (Z.to_nat (Span.l (patternSpan p))) (Span.l (patternSpan p)) (patternBits p)
                N6 N7 ltac:(lia)) as SP. cbv zeta in SP.
  destruct (findLastSpace _ _ _ _ _) as [j pb]. cbn [fst] in SP.
  destruct SP as (J0 & J1 & [->|(J2 & J3)]); [reflexivity|exfalso].
  assert (M : (Span.i (patternSpan p) + j) mod 3 = 0)
    by (clear - N5 J1; Z.div_mod_to_equations; lia).
  assert (A : hasBits (allBits p) BITSpace = true).
  { apply (slot_bits_in_allBits p (Span.i (patternSpan p) + j) BITSpace NB);
      [lia|exact M|lia|reflexivity|exact J3]. }
  congruence.
Qed.

Lemma allBits_anchors_stage (p : Parser) :
  allBits (analyzeNet_anchors
             (fst (analyzeNet_options (fst (analyzeNet_exception p))
                     (snd (analyzeNet_exception p))))
             (snd (analyzeNet_options (fst (analyzeNet_exception p))
                     (snd (analyzeNet_exception p)))))
  = allBits p.
Proof.
  pose proof (frame_analyzeNet_exception p) as F1.
  pose proof (frame_analyzeNet_options (fst (analyzeNet_exception p))
                (snd (analyzeNet_exception p))) as F2.
  pose proof (frame_analyzeNet_anchors
                (fst (analyzeNet_options (fst (analyzeNet_exception p))
                        (snd (analyzeNet_exception p))))
                (snd (analyzeNet_options (fst (analyzeNet_exception p))
                        (snd (analyzeNet_exception p))))) as F3.
  destruct F1 as (_ & _ & A1 & _). destruct F2 as (_ & _ & A2 & _).
  destruct F3 as (_ & _ & A3 & _). congruence.
Qed.

Lemma keepsPattern_analyzeNet (p : Parser) :
  netEntry p -> hasBits (allBits p) BITSpace = false -> keepsPattern p (analyzeNet p).
Proof.
  intros N NS. destruct (analyzeNet_stages p N) as (q & AL & _ & -> & Q).
  assert (AB : allBits q = allBits p) by (rewrite Q; apply allBits_anchors_stage).
  eapply keepsPattern_trans; [|apply keepsPattern_set_category].
  eapply keepsPattern_trans; [|apply keepsPattern_wildcards].
  eapply keepsPattern_trans; [|apply keepsPattern_spaces; [exact AL|now rewrite AB]].
  rewrite Q.
  eapply keepsPattern_trans; [|apply keepsPattern_anchors].
  eapply keepsPattern_trans; [|apply keepsPattern_options].
  apply keepsPattern_exception.
Qed.

Lemma keepsPattern_findInlineComment (fuel : nat) (h : Z) (p : Parser) :
  keepsPattern p (findInlineComment fuel h p).
Proof.
  revert h. induction fuel as [|n IH]; intros h; cbn [findInlineComment];
    destruct (hasBits _ BITSpace); try reflexivity; destruct (_ =? -1); try reflexivity.
  apply IH.
Qed.

Lemma keepsPattern_analyze_head (raw_ : list Z) (p : Parser) :
  keepsPattern (slice raw_ p) (flowState (analyze_head raw_ p)).
Proof.
  unfold analyze_head. set (q := slice raw_ p).
  repeat match goal with
         | |- keepsPattern _ (flowState (if ?b then _ else _)) => destruct b eqn:?
         | |- keepsPattern _ (flowState (Return _)) => cbn [flowState]
         | |- keepsPattern _ (flowState (ToAnalyzeNet _)) => cbn [flowState]
         end;
  try apply keepsPattern_refl;
  try apply keepsPattern_analyzeExt;
  try (eapply keepsPattern_trans; [|apply keepsPattern_findInlineComment]);
  try (eapply keepsPattern_trans; [|apply keepsPattern_set_category]);
  try (eapply keepsPattern_trans; [|apply keepsPattern_analyzeExt]);
  try (eapply keepsPattern_trans; [|apply keepsPattern_set_commentSpan]);
  try apply keepsPattern_refl; try apply keepsPattern_analyzeExt;
  (destruct (hasBits _ BITHash); [apply keepsPattern_analyzeExt|apply keepsPattern_refl]).
Qed.

(** The cache is empty after [analyze], unless the line is a network filter
    with whitespace in it. *)
Lemma pattern_analyze (raw_ : list Z) (p : Parser) :
  (category (analyze raw_ p) = CATStaticNetFilter -> hasBits (bitsOf raw_) BITSpace = false) ->
  pattern (analyze raw_ p) = [].
Proof.
  intros H. destruct (slice_resets raw_ p) as (_ & _ & _ & _ & P0 & _).
  pose proof (keepsPattern_analyze_head raw_ p) as K.
  pose proof (analyze_head_spec raw_ p p (sameHost_refl p)) as X.
  pose proof (frame_analyze_head raw_ p) as F.
  pose proof (allBits_analyze raw_ p) as AB.
  pose proof (frame_analyze raw_ p) as (_ & _ & FA & _).
  unfold analyze in *. destruct (analyze_head raw_ p) as [r|q];
    cbn [headResult flowState] in *.
  - unfold keepsPattern in K. congruence.
  - destruct F as (_ & _ & F & _).
    rewrite (keepsPattern_analyzeNet q).
    + unfold keepsPattern in K. congruence.
    + apply X.
    + rewrite F, <- FA, AB. apply H. apply category_analyzeNet.
Qed.

Lemma hasBits_space_char (c : Z) : hasBits (charBits c) BITSpace = isSpaceChar c.
Proof.
  rewrite isSpaceChar_class. destruct (hasBits (charBits c) BITSpace) eqn:H.
  - rewrite (hasBits_space_class c H). reflexivity.
  - symmetry. apply Z.eqb_neq. intros E. rewrite E in H. discriminate H.
Qed.

Lemma hasBits_bitsOf_space (s : list Z) :
  hasBits (bitsOf s) BITSpace = existsb isSpaceChar s.
Proof.
  induction s as [|c s IH]; [reflexivity|].
  cbn [bitsOf fold_right existsb]. rewrite hasBits_lor. fold (bitsOf s).
  now rewrite IH, hasBits_space_char.
Qed.

Lemma removelast_firstn_succ (n : nat) (s : list Z) :
  (S n <= length s)%nat -> removelast (firstn (S n) s) = firstn n s.
Proof.
  revert s. induction n as [|n IH]; intros [|x s] L; cbn [length] in L; try lia.
  - destruct s; reflexivity.
  - destruct s as [|y s]; [cbn [length] in L; lia|].
    change (firstn (S (S n)) (x :: y :: s)) with (x :: firstn (S n) (y :: s)).
    change (firstn (S n) (x :: y :: s)) with (x :: firstn n (y :: s)).
    rewrite <- (IH (y :: s)) by (cbn [length] in *; lia).
    change (firstn (S n) (y :: s)) with (y :: firstn n s). reflexivity.
Qed.

Lemma tl_skipn (n : nat) (s : list Z) : tl (skipn n s) = skipn (S n) s.
Proof.
  revert s. induction n as [|n IH]; intros [|x s]; try reflexivity.
  change (skipn (S n) (x :: s)) with (skipn n s).
  change (skipn (S (S n)) (x :: s)) with (skipn (S n) s). apply IH.
Qed.

(** The text between two indices without its first and last character. *)
Lemma js_slice_inner (s : list Z) (a b : Z) :
  0 <= a -> a < b -> b <= Z.of_nat (length s) ->
  js_slice s (a + 1) (b - 1) = removelast (tl (js_slice s a b)).
Proof.
  intros A B C. rewrite (js_slice_range s a b) by lia.
  destruct (Z.eq_dec b (a + 1)) as [->|N].
  - replace (a + 1 - a) with 1 by lia. replace (a + 1 - 1) with a by lia.
    unfold js_slice. cbv zeta.
    destruct (Z.ltb_spec (a + 1) 0); [lia|]. destruct (Z.ltb_spec a 0); [lia|].
    rewrite !Z.min_l by lia. replace (Z.to_nat (a - (a + 1))) with 0%nat by lia.
    destruct (skipn (Z.to_nat a) s) as [|x [|y t]]; reflexivity.
  - rewrite (js_slice_range s (a + 1) (b - 1)) by lia.
    replace (Z.to_nat (b - a)) with (S (S (Z.to_nat (b - 1 - (a + 1))))) by lia.
    replace (Z.to_nat (a + 1)) with (S (Z.to_nat a)) by lia.
    rewrite <- tl_skipn.
    assert (L : (S (S (Z.to_nat (b - 1 - (a + 1)))) <= length (skipn (Z.to_nat a) s))%nat)
      by (rewrite length_skipn; lia).
    destruct (skipn (Z.to_nat a) s) as [|x t]; [cbn [length] in L; lia|].
    cbn [tl length] in *.
    change (firstn (S (S (Z.to_nat (b - 1 - (a + 1))))) (x :: t))
      with (x :: firstn (S (Z.to_nat (b - 1 - (a + 1)))) t).
    cbn [tl]. rewrite removelast_firstn_succ by lia. reflexivity.
Qed.

(** X21. For a network filter on a line without whitespace, [getNetPattern]
    returns the text of the pattern span; when the pattern is a regex, it
    returns that text without its first and its last character (the two
    slashes). *)
Theorem net_pattern_is_the_span_text (raw_ : list Z) (p : Parser) :
  category (analyze raw_ p) = CATStaticNetFilter ->
  existsb isSpaceChar raw_ = false ->
  fst (getNetPattern (analyze raw_ p))
  = if patternIsRegex (analyze raw_ p)
    then removelast (tl (strFromSpan (patternSpan (analyze raw_ p)) (analyze raw_ p)))
    else strFromSpan (patternSpan (analyze raw_ p)) (analyze raw_ p).
Proof.
  intros C NS.
  assert (P0 : pattern (analyze raw_ p) = [])
    by (apply pattern_analyze; intros _; now rewrite hasBits_bitsOf_space).
  destruct (net_pattern_facts raw_ p C) as (OK & I0 & I1 & L0 & L1 & W & _ & RW).
  set (q := analyze raw_ p) in *. clearbody q.
  assert (M : (Span.i (patternSpan q) + Span.l (patternSpan q)) mod 3 = 0)
    by (clear - I1 L1; Z.div_mod_to_equations; lia).
  rewrite (strFromSpan_text q (patternSpan q) OK I0 I1 L0 M W).
  destruct (origin_le q (Span.i (patternSpan q)) (Span.i (patternSpan q) + Span.l (patternSpan q))
              OK I0 I1 M ltac:(lia) W) as (O1 & O2 & O3).
  unfold getNetPattern. rewrite P0. cbv zeta. unfold patternIsRegex, slotOrigin in *.
  change (negb (flavorBits q .& BITFlavorNetRegex =? 0))
    with (hasBits (flavorBits q) BITFlavorNetRegex).
  destruct (Z.eqb_spec (Span.l (patternSpan q)) 0) as [E|E].
  - cbn [fst]. rewrite E, Z.add_0_r in *. rewrite js_slice_range by lia.
    rewrite Z.sub_diag. now destruct (hasBits _ _).
  - destruct (hasBits (flavorBits q) BITFlavorNetRegex); cbn [fst]; [|reflexivity].
    assert (L3 : 3 <= Span.l (patternSpan q))
      by (clear - L0 L1 E; Z.div_mod_to_equations; lia).
    pose proof OK as (_ & _ & _ & _ & _ & SO).
    destruct (SO (Span.i (patternSpan q)) I0 I1 ltac:(lia)) as (S1 & _ & S3 & _).
    destruct (origin_le q (Span.i (patternSpan q) + 3)
                (Span.i (patternSpan q) + Span.l (patternSpan q))
                OK ltac:(lia) (slot_next _ I1) M ltac:(lia) W) as (_ & O4 & _).
    unfold slotOrigin, slotLength in *.
    apply js_slice_inner; lia.
Qed.

Lemma net_pattern_is_the_span_text_witness :
  fst (getNetPattern (analyze (codes "@@/ad[0-9]+/$image") (newParser false (fun _ => None) (fun _ _ => true))))
  = if patternIsRegex (analyze (codes "@@/ad[0-9]+/$image") (newParser false (fun _ => None) (fun _ _ => true)))
    then removelast (tl (strFromSpan
           (patternSpan (analyze (codes "@@/ad[0-9]+/$image") (newParser false (fun _ => None) (fun _ _ => true))))
           (analyze (codes "@@/ad[0-9]+/$image") (newParser false (fun _ => None) (fun _ _ => true)))))
    else strFromSpan
           (patternSpan (analyze (codes "@@/ad[0-9]+/$image") (newParser false (fun _ => None) (fun _ _ => true))))
           (analyze (codes "@@/ad[0-9]+/$image") (newParser false (fun _ => None) (fun _ _ => true))).
Proof.
  apply (net_pattern_is_the_span_text (codes "@@/ad[0-9]+/$image")
           (newParser false (fun _ => None) (fun _ _ => true)));
    vm_compute; reflexivity.
Defined.

(** X22. For an extended filter, [getPattern] returns the text of the
    pattern span, with or without whitespace in the line. *)
Theorem ext_pattern_is_the_span_text (raw_ : list Z) (p : Parser) :
  category (analyze raw_ p) = CATStaticExtFilter ->
  fst (getPattern (analyze raw_ p))
  = strFromSpan (patternSpan (analyze raw_ p)) (analyze raw_ p).
Proof.
  intros C.
  assert (P0 : pattern (analyze raw_ p) = [])
    by (apply pattern_analyze; intros C'; rewrite C' in C; discriminate C).
  pose proof (analyze_ext_order raw_ p C) as O.
  pose proof (analyze_spec raw_ p p (sameHost_refl p)) as (_ & A).
  pose proof (analyzed_ext _ A C) as (OK & SL & I0 & L0 & E & _).
  set (q := analyze raw_ p) in *. clearbody q.
  destruct (rightSpace_position q OK SL) as (R1 & R2).
  unfold extOrder in O. cbv zeta in O.
  destruct O as (_ & _ & _ & _ & _ & O6 & _ & O8).
  assert (M : (Span.i (patternSpan q) + Span.l (patternSpan q)) mod 3 = 0)
    by (rewrite O6; exact R1).
  rewrite (strFromSpan_text q (patternSpan q) OK I0 O8 L0 M ltac:(lia)).
  unfold getPattern. rewrite P0. cbv zeta. unfold slotOrigin.
  destruct (Z.eqb_spec (Span.l (patternSpan q)) 0) as [Z0|N]; cbn [fst]; [|reflexivity].
  rewrite Z0, Z.add_0_r in *.
  destruct (origin_le q (Span.i (patternSpan q)) (Span.i (patternSpan q)) OK I0 O8 O8
              ltac:(lia) ltac:(lia)) as (O1 & _ & O3).
  unfold slotOrigin in *. rewrite js_slice_range by lia. now rewrite Z.sub_diag.
Qed.

Lemma ext_pattern_is_the_span_text_witness :
  fst (getPattern (analyze (codes " a.com,b.com##.ad > div ") (newParser false (fun _ => None) (fun _ _ => true))))
  = strFromSpan
      (patternSpan (analyze (codes " a.com,b.com##.ad > div ") (newParser false (fun _ => None) (fun _ _ => true))))
      (analyze (codes " a.com,b.com##.ad > div ") (newParser false (fun _ => None) (fun _ _ => true))).
Proof.
  apply (ext_pattern_is_the_span_text (codes " a.com,b.com##.ad > div ")
           (newParser false (fun _ => None) (fun _ _ => true))).
  vm_compute. reflexivity.
Defined.
